(** * Layout engine of the whiteboard: a shallow embedding

    This development embeds in Rocq the document-to-canvas layout engine of
    the repository:

    - [src/app/utils/markdown.ts]   the document walker ([traverse]) and the
      LaTeX text segmenter;
    - [utils/table.ts] (src/unnamed/part_000)   [convertHtmlTableToMarkdown]
      and [createVisualTableElements];
    - [utils/mermaid.ts] (src/unnamed/part_001) [preprocessMermaidCode];
    - [src/app/utils/diagrams.ts]   [processMermaidCode], and the helpers
      [cleanMermaidCode], [filterThinkTags], [createFallbackMermaid] and
      [convertJSONtoMermaidMindmap];
    - [utils/text.ts] (src/unnamed/part_002)   [formatTextWithLineBreaks]
      and [extractSpecialContent];
    - [src/app/constants/whiteboard.ts]   [getGroqApiKeys];
    - [src/app/services/aiService.ts]   the rotation of the API keys
      ([executeWithRetry]), for a run alone and for the runs that share the
      service, and the two methods that check their answer;
    - [src/app/store/whiteboardStore.ts]   the state and its actions.

    Conventions of the embedding.

    - A JavaScript string is a [string]: a sequence of code units, here the
      8-bit ones of [ascii].  Regular expressions are embedded one by one as
      anchored matchers (what the expression matches when it is tried at the
      head of the remaining input), driven by one generic left-to-right
      iteration that plays the role of [lastIndex].
    - A JavaScript number is a rational ([Q]) or, where the source only ever
      holds integers, an integer ([Z]); arithmetic is exact, where the
      source computes in double precision.  The constants 0.6, 0.8, 1.2 and
      1.25 are the rationals of these decimals.  A number of the embedding
      can differ from the double of the source in its last digits, and by
      one where the source takes the floor of it; the statements on
      numbers are bounds, orders, and sums written as the source
      accumulates them.
    - The service of the chat requests is one object that the runs of
      [executeWithRetry] share.  A run is embedded alone, as a loop, and
      among other runs, as the steps it makes between two [await], which
      the runs may take in any order.
    - The walker mutates one cursor, [currentY]; it is threaded explicitly:
      every handler takes the cursor and returns the emitted primitives with
      the new cursor.
    - The typesetting engine, the diagram parser and the host canvas are
      outside the repository; they are the fields of a [Host] record.  The
      chat service is a function of the number of the call and of the key
      in use, the diagram parser of the store a function of the
      definition.
    - Random identifiers, seeds and time stamps of the primitives are left
      out; each primitive keeps the fixed prefix of its identifier. *)

From Stdlib Require Import List String Ascii Bool Arith ZArith QArith Qround Qminmax Lia Lqa.
From Stdlib Require Import DecimalString Sorted.
From Stdlib Require DecimalNat.
Import ListNotations.

Close Scope Q_scope.
Open Scope list_scope.
Open Scope string_scope.
Open Scope nat_scope.

(** ** JavaScript strings *)

Module Js.

Definition LF : ascii := ascii_of_nat 10.
Definition CR : ascii := ascii_of_nat 13.
Definition TAB : ascii := ascii_of_nat 9.
Definition DQ : ascii := ascii_of_nat 34.
Definition SQ : ascii := ascii_of_nat 39.
Definition BACKSLASH : ascii := ascii_of_nat 92.

Definition str (c : ascii) : string := String c "".

(** White space of [String.prototype.trim] and of the class [\s]
    (within the 8-bit code units): TAB, LF, VT, FF, CR, SP, NBSP. *)
Definition isWhiteSpace (c : ascii) : bool :=
  let n := nat_of_ascii c in
  ((9 <=? n) && (n <=? 13)) || (n =? 32) || (n =? 160).

(** Line terminators, which [.] does not match. *)
Definition isLineTerminator (c : ascii) : bool :=
  let n := nat_of_ascii c in (n =? 10) || (n =? 13).

Definition isDigit (c : ascii) : bool :=
  let n := nat_of_ascii c in (48 <=? n) && (n <=? 57).

Definition isUpper (c : ascii) : bool :=
  let n := nat_of_ascii c in (65 <=? n) && (n <=? 90).

Definition isLower (c : ascii) : bool :=
  let n := nat_of_ascii c in (97 <=? n) && (n <=? 122).

Definition isAlnum (c : ascii) : bool := isDigit c || isUpper c || isLower c.

(** The class [\w]. *)
Definition isWord (c : ascii) : bool := isAlnum c || Ascii.eqb c "_".

Definition toLower (c : ascii) : ascii :=
  if isUpper c then ascii_of_nat (nat_of_ascii c + 32) else c.

Definition isEmpty (s : string) : bool :=
  match s with "" => true | _ => false end.

(** The class of the characters other than [c]. *)
Definition isNot (c : ascii) : ascii -> bool :=
  fun x => negb (Ascii.eqb x c).

(** Truthiness of a string: non-empty. *)
Definition truthy (s : string) : bool := negb (isEmpty s).

Fixpoint startsWith (p s : string) : bool :=
  match p, s with
  | "", _ => true
  | String a p', String b s' => Ascii.eqb a b && startsWith p' s'
  | String _ _, "" => false
  end.

(** [startsWith] under the flag [i]. *)
Fixpoint startsWithCI (p s : string) : bool :=
  match p, s with
  | "", _ => true
  | String a p', String b s' =>
      Ascii.eqb (toLower a) (toLower b) && startsWithCI p' s'
  | String _ _, "" => false
  end.

Fixpoint drop (n : nat) (s : string) : string :=
  match n, s with
  | O, _ => s
  | S n', String _ s' => drop n' s'
  | S _, "" => ""
  end.

Fixpoint take (n : nat) (s : string) : string :=
  match n, s with
  | O, _ => ""
  | S n', String c s' => String c (take n' s')
  | S _, "" => ""
  end.

Fixpoint rev_append (s acc : string) : string :=
  match s with
  | "" => acc
  | String c s' => rev_append s' (String c acc)
  end.

Definition rev (s : string) : string := rev_append s "".

Definition endsWith (p s : string) : bool := startsWith (rev p) (rev s).

Fixpoint includes (p s : string) : bool :=
  startsWith p s ||
  match s with
  | "" => false
  | String _ s' => includes p s'
  end.

(** [s.slice(a, -b)] for non-negative [a] and [b]. *)
Definition sliceFromTo (a b : nat) (s : string) : string :=
  take (String.length s - b - a) (drop a s).

Fixpoint trimStart (s : string) : string :=
  match s with
  | "" => ""
  | String c s' => if isWhiteSpace c then trimStart s' else s
  end.

Fixpoint trimEnd (s : string) : string :=
  match s with
  | "" => ""
  | String c s' =>
      let r := trimEnd s' in
      if isWhiteSpace c && isEmpty r then "" else String c r
  end.

Definition trim (s : string) : string := trimEnd (trimStart s).

(** [s.split(c)] for a one-character separator: never the empty list. *)
Fixpoint split (sep : ascii) (s : string) : list string :=
  match s with
  | "" => [""]
  | String c s' =>
      if Ascii.eqb c sep then "" :: split sep s'
      else match split sep s' with
           | [] => [str c]
           | w :: ws => String c w :: ws
           end
  end.

Fixpoint join (sep : string) (l : list string) : string :=
  match l with
  | [] => ""
  | [w] => w
  | w :: ws => w ++ sep ++ join sep ws
  end.

Definition concat (l : list string) : string := join "" l.

Fixpoint all (p : ascii -> bool) (s : string) : bool :=
  match s with
  | "" => true
  | String c s' => p c && all p s'
  end.

(** The longest prefix of characters satisfying [p], and the rest. *)
Fixpoint span (p : ascii -> bool) (s : string) : string * string :=
  match s with
  | "" => ("", "")
  | String c s' =>
      if p c then let (a, b) := span p s' in (String c a, b)
      else ("", s)
  end.

End Js.

(** ** Global iteration of a regular expression

    [r.exec] in a loop, [s.replace(r, f)] with the flag [g]: the expression
    is tried at every position from left to right; after a match the scan
    resumes at the end of the match.  A matcher receives the character that
    precedes the position (for the anchor [^] under the flag [m]) and the
    rest of the input, and returns its result with the length of the match,
    never zero for the expressions of this repository. *)

Module Regex.

Section Scan.
Context {M : Type}.

Definition matcher := option ascii -> string -> option (M * nat).

Inductive piece :=
| Lit (c : ascii)
| Hit (offset : nat) (len : nat) (m : M).

(** [skip] counts the characters still covered by the last match. *)
Fixpoint scan (mt : matcher) (skip offset : nat) (prev : option ascii)
         (s : string) : list piece :=
  match s with
  | "" => []
  | String c s' =>
      match skip with
      | S k => scan mt k (S offset) (Some c) s'
      | O =>
          match mt prev s with
          | Some (m, len) =>
              Hit offset len m :: scan mt (Nat.pred len) (S offset) (Some c) s'
          | None => Lit c :: scan mt 0 (S offset) (Some c) s'
          end
      end
  end.

Definition pieces (mt : matcher) (s : string) : list piece :=
  scan mt 0 0 None s.

(** [s.replace(r, f)]: every match is replaced by [f offset m]. *)
Fixpoint rebuild (f : nat -> M -> string) (ps : list piece) : string :=
  match ps with
  | [] => ""
  | Lit c :: ps' => String c (rebuild f ps')
  | Hit off _ m :: ps' => f off m ++ rebuild f ps'
  end.

Definition replace (mt : matcher) (f : nat -> M -> string) (s : string) : string :=
  rebuild f (pieces mt s).

(** The first match, as [s.match(r)] without the flag [g] returns it. *)
Fixpoint first (ps : list piece) : option M :=
  match ps with
  | [] => None
  | Lit _ :: ps' => first ps'
  | Hit _ _ m :: _ => Some m
  end.

Definition test (mt : matcher) (s : string) : bool :=
  match first (pieces mt s) with Some _ => true | None => false end.

End Scan.

Arguments piece : clear implicits.
Arguments matcher : clear implicits.

(** A literal pattern, replaced by a fixed string: [s.replace(/lit/g, by)]. *)
Definition literal (lit : string) : matcher unit :=
  fun _ s => if Js.startsWith lit s then Some (tt, String.length lit) else None.

Definition replaceLiteral (lit by_ : string) (s : string) : string :=
  replace (literal lit) (fun _ _ => by_) s.

(** Lazy capture [([\s\S]*?)] (or [(.*?)] when [dot] rejects line
    terminators) followed by a closing pattern recognised by [close],
    which returns the length it matched.  Returns the capture and the
    length of capture plus closing pattern. *)
Fixpoint lazyUntil (ok : ascii -> bool) (close : string -> option nat)
         (s : string) : option (string * nat) :=
  match close s with
  | Some n => Some ("", n)
  | None =>
      match s with
      | "" => None
      | String c s' =>
          if ok c then
            match lazyUntil ok close s' with
            | Some (cap, n) => Some (String c cap, S n)
            | None => None
            end
          else None
      end
  end.




(** The matches of a global iteration, in order ([exec] in a loop). *)
Fixpoint hits {M : Type} (ps : list (piece M)) : list M :=
  match ps with
  | [] => []
  | Lit _ :: ps' => hits ps'
  | Hit _ _ m :: ps' => m :: hits ps'
  end.

(** [s.split(r)]: the text between the matches. *)
Fixpoint splitPieces {M : Type} (ps : list (piece M)) : list string :=
  match ps with
  | [] => [""]
  | Lit c :: ps' =>
      match splitPieces ps' with
      | [] => [Js.str c]
      | w :: ws => String c w :: ws
      end
  | Hit _ _ _ :: ps' => "" :: splitPieces ps'
  end.

(** [/<[^>]*>/g]: a tag, from [<] to the next [>]. *)
Definition tag : matcher unit :=
  fun _ s =>
    match s with
    | String "<" s' =>
        let (inner, rest) := Js.span (fun c => negb (Ascii.eqb c ">")) s' in
        match rest with
        | String ">" _ => Some (tt, 2 + String.length inner)
        | _ => None
        end
    | _ => None
    end.

Definition stripTags (s : string) : string := replace tag (fun _ _ => "") s.

(** [/\s+/g]. *)
Definition whiteSpaces : matcher unit :=
  fun _ s =>
    match Js.span Js.isWhiteSpace s with
    | ("", _) => None
    | (ws, _) => Some (tt, String.length ws)
    end.

End Regex.

(** ** Visual primitives *)

Inductive ElementType := text | image | line | rectangle.

Definition ElementType_eqb (a b : ElementType) : bool :=
  match a, b with
  | text, text | image, image | line, line | rectangle, rectangle => true
  | _, _ => false
  end.

(** The fields of a primitive that the layout engine decides.  [idPrefix]
    is the fixed part of the identifier, before the random suffix. *)
Record Primitive := mkPrimitive {
  type : ElementType;
  idPrefix : string;
  x : Q;
  y : Q;
  width : Q;
  height : Q;
  content : string;          (* the field [text] of a text primitive *)
  fontSize : Q;
  strokeColor : string;
  backgroundColor : string
}.

(** ** utils/table.ts *)

Module Table.

Import Regex.

Definition anyChar (c : ascii) : bool := true.

(** The closing tag of a row, [<\/tr>] under the flag [i]. *)
Definition closeRow (s : string) : option nat :=
  if Js.startsWithCI "</tr>" s then Some 5 else None.

(** [/<tr>([\s\S]*?)<\/tr>/gi] *)
Definition rowRegex : matcher string :=
  fun _ s =>
    if Js.startsWithCI "<tr>" s then
      match lazyUntil anyChar closeRow (Js.drop 4 s) with
      | Some (cap, n) => Some (cap, 4 + n)
      | None => None
      end
    else None.

Definition closeCell (s : string) : option nat :=
  if Js.startsWithCI "</th>" s || Js.startsWithCI "</td>" s then Some 5 else None.

(** [/<(?:th|td)>([\s\S]*?)<\/(?:th|td)>/gi] *)
Definition cellRegex : matcher string :=
  fun _ s =>
    if Js.startsWithCI "<th>" s || Js.startsWithCI "<td>" s then
      match lazyUntil anyChar closeCell (Js.drop 4 s) with
      | Some (cap, n) => Some (cap, 4 + n)
      | None => None
      end
    else None.

(** The clean-up of one cell of an HTML table. *)
Definition decodeCell (cellMatch1 : string) : string :=
  let cellContent := Js.trim cellMatch1 in
  let cellContent := replaceLiteral "&nbsp;" " " cellContent in
  let cellContent := replaceLiteral "&amp;" "&" cellContent in
  let cellContent := replaceLiteral "&lt;" "<" cellContent in
  let cellContent := replaceLiteral "&gt;" ">" cellContent in
  let cellContent := replaceLiteral "&quot;" (Js.str Js.DQ) cellContent in
  let cellContent := replaceLiteral "&#39;" (Js.str Js.SQ) cellContent in
  let cellContent := replace whiteSpaces (fun _ _ => " ") cellContent in
  Js.trim cellContent.

(** The rows that the two nested [exec] loops collect: a row without a
    cell is not kept. *)
Definition htmlRows (htmlTableContent : string) : list (list string) :=
  filter (fun cells => negb (List.length cells =? 0))
    (map (fun rowContent => map decodeCell (hits (pieces cellRegex rowContent)))
         (hits (pieces rowRegex htmlTableContent))).

Definition markdownRow (row : list string) : string :=
  "| " ++ Js.join " | " row ++ " |".

(** [markdownRows.splice(1, 0, separator)] *)
Definition splice1 (l : list string) (sep : string) : list string :=
  match l with
  | [] => [sep]
  | r :: rest => r :: sep :: rest
  end.

Definition convertHtmlTableToMarkdown (htmlTableContent : string) : string :=
  let rows := htmlRows htmlTableContent in
  if List.length rows =? 0 then ""
  else
    let markdownRows := map markdownRow rows in
    let markdownRows :=
      if 2 <=? List.length rows then
        let separator :=
          "| " ++ Js.join " | " (map (fun _ => "---") (hd [] rows)) ++ " |" in
        splice1 markdownRows separator
      else markdownRows in
    Js.join (Js.str Js.LF) markdownRows.

(** *** createVisualTableElements: parsing the rows *)

Definition cleanCellContent (content : string) : string :=
  let content := stripTags content in
  let content := replaceLiteral "&lt;" "<" content in
  let content := replaceLiteral "&gt;" ">" content in
  let content := replaceLiteral "&quot;" (Js.str Js.DQ) content in
  let content := replaceLiteral "&#39;" (Js.str Js.SQ) content in
  let content := replaceLiteral "&amp;" "&" content in
  Js.trim content.

(** The non-blank lines of the trimmed markdown. *)
Definition tableLines (tableMarkdown : string) : list string :=
  filter (fun line => Js.truthy (Js.trim line))
         (Js.split Js.LF (Js.trim tableMarkdown)).

(** [a.slice(1, -1)] on an array. *)
Definition slice1m1 {A : Type} (l : list A) : list A :=
  removelast (tl l).

(** [/^-+$/.test(cell)] *)
Definition isDashes (cell : string) : bool :=
  Js.truthy cell && Js.all (fun c => Ascii.eqb c "-") cell.

(** [rows.splice(1, 1)] *)
Definition removeSecond {A : Type} (l : list A) : list A :=
  match l with
  | r0 :: _ :: rest => r0 :: rest
  | _ => l
  end.

(** [/\s{2,}|\t|,/], the separator of a plain-text row. *)
Definition plainSeparator : matcher unit :=
  fun _ s =>
    let (ws, _) := Js.span Js.isWhiteSpace s in
    if 2 <=? String.length ws then Some (tt, String.length ws)
    else match s with
         | String c _ =>
             if Ascii.eqb c Js.TAB || Ascii.eqb c "," then Some (tt, 1) else None
         | "" => None
         end.

Definition parseRows (tableMarkdown : string) : list (list string) :=
  let lines := tableLines tableMarkdown in
  if Js.includes "|" tableMarkdown then
    let rows :=
      map (fun line => map cleanCellContent (slice1m1 (Js.split "|" line))) lines in
    if (1 <? List.length rows) && forallb isDashes (nth 1 rows []) then removeSecond rows
    else rows
  else
    map (fun line =>
           map cleanCellContent
               (filter (fun cell => Js.truthy (Js.trim cell))
                       (splitPieces (pieces plainSeparator line))))
        lines.

(** *** createVisualTableElements: the geometry *)

(** [array.forEach((item, index) => ...)] collecting one result per item. *)
Fixpoint mapi {A B : Type} (f : nat -> A -> B) (index : nat) (l : list A) : list B :=
  match l with
  | [] => []
  | a :: l' => f index a :: mapi f (S index) l'
  end.

Definition lengthZ (s : string) : Z := Z.of_nat (String.length s).

(** The font size of a row: 20 for the header row, 16 below. *)
Definition fontSizeOf (rowIndex : nat) : Z :=
  if rowIndex =? 0 then 20%Z else 16%Z.

Definition maxCharsPerLine (maxWidth fontSize : Z) : Z :=
  let avgCharWidth := (inject_Z fontSize * (6 # 10))%Q in
  let margin := 20%Z in
  let availableWidth := (maxWidth - margin)%Z in
  Qfloor (inject_Z availableWidth / avgCharWidth).

(** One turn of the loop over the words; the state is [lines] and
    [currentLine]. *)
Definition wrapWord (maxChars : Z) (st : list string * string) (word : string)
  : list string * string :=
  let (lines, currentLine) := st in
  let testLine :=
    if Js.truthy currentLine then currentLine ++ " " ++ word else word in
  if (lengthZ testLine <=? maxChars)%Z then (lines, testLine)
  else if Js.truthy currentLine then ((lines ++ [currentLine])%list, word)
  else if (maxChars <? lengthZ word)%Z then
    ((lines ++ [Js.take (Z.to_nat maxChars) word])%list,
     Js.drop (Z.to_nat maxChars) word)
  else (lines, word).

Definition wrapText (text_ : string) (maxWidth fontSize : Z) : string :=
  if Js.isEmpty text_ then ""
  else
    let maxChars := maxCharsPerLine maxWidth fontSize in
    if (lengthZ text_ <=? maxChars)%Z then text_
    else
      let words := Js.split " " text_ in
      let (lines, currentLine) := fold_left (wrapWord maxChars) words ([], "") in
      let lines :=
        if Js.truthy currentLine then (lines ++ [currentLine])%list else lines in
      Js.join (Js.str Js.LF) lines.

Definition getTextWidth (text_ : string) (fontSize : Z) : Z :=
  if Js.isEmpty text_ then 150%Z
  else
    let avgCharWidth := (inject_Z fontSize * (8 # 10))%Q in
    let textWidth := (inject_Z (lengthZ text_) * avgCharWidth)%Q in
    let padding := Qmax 50 (textWidth * (6 # 10)) in
    Qceiling (textWidth + padding).

Definition maxColWidth : Z := 600.
Definition minColWidth : Z := 150.
Definition maxTotalWidth : Z := 1400.

Definition numCols (rows : list (list string)) : nat :=
  List.length (hd [] rows).

(** The inner loop of the width measurement: the guard
    [colIndex < numCols] stops at the end of [colWidths]. *)
Fixpoint widen (fontSize : Z) (colWidths : list Z) (row : list string) : list Z :=
  match colWidths, row with
  | w :: ws, cell :: cells =>
      Z.max w (getTextWidth cell fontSize) :: widen fontSize ws cells
  | _, _ => colWidths
  end.

Fixpoint measure (rowIndex : nat) (rows : list (list string)) (colWidths : list Z)
  : list Z :=
  match rows with
  | [] => colWidths
  | row :: rest => measure (S rowIndex) rest (widen (fontSizeOf rowIndex) colWidths row)
  end.

(** First pass: the limits of one column. *)
Definition clampWidth (w : Z) : Z := Z.max minColWidth (Z.min maxColWidth w).

Definition totalWidth (colWidths : list Z) : Z :=
  fold_left (fun sum w => (sum + w)%Z) colWidths 0%Z.

(** [Math.max(minColWidth, Math.floor(width * scaleFactor))] *)
Definition scaleWidth (scaleFactor : Q) (w : Z) : Z :=
  Z.max minColWidth (Qfloor (inject_Z w * scaleFactor)).

Definition scaleFactorOf (colWidths : list Z) : Q :=
  (inject_Z maxTotalWidth / inject_Z (totalWidth colWidths))%Q.

(** Second pass: the proportional scaling. *)
Definition scaleWidths (colWidths : list Z) : list Z :=
  let total := totalWidth colWidths in
  if (maxTotalWidth <? total)%Z then
    let scaleFactor := scaleFactorOf colWidths in
    map (scaleWidth scaleFactor) colWidths
  else colWidths.

Definition rawWidths (rows : list (list string)) : list Z :=
  measure 0 rows (repeat 0%Z (numCols rows)).

(** The widths after the first pass. *)
Definition clampedWidths (rows : list (list string)) : list Z :=
  map clampWidth (rawWidths rows).

Definition computeColWidths (rows : list (list string)) : list Z :=
  scaleWidths (clampedWidths rows).

Definition baseRowHeight : Q := 60.

Definition lineCountOf (wrappedText : string) : Z :=
  Z.of_nat (List.length (Js.split Js.LF wrappedText)).

Definition cellHeight (fontSize colWidth : Z) (cell : string) : Q :=
  let wrappedText := wrapText cell colWidth fontSize in
  let lineCount := lineCountOf wrappedText in
  let lineHeight := (inject_Z fontSize * (125 # 100))%Q in
  let contentHeight := (inject_Z lineCount * lineHeight + 20)%Q in
  Qmax baseRowHeight contentHeight.

Fixpoint rowHeightLoop (fontSize : Z) (colWidths : list Z) (row : list string)
         (maxRowHeight : Q) : Q :=
  match colWidths, row with
  | colWidth :: ws, cell :: cells =>
      rowHeightLoop fontSize ws cells
                    (Qmax maxRowHeight (cellHeight fontSize colWidth cell))
  | _, _ => maxRowHeight
  end.

Definition computeRowHeights (colWidths : list Z) (rows : list (list string)) : list Q :=
  mapi (fun rowIndex row =>
          rowHeightLoop (fontSizeOf rowIndex) colWidths row baseRowHeight)
       0 rows.

(** The cumulative vertical positions of the rows. *)
Fixpoint computeRowYPositions (cumulativeY : Q) (rowHeights : list Q) : list Q :=
  match rowHeights with
  | [] => []
  | h :: hs => cumulativeY :: computeRowYPositions (cumulativeY + h)%Q hs
  end.

Definition cellRectangle (rowIndex : nat) (x_ y_ : Q) (colWidth : Z) (rowHeight : Q)
  : Primitive :=
  {| type := rectangle; idPrefix := "table-cell";
     x := x_; y := y_; width := inject_Z colWidth; height := rowHeight;
     content := ""; fontSize := 0;
     strokeColor := "#1e1e1e";
     backgroundColor := if rowIndex =? 0 then "#f0f0f0" else "transparent" |}.

Definition cellText (rowIndex : nat) (x_ y_ : Q) (colWidth : Z) (rowHeight : Q)
           (cell : string) : Primitive :=
  let fontSize_ := fontSizeOf rowIndex in
  let wrappedText := wrapText cell colWidth fontSize_ in
  let lineCount := lineCountOf wrappedText in
  let textHeight := (inject_Z fontSize_ * (12 # 10) * inject_Z lineCount)%Q in
  {| type := text; idPrefix := "table-text";
     x := (x_ + inject_Z colWidth / 2)%Q;
     y := (y_ + rowHeight / 2)%Q;
     width := (inject_Z colWidth - 20)%Q; height := textHeight;
     content := wrappedText; fontSize := inject_Z fontSize_;
     strokeColor := "#1e1e1e"; backgroundColor := "transparent" |}.

(** The inner loop of the emission, over the cells of one row. *)
Fixpoint emitCells (rowIndex : nat) (y_ rowHeight currentX : Q)
         (colWidths : list Z) (row : list string) : list Primitive :=
  match colWidths, row with
  | colWidth :: ws, cell :: cells =>
      cellRectangle rowIndex currentX y_ colWidth rowHeight
      :: cellText rowIndex currentX y_ colWidth rowHeight cell
      :: emitCells rowIndex y_ rowHeight (currentX + inject_Z colWidth)%Q ws cells
  | _, _ => []
  end.

Definition emitRows (startX : Q) (colWidths : list Z) (rowHeights rowYPositions : list Q)
           (rows : list (list string)) : list Primitive :=
  List.concat
    (mapi (fun rowIndex row =>
             emitCells rowIndex (nth rowIndex rowYPositions 0%Q)
                       (nth rowIndex rowHeights 0%Q) startX colWidths row)
          0 rows).

Definition createVisualTableElements (tableMarkdown : string) (startX startY : Q)
  : list Primitive :=
  if List.length (tableLines tableMarkdown) <? 2 then []
  else
    let rows := parseRows tableMarkdown in
    if List.length rows =? 0 then []
    else
      let colWidths := computeColWidths rows in
      let rowHeights := computeRowHeights colWidths rows in
      let rowYPositions := computeRowYPositions startY rowHeights in
      emitRows startX colWidths rowHeights rowYPositions rows.

End Table.

(** ** utils/mermaid.ts: the bracket-quoting preprocessor *)

Module Mermaid.

Import Regex.

(** [/<br\s*\/?>/gi] *)
Definition lineBreakTag : matcher unit :=
  fun _ s =>
    if Js.startsWithCI "<br" s then
      let (ws, rest) := Js.span Js.isWhiteSpace (Js.drop 3 s) in
      match rest with
      | String "/" (String ">" _) => Some (tt, 3 + String.length ws + 2)
      | String ">" _ => Some (tt, 3 + String.length ws + 1)
      | _ => None
      end
    else None.

Definition escapeContent (content_ : string) : string :=
  let c := replaceLiteral "&" "&amp;" content_ in
  let c := replaceLiteral "<" "&lt;" c in
  let c := replaceLiteral ">" "&gt;" c in
  let c := replaceLiteral (Js.str Js.DQ) "&quot;" c in
  let c := replaceLiteral (Js.str Js.SQ) "&#39;" c in
  Js.trim c.

Definition isAlreadyQuoted (content_ : string) : bool :=
  let trimmed := Js.trim content_ in
  (Js.startsWith (Js.str Js.DQ) trimmed && Js.endsWith (Js.str Js.DQ) trimmed)
  || (Js.startsWith (Js.str Js.SQ) trimmed && Js.endsWith (Js.str Js.SQ) trimmed).

Definition isQuoteChar (c : ascii) : bool :=
  Ascii.eqb c Js.DQ || Ascii.eqb c Js.SQ.

Definition notBackslash (prev : option ascii) : bool :=
  match prev with
  | None => true                                  (* i === 0 *)
  | Some p => negb (Ascii.eqb p Js.BACKSLASH)
  end.

(** The loop of [isInsideQuotes]: [position] characters are still to be
    read, [prev] is [text[i - 1]], the state is [insideQuotes] and
    [quoteChar]. *)
Fixpoint quoteScan (position : nat) (prev : option ascii) (insideQuotes : bool)
         (quoteChar : option ascii) (text_ : string) : bool :=
  match position, text_ with
  | O, _ => insideQuotes
  | S _, "" => insideQuotes
  | S p, String char rest =>
      if isQuoteChar char && notBackslash prev then
        if negb insideQuotes then quoteScan p (Some char) true (Some char) rest
        else
          match quoteChar with
          | Some q =>
              if Ascii.eqb char q then quoteScan p (Some char) false None rest
              else quoteScan p (Some char) insideQuotes quoteChar rest
          | None => quoteScan p (Some char) insideQuotes quoteChar rest
          end
      else quoteScan p (Some char) insideQuotes quoteChar rest
  end.

Definition isInsideQuotes (text_ : string) (position : nat) : bool :=
  quoteScan position None false None text_.

(** [/\[([^\]]+)\]/g] and its three siblings: an opening character, one
    or more characters other than the closing one, the closing character.
    The capture is the inside. *)
Definition bracketed (open close : ascii) : matcher string :=
  fun _ s =>
    match s with
    | String c s' =>
        if Ascii.eqb c open then
          let (inner, rest) := Js.span (Js.isNot close) s' in
          match inner, rest with
          | "", _ => None
          | _, "" => None
          | _, String _ _ => Some (inner, 2 + String.length inner)
          end
        else None
    | "" => None
    end.

Definition wrap (open close : ascii) (inner : string) : string :=
  String open (inner ++ Js.str close).

Definition quoted (open close : ascii) (content_ : string) : string :=
  wrap open close (String Js.DQ (escapeContent content_ ++ Js.str Js.DQ)).

(** The replacement of square brackets, of curly braces and of edge
    labels. *)
Definition quoteCallback (open close : ascii) (processedLine : string)
           (offset : nat) (content_ : string) : string :=
  if isInsideQuotes processedLine offset then wrap open close content_
  else if isAlreadyQuoted content_ then wrap open close content_
  else quoted open close content_.

(** [/^[\w\s\-_.,]+$/.test(content)] *)
Definition isSimpleChar (c : ascii) : bool :=
  Js.isWord c || Js.isWhiteSpace c || Ascii.eqb c "-" || Ascii.eqb c "_"
  || Ascii.eqb c "." || Ascii.eqb c ",".

Definition isSimple (content_ : string) : bool :=
  Js.truthy content_ && Js.all isSimpleChar content_.

(** The replacement of parentheses. *)
Definition parenCallback (processedLine : string) (offset : nat) (content_ : string)
  : string :=
  if isInsideQuotes processedLine offset then wrap "(" ")" content_
  else if isAlreadyQuoted content_ then wrap "(" ")" content_
  else if isSimple content_
          && negb (Js.includes (Js.str Js.DQ) content_)
          && negb (Js.includes (Js.str Js.SQ) content_)
       then quoted "(" ")" content_
       else wrap "(" ")" content_.

Definition quoteSquare (processedLine : string) : string :=
  replace (bracketed "[" "]") (quoteCallback "[" "]" processedLine) processedLine.

Definition quoteParen (processedLine : string) : string :=
  replace (bracketed "(" ")") (parenCallback processedLine) processedLine.

Definition quoteCurly (processedLine : string) : string :=
  replace (bracketed "{" "}") (quoteCallback "{" "}" processedLine) processedLine.

Definition quoteEdgeLabel (processedLine : string) : string :=
  replace (bracketed "|" "|") (quoteCallback "|" "|" processedLine) processedLine.

Definition processLine (line_ : string) : string :=
  quoteEdgeLabel (quoteCurly (quoteParen (quoteSquare line_))).

Definition preprocessMermaidCode (mermaidCode : string) : string :=
  let processed := replace lineBreakTag (fun _ _ => Js.str Js.LF) mermaidCode in
  let lines := Js.split Js.LF processed in
  Js.join (Js.str Js.LF) (map processLine lines).

End Mermaid.

(** ** src/app/utils/diagrams.ts: processMermaidCode *)

Module Diagrams.

Import Regex.

Definition fence : string := "```".

Definition closeFence (s : string) : option nat :=
  if Js.startsWith fence s then Some 3 else None.

(** What the capture of the fenced block is once trimmed: everything
    between the opening and the next fence, trimmed.  The two [\s*] of the
    expression only move white space out of the capture, which is trimmed
    by the caller anyway. *)
Definition fencedBody (s : string) : option (string * nat) :=
  match lazyUntil (fun _ => true) closeFence s with
  | Some (cap, n) => Some (Js.trim cap, n)
  | None => None
  end.

(** [/```(?:mermaid)?\s*([\s\S]*?)\s*```/], the capture trimmed. *)
Definition fencedBlock : matcher string :=
  fun _ s =>
    if Js.startsWith fence s then
      let s1 := Js.drop 3 s in
      let withWord :=
        if Js.startsWith "mermaid" s1 then
          match fencedBody (Js.drop 7 s1) with
          | Some (b, n) => Some (b, 10 + n)
          | None => None
          end
        else None in
      match withWord with
      | Some r => Some r
      | None =>
          match fencedBody s1 with
          | Some (b, n) => Some (b, 3 + n)
          | None => None
          end
      end
    else None.

(** The expression of step 2: an opening brace, any characters other
    than a closing brace (captured), a closing brace; flag [g]. *)
Definition curly : matcher string :=
  fun _ s =>
    match s with
    | String "{" s' =>
        let (inner, rest) := Js.span (fun c => negb (Ascii.eqb c "}")) s' in
        match rest with
        | String _ _ => Some (inner, 2 + String.length inner)
        | "" => None
        end
    | _ => None
    end.

Definition isLabelChar (c : ascii) : bool :=
  negb (Ascii.eqb c "]" || Ascii.eqb c Js.DQ || Ascii.eqb c Js.SQ).

(** The expression of step 3: an opening bracket, one or more characters
    that are neither a closing bracket nor a quote (double or single), a
    closing bracket; flag [g].  The capture here is the inside of the
    brackets, [match.slice(1, -1)]. *)
Definition unquotedLabel : matcher string :=
  fun _ s =>
    match s with
    | String "[" s' =>
        let (inner, rest) := Js.span isLabelChar s' in
        match inner, rest with
        | "", _ => None
        | _, String "]" _ => Some (inner, 2 + String.length inner)
        | _, _ => None
        end
    | _ => None
    end.

Definition atLineStart (prev : option ascii) : bool :=
  match prev with
  | None => true
  | Some p => Js.isLineTerminator p
  end.

Definition isIdChar (c : ascii) : bool :=
  negb (Js.isWhiteSpace c || Ascii.eqb c "[" || Ascii.eqb c "]").

(** [/^([^\s\[\]]+)\[/gm] *)
Definition leadingId : matcher string :=
  fun prev s =>
    if atLineStart prev then
      let (id_, rest) := Js.span isIdChar s in
      match id_, rest with
      | "", _ => None
      | _, String "[" _ => Some (id_, String.length id_ + 1)
      | _, _ => None
      end
    else None.

Fixpoint mapChars (f : ascii -> ascii) (s : string) : string :=
  match s with
  | "" => ""
  | String c s' => String (f c) (mapChars f s')
  end.

(** Every character of the identifier outside [A-Za-z0-9_] becomes an
    underscore. *)
Definition safeIdOf (id_ : string) : string :=
  mapChars (fun c => if Js.isWord c then c else "_"%char) id_.

(** The expression of step 5: an opening bracket, a double quote, any
    characters other than a double quote (captured), a double quote, a
    closing bracket; flag [g]. *)
Definition quotedLabel : matcher string :=
  fun _ s =>
    match s with
    | String "[" (String q s') =>
        if Ascii.eqb q Js.DQ then
          let (label, rest) := Js.span (fun c => negb (Ascii.eqb c Js.DQ)) s' in
          match rest with
          | String _ (String "]" _) => Some (label, 4 + String.length label)
          | _ => None
          end
        else None
    | _ => None
    end.

Definition safeLabelOf (label : string) : string :=
  let l := replaceLiteral "&" "&amp;" label in
  let l := replaceLiteral "<" "&lt;" l in
  let l := replaceLiteral ">" "&gt;" l in
  replaceLiteral (Js.str Js.DQ) "&quot;" l.

Definition diagramTypes : list string :=
  ["flowchart"; "graph"; "sequenceDiagram"; "classDiagram"; "erDiagram";
   "gantt"; "journey"].

(** [/^(flowchart|graph|sequenceDiagram|classDiagram|erDiagram|gantt|journey)/m] *)
Definition validStart : matcher unit :=
  fun prev s =>
    if atLineStart prev then
      match find (fun k => Js.startsWith k s) diagramTypes with
      | Some k => Some (tt, String.length k)
      | None => None
      end
    else None.

(** The filter of step 7: [seen] is the set of the trimmed lines met so
    far. *)
Fixpoint dropDuplicates (seen : list string) (lines : list string) : list string :=
  match lines with
  | [] => []
  | line_ :: rest =>
      let trimmed := Js.trim line_ in
      if existsb (String.eqb trimmed) seen then dropDuplicates seen rest
      else line_ :: dropDuplicates (trimmed :: seen) rest
  end.

Definition MAX_LINES : nat := 200.
Definition MAX_CHARS : nat := 5000.

(** Steps 1 to 7: the code on which the safety limits are checked. *)
Definition normalized (input : string) : string :=
  let code :=
    match first (pieces fencedBlock input) with
    | Some body => body
    | None => Js.trim input
    end in
  let code := replace curly (fun _ inner => "[" ++ inner ++ "]") code in
  let code :=
    replace unquotedLabel
            (fun _ inner => "[" ++ String Js.DQ (Js.trim inner ++ String Js.DQ "]"))
            code in
  let code := replace leadingId (fun _ id_ => safeIdOf id_ ++ "[") code in
  let code :=
    replace quotedLabel
            (fun _ label => "[" ++ String Js.DQ (safeLabelOf label ++ String Js.DQ "]"))
            code in
  let code := if test validStart code then code
              else "flowchart TD" ++ String Js.LF code in
  Js.join (Js.str Js.LF) (dropDuplicates [] (Js.split Js.LF code)).

Definition tooLarge (code : string) : bool :=
  (MAX_LINES <? List.length (Js.split Js.LF code)) || (MAX_CHARS <? String.length code).

(** The outcome of a call: a returned string, or a thrown [Error] with
    its message. *)
Inductive Outcome :=
| Returned (code : string)
| Thrown (message : string).

Definition isThrown (o : Outcome) : bool :=
  match o with Thrown _ => true | Returned _ => false end.

Definition processMermaidCode (input : string) : Outcome :=
  let code := normalized input in
  if tooLarge code then Thrown "Mermaid diagram too large or complex."
  else Returned (Js.trim code).

End Diagrams.

(** ** src/app/utils/markdown.ts: the document walker *)

Module Markdown.

Import Regex.

(** *** The collaborators outside the repository *)

(** What the walker reads of an element returned by the diagram
    converter: its position and its height, each possibly absent. *)
Record DiagramElement := mkDiagramElement {
  dx : option Q;
  dy : option Q;
  dheight : option Q;
  dlabel : string
}.

Record Host := mkHost {
  (** The typesetting engine behind [convertLatexToImage]: the data URL of
      the rendered equation, [None] when the engine is missing, throws or
      yields no SVG. *)
  typeset : string -> option string;
  (** [excalidrawAPI.addFiles]: [false] when the call throws. *)
  addFiles : string -> bool;
  (** [parseMermaid] followed by [graphToExcalidraw]: the elements of the
      diagram, or the message of the error thrown by one of the two. *)
  mermaidToExcalidraw : string -> string + list DiagramElement
}.

(** [convertLatexToImage] catches every failure and returns the empty
    string. *)
Definition convertLatexToImage (h : Host) (latexCode : string) : string :=
  match typeset h latexCode with
  | Some svgDataUrl => svgDataUrl
  | None => ""
  end.

(** What the walker emits: its own primitives, and the elements of a
    diagram with their rewritten position. *)
Inductive Element :=
| Own (p : Primitive)
| Diagram (element : DiagramElement) (x_ y_ : Q).

(** *** The document tree *)

Record ListInfo := mkListInfo {
  ordered : bool;
  start : option Z
}.

Scheme All for list.

(** The nodes of the tree, by type.  [Parent] stands for every other type
    that has children (blockquote, strong, emphasis, link, ...),
    [Literal] for every other type that has a value (inlineCode, code,
    ...), [Leaf] for the types with neither.  The rows of a table are the
    lists of their cells.  [parent] is the property of that name on a
    list item, when the tokenizer set it. *)
Inductive Node :=
| Heading (depth : Z) (children : list Node)
| Paragraph (children : list Node)
| Html (value : string)
| Table (rows : list (list Node))
| ThematicBreak
| List_ (children : list Node)
| ListItem (parent : option ListInfo) (children : list Node)
| Text (value : string)
| Parent (children : list Node)
| Literal (value : string)
| Leaf.

Fixpoint getText (node : Node) : string :=
  let all := fun children => Js.concat (map getText children) in
  match node with
  | Html value | Text value | Literal value => value
  | Heading _ children | Paragraph children | List_ children
  | ListItem _ children | Parent children => all children
  | Table rows => Js.concat (map (fun row => Js.concat (map getText row)) rows)
  | ThematicBreak | Leaf => ""
  end.

Fixpoint collectAllText (node : Node) : string :=
  let all := fun children => Js.concat (map collectAllText children) in
  match node with
  | Text value => value
  | Heading _ children | Paragraph children | List_ children
  | ListItem _ children | Parent children => all children
  | Table rows =>
      Js.concat (map (fun row => Js.concat (map collectAllText row)) rows)
  | Html _ | Literal _ | ThematicBreak | Leaf => ""
  end.

(** *** The text segmenter *)

Inductive PartType := textPart | latexPart.

Record Part := mkPart {
  partType : PartType;
  partContent : string
}.

Definition closeLatex (s : string) : option nat :=
  if Js.startsWith "</latex>" s then Some 8 else None.

Definition notLineTerminator (c : ascii) : bool := negb (Js.isLineTerminator c).

(** [/<latex>(.*?)<\/latex>/g] *)
Definition latexRegex : matcher string :=
  fun _ s =>
    if Js.startsWith "<latex>" s then
      match lazyUntil notLineTerminator closeLatex (Js.drop 7 s) with
      | Some (cap, n) => Some (cap, 7 + n)
      | None => None
      end
    else None.

(** A slice of text is pushed only when it is not empty. *)
Definition textSlice (s : string) : list Part :=
  if Js.truthy s then [mkPart textPart s] else [].

(** The [exec] loop and the remaining text; [pending] is
    [textContent.slice(lastIndex, position)]. *)
Fixpoint partsOf (pending : string) (ps : list (piece string)) : list Part :=
  match ps with
  | [] => textSlice pending
  | Lit c :: ps' => partsOf (pending ++ Js.str c) ps'
  | Hit _ _ match1 :: ps' =>
      (textSlice pending ++ mkPart latexPart (Js.trim match1) :: partsOf "" ps')%list
  end.

Definition latexParts (textContent : string) : list Part :=
  partsOf "" (pieces latexRegex textContent).

(** *** The primitives of the walker *)

Definition textElement (idPrefix_ : string) (x_ y_ width_ height_ : Q)
           (text_ : string) (fontSize_ : Q) (strokeColor_ : string) : Element :=
  Own {| type := text; idPrefix := idPrefix_; x := x_; y := y_;
         width := width_; height := height_; content := text_;
         fontSize := fontSize_; strokeColor := strokeColor_;
         backgroundColor := "transparent" |}.

Definition imageElement (idPrefix_ : string) (x_ y_ width_ height_ : Q) : Element :=
  Own {| type := image; idPrefix := idPrefix_; x := x_; y := y_;
         width := width_; height := height_; content := "";
         fontSize := 0; strokeColor := "transparent";
         backgroundColor := "transparent" |}.

Definition lineElement (x_ y_ : Q) : Element :=
  Own {| type := line; idPrefix := "line"; x := x_; y := y_;
         width := 300; height := 0; content := "";
         fontSize := 0; strokeColor := "#000000";
         backgroundColor := "transparent" |}.

(** [Math.max(...l)] and [Math.min(...l)] of a non-empty array (the
    source guards both calls by a test of the length). *)
Definition maxOf (l : list Q) : Q :=
  match l with
  | [] => 0
  | a :: r => fold_left Qmax r a
  end.

Definition minOf (l : list Q) : Q :=
  match l with
  | [] => 0
  | a :: r => fold_left Qmin r a
  end.

(** [a || d] on an optional number: absent and zero both give [d]. *)
Definition orElse (a : option Q) (d : Q) : Q :=
  match a with
  | Some v => if Qeq_bool v 0 then d else v
  | None => d
  end.

Definition showNumber (n : Z) : string :=
  NilEmpty.string_of_int (Z.to_int n).

Section Walker.

Variable host : Host.
Variable startX : Q.
Variable tableBlocks : list string.

Definition indent (depth : nat) : Q := (startX + inject_Z (Z.of_nat depth) * 20)%Q.

(** One equation of a paragraph. *)
Definition inlineLatex (depth : nat) (latexCode : string) (currentY : Q)
  : list Element * Q :=
  let imageDataUrl := convertLatexToImage host latexCode in
  if Js.truthy imageDataUrl then
    let img := imageElement "latex-inline" (indent depth) currentY 200 40 in
    if addFiles host imageDataUrl then ([img], (currentY + 50)%Q)
    else
      ([img;
        textElement "latex-inline-error" (indent depth) currentY 200 20
                    ("LaTeX Error: " ++ latexCode) 14 "#ff0000"],
       (currentY + 25)%Q)
  else
    ([textElement "latex-inline-error" (indent depth) currentY 200 20
                  ("LaTeX: " ++ latexCode) 14 "#ff6b35"],
     (currentY + 25)%Q).

(** One part of a text child of a paragraph: an equation, or a slice of
    text, which is drawn unless it is blank. *)
Definition inlinePart (depth : nat) (part : Part) (currentY : Q)
  : list Element * Q :=
  match partType part with
  | latexPart => inlineLatex depth (partContent part) currentY
  | textPart =>
      if Js.truthy (Js.trim (partContent part)) then
        ([textElement "text" (indent depth) currentY 400 20
                      (partContent part) 14 "#000000"],
         (currentY + 25)%Q)
      else ([], currentY)
  end.

(** The loop over the parts of one text child of a paragraph. *)
Fixpoint inlineParts (depth : nat) (parts : list Part) (currentY : Q)
  : list Element * Q :=
  match parts with
  | [] => ([], currentY)
  | part :: rest =>
      let (els, y1) := inlinePart depth part currentY in
      let (els', y2) := inlineParts depth rest y1 in
      ((els ++ els')%list, y2)
  end.

(** [processTextWithLatex]: the same scan of the text, then either the
    whole text as one primitive (no equation found) or one primitive per
    part; the result is the elements and [newY]. *)
Definition blockPart (depth : nat) (part : Part) (y_ : Q) : list Element * Q :=
  match partType part with
  | latexPart =>
      let imageDataUrl := convertLatexToImage host (partContent part) in
      if Js.truthy imageDataUrl then
        let img := imageElement "latex" (indent depth) y_ 300 50 in
        if addFiles host imageDataUrl then ([img], (y_ + 60)%Q)
        else
          ([img;
            textElement "latex-error" (indent depth) y_ 300 25
                        ("LaTeX Error: " ++ partContent part) 14 "#ff0000"],
           (y_ + 30)%Q)
      else
        ([textElement "latex-error" (indent depth) y_ 300 25
                      ("LaTeX: " ++ partContent part) 14 "#ff6b35"],
         (y_ + 30)%Q)
  | textPart =>
      if Js.truthy (Js.trim (partContent part)) then
        ([textElement "text" (indent depth) y_ 400 25 (partContent part) 14 "#000000"],
         (y_ + 30)%Q)
      else ([], y_)
  end.

Fixpoint blockParts (depth : nat) (parts : list Part) (y_ : Q) : list Element * Q :=
  match parts with
  | [] => ([], y_)
  | part :: rest =>
      let (els, y1) := blockPart depth part y_ in
      let (els', y2) := blockParts depth rest y1 in
      ((els ++ els')%list, y2)
  end.

Definition processTextWithLatex (textContent : string) (depth : nat) (currentY : Q)
  : list Element * Q :=
  let parts := latexParts textContent in
  match parts with
  | [] | [{| partType := textPart |}] =>
      if Js.truthy (Js.trim textContent) then
        ([textElement "text" (indent depth) currentY 400 30 textContent 14 "#000000"],
         (currentY + 30)%Q)
      else ([], currentY)
  | _ => blockParts depth parts currentY
  end.

(** The placement of a diagram and the height it occupies. *)
Definition place (offsetX offsetY : Q) (element : DiagramElement) : Element :=
  Diagram element (orElse (dx element) 0 + offsetX)%Q (orElse (dy element) 0 + offsetY)%Q.

Definition elementBottom (e : Element) : Q :=
  match e with
  | Diagram element _ y_ => (orElse (Some y_) 0 + orElse (dheight element) 20)%Q
  | Own p => (orElse (Some (y p)) 0 + orElse (Some (height p)) 20)%Q
  end.

Definition raiseTo (maxY : Q) (e : Element) : Q :=
  let bottom := elementBottom e in
  if Qle_bool bottom maxY then maxY else bottom.

(** The handling of a diagram: the body of the first branch of the
    dispatch on an html node, which the third branch repeats. *)
Definition mermaidBranch (depth : nat) (htmlContent : string) (currentY : Q)
  : list Element * Q :=
  let mermaidCode := Js.trim (Js.sliceFromTo 9 10 htmlContent) in
  let processedMermaidCode := Mermaid.preprocessMermaidCode mermaidCode in
  match mermaidToExcalidraw host processedMermaidCode with
  | inr elements =>
      let offsetX := indent depth in
      let offsetY := currentY in
      if 0 <? List.length elements then
        let positionedElements := map (place offsetX offsetY) elements in
        let maxY := fold_left raiseTo positionedElements currentY in
        (positionedElements, (maxY + 50)%Q)
      else
        ([textElement "mermaid-empty" (indent depth) currentY 400 30
                      "Mermaid diagram (no elements generated)" 16 "#007acc"],
         (currentY + 50)%Q)
  | inl message =>
      ([textElement "mermaid-error" (indent depth) currentY 400 30
                    ("Error rendering mermaid: " ++ message) 16 "#ff0000"],
       (currentY + 50)%Q)
  end.

Definition latexBranch (depth : nat) (htmlContent : string) (currentY : Q)
  : list Element * Q :=
  let latexCode := Js.trim (Js.sliceFromTo 7 8 htmlContent) in
  let imageDataUrl := convertLatexToImage host latexCode in
  if Js.truthy imageDataUrl then
    let img := imageElement "latex" (indent depth) currentY 400 60 in
    if addFiles host imageDataUrl then ([img], (currentY + 80)%Q)
    else
      ([img;
        textElement "latex-error" (indent depth) currentY 400 30
                    ("LaTeX Error: " ++ latexCode) 16 "#ff0000"],
       (currentY + 50)%Q)
  else
    ([textElement "latex-error" (indent depth) currentY 400 30
                  ("LaTeX: " ++ latexCode) 16 "#ff6b35"],
     (currentY + 50)%Q).

(** The advance of the cursor after a table. *)
Definition tableAdvance (tableElements : list Primitive) : Q :=
  let textElements := filter (fun el => ElementType_eqb (type el) text) tableElements in
  let rectangleElements :=
    filter (fun el => ElementType_eqb (type el) rectangle) tableElements in
  if (0 <? List.length textElements) && (0 <? List.length rectangleElements) then
    let maxY := maxOf (map (fun el => (y el + height el)%Q) rectangleElements) in
    let minY := minOf (map y rectangleElements) in
    let tableHeight := (maxY - minY)%Q in
    (tableHeight + 30)%Q
  else 200%Q.

(** The conversion of an HTML table and its drawing, shared by the last
    table branch of the html dispatch and by the table-block marker. *)
Definition htmlTable (errorId : string) (depth : nat) (htmlTableContent : string)
           (currentY : Q) : list Element * Q :=
  let tableMarkdown := Table.convertHtmlTableToMarkdown htmlTableContent in
  if Js.truthy (Js.trim tableMarkdown) then
    let tableElements :=
      Table.createVisualTableElements tableMarkdown (indent depth) currentY in
    (map Own tableElements, (currentY + tableAdvance tableElements)%Q)
  else
    ([textElement errorId (indent depth) currentY 400 30
                  "Error: Could not parse HTML table" 14 "#ff0000"],
     (currentY + 50)%Q).

Definition plainHtml (depth : nat) (htmlContent : string) (currentY : Q)
  : list Element * Q :=
  let cleanText := Js.trim (stripTags htmlContent) in
  if Js.truthy cleanText then
    ([textElement "html-text" (indent depth) currentY 400 30 cleanText 14 "#000000"],
     (currentY + 30)%Q)
  else ([], currentY).

(** The branch taken on an html node, in the order of the [if] chain. *)
Inductive HtmlCase :=
| MermaidWrapper        (* first branch *)
| LatexWrapper          (* second branch *)
| TableAsMermaid        (* third branch: the table test, the diagram body *)
| HtmlTable             (* fourth branch: the table test again *)
| OtherHtml.            (* last branch *)

Definition hasTable (htmlContent : string) : bool :=
  Js.includes "<table>" htmlContent && Js.includes "</table>" htmlContent.

Definition htmlCase (htmlContent : string) : HtmlCase :=
  if Js.startsWith "<mermaid>" htmlContent && Js.endsWith "</mermaid>" htmlContent
  then MermaidWrapper
  else if Js.startsWith "<latex>" htmlContent && Js.endsWith "</latex>" htmlContent
  then LatexWrapper
  else if hasTable htmlContent then TableAsMermaid
  else if hasTable htmlContent then HtmlTable
  else OtherHtml.

Definition isHtmlTable (c : HtmlCase) : bool :=
  match c with HtmlTable => true | _ => false end.

Definition htmlBranch (depth : nat) (htmlContent : string) (currentY : Q)
  : list Element * Q :=
  match htmlCase htmlContent with
  | MermaidWrapper => mermaidBranch depth htmlContent currentY
  | LatexWrapper => latexBranch depth htmlContent currentY
  | TableAsMermaid => mermaidBranch depth htmlContent currentY
  | HtmlTable => htmlTable "html-table-error" depth htmlContent currentY
  | OtherHtml => plainHtml depth htmlContent currentY
  end.

(** The loop over the children of a paragraph; the state is
    [paragraphElements], [hasSpecialContent] and the cursor.  On an html
    child the loop calls [traverse(child, depth)], which runs the html
    branch. *)
Fixpoint paragraphLoop (depth : nat) (children : list Node)
         (paragraphElements : list Element) (hasSpecialContent : bool)
         (currentY : Q) : list Element * bool * Q :=
  match children with
  | [] => (paragraphElements, hasSpecialContent, currentY)
  | child :: rest =>
      match child with
      | Html value =>
          let (childElements, y1) := htmlBranch depth value currentY in
          paragraphLoop depth rest (paragraphElements ++ childElements)%list true y1
      | Text value =>
          let parts := latexParts value in
          let (els, y1) := inlineParts depth parts currentY in
          paragraphLoop depth rest (paragraphElements ++ els)%list
                        (hasSpecialContent || (0 <? List.length parts)) y1
      | _ => paragraphLoop depth rest paragraphElements hasSpecialContent currentY
      end
  end.

Definition paragraphBranch (depth : nat) (node : Node) (children : list Node)
           (currentY : Q) : list Element * Q :=
  match paragraphLoop depth children [] false currentY with
  | (paragraphElements, hasSpecialContent, y1) =>
      if hasSpecialContent then (paragraphElements, y1)
      else
        let fullText := collectAllText node in
        if Js.truthy (Js.trim fullText) then
          ([textElement "paragraph" (indent depth) y1 400 30 fullText 14 "#000000"],
           (y1 + 30)%Q)
        else ([], y1)
  end.

Definition headingBranch (depth : nat) (node : Node) (level : Z) (currentY : Q)
  : list Element * Q :=
  let fontSize_ := inject_Z (Z.max 12 (20 - level * 2)) in
  let text_ := getText node in
  ([textElement "heading" (indent depth) currentY 200 (fontSize_ + 10)%Q
                text_ fontSize_ "#000000"],
   (currentY + (fontSize_ + 20))%Q).

Definition tableBranch (depth : nat) (rows : list (list Node)) (currentY : Q)
  : list Element * Q :=
  let tableRows := map (fun row => map getText row) rows in
  let tableMarkdown :=
    Js.join (Js.str Js.LF)
            (map (fun row => "| " ++ Js.join " | " row ++ " |") tableRows) in
  let tableElements :=
    Table.createVisualTableElements tableMarkdown (indent depth) currentY in
  (map Own tableElements, (currentY + tableAdvance tableElements)%Q).

Definition listItemBranch (depth : nat) (node : Node) (parent : option ListInfo)
           (currentY : Q) : list Element * Q :=
  let text_ := getText node in
  let bullet :=
    match parent with
    | Some p =>
        if ordered p then
          showNumber (match start p with
                      | Some n => if (n =? 0)%Z then 1%Z else n
                      | None => 1%Z
                      end) ++ ". "
        else "- "
    | None => "- "
    end in
  ([textElement "listitem" (indent depth) currentY 350 30 (bullet ++ text_) 14 "#000000"],
   (currentY + 30)%Q).

(** [/TABLE_BLOCK_(\d+)/]: the capture is the run of digits. *)
Definition tableMarker : matcher string :=
  fun _ s =>
    if Js.startsWith "TABLE_BLOCK_" s then
      match Js.span Js.isDigit (Js.drop 12 s) with
      | ("", _) => None
      | (digits, _) => Some (digits, 12 + String.length digits)
      end
    else None.

(** [parseInt] of a run of decimal digits. *)
Fixpoint parseDigits (acc : nat) (digits : string) : nat :=
  match digits with
  | "" => acc
  | String c rest => parseDigits (10 * acc + (nat_of_ascii c - 48)) rest
  end.

Definition parseInt (digits : string) : nat := parseDigits 0 digits.

(** [text.match(...)]: the capture of the first match, if any. *)
Definition tableMatch (text_ : string) : option string :=
  first (pieces tableMarker text_).

Definition textBranch (depth : nat) (value : string) (currentY : Q)
  : list Element * Q :=
  match tableMatch value with
  | Some tableMatch1 =>
      let blockIndex := parseInt tableMatch1 in
      if blockIndex <? List.length tableBlocks then
        htmlTable "table-error" depth (nth blockIndex tableBlocks "") currentY
      else ([], currentY)
  | None =>
      ([textElement "text" (indent depth) currentY 300 30 value 14 "#000000"],
       (currentY + 30)%Q)
  end.

(** [traverse]: the emitted elements and the cursor after the node.  The
    children of a node are walked, one level deeper, only for the types
    outside the list of the final test: lists and [Parent] nodes. *)
Fixpoint traverse (node : Node) (depth : nat) (currentY : Q) {struct node}
  : list Element * Q :=
  let walk :=
    fix walk (children : list Node) (currentY : Q) : list Element * Q :=
      match children with
      | [] => ([], currentY)
      | child :: rest =>
          let (childElements, y1) := traverse child (S depth) currentY in
          let (restElements, y2) := walk rest y1 in
          ((childElements ++ restElements)%list, y2)
      end in
  match node with
  | Heading level _ => headingBranch depth node level currentY
  | Paragraph children => paragraphBranch depth node children currentY
  | Html value => htmlBranch depth value currentY
  | Table rows => tableBranch depth rows currentY
  | ThematicBreak => ([lineElement (indent depth) (currentY + 10)%Q], (currentY + 30)%Q)
  | List_ children => walk children currentY
  | ListItem parent _ => listItemBranch depth node parent currentY
  | Text value => textBranch depth value currentY
  | Parent children => walk children currentY
  | Literal _ => ([], currentY)
  | Leaf => ([], currentY)
  end.

(** The loop of [convertMarkdownTreeToElements] over the top-level
    children: for each child, the cursor read when its processing starts
    and the elements it yields; and the final cursor. *)
Fixpoint topLevel (children : list Node) (currentY : Q)
  : list (Q * list Element) * Q :=
  match children with
  | [] => ([], currentY)
  | child :: rest =>
      let (childElements, y1) := traverse child 0 currentY in
      let (steps, y2) := topLevel rest y1 in
      ((currentY, childElements) :: steps, y2)
  end.

End Walker.

Definition convertMarkdownTreeToElements (host : Host) (tree : list Node)
           (startX startY : Q) (tableBlocks : list string) : list Element :=
  List.concat (map snd (fst (topLevel host startX tableBlocks tree startY))).

(** The values of [currentY] read at the start of each top-level child. *)
Definition cursorTrace (host : Host) (tree : list Node)
           (startX startY : Q) (tableBlocks : list string) : list Q :=
  map fst (fst (topLevel host startX tableBlocks tree startY)).

End Markdown.

(** ** Diagram sources on which the quoting is stable *)

Module Quoting.

Import Regex Mermaid.

(** The four kinds of brackets of the preprocessor. *)
Inductive Kind := Square | Round | Curly | Edge.

Definition opening (k : Kind) : ascii :=
  match k with Square => "[" | Round => "(" | Curly => "{" | Edge => "|" end.

Definition closing (k : Kind) : ascii :=
  match k with Square => "]" | Round => ")" | Curly => "}" | Edge => "|" end.

Definition isDelimiter (c : ascii) : bool :=
  Ascii.eqb c "[" || Ascii.eqb c "]" || Ascii.eqb c "(" || Ascii.eqb c ")"
  || Ascii.eqb c "{" || Ascii.eqb c "}" || Ascii.eqb c "|".

(** The only delimiters of the line are those of kind [k]. *)
Definition usesOnly (k : Kind) (line_ : string) : bool :=
  Js.all (fun c => negb (isDelimiter c)
                   || Ascii.eqb c (opening k) || Ascii.eqb c (closing k)) line_.

Definition oneKind (line_ : string) : bool :=
  existsb (fun k => usesOnly k line_) [Square; Round; Curly; Edge].

Definition calm (c : ascii) : bool :=
  negb (isQuoteChar c) && negb (Ascii.eqb c "<").

(** No quote character and no [<] in the source, and on each line
    brackets of one kind at most. *)
Definition tame (mermaidCode : string) : bool :=
  Js.all calm mermaidCode && forallb oneKind (Js.split Js.LF mermaidCode).

(** The global replacement of one kind of bracket by a function of the
    content alone, written directly on the text: [skip] characters are
    still covered by the last match. *)
Fixpoint rewriteWith (open close : ascii) (g : string -> string) (skip : nat)
         (s : string) : string :=
  match s with
  | "" => ""
  | String ch s' =>
      match skip with
      | S k => rewriteWith open close g k s'
      | O =>
          match bracketed open close None s with
          | Some (m, len) => g m ++ rewriteWith open close g (Nat.pred len) s'
          | None => String ch (rewriteWith open close g 0 s')
          end
      end
  end.

(** Every match of the global iteration has a content accepted by [P]. *)
Fixpoint allHits (open close : ascii) (P : string -> bool) (skip : nat)
         (s : string) : bool :=
  match s with
  | "" => true
  | String ch s' =>
      match skip with
      | S k => allHits open close P k s'
      | O =>
          match bracketed open close None s with
          | Some (m, len) => P m && allHits open close P (Nat.pred len) s'
          | None => allHits open close P 0 s'
          end
      end
  end.

(** What the first pass does to a match on a line without quotes: the
    content is quoted when [d] accepts it, left alone otherwise. *)
Definition quoteIf (open close : ascii) (d : string -> bool) (m : string) : string :=
  if d m then quoted open close m else wrap open close m.

(** The test of the parentheses: simple content without quotes. *)
Definition simpleContent (m : string) : bool :=
  isSimple m && negb (Js.includes (Js.str Js.DQ) m)
  && negb (Js.includes (Js.str Js.SQ) m).

(** The test applied to a match of kind [k]. *)
Definition decides (k : Kind) : string -> bool :=
  match k with
  | Round => simpleContent
  | _ => fun _ => true
  end.

(** The closing character is none of the characters that the quoting
    writes. *)
Definition foreign (c : ascii) : bool :=
  Js.all (Js.isNot c) (String Js.DQ "&amp;&lt;&gt;&quot;&#39;").

(** A content that a second run leaves alone: already quoted, or not
    accepted by the test of the pass. *)
Definition stableContent (d : string -> bool) (m : string) : bool :=
  isAlreadyQuoted m || negb (d m).

Definition nonQuote (c : ascii) : bool := negb (isQuoteChar c).

(** The characters that a pass writes: its two delimiters, the double
    quote and the characters of the entities. *)
Definition keeps (p : ascii -> bool) (k : Kind) : bool :=
  p (opening k) && p (closing k)
  && Js.all p (String Js.DQ "&amp;&lt;&gt;&quot;&#39;").

(** The pass of the preprocessor for the brackets of kind [k]. *)
Definition pass (k : Kind) (processedLine : string) : string :=
  match k with
  | Square => quoteSquare processedLine
  | Round => quoteParen processedLine
  | Curly => quoteCurly processedLine
  | Edge => quoteEdgeLabel processedLine
  end.

(** The callback of the pass of kind [k]. *)
Definition callback (k : Kind) (processedLine : string) (offset : nat) (m : string)
  : string :=
  match k with
  | Round => parenCallback processedLine offset m
  | _ => quoteCallback (opening k) (closing k) processedLine offset m
  end.

(** *** Lines made of text and of separate brackets *)















End Quoting.

(** ** Text blobs with equation markers *)

Module Markers.

Import Markdown.

(** A blob with [N] markers: [N] pairs of the text before a marker and
    the source between its tags, then the text after the last marker. *)
Fixpoint blob (marked : list (string * string)) (tail : string) : string :=
  match marked with
  | [] => tail
  | (before, equation) :: rest =>
      before ++ "<latex>" ++ equation ++ "</latex>" ++ blob rest tail
  end.

(** Plain text holds no opening tag. *)
Definition plainText (t : string) : bool := negb (Js.includes "<latex>" t).

(** The source of an equation holds no line terminator and no closing
    tag. *)
Definition equationSource (e : string) : bool :=
  Js.all notLineTerminator e && negb (Js.includes "</latex>" e).

Definition wellFormed (marked : list (string * string)) (tail : string) : bool :=
  forallb (fun te => plainText (fst te) && equationSource (snd te)) marked
  && plainText tail.

(** The segments in original order: each non-empty text, each equation
    trimmed. *)
Fixpoint expectedParts (marked : list (string * string)) (tail : string) : list Part :=
  match marked with
  | [] => textSlice tail
  | (before, equation) :: rest =>
      (textSlice before
       ++ mkPart latexPart (Js.trim equation) :: expectedParts rest tail)%list
  end.

(** The blob without its tags, each equation trimmed. *)
Fixpoint stripped (marked : list (string * string)) (tail : string) : string :=
  match marked with
  | [] => tail
  | (before, equation) :: rest => before ++ Js.trim equation ++ stripped rest tail
  end.

Definition isLatex (p : Part) : bool :=
  match partType p with latexPart => true | textPart => false end.

(** The [exec] loop of the segmenter written directly on the text:
    [skip] characters are still covered by the last match, [pending] is
    the text since the last match. *)
Fixpoint segment (skip : nat) (pending : string) (s : string) : list Part :=
  match s with
  | "" => textSlice pending
  | String c s' =>
      match skip with
      | S k => segment k pending s'
      | O =>
          match latexRegex None s with
          | Some (match1, len) =>
              (textSlice pending
               ++ mkPart latexPart (Js.trim match1) :: segment (Nat.pred len) "" s')%list
          | None => segment 0 (pending ++ Js.str c) s'
          end
      end
  end.

End Markers.

(** ** Inputs of the scenarios *)

Module Scenario.

Import Markdown.

(** A host whose typesetting engine always fails and whose diagram parser
    rejects every input. *)
Definition failingHost : Host :=
  {| typeset := fun _ => None;
     addFiles := fun _ => true;
     mermaidToExcalidraw := fun _ => inl "Parse error" |}.

Definition tableHtml : string :=
  "<table><tr><th>A</th><th>B</th></tr><tr><td>1</td><td>2</td></tr></table>".

Definition newline : string := Js.str Js.LF.

(** The sentence of the equation scenario, with the marker as the
    specification spells it and as the source spells it. *)
Definition equationSentence : string :=
  "Energy: <equation>E=mc^2</equation> is conserved.".

Definition latexSentence : string :=
  "Energy: <latex>E=mc^2</latex> is conserved.".

(** The texts that the specification expects for the equation scenario. *)
Definition claimedTexts : list string :=
  ["Energy: "; "LaTeX Error: E=mc^2"; " is conserved."].

Definition contentOf (e : Element) : string :=
  match e with
  | Own p => content p
  | Diagram d _ _ => dlabel d
  end.

Definition yOf (e : Element) : Q :=
  match e with
  | Own p => y p
  | Diagram _ _ y_ => y_
  end.

(** A paragraph of plain prose with a bold word: no html child, no
    equation marker. *)
Definition boldParagraph : Node :=
  Paragraph [Text "Hello "; Parent [Text "world"]].

Definition plainParagraph : Node := Paragraph [Text "Hello"].

(** A grid of two rows and ten columns, every cell the letter a, and its
    markdown. *)
Definition tenColumns : list (list string) := repeat (repeat "a" 10) 2.

Definition tenColumnsMarkdown : string :=
  Js.join newline (map Table.markdownRow tenColumns).

Definition twoByTwo : list (list string) := [["A"; "B"]; ["1"; "2"]].









(** A small flowchart: no quote, no tag, one kind of bracket per line. *)
Definition flowchartSource : string :=
  Js.join newline
    ["flowchart TD"; "A[Start & go] --> B[Stop]"; "C(round one) --> D(two)";
     "E{choice} --> F{other}"; "G -->|yes| H"].

(** Distinct edges, one per line. *)
Fixpoint edges (n : nat) : list string :=
  match n with
  | O => []
  | S k => ("n" ++ NilEmpty.string_of_uint (Nat.to_uint k) ++ " --> m") :: edges k
  end.

Definition smallDiagram : string :=
  Js.join newline ("graph TD" :: edges 60).

(** Two hundred distinct lines and no diagram type: the input is within
    both limits, the injected header makes the normalized code exceed the
    limit on lines. *)
Definition headerlessDiagram : string :=
  Js.join newline (edges 200).

(** A grid of one row and three wide columns. *)
Definition threeWide : list (list string) :=
  [["a very long header for the first column of the table";
    "a second header that is just as long as the first one";
    "and a third header of the same length as the others"]].

End Scenario.

(** ** utils/text.ts (src/unnamed/part_002) *)

Module TextUtil.

Import Regex.

(** One turn of the loop over the words; the state is [lines] and
    [currentLine]. *)
Definition pushWord (maxWordsPerLine : Q) (st : list string * list string)
           (word : string) : list string * list string :=
  let (lines, currentLine) := st in
  let currentLine := (currentLine ++ [word])%list in
  if Qle_bool maxWordsPerLine (inject_Z (Z.of_nat (List.length currentLine)))
  then ((lines ++ [Js.join " " currentLine])%list, [])
  else (lines, currentLine).

(** After the loop: the current line is pushed unless it is empty. *)
Definition flush (st : list string * list string) : list string :=
  let (lines, currentLine) := st in
  if 0 <? List.length currentLine
  then (lines ++ [Js.join " " currentLine])%list else lines.

Definition formatTextWithLineBreaks (text_ : string) (maxWordsPerLine : Q) : string :=
  let words := Js.split " " text_ in
  let lines := flush (fold_left (pushWord maxWordsPerLine) words ([], [])) in
  Js.join (Js.str Js.LF) lines.

(** The default value of the second parameter. *)
Definition defaultMaxWordsPerLine : Q := 8.

(** A text with every line feed turned into a space. *)
Fixpoint unwrap (s : string) : string :=
  match s with
  | "" => ""
  | String c s' => String (if Ascii.eqb c Js.LF then " "%char else c) (unwrap s')
  end.

(** The number of words of a line, as the function counts them. *)
Definition wordCount (line_ : string) : Z :=
  Z.of_nat (List.length (Js.split " " line_)).

Definition anyChar (c : ascii) : bool := true.

Definition closeTable (s : string) : option nat :=
  if Js.startsWith "</table>" s then Some 8 else None.

(** [/<table>([\s\S]*?)<\/table>/g] *)
Definition tableRegex : matcher string :=
  fun _ s =>
    if Js.startsWith "<table>" s then
      match lazyUntil anyChar closeTable (Js.drop 7 s) with
      | Some (cap, n) => Some (cap, 7 + n)
      | None => None
      end
    else None.

(** The marker written in place of the table of index [tableIndex]. *)
Definition marker (tableIndex : nat) : string :=
  "__TABLE_BLOCK_" ++ NilEmpty.string_of_uint (Nat.to_uint tableIndex) ++ "__".

(** The replacement by the callback that counts: [tableIndex] is the
    counter of the closure. *)
Fixpoint markTables (tableIndex : nat) (ps : list (piece string)) : string :=
  match ps with
  | [] => ""
  | Lit c :: ps' => String c (markTables tableIndex ps')
  | Hit _ _ _ :: ps' => marker tableIndex ++ markTables (S tableIndex) ps'
  end.

Record SpecialContent := mkSpecialContent {
  cleanText : string;
  tableBlocks : list string
}.

Definition extractSpecialContent (text_ : string) : SpecialContent :=
  let tableMatches := hits (pieces tableRegex text_) in
  {| cleanText := markTables 0 (pieces tableRegex text_);
     tableBlocks := map Js.trim tableMatches |}.

(** A text with [N] table blocks: [N] pairs of the text before a block
    and the content between its tags, then the text after the last
    block. *)
Fixpoint tableBlob (marked : list (string * string)) (tail : string) : string :=
  match marked with
  | [] => tail
  | (before, body) :: rest =>
      before ++ "<table>" ++ body ++ "</table>" ++ tableBlob rest tail
  end.

(** The texts hold no opening tag, the contents no closing tag. *)
Definition wellFormedTables (marked : list (string * string)) (tail : string) : bool :=
  forallb (fun tb => negb (Js.includes "<table>" (fst tb))
                     && negb (Js.includes "</table>" (snd tb))) marked
  && negb (Js.includes "<table>" tail).

(** The same text with the markers in place of the blocks, numbered from
    [tableIndex]. *)
Fixpoint markedText (tableIndex : nat) (marked : list (string * string))
         (tail : string) : string :=
  match marked with
  | [] => tail
  | (before, _) :: rest =>
      before ++ marker tableIndex ++ markedText (S tableIndex) rest tail
  end.

End TextUtil.

(** ** Cells that the markdown of a table carries as they are *)

Module TableText.

(** A character of a cell that is neither the separator of the cells nor
    the start of a tag or of an entity. *)
Definition plainCellChar (c : ascii) : bool :=
  negb (Ascii.eqb c "|") && negb (Ascii.eqb c "<") && negb (Ascii.eqb c "&").

Definition plainCell (cell : string) : bool := Js.all plainCellChar cell.

Definition plainRows (rows : list (list string)) : bool :=
  forallb (forallb plainCell) rows.

(** A text without its spaces and line feeds. *)
Fixpoint squeeze (s : string) : string :=
  match s with
  | "" => ""
  | String c s' =>
      if Ascii.eqb c " " || Ascii.eqb c Js.LF then squeeze s'
      else String c (squeeze s')
  end.

(** The sum of the first [n] numbers of a list. *)
Definition sumZ (l : list Z) : Z := fold_right Z.add 0%Z l.

Definition sumQ (l : list Q) : Q := fold_right Qplus 0%Q l.

(** The cells that pass the test [colIndex >= numCols] of the loops over
    a row: of each row, those of the columns of the first row. *)
Definition drawnCells (rows : list (list string)) : nat :=
  fold_right (fun row n => Nat.min (Table.numCols rows) (List.length row) + n) 0 rows.

Definition isRectangle (e : Primitive) : bool :=
  match type e with rectangle => true | _ => false end.

Definition isText (e : Primitive) : bool :=
  match type e with text => true | _ => false end.

End TableText.

(** ** Where the primitives lie *)

Module Layout.

Import Markdown.

(** A primitive of the walker lies at or right of [x0] and at or below
    [y0]; nothing is said of the elements of a diagram, which the diagram
    converter places. *)
Definition inQuadrant (x0 y0 : Q) (e : Element) : Prop :=
  match e with
  | Own p => (x0 <= x p)%Q /\ (y0 <= y p)%Q
  | Diagram _ _ _ => True
  end.

End Layout.

(** ** Texts with tagged blocks *)

Module Blocks.

Import Regex.

(** [includes] under a comparison of prefixes [sw]: [startsWith], or
    [startsWithCI] for an expression with the flag [i]. *)
Fixpoint includesBy (sw : string -> string -> bool) (p s : string) : bool :=
  sw p s ||
  match s with
  | "" => false
  | String _ s' => includesBy sw p s'
  end.

Fixpoint blob (open close : string) (marked : list (string * string))
         (tail : string) : string :=
  match marked with
  | [] => tail
  | (before, body) :: rest =>
      before ++ open ++ body ++ close ++ blob open close rest tail
  end.

Definition wellFormed (sw : string -> string -> bool) (open close : string)
           (marked : list (string * string)) (tail : string) : bool :=
  forallb (fun tb => negb (includesBy sw open (fst tb))
                     && negb (includesBy sw close (snd tb))) marked
  && negb (includesBy sw open tail).

(** The expression: an opening tag, a lazy capture of any characters, a
    closing tag; [g] is what is kept of the capture. *)
Definition tagged {M : Type} (sw : string -> string -> bool) (open close : string)
           (g : string -> M) : matcher M :=
  fun _ s =>
    if sw open s then
      match lazyUntil (fun _ => true)
                      (fun s => if sw close s then Some (String.length close) else None)
                      (Js.drop (String.length open) s) with
      | Some (cap, n) => Some (g cap, String.length open + n)
      | None => None
      end
    else None.

(** The text outside the blocks. *)
Fixpoint outside (marked : list (string * string)) (tail : string) : string :=
  match marked with
  | [] => tail
  | (before, _) :: rest => before ++ outside rest tail
  end.

Fixpoint literals {M : Type} (t : string) : list (piece M) :=
  match t with
  | "" => []
  | String c t' => Lit c :: literals t'
  end.

(** The pieces of the scan of a blob. *)
Fixpoint blobPieces {M : Type} (g : string -> M) (lo lc : nat) (offset : nat)
         (marked : list (string * string)) (tail : string) : list (piece M) :=
  match marked with
  | [] => literals tail
  | (before, body) :: rest =>
      (literals before
       ++ Hit (offset + String.length before) (lo + (String.length body + lc)) (g body)
       :: blobPieces g lo lc
            (offset + String.length before + (lo + (String.length body + lc)))
            rest tail)%list
  end.

End Blocks.

(** ** src/app/utils/diagrams.ts: the other helpers *)

Module DiagramUtil.

Import Regex.

Definition cleanMermaidCode (code : string) : string :=
  replaceLiteral "}" "]" (replaceLiteral "{" "[" code).

Definition closeThink (s : string) : option nat :=
  if Js.startsWithCI "</think>" s then Some 8 else None.

(** [/<think>[\s\S]*?<\/think>/gi] *)
Definition thinkBlock : matcher unit :=
  fun _ s =>
    if Js.startsWithCI "<think>" s then
      match lazyUntil (fun _ => true) closeThink (Js.drop 7 s) with
      | Some (_, n) => Some (tt, 7 + n)
      | None => None
      end
    else None.

Definition filterThinkTags (text_ : string) : string :=
  Js.trim (replace thinkBlock (fun _ _ => "") text_).

Definition createFallbackMermaid (description : string) : string :=
  let fallbackCode :=
    "flowchart TD" ++ String Js.LF
      ("    A[" ++ description ++ "] --> A[" ++ description ++ "]") in
  cleanMermaidCode fallbackCode.

(** The data of a mind map: [Mindmap["output"]]. *)
Record MindmapNode := mkNode {
  id : string;
  label : string
}.

Record Connection := mkConnection {
  from_ : string;
  to_ : string;
  connectionLabel : option string
}.

(** The first loop over the nodes writes ['Node'] into a label that is
    empty or blank: the node of the caller is changed. *)
Definition ensureLabel (node : MindmapNode) : MindmapNode :=
  if negb (Js.truthy (label node)) || Js.isEmpty (Js.trim (label node))
  then {| id := id node; label := "Node" |}
  else node.

Definition escapeQuotes (label_ : string) : string :=
  replaceLiteral (Js.str Js.DQ) (String Js.BACKSLASH (Js.str Js.DQ)) label_.

Definition nodeLine (node : MindmapNode) : string :=
  let label_ := if Js.truthy (label node) then escapeQuotes (label node) else "Node" in
  "    " ++ id node ++ "[" ++ String Js.DQ (label_ ++ String Js.DQ ("]" ++ Js.str Js.LF)).

Definition connectionLine (connection : Connection) : string :=
  if Js.truthy (from_ connection) && Js.truthy (to_ connection) then
    "    " ++ from_ connection ++ " "
    ++ (match connectionLabel connection with
        | Some l => if Js.truthy l then " -- " ++ l ++ " ---" else "---"
        | None => "---"
        end)
    ++ " " ++ to_ connection ++ Js.str Js.LF
  else "".

(** The result is the code and the nodes as the call leaves them.  With
    data of the declared type nothing in the body throws. *)
Definition convertJSONtoMermaidMindmap (nodes : list MindmapNode)
           (connections : list Connection) : string * list MindmapNode :=
  if List.length nodes =? 0 then
    ("flowchart TD" ++ String Js.LF "    A[No content available]", nodes)
  else
    let nodes := map ensureLabel nodes in
    let mermaidCode := "flowchart TB" ++ Js.str Js.LF in
    let mermaidCode := mermaidCode ++ Js.concat (map nodeLine nodes) in
    let mermaidCode := mermaidCode ++ Js.str Js.LF in
    let mermaidCode := mermaidCode ++ Js.concat (map connectionLine connections) in
    (mermaidCode, nodes).

End DiagramUtil.

(** ** src/app/constants/whiteboard.ts *)

Module Config.

(** [envKeys] is [import.meta.env.VITE_GROQ_API_KEYS], absent when the
    variable is not set. *)
Definition getGroqApiKeys (envKeys : option string) : list string :=
  match envKeys with
  | None => []
  | Some e =>
      if negb (Js.truthy e) then []
      else filter (fun key => 0 <? String.length key)
                  (map Js.trim (Js.split "," e))
  end.

End Config.

(** ** src/app/services/aiService.ts: the rotation of the keys *)

Module AiService.

(** What the code reads of a caught error. *)
Record ApiError := mkApiError {
  status : option Z;
  message : option string;
  code : option string
}.

(** The keys and the index of the current one; the client [groq] is
    built from [apiKeys[currentKeyIndex]].  Without keys the index of the
    source becomes [NaN] on a rotation and the key stays [undefined];
    here the index is then any number and the key is absent. *)
Record Service := mkService {
  apiKeys : list string;
  currentKeyIndex : nat
}.

(** The constructor: the keys of the configuration, the first one
    current. *)
Definition newService (keys : list string) : Service :=
  {| apiKeys := keys; currentKeyIndex := 0 |}.

Definition apiKey (s : Service) : option string :=
  nth_error (apiKeys s) (currentKeyIndex s).

Definition rotateApiKey (s : Service) : Service :=
  {| apiKeys := apiKeys s;
     currentKeyIndex := (currentKeyIndex s + 1) mod List.length (apiKeys s) |}.

Fixpoint toLowerCase (s : string) : string :=
  match s with
  | "" => ""
  | String c s' => String (Js.toLower c) (toLowerCase s')
  end.

Definition isRateLimitError (error : ApiError) : bool :=
  match status error with Some n => (n =? 429)%Z | None => false end
  || match message error with
     | Some m => Js.includes "rate limit" (toLowerCase m)
     | None => false
     end
  || match code error with
     | Some c => String.eqb c "rate_limit_exceeded"
     | None => false
     end.

Definition exhausted : ApiError :=
  {| status := None;
     message := Some "All API keys exhausted due to rate limits";
     code := None |}.

(** *** A run alone on the service

    The loop of [executeWithRetry] as one run goes through it when no
    other run is started or resumed before it ends; the runs that share
    the service are embedded further down. *)

Section Retry.
Context {T : Type}.

(** What a run reports: the service as it is left, the keys of the
    successive calls of the operation, and the value returned or the error
    thrown. *)
Record Run := mkRun {
  service : Service;
  calls : list (option string);
  result : T + ApiError
}.

(** The operation is called with the client of the moment; its outcome
    depends on the key of that client and on the service behind it, which
    may answer differently at each call: [operation n key] is the outcome
    of call number [n]. *)
Variable operation : nat -> option string -> T + ApiError.

(** The [while] loop; [attempts] counts the calls already made. *)
Fixpoint retryLoop (fuel : nat) (maxRetries attempts : nat) (s : Service)
         (log : list (option string)) : option Run :=
  match fuel with
  | O => None
  | S fuel' =>
      if attempts <? maxRetries then
        let log := (log ++ [apiKey s])%list in
        match operation attempts (apiKey s) with
        | inl v => Some {| service := s; calls := log; result := inl v |}
        | inr error =>
            if isRateLimitError error && (attempts <? maxRetries - 1) then
              retryLoop fuel' maxRetries (S attempts) (rotateApiKey s) log
            else Some {| service := s; calls := log; result := inr error |}
        end
      else Some {| service := s; calls := log; result := inr exhausted |}
  end.

Definition executeWithRetry (s : Service) : option Run :=
  let maxRetries := List.length (apiKeys s) in
  retryLoop (S maxRetries) maxRetries 0 s [].

End Retry.

Arguments Run : clear implicits.

(** *** Several runs on the one service

    The application holds one service object and starts several calls of
    [executeWithRetry] before the first has ended.  A run gives way at
    its [await] only: from the call of the operation to the moment its
    outcome is known, other runs may start, end, or rotate the key.  What
    a run does between two such moments is one step, and the index of the
    current key is the one that all the runs share. *)

Inductive Event :=
| Start
| Settle (run : nat).

Section Shared.
Context {T : Type}.

(** [operation run n key] is the outcome of call number [n] of a run,
    made with the client of [key]. *)
Variable operation : nat -> nat -> option string -> T + ApiError.

(** A run waits for the outcome of the call it made with [key], or has
    returned a value or thrown an error. *)
Inductive Phase :=
| Waiting (key : option string)
| Ended (outcome : T + ApiError).

(** The locals of a run, [maxRetries] and [attempts], with the keys of
    the calls it has made so far. *)
Record Task := mkTask {
  maxRetries : nat;
  attempts : nat;
  keysUsed : list (option string);
  phase : Phase
}.

Record World := mkWorld {
  shared : Service;
  tasks : list Task
}.

(** The head of the [while] loop: the test, then the call of the
    operation with the client of the moment. *)
Definition enter (s : Service) (maxRetries_ attempts_ : nat)
           (log : list (option string)) : Task :=
  if attempts_ <? maxRetries_ then
    {| maxRetries := maxRetries_; attempts := attempts_;
       keysUsed := (log ++ [apiKey s])%list; phase := Waiting (apiKey s) |}
  else
    {| maxRetries := maxRetries_; attempts := attempts_;
       keysUsed := log; phase := Ended (inr exhausted) |}.

(** A call of [executeWithRetry] starts, and runs up to its first
    [await]. *)
Definition start (w : World) : World :=
  {| shared := shared w;
     tasks := (tasks w
                 ++ [enter (shared w) (List.length (apiKeys (shared w))) 0 []])%list |}.

Definition ended (t : Task) (outcome : T + ApiError) : Task :=
  {| maxRetries := maxRetries t; attempts := attempts t;
     keysUsed := keysUsed t; phase := Ended outcome |}.

(** The outcome of the call under way is known: the run returns the
    value, or throws the error, or rotates the key of the service and
    calls again, up to its next [await]. *)
Definition resume (run : nat) (s : Service) (t : Task) : Service * Task :=
  match phase t with
  | Ended _ => (s, t)
  | Waiting key =>
      match operation run (attempts t) key with
      | inl v => (s, ended t (inl v))
      | inr error =>
          if isRateLimitError error && (attempts t <? maxRetries t - 1) then
            let s' := rotateApiKey s in
            (s', enter s' (maxRetries t) (S (attempts t)) (keysUsed t))
          else (s, ended t (inr error))
      end
  end.

Fixpoint setTask (run : nat) (t : Task) (l : list Task) : list Task :=
  match l, run with
  | [], _ => []
  | _ :: l', O => t :: l'
  | t0 :: l', S k => t0 :: setTask k t l'
  end.

Definition settle (run : nat) (w : World) : World :=
  match nth_error (tasks w) run with
  | None => w
  | Some t =>
      let (s', t') := resume run (shared w) t in
      {| shared := s'; tasks := setTask run t' (tasks w) |}
  end.

Definition step (w : World) (e : Event) : World :=
  match e with
  | Start => start w
  | Settle run => settle run w
  end.

(** The runs started and resumed in the order of [events], from a
    service on which no run is under way. *)
Definition play (events : list Event) (s : Service) : World :=
  fold_left step events {| shared := s; tasks := [] |}.

(** The rotations that all the runs have made: a run rotates the key
    once for each of its calls but the first. *)
Definition rotations (w : World) : nat :=
  list_sum (map attempts (tasks w)).

End Shared.

Arguments Phase : clear implicits.
Arguments Task : clear implicits.
Arguments World : clear implicits.

(** Two runs under two keys.  The first call of each run meets a rate
    limit; the second call of the first run succeeds, the second call of
    the second run meets a rate limit again. *)
Definition rateLimited : ApiError :=
  {| status := Some 429%Z; message := None; code := None |}.

Definition contended : nat -> nat -> option string -> nat + ApiError :=
  fun run n _ =>
    match run, n with
    | 0, 1 => inl 7
    | _, _ => inr rateLimited
    end.

Definition twoKeys : Service :=
  {| apiKeys := ["k1"; "k2"]; currentKeyIndex := 0 |}.

(** Both runs start, then their calls settle in turn. *)
Definition interleaved : list Event :=
  [Start; Start; Settle 0; Settle 1; Settle 1; Settle 0].

(** The answer of the chat service to one request: the content of the
    first choice, absent or [null] at times, or an error. *)
Definition Chat := nat -> option string -> option string + ApiError.

(** [a || d] on an optional string. *)
Definition orDefault (a : option string) (d : string) : string :=
  match a with
  | Some v => if Js.truthy v then v else d
  | None => d
  end.

Definition supportedTypes : list string :=
  ["flowchart"; "sequence"; "classDiagram"; "mindmap"].

(** [determineBestDiagramType]: the service as it is left and the type
    returned. *)
Definition determineBestDiagramType (chat : Chat) (s : Service)
  : option (Service * string) :=
  let operation := fun n key =>
    match chat n key with
    | inl content_ => inl (orDefault (option_map Js.trim content_) "flowchart")
    | inr error => inr error
    end in
  match executeWithRetry operation s with
  | None => None
  | Some run =>
      match result run with
      | inl diagramType =>
          if existsb (String.eqb diagramType) supportedTypes
          then Some (service run, diagramType)
          else Some (service run, "flowchart")
      | inr _ => Some (service run, "flowchart")
      end
  end.

(** [a.slice(0, 3)] *)
Definition slice03 {A : Type} (l : list A) : list A := firstn 3 l.

Definition generateTopicsBreakdown (chat : Chat) (s : Service)
  : option (Service * list string) :=
  let operation := fun n key =>
    match chat n key with
    | inl content_ =>
        let response := orDefault content_ "Definition, KeyConcepts, Examples" in
        inl (slice03 (map Js.trim (Js.split "," response)))
    | inr error => inr error
    end in
  match executeWithRetry operation s with
  | None => None
  | Some run =>
      match result run with
      | inl breakdown => Some (service run, breakdown)
      | inr _ => Some (service run, ["Definition"; "KeyConcepts"; "Examples"])
      end
  end.

End AiService.

(** ** src/app/store/whiteboardStore.ts *)

Module WhiteboardStore.

Inductive ActiveTestCaseIndex :=
| Index (n : Z)
| Custom
| NoIndex.

Section Store.

(** The output of the diagram parser, the handle of the canvas and the
    analysis of a topic are values of the libraries. *)
Variable Output : Type.
Variable Api : Type.
Variable Topic : Type.

Record MermaidData := mkMermaidData {
  definition : string;
  output : option Output;
  error : option string
}.

Record State := mkState {
  mermaidData : MermaidData;
  activeTestCaseIndex : ActiveTestCaseIndex;
  isProcessing : bool;
  appendMode : bool;
  excalidrawAPI : option Api;
  currentTopic : option Topic;
  educationalText : string;
  definitionText : string;      (* the field [definition] of the state *)
  examples : list string
}.

Definition initialState : State :=
  {| mermaidData := {| definition := ""; output := None; error := None |};
     activeTestCaseIndex := NoIndex;
     isProcessing := false;
     appendMode := true;
     excalidrawAPI := None;
     currentTopic := None;
     educationalText := "";
     definitionText := "";
     examples := [] |}.

(** [set({ mermaidData: data })]: the other fields are kept. *)
Definition setMermaidData (data : MermaidData) (st : State) : State :=
  {| mermaidData := data;
     activeTestCaseIndex := activeTestCaseIndex st;
     isProcessing := isProcessing st;
     appendMode := appendMode st;
     excalidrawAPI := excalidrawAPI st;
     currentTopic := currentTopic st;
     educationalText := educationalText st;
     definitionText := definitionText st;
     examples := examples st |}.

Definition setActiveTestCaseIndex (index : ActiveTestCaseIndex) (st : State) : State :=
  {| mermaidData := mermaidData st;
     activeTestCaseIndex := index;
     isProcessing := isProcessing st;
     appendMode := appendMode st;
     excalidrawAPI := excalidrawAPI st;
     currentTopic := currentTopic st;
     educationalText := educationalText st;
     definitionText := definitionText st;
     examples := examples st |}.

Definition setIsProcessing (processing : bool) (st : State) : State :=
  {| mermaidData := mermaidData st;
     activeTestCaseIndex := activeTestCaseIndex st;
     isProcessing := processing;
     appendMode := appendMode st;
     excalidrawAPI := excalidrawAPI st;
     currentTopic := currentTopic st;
     educationalText := educationalText st;
     definitionText := definitionText st;
     examples := examples st |}.

Definition setAppendMode (appendMode_ : bool) (st : State) : State :=
  {| mermaidData := mermaidData st;
     activeTestCaseIndex := activeTestCaseIndex st;
     isProcessing := isProcessing st;
     appendMode := appendMode_;
     excalidrawAPI := excalidrawAPI st;
     currentTopic := currentTopic st;
     educationalText := educationalText st;
     definitionText := definitionText st;
     examples := examples st |}.

Definition setExcalidrawAPI (api : Api) (st : State) : State :=
  {| mermaidData := mermaidData st;
     activeTestCaseIndex := activeTestCaseIndex st;
     isProcessing := isProcessing st;
     appendMode := appendMode st;
     excalidrawAPI := Some api;
     currentTopic := currentTopic st;
     educationalText := educationalText st;
     definitionText := definitionText st;
     examples := examples st |}.

Definition setCurrentTopic (topic : option Topic) (st : State) : State :=
  {| mermaidData := mermaidData st;
     activeTestCaseIndex := activeTestCaseIndex st;
     isProcessing := isProcessing st;
     appendMode := appendMode st;
     excalidrawAPI := excalidrawAPI st;
     currentTopic := topic;
     educationalText := educationalText st;
     definitionText := definitionText st;
     examples := examples st |}.

Definition setEducationalText (text_ : string) (st : State) : State :=
  {| mermaidData := mermaidData st;
     activeTestCaseIndex := activeTestCaseIndex st;
     isProcessing := isProcessing st;
     appendMode := appendMode st;
     excalidrawAPI := excalidrawAPI st;
     currentTopic := currentTopic st;
     educationalText := text_;
     definitionText := definitionText st;
     examples := examples st |}.

Definition setDefinition (definition_ : string) (st : State) : State :=
  {| mermaidData := mermaidData st;
     activeTestCaseIndex := activeTestCaseIndex st;
     isProcessing := isProcessing st;
     appendMode := appendMode st;
     excalidrawAPI := excalidrawAPI st;
     currentTopic := currentTopic st;
     educationalText := educationalText st;
     definitionText := definition_;
     examples := examples st |}.

Definition setExamples (examples_ : list string) (st : State) : State :=
  {| mermaidData := mermaidData st;
     activeTestCaseIndex := activeTestCaseIndex st;
     isProcessing := isProcessing st;
     appendMode := appendMode st;
     excalidrawAPI := excalidrawAPI st;
     currentTopic := currentTopic st;
     educationalText := educationalText st;
     definitionText := definitionText st;
     examples := examples_ |}.

(** [parseMermaid]: the parsed diagram, or [String(error)] of the error
    it throws. *)
Variable parseMermaid : string -> string + Output.

Definition updateMermaidDefinition (definition_ : string)
           (index : ActiveTestCaseIndex) (st : State) : State :=
  let st := setActiveTestCaseIndex index st in
  match parseMermaid definition_ with
  | inr mermaid =>
      setMermaidData {| definition := definition_; output := Some mermaid;
                        error := None |} st
  | inl message =>
      setMermaidData {| definition := definition_; output := None;
                        error := Some message |} st
  end.

Definition separator : string :=
  String Js.LF (String Js.LF ("--- New Analysis ---" ++ String Js.LF (Js.str Js.LF))).

Definition appendMermaidDefinition (definition_ : string) (st : State) : State :=
  match parseMermaid definition_ with
  | inr newMermaid =>
      let currentDefinition := definition (mermaidData st) in
      let combinedDefinition :=
        if Js.truthy currentDefinition
        then currentDefinition ++ separator ++ definition_
        else definition_ in
      setMermaidData {| definition := combinedDefinition; output := Some newMermaid;
                        error := None |} st
  | inl message =>
      setMermaidData {| definition := definition_; output := None;
                        error := Some message |} st
  end.

(** [set(initialState)]: every field of the data is written. *)
Definition resetState (st : State) : State := initialState.

(** The actions of the store, and a run of them. *)
Inductive Action :=
| SetMermaidData (data : MermaidData)
| SetActiveTestCaseIndex (index : ActiveTestCaseIndex)
| SetIsProcessing (processing : bool)
| SetAppendMode (appendMode_ : bool)
| SetExcalidrawAPI (api : Api)
| SetCurrentTopic (topic : option Topic)
| SetEducationalText (text_ : string)
| SetDefinition (definition_ : string)
| SetExamples (examples_ : list string)
| UpdateMermaidDefinition (definition_ : string) (index : ActiveTestCaseIndex)
| AppendMermaidDefinition (definition_ : string)
| ResetState.

Definition dispatch (st : State) (a : Action) : State :=
  match a with
  | SetMermaidData data => setMermaidData data st
  | SetActiveTestCaseIndex index => setActiveTestCaseIndex index st
  | SetIsProcessing processing => setIsProcessing processing st
  | SetAppendMode appendMode_ => setAppendMode appendMode_ st
  | SetExcalidrawAPI api => setExcalidrawAPI api st
  | SetCurrentTopic topic => setCurrentTopic topic st
  | SetEducationalText text_ => setEducationalText text_ st
  | SetDefinition definition_ => setDefinition definition_ st
  | SetExamples examples_ => setExamples examples_ st
  | UpdateMermaidDefinition definition_ index =>
      updateMermaidDefinition definition_ index st
  | AppendMermaidDefinition definition_ => appendMermaidDefinition definition_ st
  | ResetState => resetState st
  end.

Definition run (st : State) (actions : list Action) : State :=
  fold_left dispatch actions st.

(** The action that writes the diagram data as given. *)
Definition writesData (a : Action) : bool :=
  match a with SetMermaidData _ => true | _ => false end.

End Store.

End WhiteboardStore.

(** ** Measures of a text *)

Module Measure.

(** A measure that adds up over the characters of a text. *)
Fixpoint weight (w : ascii -> nat) (s : string) : nat :=
  match s with
  | "" => 0
  | String c s' => w c + weight w s'
  end.

Definition one : ascii -> nat := fun _ => 1.

(** One for a line feed: a text has one line more than it has line
    feeds. *)
Definition lineFeed (c : ascii) : nat := if Ascii.eqb c Js.LF then 1 else 0.

(** The characters that step 5 of [processMermaidCode] writes for a
    character of a label, once the ampersands and the [<] are done. *)
Definition afterLt (c : ascii) : nat := if Ascii.eqb c ">" then 4 else 1.

(** The same once the ampersands are done. *)
Definition afterAmp (c : ascii) : nat := if Ascii.eqb c "<" then 4 else afterLt c.

(** The characters that step 5 writes for a character of a label. *)
Definition escaped (c : ascii) : nat := if Ascii.eqb c "&" then 5 else afterAmp c.

(** The same, with the two quotes that step 3 writes behind an opening
    bracket. *)
Definition labelled (c : ascii) : nat := if Ascii.eqb c "[" then 3 else escaped c.

(** The same, an opening brace being the bracket that step 2 makes of
    it. *)
Definition braced (c : ascii) : nat := if Ascii.eqb c "{" then 3 else labelled c.

End Measure.

(** * Properties *)

(** ** The global iteration *)

Module RegexFacts.

Import Regex.

Section Scan.
Context {M : Type}.
Variable mt : matcher M.

Lemma first_scan_lit (offset : nat) (prev : option ascii) (c : ascii) (s : string) :
  mt prev (String c s) = None ->
  first (scan mt 0 offset prev (String c s))
  = first (scan mt 0 (S offset) (Some c) s).
Proof. intros H. cbn [scan]. rewrite H. reflexivity. Qed.

Lemma first_scan_hit (offset : nat) (prev : option ascii) (s : string)
      (m : M) (len : nat) :
  Js.truthy s = true ->
  mt prev s = Some (m, len) ->
  first (scan mt 0 offset prev s) = Some m.
Proof.
  intros Hne H. destruct s as [|c s]; [discriminate|].
  cbn [scan]. rewrite H. reflexivity.
Qed.

End Scan.

End RegexFacts.

(** ** Scenarios evaluated on the embedding *)

Module ScenarioFacts.

Import Markdown Scenario.

(** A heading of level 1 at the origin: font size 18, cursor 38. *)
Example heading_scenario (host : Host) :
  traverse host 0 [] (Heading 1 [Text "Title"]) 0 0
  = ([textElement "heading" 0 0 200 28 "Title" 18 "#000000"], 38%Q).
Proof. vm_compute. reflexivity. Qed.

(** A table of two rows and two columns: four rectangles and four texts,
    the rectangles of the first row at 0 and those of the second at 60. *)
Example two_by_two_scenario :
  let els := Table.createVisualTableElements
               ("| A | B |" ++ newline ++ "| 1 | 2 |") 0 0 in
  map type els = [rectangle; text; rectangle; text; rectangle; text; rectangle; text]
  /\ map y (filter (fun el => ElementType_eqb (type el) rectangle) els)
     = [0%Q; 0%Q; 60%Q; 60%Q].
Proof. vm_compute. split; reflexivity. Qed.

(** A text without marker is one text segment; a blank rest after the
    last marker is kept by the scan. *)
Example segmenter_scenarios :
  latexParts "no equation here" = [mkPart textPart "no equation here"]
  /\ latexParts "<latex> a+b </latex> "
     = [mkPart latexPart "a+b"; mkPart textPart " "].
Proof. vm_compute. split; reflexivity. Qed.

(** A long cell is wrapped on the width of its column. *)
Example wrapText_scenario :
  Table.wrapText "the quick brown fox jumps over the lazy dog" 150 16
  = Js.join newline ["the quick"; "brown fox"; "jumps over"; "the lazy dog"].
Proof. vm_compute. reflexivity. Qed.

(** The walker on a list, a rule and a text with a table marker. *)
Example walker_scenario :
  let r := traverse failingHost 10 [tableHtml]
                    (Parent [List_ [ListItem None [Paragraph [Text "one"]]];
                             ThematicBreak; Text "__TABLE_BLOCK_0__"]) 0 100 in
  map contentOf (fst r) = ["- one"; ""; ""; "A"; ""; "B"; ""; "1"; ""; "2"]
  /\ map (fun e => Qred (yOf e)) (fst r)
     = [100; 140; 160; 190; 160; 190; 220; 250; 220; 250]%Q
  /\ snd r = 310%Q.
Proof. vm_compute. repeat split; reflexivity. Qed.

(** The lighter normalizer on a fenced block. *)
Example processMermaidCode_scenario :
  Diagrams.processMermaidCode
    ("```mermaid" ++ newline ++ "a-b{Hello & you} --> C[d]" ++ newline
     ++ "a-b{Hello & you} --> C[d]" ++ newline ++ "```")
  = Diagrams.Returned
      ("flowchart TD" ++ newline ++ "a_b["
       ++ String Js.DQ ("Hello &amp; you" ++ String Js.DQ ("] --> C["
       ++ String Js.DQ ("d" ++ String Js.DQ "]")))).
Proof. vm_compute. reflexivity. Qed.

(** C6.  [convertHtmlTableToMarkdown] turns the two-row HTML table into
    three markdown lines, the second being the inserted header separator;
    the table-grid builder parses that markdown back into the grid
    [[A, B], [1, 2]], the separator row discarded, and draws the four
    cells in that order. *)
Theorem html_table_round_trip :
  Table.convertHtmlTableToMarkdown tableHtml
  = Js.join newline ["| A | B |"; "| --- | --- |"; "| 1 | 2 |"]
  /\ Table.parseRows (Table.convertHtmlTableToMarkdown tableHtml)
     = [["A"; "B"]; ["1"; "2"]]
  /\ map content
         (filter (fun el => ElementType_eqb (type el) text)
                 (Table.createVisualTableElements
                    (Table.convertHtmlTableToMarkdown tableHtml) 0 0))
     = ["A"; "B"; "1"; "2"].
Proof. repeat split; vm_compute; reflexivity. Qed.

(** The fourth branch of the html dispatch repeats the test of the third:
    it is never taken. *)
Lemma htmlCase_never_table (htmlContent : string) :
  isHtmlTable (htmlCase htmlContent) = false.
Proof.
  unfold htmlCase.
  destruct (Js.startsWith "<mermaid>" htmlContent && Js.endsWith "</mermaid>" htmlContent);
    [reflexivity|].
  destruct (Js.startsWith "<latex>" htmlContent && Js.endsWith "</latex>" htmlContent);
    [reflexivity|].
  destruct (hasTable htmlContent); reflexivity.
Qed.

(** C1 (the code departs from the claim).  An html node that holds a
    table and is neither a diagram wrapper nor an equation wrapper is
    handled by the diagram body of the third branch: whatever the host,
    the walker slices the content as if it were a diagram wrapper, hands
    it to the diagram parser and never converts the table; in general the
    table branch of the dispatch is taken for no content at all. *)
Theorem html_table_runs_diagram_branch :
  (forall htmlContent, isHtmlTable (htmlCase htmlContent) = false)
  /\ htmlCase tableHtml = TableAsMermaid
  /\ (forall host startX tableBlocks depth currentY,
        traverse host startX tableBlocks (Html tableHtml) depth currentY
        = mermaidBranch host startX depth tableHtml currentY)
  /\ map contentOf (fst (traverse failingHost 0 [] (Html tableHtml) 0 0))
     = ["Error rendering mermaid: Parse error"].
Proof.
  split; [exact htmlCase_never_table|].
  split; [vm_compute; reflexivity|].
  split; [intros; reflexivity|].
  vm_compute; reflexivity.
Qed.

(** C4 (the code departs from the claim).  A paragraph of plain prose, no
    html child and no equation marker, whose first child is a text node:
    the walker takes the per-child path.  For "Hello " followed by a
    bold "world" it emits the single primitive "Hello " (height 20), the
    bold text is lost, and the cursor advances by 25, not by 30; for the
    one-child paragraph "Hello" it emits the text with height 20 and
    advances by 25. *)
Theorem plain_paragraph_takes_special_path :
  forall host,
    collectAllText boldParagraph = "Hello world"
    /\ traverse host 0 [] boldParagraph 0 0
       = ([textElement "text" 0 0 400 20 "Hello " 14 "#000000"], 25%Q)
    /\ traverse host 0 [] plainParagraph 0 0
       = ([textElement "text" 0 0 400 20 "Hello" 14 "#000000"], 25%Q).
Proof. intros host. repeat split; vm_compute; reflexivity. Qed.

(** C2, counterexample.  With a rasterizer that yields the empty
    sentinel, the sentence spelled with the marker of the specification
    gives one primitive, the whole sentence; spelled with the marker of
    the source it gives three primitives whose second text is
    "LaTeX: E=mc^2".  Neither is the claimed sequence. *)
Lemma equation_scenario_counterexample :
  convertLatexToImage failingHost "E=mc^2" = ""
  /\ map contentOf (fst (traverse failingHost 0 [] (Paragraph [Text equationSentence]) 0 0))
     = [equationSentence]
  /\ map contentOf (fst (traverse failingHost 0 [] (Paragraph [Text latexSentence]) 0 0))
     = ["Energy: "; "LaTeX: E=mc^2"; " is conserved."]
  /\ [equationSentence] <> claimedTexts
  /\ ["Energy: "; "LaTeX: E=mc^2"; " is conserved."] <> claimedTexts.
Proof.
  repeat split; try (vm_compute; reflexivity); discriminate.
Qed.

Lemma latexParts_latexSentence :
  latexParts latexSentence
  = [mkPart textPart "Energy: "; mkPart latexPart "E=mc^2"; mkPart textPart " is conserved."].
Proof. vm_compute; reflexivity. Qed.

(** C2, amended.  For the paragraph text
    "Energy: <latex>E=mc^2</latex> is conserved." and a rasterizer that
    yields the empty sentinel on "E=mc^2", the walker emits exactly three
    primitives: the text "Energy: ", the fallback text "LaTeX: E=mc^2"
    in the fallback colour #ff6b35, and the text " is conserved.", at the
    strictly increasing positions y, y + 25 and y + 50; the cursor ends at
    y + 75. *)
Theorem equation_scenario_fallback :
  forall host startX tableBlocks depth currentY,
    convertLatexToImage host "E=mc^2" = "" ->
    traverse host startX tableBlocks (Paragraph [Text latexSentence]) depth currentY
    = ([textElement "text" (indent startX depth) currentY 400 20
                    "Energy: " 14 "#000000";
        textElement "latex-inline-error" (indent startX depth) (currentY + 25)%Q 200 20
                    "LaTeX: E=mc^2" 14 "#ff6b35";
        textElement "text" (indent startX depth) (currentY + 25 + 25)%Q 400 20
                    " is conserved." 14 "#000000"],
       (currentY + 25 + 25 + 25)%Q)
    /\ (currentY < currentY + 25)%Q
    /\ (currentY + 25 < currentY + 25 + 25)%Q.
Proof.
  intros host startX tableBlocks depth currentY Hfail.
  split; [|split; lra].
  unfold traverse, paragraphBranch, paragraphLoop.
  rewrite latexParts_latexSentence.
  unfold inlineParts, inlinePart, inlineLatex, partType, partContent.
  rewrite Hfail. reflexivity.
Qed.

Lemma equation_scenario_fallback_witness :
  convertLatexToImage failingHost "E=mc^2" = ""
  /\ map contentOf
         (fst (traverse failingHost 0 [] (Paragraph [Text latexSentence]) 0 0))
     = ["Energy: "; "LaTeX: E=mc^2"; " is conserved."].
Proof.
  split; [reflexivity|].
  rewrite (proj1 (equation_scenario_fallback failingHost 0 [] 0 0 eq_refl)).
  reflexivity.
Defined.

End ScenarioFacts.

(** ** The table-block marker of a standalone text node *)

Module MarkerFacts.

Import Regex RegexFacts Markdown Scenario.

Lemma span_all (p : ascii -> bool) (s rest : string) :
  Js.all p s = true ->
  match rest with "" => true | String c _ => negb (p c) end = true ->
  Js.span p (s ++ rest) = (s, rest).
Proof.
  intros Hall Hrest. induction s as [|c s IH]; simpl in *.
  - destruct rest as [|c r]; [reflexivity|].
    simpl. apply negb_true_iff in Hrest. rewrite Hrest. reflexivity.
  - apply andb_true_iff in Hall as [Hc Hs]. rewrite Hc, (IH Hs). reflexivity.
Qed.

(** The marker that the extraction step writes, [__TABLE_BLOCK_n__], is
    matched with the digits of [n] as capture. *)
Lemma tableMarker_underscore (prev : option ascii) (rest : string) :
  tableMarker prev (String "_" rest) = None.
Proof. reflexivity. Qed.

Lemma tableMarker_here (prev : option ascii) (digits : string) :
  Js.truthy digits = true -> Js.all Js.isDigit digits = true ->
  tableMarker prev ("TABLE_BLOCK_" ++ digits ++ "__")
  = Some (digits, 12 + String.length digits).
Proof.
  intros Hne Hall. unfold tableMarker.
  change (Js.startsWith "TABLE_BLOCK_" ("TABLE_BLOCK_" ++ digits ++ "__")) with true.
  change (Js.drop 12 ("TABLE_BLOCK_" ++ digits ++ "__")) with (digits ++ "__").
  cbv iota. rewrite (span_all Js.isDigit digits "__" Hall eq_refl).
  destruct digits; [discriminate|reflexivity].
Qed.

Lemma tableMatch_marker (digits : string) :
  Js.truthy digits = true -> Js.all Js.isDigit digits = true ->
  tableMatch ("__TABLE_BLOCK_" ++ digits ++ "__") = Some digits.
Proof.
  intros Hne Hall. unfold tableMatch, pieces.
  change ("__TABLE_BLOCK_" ++ digits ++ "__")
    with (String "_" (String "_" ("TABLE_BLOCK_" ++ digits ++ "__"))).
  rewrite first_scan_lit by apply tableMarker_underscore.
  rewrite first_scan_lit by apply tableMarker_underscore.
  apply (first_scan_hit _ _ _ _ _ (12 + String.length digits)).
  - reflexivity.
  - apply tableMarker_here; assumption.
Qed.

(** C10.  A standalone text node whose value matches the table-block
    marker with an index at or beyond the length of [tableBlocks] emits
    no primitive and leaves the cursor where it was. *)
Theorem table_block_out_of_range :
  forall host startX tableBlocks depth currentY value digits,
    tableMatch value = Some digits ->
    List.length tableBlocks <= parseInt digits ->
    traverse host startX tableBlocks (Text value) depth currentY = ([], currentY).
Proof.
  intros host startX tableBlocks depth currentY value digits Hmatch Hrange.
  cbn [traverse]. unfold textBranch. rewrite Hmatch.
  apply Nat.ltb_ge in Hrange. rewrite Hrange. reflexivity.
Qed.

Lemma table_block_out_of_range_witness :
  tableMatch "__TABLE_BLOCK_3__" = Some "3"
  /\ traverse failingHost 0 [tableHtml; tableHtml] (Text "__TABLE_BLOCK_3__") 0 7
     = ([], 7%Q).
Proof.
  split; [reflexivity|].
  apply (table_block_out_of_range failingHost 0 [tableHtml; tableHtml] 0 7
           "__TABLE_BLOCK_3__" "3");
    [reflexivity | apply Nat.leb_le; reflexivity].
Defined.

End MarkerFacts.

(** ** The safety limits of processMermaidCode *)

Module DiagramsFacts.

Import Diagrams Scenario.

Lemma tooLarge_spec (code : string) :
  tooLarge code = true
  <-> (MAX_LINES < List.length (Js.split Js.LF code) \/ MAX_CHARS < String.length code).
Proof.
  unfold tooLarge. rewrite orb_true_iff, !Nat.ltb_lt. reflexivity.
Qed.

(** [processMermaidCode] throws exactly when the normalized code, the
    result of steps 1 to 7, has more than 200 lines or more than 5000
    characters; the thrown value is the error of the size check; and
    a call that does not throw returns the normalized code, trimmed. *)
Lemma processMermaidCode_outcome (input : string) :
  (isThrown (processMermaidCode input) = true
   <-> (MAX_LINES < List.length (Js.split Js.LF (normalized input))
        \/ MAX_CHARS < String.length (normalized input)))
  /\ (isThrown (processMermaidCode input) = true ->
      processMermaidCode input = Thrown "Mermaid diagram too large or complex.")
  /\ (isThrown (processMermaidCode input) = false ->
      processMermaidCode input = Returned (Js.trim (normalized input))).
Proof.
  unfold processMermaidCode.
  pose proof (tooLarge_spec (normalized input)) as Hspec.
  destruct (tooLarge (normalized input)) eqn:Hlarge; cbn [isThrown].
  - split; [|split].
    + split; intros _; [apply Hspec; reflexivity | reflexivity].
    + reflexivity.
    + discriminate.
  - split; [|split].
    + split; [discriminate|]. intros H. apply Hspec in H. discriminate.
    + discriminate.
    + reflexivity.
Qed.

(** C9, counterexample.  The limits bear on the normalized code, not on
    the input: the headerless diagram has 200 lines and fewer than 5000
    characters, it is within both limits, and the call throws, because
    step 6 writes a header line in front of it. *)
Lemma input_within_limits_may_throw :
  List.length (Js.split Js.LF headerlessDiagram) = 200
  /\ String.length headerlessDiagram <= MAX_CHARS
  /\ List.length (Js.split Js.LF (normalized headerlessDiagram)) = 201
  /\ isThrown (processMermaidCode headerlessDiagram) = true.
Proof.
  repeat split; try (vm_compute; reflexivity).
  apply Nat.leb_le; vm_compute; reflexivity.
Qed.

End DiagramsFacts.

(** ** The widths of the columns of a table *)

Module WidthFacts.

Import Table Scenario.

Lemma clampWidth_bounds (w : Z) :
  (minColWidth <= clampWidth w <= maxColWidth)%Z.
Proof. unfold clampWidth, minColWidth, maxColWidth. lia. Qed.

Lemma clampedWidths_bounds (rows : list (list string)) :
  Forall (fun w => (minColWidth <= w <= maxColWidth)%Z) (clampedWidths rows).
Proof.
  unfold clampedWidths. apply Forall_forall. intros w Hin.
  apply in_map_iff in Hin as [w0 [<- _]]. apply clampWidth_bounds.
Qed.

Lemma totalWidth_from (l : list Z) (a : Z) :
  fold_left (fun sum w => (sum + w)%Z) l a = (a + totalWidth l)%Z.
Proof.
  unfold totalWidth. revert a. induction l as [|w l IH]; intros a; simpl.
  - lia.
  - rewrite IH, (IH w). lia.
Qed.

Lemma totalWidth_cons (w : Z) (l : list Z) :
  totalWidth (w :: l) = (w + totalWidth l)%Z.
Proof. unfold totalWidth at 1. simpl. apply totalWidth_from. Qed.

(** The scaled width, before the minimum is applied again, is the integer
    quotient of [width * maxTotalWidth] by the total. *)
Lemma floor_scaled (w total : Z) :
  (0 < total)%Z ->
  Qfloor (inject_Z w * (inject_Z maxTotalWidth / inject_Z total))
  = (w * maxTotalWidth / total)%Z.
Proof.
  intros Hpos. rewrite Zdiv_Qdiv. apply Qfloor_comp.
  rewrite inject_Z_mult. field.
  intros H. apply (inject_Z_injective total 0) in H. lia.
Qed.

Lemma scaleWidth_bounds (l : list Z) (w : Z) :
  (maxTotalWidth < totalWidth l)%Z ->
  (minColWidth <= w <= maxColWidth)%Z ->
  (minColWidth <= scaleWidth (scaleFactorOf l) w <= maxColWidth)%Z.
Proof.
  intros Htot Hw. unfold scaleWidth, scaleFactorOf.
  rewrite floor_scaled by (unfold maxTotalWidth in *; lia).
  unfold minColWidth, maxColWidth, maxTotalWidth in *.
  assert (w * 1400 / totalWidth l <= w)%Z.
  { apply Z.div_le_upper_bound; nia. }
  lia.
Qed.

Lemma computeColWidths_bounds (rows : list (list string)) :
  Forall (fun w => (minColWidth <= w <= maxColWidth)%Z) (computeColWidths rows).
Proof.
  unfold computeColWidths, scaleWidths.
  pose proof (clampedWidths_bounds rows) as Hc.
  destruct (maxTotalWidth <? totalWidth (clampedWidths rows))%Z eqn:Hbig; [|exact Hc].
  apply Z.ltb_lt in Hbig.
  apply Forall_forall. intros w Hin. apply in_map_iff in Hin as [w0 [<- Hin0]].
  apply scaleWidth_bounds; [exact Hbig|].
  rewrite Forall_forall in Hc. apply Hc, Hin0.
Qed.

(** The quotients of the widths sum to at most the quotient of their sum. *)
Lemma quotients_total (total : Z) (l : list Z) :
  (0 < total)%Z ->
  (total * totalWidth (map (fun w => w * maxTotalWidth / total) l)
   <= maxTotalWidth * totalWidth l)%Z.
Proof.
  intros Hpos. induction l as [|w l IH].
  - unfold totalWidth. simpl. lia.
  - cbn [map]. rewrite !totalWidth_cons.
    pose proof (Z.mul_div_le (w * maxTotalWidth) total Hpos). nia.
Qed.

(** When no scaled width falls below the minimum, the scaled widths sum
    to at most [maxTotalWidth]. *)
Lemma scaled_total (l : list Z) :
  Forall (fun w => (minColWidth <= Qfloor (inject_Z w * scaleFactorOf l))%Z) l ->
  (totalWidth (scaleWidths l) <= maxTotalWidth)%Z.
Proof.
  intros Hno. unfold scaleWidths.
  destruct (maxTotalWidth <? totalWidth l)%Z eqn:Hbig.
  - apply Z.ltb_lt in Hbig.
    assert (Hpos : (0 < totalWidth l)%Z) by (unfold maxTotalWidth in *; lia).
    assert (Heq : map (scaleWidth (scaleFactorOf l)) l
                  = map (fun w => w * maxTotalWidth / totalWidth l)%Z l).
    { apply map_ext_in. intros w Hin. rewrite Forall_forall in Hno.
      specialize (Hno w Hin). unfold scaleWidth.
      unfold scaleFactorOf in *. rewrite floor_scaled in * by exact Hpos. lia. }
    rewrite Heq. pose proof (quotients_total (totalWidth l) l Hpos). nia.
  - apply Z.ltb_ge in Hbig. exact Hbig.
Qed.

Lemma widen_length (fontSize : Z) (ws : list Z) (row : list string) :
  List.length (widen fontSize ws row) = List.length ws.
Proof.
  revert row. induction ws as [|w ws IH]; intros row; destruct row; simpl; auto.
Qed.

Lemma measure_length (rows : list (list string)) (rowIndex : nat) (ws : list Z) :
  List.length (measure rowIndex rows ws) = List.length ws.
Proof.
  revert rowIndex ws. induction rows as [|row rows IH]; intros rowIndex ws; simpl.
  - reflexivity.
  - rewrite IH. apply widen_length.
Qed.

Lemma clampedWidths_length (rows : list (list string)) :
  List.length (clampedWidths rows) = numCols rows.
Proof.
  unfold clampedWidths, rawWidths.
  rewrite length_map, measure_length, repeat_length. reflexivity.
Qed.

(** With at most three columns no scaled width falls below the minimum. *)
Lemma few_columns_not_raised (l : list Z) :
  List.length l <= 3 ->
  Forall (fun w => (minColWidth <= w <= maxColWidth)%Z) l ->
  (maxTotalWidth < totalWidth l)%Z ->
  Forall (fun w => (minColWidth <= Qfloor (inject_Z w * scaleFactorOf l))%Z) l.
Proof.
  intros Hlen Hb Hbig.
  assert (Hpos : (0 < totalWidth l)%Z) by (unfold maxTotalWidth in *; lia).
  apply Forall_forall. intros w Hin. unfold scaleFactorOf.
  rewrite floor_scaled by exact Hpos.
  apply Z.div_le_lower_bound; [exact Hpos|].
  rewrite Forall_forall in Hb.
  pose proof (Hb w Hin) as Hw.
  unfold minColWidth, maxColWidth, maxTotalWidth in *.
  destruct l as [|a [|b [|c [|d l]]]]; simpl in Hlen; try lia;
    repeat rewrite totalWidth_cons in *; unfold totalWidth in *; simpl in *.
  - contradiction.
  - pose proof (Hb a (or_introl eq_refl)). lia.
  - pose proof (Hb a (or_introl eq_refl)).
    pose proof (Hb b (or_intror (or_introl eq_refl))). lia.
  - pose proof (Hb a (or_introl eq_refl)).
    pose proof (Hb b (or_intror (or_introl eq_refl))).
    pose proof (Hb c (or_intror (or_intror (or_introl eq_refl)))).
    destruct Hin as [<-|[<-|[<-|[]]]]; lia.
Qed.

(** C3, counterexample.  For the grid of two rows and ten one-letter
    columns every column is 150 wide before and after the scaling pass:
    the widths sum to 1500, above [maxTotalWidth]. *)
Lemma ten_columns_exceed_total :
  parseRows tenColumnsMarkdown = tenColumns
  /\ computeColWidths tenColumns = repeat 150%Z 10
  /\ totalWidth (computeColWidths tenColumns) = 1500%Z
  /\ (maxTotalWidth < totalWidth (computeColWidths tenColumns))%Z.
Proof. repeat split; vm_compute; reflexivity. Qed.

(** C3, amended.  For every grid, every computed column width lies in
    [minColWidth, maxColWidth]; after the scaling pass the widths sum to
    at most [maxTotalWidth] whenever no proportionally scaled width falls
    below [minColWidth], which is the case of every grid of at most three
    columns.  (A scaled width below the minimum is raised back to it, and
    the sum may then exceed [maxTotalWidth].) *)
Theorem column_widths_bounds :
  forall rows,
    Forall (fun w => (minColWidth <= w <= maxColWidth)%Z) (computeColWidths rows)
    /\ (Forall (fun w => (minColWidth
                          <= Qfloor (inject_Z w * scaleFactorOf (clampedWidths rows)))%Z)
               (clampedWidths rows) ->
        (totalWidth (computeColWidths rows) <= maxTotalWidth)%Z)
    /\ (numCols rows <= 3 ->
        (totalWidth (computeColWidths rows) <= maxTotalWidth)%Z).
Proof.
  intros rows. split; [apply computeColWidths_bounds|]. split.
  - intros Hno. apply scaled_total, Hno.
  - intros Hcols. unfold computeColWidths.
    destruct (maxTotalWidth <? totalWidth (clampedWidths rows))%Z eqn:Hbig.
    + apply scaled_total, few_columns_not_raised.
      * rewrite clampedWidths_length. exact Hcols.
      * apply clampedWidths_bounds.
      * apply Z.ltb_lt, Hbig.
    + unfold scaleWidths. rewrite Hbig. apply Z.ltb_ge, Hbig.
Qed.

Lemma column_widths_bounds_witness :
  computeColWidths threeWide = [466; 466; 466]%Z
  /\ (totalWidth (computeColWidths threeWide) <= maxTotalWidth)%Z
  /\ (totalWidth (computeColWidths twoByTwo) <= maxTotalWidth)%Z.
Proof.
  split; [vm_compute; reflexivity|]. split.
  - apply (proj1 (proj2 (column_widths_bounds threeWide))).
    vm_compute. repeat constructor; discriminate.
  - apply (proj2 (proj2 (column_widths_bounds twoByTwo))).
    vm_compute. lia.
Defined.

End WidthFacts.

(** ** The cursor never moves back *)

Module CursorFacts.

Import Regex Table Markdown.

Local Open Scope Q_scope.

Lemma fold_max_ge (l : list Q) (a : Q) : a <= fold_left Qmax l a.
Proof.
  revert a. induction l as [|b l IH]; intros a; simpl.
  - apply Qle_refl.
  - eapply Qle_trans; [apply (Q.le_max_l a b)|apply IH].
Qed.

Lemma fold_min_le (l : list Q) (a : Q) : fold_left Qmin l a <= a.
Proof.
  revert a. induction l as [|b l IH]; intros a; simpl.
  - apply Qle_refl.
  - eapply Qle_trans; [apply IH|apply (Q.le_min_l a b)].
Qed.

Lemma rowHeightLoop_ge (fontSize : Z) (ws : list Z) (row : list string) (h : Q) :
  h <= rowHeightLoop fontSize ws row h.
Proof.
  revert row h. induction ws as [|w ws IH]; intros row h; destruct row as [|cell row];
    simpl; try apply Qle_refl.
  eapply Qle_trans; [apply Q.le_max_l|apply IH].
Qed.

Lemma mapi_In {A B : Type} (f : nat -> A -> B) (l : list A) (i : nat) (b : B) :
  In b (mapi f i l) -> exists j a, b = f j a.
Proof.
  revert i. induction l as [|a l IH]; intros i Hin; simpl in Hin.
  - contradiction.
  - destruct Hin as [<-|Hin]; [exists i, a; reflexivity|apply (IH _ Hin)].
Qed.

Lemma computeRowHeights_nonneg (ws : list Z) (rows : list (list string)) (i : nat) :
  0 <= nth i (computeRowHeights ws rows) 0.
Proof.
  destruct (nth_in_or_default i (computeRowHeights ws rows) 0) as [Hin | ->];
    [|apply Qle_refl].
  unfold computeRowHeights in *.
  apply mapi_In in Hin as [j [row ->]].
  eapply Qle_trans; [|apply rowHeightLoop_ge]. unfold baseRowHeight. lra.
Qed.

Lemma emitCells_rectangle (rowIndex : nat) (y_ rowHeight currentX : Q)
      (ws : list Z) (row : list string) (el : Primitive) :
  In el (emitCells rowIndex y_ rowHeight currentX ws row) ->
  type el = rectangle -> height el = rowHeight.
Proof.
  revert row currentX. induction ws as [|w ws IH]; intros row currentX Hin Hty;
    destruct row as [|cell row]; simpl in Hin; try contradiction.
  destruct Hin as [<-|[<-|Hin]].
  - reflexivity.
  - discriminate.
  - apply (IH _ _ Hin Hty).
Qed.

(** Every rectangle of a table has a non-negative height. *)
Lemma table_rectangles_nonneg (tableMarkdown : string) (x0 y0 : Q) (el : Primitive) :
  In el (createVisualTableElements tableMarkdown x0 y0) ->
  type el = rectangle -> 0 <= height el.
Proof.
  unfold createVisualTableElements.
  destruct (List.length (tableLines tableMarkdown) <? 2)%nat; [contradiction|].
  destruct (List.length (parseRows tableMarkdown) =? 0)%nat; [contradiction|].
  unfold emitRows. intros Hin Hty.
  apply in_concat in Hin as [cells [Hcells Hin]].
  apply mapi_In in Hcells as [j [row ->]].
  rewrite (emitCells_rectangle _ _ _ _ _ _ _ Hin Hty).
  apply computeRowHeights_nonneg.
Qed.

Lemma tableAdvance_nonneg (tableElements : list Primitive) :
  (forall el, In el tableElements -> type el = rectangle -> 0 <= height el) ->
  0 <= tableAdvance tableElements.
Proof.
  intros Hrect. unfold tableAdvance.
  set (rects := filter (fun el => ElementType_eqb (type el) rectangle) tableElements).
  destruct ((0 <? List.length (filter _ tableElements))%nat && (0 <? List.length rects)%nat);
    [|lra].
  assert (Hr : forall el, In el rects -> 0 <= height el).
  { intros el Hin. apply filter_In in Hin as [Hin Hty].
    apply Hrect; [exact Hin|]. destruct (type el); try discriminate. reflexivity. }
  destruct rects as [|r rs]; simpl; [lra|].
  pose proof (fold_max_ge (map (fun el => y el + height el) rs) (y r + height r)).
  pose proof (fold_min_le (map y rs) (y r)).
  pose proof (Hr r (or_introl eq_refl)). lra.
Qed.

Section Monotone.

Variable host : Host.
Variable startX : Q.
Variable tableBlocks : list string.

Lemma inlineLatex_le depth latexCode currentY :
  currentY <= snd (inlineLatex host startX depth latexCode currentY).
Proof.
  unfold inlineLatex. destruct (Js.truthy _); [destruct (addFiles _ _)|];
    cbn [snd]; lra.
Qed.

Lemma inlinePart_le depth part currentY :
  currentY <= snd (inlinePart host startX depth part currentY).
Proof.
  unfold inlinePart. destruct (partType part); [|apply inlineLatex_le].
  destruct (Js.truthy _); cbn [snd]; lra.
Qed.

Lemma inlineParts_le depth parts currentY :
  currentY <= snd (inlineParts host startX depth parts currentY).
Proof.
  revert currentY. induction parts as [|part parts IH]; intros currentY;
    cbn [inlineParts].
  - apply Qle_refl.
  - pose proof (inlinePart_le depth part currentY) as H1.
    destruct (inlinePart host startX depth part currentY) as [els y1].
    pose proof (IH y1) as H2.
    destruct (inlineParts host startX depth parts y1) as [els' y2].
    cbn [snd] in *. lra.
Qed.

Lemma raiseTo_ge (maxY : Q) (e : Element) : maxY <= raiseTo maxY e.
Proof.
  unfold raiseTo. destruct (Qle_bool (elementBottom e) maxY) eqn:E.
  - apply Qle_refl.
  - apply Qlt_le_weak, Qnot_le_lt. intros H.
    apply Qle_bool_iff in H. congruence.
Qed.

Lemma fold_raiseTo_ge (l : list Element) (maxY : Q) :
  maxY <= fold_left raiseTo l maxY.
Proof.
  revert maxY. induction l as [|e l IH]; intros maxY; simpl.
  - apply Qle_refl.
  - eapply Qle_trans; [apply raiseTo_ge|apply IH].
Qed.

Lemma mermaidBranch_le depth htmlContent currentY :
  currentY <= snd (mermaidBranch host startX depth htmlContent currentY).
Proof.
  unfold mermaidBranch.
  destruct (mermaidToExcalidraw host _) as [message|elements]; cbn [snd]; [lra|].
  destruct (0 <? List.length elements)%nat; cbn [snd]; [|lra].
  pose proof (fold_raiseTo_ge
                (map (place (indent startX depth) currentY) elements) currentY).
  lra.
Qed.

Lemma latexBranch_le depth htmlContent currentY :
  currentY <= snd (latexBranch host startX depth htmlContent currentY).
Proof.
  unfold latexBranch. destruct (Js.truthy _); [destruct (addFiles _ _)|];
    cbn [snd]; lra.
Qed.

Lemma htmlTable_le errorId depth htmlTableContent currentY :
  currentY <= snd (htmlTable startX errorId depth htmlTableContent currentY).
Proof.
  unfold htmlTable. destruct (Js.truthy _); cbn [snd]; [|lra].
  pose proof (tableAdvance_nonneg _
                (table_rectangles_nonneg
                   (convertHtmlTableToMarkdown htmlTableContent)
                   (indent startX depth) currentY)).
  lra.
Qed.

Lemma plainHtml_le depth htmlContent currentY :
  currentY <= snd (plainHtml startX depth htmlContent currentY).
Proof. unfold plainHtml. destruct (Js.truthy _); cbn [snd]; lra. Qed.

Lemma htmlBranch_le depth htmlContent currentY :
  currentY <= snd (htmlBranch host startX depth htmlContent currentY).
Proof.
  unfold htmlBranch. destruct (htmlCase htmlContent).
  - apply mermaidBranch_le.
  - apply latexBranch_le.
  - apply mermaidBranch_le.
  - apply htmlTable_le.
  - apply plainHtml_le.
Qed.

Lemma paragraphLoop_le depth children acc special currentY :
  currentY <= snd (paragraphLoop host startX depth children acc special currentY).
Proof.
  revert acc special currentY.
  induction children as [|child children IH]; intros acc special currentY;
    cbn [paragraphLoop].
  - apply Qle_refl.
  - destruct child; try apply IH.
    + pose proof (htmlBranch_le depth value currentY) as H1.
      destruct (htmlBranch host startX depth value currentY) as [els y1].
      cbn [snd] in H1. eapply Qle_trans; [exact H1|apply IH].
    + pose proof (inlineParts_le depth (latexParts value) currentY) as H1.
      destruct (inlineParts host startX depth (latexParts value) currentY) as [els y1].
      cbn [snd] in H1. eapply Qle_trans; [exact H1|apply IH].
Qed.

Lemma paragraphBranch_le depth node children currentY :
  currentY <= snd (paragraphBranch host startX depth node children currentY).
Proof.
  unfold paragraphBranch.
  pose proof (paragraphLoop_le depth children [] false currentY) as H1.
  destruct (paragraphLoop host startX depth children [] false currentY)
    as [[els special] y1].
  cbn [snd] in H1. destruct special; cbn [snd]; [exact H1|].
  destruct (Js.truthy _); cbn [snd]; lra.
Qed.

Lemma headingBranch_le depth node level currentY :
  currentY <= snd (headingBranch startX depth node level currentY).
Proof.
  unfold headingBranch. cbn [snd].
  assert (0 <= inject_Z (Z.max 12 (20 - level * 2))).
  { change 0 with (inject_Z 0). rewrite <- Zle_Qle. lia. }
  lra.
Qed.

Lemma tableBranch_le depth rows currentY :
  currentY <= snd (tableBranch startX depth rows currentY).
Proof.
  unfold tableBranch. cbn [snd].
  match goal with
  | |- _ <= _ + tableAdvance (createVisualTableElements ?md ?x0 ?y0) =>
      pose proof (tableAdvance_nonneg _ (table_rectangles_nonneg md x0 y0))
  end.
  lra.
Qed.

Lemma textBranch_le depth value currentY :
  currentY <= snd (textBranch startX tableBlocks depth value currentY).
Proof.
  unfold textBranch. destruct (tableMatch value); cbn [snd]; [|lra].
  destruct (_ <? _)%nat; [apply htmlTable_le|apply Qle_refl].
Qed.

(** No branch of [traverse] moves the cursor back. *)
Lemma traverse_le (node : Node) :
  forall depth currentY,
    currentY <= snd (traverse host startX tableBlocks node depth currentY).
Proof.
  induction node as
      [level children IH | children IH | value | rows IH | | children IH
       | parent children IH | value | children IH | value | ];
    intros depth currentY; cbn [traverse].
  - apply headingBranch_le.
  - apply paragraphBranch_le.
  - apply htmlBranch_le.
  - apply tableBranch_le.
  - cbn [snd]. lra.
  - revert currentY. induction IH as [|child Hchild rest _ IHrest]; intros currentY.
    + apply Qle_refl.
    + pose proof (Hchild (S depth) currentY) as H1.
      destruct (traverse host startX tableBlocks child (S depth) currentY) as [els y1].
      pose proof (IHrest y1) as H2.
      match type of H2 with _ <= snd ?w => destruct w as [els' y2] end.
      cbn [snd] in *. lra.
  - unfold listItemBranch. cbn [snd]. lra.
  - apply textBranch_le.
  - revert currentY. induction IH as [|child Hchild rest _ IHrest]; intros currentY.
    + apply Qle_refl.
    + pose proof (Hchild (S depth) currentY) as H1.
      destruct (traverse host startX tableBlocks child (S depth) currentY) as [els y1].
      pose proof (IHrest y1) as H2.
      match type of H2 with _ <= snd ?w => destruct w as [els' y2] end.
      cbn [snd] in *. lra.
  - apply Qle_refl.
  - apply Qle_refl.
Qed.

Lemma topLevel_trace (children : list Node) :
  forall currentY,
    Forall (Qle currentY) (map fst (fst (topLevel host startX tableBlocks children currentY)))
    /\ StronglySorted Qle
         (map fst (fst (topLevel host startX tableBlocks children currentY)))
    /\ currentY <= snd (topLevel host startX tableBlocks children currentY).
Proof.
  induction children as [|child rest IH]; intros currentY; cbn [topLevel].
  - repeat split; [constructor|constructor|apply Qle_refl].
  - pose proof (traverse_le child 0%nat currentY) as H1.
    destruct (traverse host startX tableBlocks child 0 currentY) as [els y1].
    destruct (IH y1) as [Hall [Hsorted Hfinal]].
    destruct (topLevel host startX tableBlocks rest y1) as [steps y2].
    cbn [fst snd map] in *.
    assert (Hall' : Forall (Qle currentY) (map fst steps)).
    { eapply Forall_impl; [|exact Hall]. intros a Ha. cbn beta in Ha. lra. }
    repeat split.
    + constructor; [apply Qle_refl|exact Hall'].
    + constructor; [exact Hsorted|exact Hall'].
    + lra.
Qed.

End Monotone.

(** C7.  For every document tree, host and starting position, no node
    makes [traverse] return a cursor below the one it received, and the
    values of [currentY] read at the start of the top-level children form
    a non-decreasing sequence: each is at most every later one. *)
Theorem cursor_never_decreases :
  forall host tree startX startY tableBlocks,
    (forall node depth currentY,
        currentY <= snd (traverse host startX tableBlocks node depth currentY))
    /\ StronglySorted Qle (cursorTrace host tree startX startY tableBlocks).
Proof.
  intros host tree startX startY tableBlocks. split.
  - intros node. apply traverse_le.
  - unfold cursorTrace. apply topLevel_trace.
Qed.

End CursorFacts.

(** ** Strings *)

Module StringFacts.

Lemma append_nil_r (s : string) : s ++ "" = s.
Proof. induction s as [|c s IH]; simpl; [reflexivity|rewrite IH; reflexivity]. Qed.

Lemma append_assoc (a b c : string) : (a ++ b) ++ c = a ++ (b ++ c).
Proof. induction a as [|x a IH]; simpl; [reflexivity|rewrite IH; reflexivity]. Qed.

Lemma length_append (a b : string) :
  String.length (a ++ b) = String.length a + String.length b.
Proof. induction a as [|x a IH]; simpl; [reflexivity|rewrite IH; reflexivity]. Qed.

Lemma includes_cons (p : string) (c : ascii) (s : string) :
  Js.includes p (String c s) = false ->
  Js.startsWith p (String c s) = false /\ Js.includes p s = false.
Proof. cbn [Js.includes]. intros H. apply orb_false_iff in H. exact H. Qed.

(** A pattern that opens with [<] and has no other [<] cannot start in a
    text and run over into a following [<]. *)
Lemma startsWith_before_lt (q u rest : string) :
  Js.all (fun c => negb (Ascii.eqb c "<")) q = true ->
  Js.startsWith q (u ++ String "<" rest) = true ->
  Js.startsWith q u = true.
Proof.
  revert u. induction q as [|a q IH]; intros u Hq H; [reflexivity|].
  cbn [Js.all] in Hq. apply andb_true_iff in Hq as [Ha Hq].
  destruct u as [|b u]; cbn [append Js.startsWith] in *.
  - apply andb_true_iff in H as [H _]. rewrite H in Ha. discriminate.
  - apply andb_true_iff in H as [Hab H]. rewrite Hab. apply (IH _ Hq H).
Qed.

Lemma startsWith_tag_border (q : string) (c : ascii) (u rest : string) :
  Js.all (fun c => negb (Ascii.eqb c "<")) q = true ->
  Js.startsWith (String "<" q) (String c u) = false ->
  Js.startsWith (String "<" q) (String c u ++ String "<" rest) = false.
Proof.
  intros Hq Hno. destruct (Js.startsWith _ (_ ++ _)) eqn:E; [|reflexivity].
  cbn [append Js.startsWith] in *.
  apply andb_true_iff in E as [Ec E].
  rewrite Ec, (startsWith_before_lt q u rest Hq E) in Hno. discriminate.
Qed.

End StringFacts.

(** ** The text segmenter *)

Module SegmenterFacts.

Import Regex Markdown Markers StringFacts.

(** The fused loop is the loop of the source on the pieces of the scan. *)
Lemma partsOf_scan (s : string) :
  forall skip offset prev pending,
    partsOf pending (scan latexRegex skip offset prev s) = segment skip pending s.
Proof.
  induction s as [|c s IH]; intros skip offset prev pending; cbn [scan segment].
  - reflexivity.
  - destruct skip as [|k]; [|apply IH].
    change (latexRegex prev (String c s)) with (latexRegex None (String c s)).
    destruct (latexRegex None (String c s)) as [[match1 len]|]; cbn [partsOf].
    + rewrite IH. reflexivity.
    + apply IH.
Qed.

Lemma latexParts_segment (s : string) : latexParts s = segment 0 "" s.
Proof. unfold latexParts, pieces. apply partsOf_scan. Qed.

Lemma segment_skip (w rest pending : string) :
  segment (String.length w) pending (w ++ rest) = segment 0 pending rest.
Proof.
  induction w as [|c w IH]; cbn [String.length append segment].
  - destruct rest; reflexivity.
  - exact IH.
Qed.

(** No match starts inside a plain text that is followed by a tag. *)
Lemma latexRegex_in_text (c : ascii) (u rest : string) :
  Js.includes "<latex>" (String c u) = false ->
  latexRegex None (String c u ++ String "<" rest) = None.
Proof.
  intros H. apply includes_cons in H as [H _]. unfold latexRegex.
  rewrite (startsWith_tag_border "latex>" c u rest eq_refl H). reflexivity.
Qed.

Lemma segment_text (t rest pending : string) :
  Js.includes "<latex>" t = false ->
  segment 0 pending (t ++ String "<" rest)
  = segment 0 (pending ++ t) (String "<" rest).
Proof.
  revert pending. induction t as [|c t IH]; intros pending H.
  - rewrite append_nil_r. reflexivity.
  - change (String c t ++ String "<" rest) with (String c (t ++ String "<" rest)).
    cbn [segment].
    change (String c (t ++ String "<" rest)) with (String c t ++ String "<" rest).
    rewrite (latexRegex_in_text c t rest H).
    apply includes_cons in H as [_ H]. rewrite (IH _ H).
    unfold Js.str. rewrite append_assoc. reflexivity.
Qed.

Lemma segment_tail (t pending : string) :
  Js.includes "<latex>" t = false ->
  segment 0 pending t = textSlice (pending ++ t).
Proof.
  revert pending. induction t as [|c t IH]; intros pending H.
  - rewrite append_nil_r. reflexivity.
  - cbn [segment]. destruct (includes_cons _ _ _ H) as [H1 H2].
    unfold latexRegex. rewrite H1. rewrite (IH _ H2).
    unfold Js.str. rewrite append_assoc. reflexivity.
Qed.

Lemma closeLatex_in_source (c : ascii) (u rest : string) :
  Js.includes "</latex>" (String c u) = false ->
  closeLatex (String c u ++ String "<" rest) = None.
Proof.
  intros H. apply includes_cons in H as [H _]. unfold closeLatex.
  rewrite (startsWith_tag_border "/latex>" c u rest eq_refl H). reflexivity.
Qed.

(** The lazy capture stops at the closing tag that ends the source. *)
Lemma lazyUntil_source (e rest : string) :
  Js.all notLineTerminator e = true ->
  Js.includes "</latex>" e = false ->
  lazyUntil notLineTerminator closeLatex (e ++ "</latex>" ++ rest)
  = Some (e, String.length e + 8).
Proof.
  induction e as [|c e IH]; intros Hall Hno.
  - reflexivity.
  - change (String c e ++ "</latex>" ++ rest)
      with (String c (e ++ "</latex>" ++ rest)).
    cbn [lazyUntil].
    change (String c (e ++ "</latex>" ++ rest))
      with (String c e ++ String "<" ("/latex>" ++ rest)).
    rewrite (closeLatex_in_source c e _ Hno).
    cbn [Js.all] in Hall. apply andb_true_iff in Hall as [Hc Hall]. rewrite Hc.
    apply includes_cons in Hno as [_ Hno].
    change (e ++ String "<" ("/latex>" ++ rest)) with (e ++ "</latex>" ++ rest).
    rewrite (IH Hall Hno). reflexivity.
Qed.

Lemma latexRegex_marker (e rest : string) :
  equationSource e = true ->
  latexRegex None ("<latex>" ++ e ++ "</latex>" ++ rest)
  = Some (e, 7 + (String.length e + 8)).
Proof.
  unfold equationSource. intros H. apply andb_true_iff in H as [Hall Hno].
  apply negb_true_iff in Hno. unfold latexRegex.
  change (Js.startsWith "<latex>" ("<latex>" ++ e ++ "</latex>" ++ rest)) with true.
  change (Js.drop 7 ("<latex>" ++ e ++ "</latex>" ++ rest))
    with (e ++ "</latex>" ++ rest).
  cbv iota. rewrite (lazyUntil_source e rest Hall Hno). reflexivity.
Qed.

Lemma segment_marker (e rest pending : string) :
  equationSource e = true ->
  segment 0 pending ("<latex>" ++ e ++ "</latex>" ++ rest)
  = (textSlice pending ++ mkPart latexPart (Js.trim e) :: segment 0 "" rest)%list.
Proof.
  intros He.
  change ("<latex>" ++ e ++ "</latex>" ++ rest)
    with (String "<" ("latex>" ++ e ++ "</latex>" ++ rest)).
  cbn [segment].
  change (String "<" ("latex>" ++ e ++ "</latex>" ++ rest))
    with ("<latex>" ++ e ++ "</latex>" ++ rest).
  rewrite (latexRegex_marker e rest He).
  replace (Nat.pred (7 + (String.length e + 8)))
    with (String.length ("latex>" ++ e ++ "</latex>")).
  - rewrite <- (segment_skip ("latex>" ++ e ++ "</latex>") rest "").
    rewrite !append_assoc. reflexivity.
  - rewrite !length_append. cbn [String.length]. lia.
Qed.

(** The segments of a well-formed blob. *)
Lemma latexParts_blob (marked : list (string * string)) (tail : string) :
  wellFormed marked tail = true ->
  latexParts (blob marked tail) = expectedParts marked tail.
Proof.
  rewrite latexParts_segment. unfold wellFormed. intros H.
  apply andb_true_iff in H as [Hm Ht].
  induction marked as [|[t e] marked IH]; cbn [blob expectedParts].
  - apply negb_true_iff in Ht. apply (segment_tail tail "" Ht).
  - cbn [forallb fst snd] in Hm.
    apply andb_true_iff in Hm as [Hte Hm]. apply andb_true_iff in Hte as [Hpt He].
    apply negb_true_iff in Hpt.
    change ("<latex>" ++ e ++ "</latex>" ++ blob marked tail)
      with (String "<" ("latex>" ++ e ++ "</latex>" ++ blob marked tail)).
    rewrite (segment_text t _ "" Hpt).
    change (String "<" ("latex>" ++ e ++ "</latex>" ++ blob marked tail))
      with ("<latex>" ++ e ++ "</latex>" ++ blob marked tail).
    rewrite (segment_marker e _ _ He). cbn [append].
    rewrite (IH Hm). reflexivity.
Qed.

Lemma textSlice_length (s : string) : List.length (textSlice s) <= 1.
Proof. unfold textSlice. destruct (Js.truthy s); simpl; lia. Qed.

Lemma textSlice_truthy (s : string) :
  Js.truthy s = true -> textSlice s = [mkPart textPart s].
Proof. unfold textSlice. intros ->. reflexivity. Qed.

Lemma textSlice_latex (s : string) : filter isLatex (textSlice s) = [].
Proof. unfold textSlice. destruct (Js.truthy s); reflexivity. Qed.

Lemma textSlice_content (s : string) :
  Js.concat (map partContent (textSlice s)) = s.
Proof. unfold textSlice. destruct s; reflexivity. Qed.

Lemma concat_cons (w : string) (l : list string) :
  Js.concat (w :: l) = w ++ Js.concat l.
Proof.
  unfold Js.concat. destruct l as [|v l]; cbn [Js.join append].
  - rewrite append_nil_r. reflexivity.
  - reflexivity.
Qed.

Lemma concat_app (l1 l2 : list string) :
  Js.concat (l1 ++ l2) = Js.concat l1 ++ Js.concat l2.
Proof.
  induction l1 as [|w l1 IH]; [reflexivity|].
  rewrite <- app_comm_cons, !concat_cons, IH, append_assoc. reflexivity.
Qed.

Lemma expectedParts_length (marked : list (string * string)) (tail : string) :
  List.length marked <= List.length (expectedParts marked tail)
  /\ List.length (expectedParts marked tail) <= 2 * List.length marked + 1.
Proof.
  induction marked as [|[t e] marked [IH1 IH2]]; cbn [expectedParts List.length].
  - pose proof (textSlice_length tail). lia.
  - rewrite length_app. cbn [List.length]. pose proof (textSlice_length t). lia.
Qed.

Lemma expectedParts_full (marked : list (string * string)) (tail : string) :
  forallb (fun te => Js.truthy (fst te)) marked = true ->
  Js.truthy tail = true ->
  List.length (expectedParts marked tail) = 2 * List.length marked + 1.
Proof.
  intros Hm Ht. induction marked as [|[t e] marked IH]; cbn [expectedParts List.length].
  - rewrite (textSlice_truthy _ Ht). reflexivity.
  - cbn [forallb fst] in Hm. apply andb_true_iff in Hm as [Hne Hm].
    rewrite (textSlice_truthy _ Hne). cbn [app List.length]. rewrite (IH Hm). lia.
Qed.

Lemma expectedParts_equations (marked : list (string * string)) (tail : string) :
  map partContent (filter isLatex (expectedParts marked tail))
  = map (fun te => Js.trim (snd te)) marked.
Proof.
  induction marked as [|[t e] marked IH]; cbn [expectedParts].
  - rewrite textSlice_latex. reflexivity.
  - rewrite filter_app, textSlice_latex. cbn [app filter isLatex partType map partContent snd].
    rewrite IH. reflexivity.
Qed.

Lemma expectedParts_content (marked : list (string * string)) (tail : string) :
  Js.concat (map partContent (expectedParts marked tail)) = stripped marked tail.
Proof.
  induction marked as [|[t e] marked IH]; cbn [expectedParts stripped].
  - apply textSlice_content.
  - rewrite map_app, concat_app, textSlice_content.
    cbn [map partContent]. rewrite concat_cons, IH. reflexivity.
Qed.

(** C8, counterexample.  One marker and nothing around it gives one
    segment, not three; two adjacent markers give two equation segments
    in a row; and the white space inside the tags is not part of the
    content of the equation segment. *)
Lemma segments_counterexample :
  latexParts (blob [("", "x")] "") = [mkPart latexPart "x"]
  /\ List.length (latexParts (blob [("", "x")] "")) = 1
  /\ latexParts (blob [("", "x"); ("", "y")] "")
     = [mkPart latexPart "x"; mkPart latexPart "y"]
  /\ Js.concat (map partContent (latexParts (blob [("a", " x ")] "b"))) = "axb".
Proof. repeat split; vm_compute; reflexivity. Qed.

(** C8, amended.  For every text blob made of [N] well-formed markers
    (no opening tag in the text around them, no line terminator and no
    closing tag in their source), the segmenter returns, in original
    order, the non-empty texts before, between and after the markers and
    one equation segment per marker, its content trimmed: [N] equation
    segments, between [N] and [2N+1] segments in all, exactly [2N+1] when
    no text is empty; the contents concatenated give the blob without its
    tags, each equation trimmed. *)
Theorem segments_of_well_formed_blob :
  forall marked tail,
    wellFormed marked tail = true ->
    let parts := latexParts (blob marked tail) in
    let N := List.length marked in
    parts = expectedParts marked tail
    /\ map partContent (filter isLatex parts) = map (fun te => Js.trim (snd te)) marked
    /\ N <= List.length parts <= 2 * N + 1
    /\ (forallb (fun te => Js.truthy (fst te)) marked = true ->
        Js.truthy tail = true -> List.length parts = 2 * N + 1)
    /\ Js.concat (map partContent parts) = stripped marked tail.
Proof.
  intros marked tail Hwf. cbv zeta. rewrite (latexParts_blob marked tail Hwf).
  split; [reflexivity|]. split; [apply expectedParts_equations|].
  split; [apply expectedParts_length|]. split; [apply expectedParts_full|].
  apply expectedParts_content.
Qed.

Lemma segments_of_well_formed_blob_witness :
  latexParts "Energy: <latex>E=mc^2</latex> is conserved."
  = [mkPart textPart "Energy: "; mkPart latexPart "E=mc^2";
     mkPart textPart " is conserved."].
Proof.
  exact (proj1 (segments_of_well_formed_blob
                  [("Energy: ", "E=mc^2")] " is conserved." eq_refl)).
Defined.

End SegmenterFacts.

(** ** The bracket-quoting preprocessor *)

Module QuotingFacts.

Import Regex Mermaid Quoting StringFacts Scenario.

(** *** Characters kept by the string operations *)

Lemma all_append (p : ascii -> bool) (a b : string) :
  Js.all p (a ++ b) = Js.all p a && Js.all p b.
Proof.
  induction a as [|c a IH]; cbn [append Js.all]; [reflexivity|].
  rewrite IH, andb_assoc. reflexivity.
Qed.

Lemma all_impl (p q : ascii -> bool) (s : string) :
  (forall c, p c = true -> q c = true) -> Js.all p s = true -> Js.all q s = true.
Proof.
  intros Hpq. induction s as [|c s IH]; cbn [Js.all]; [reflexivity|].
  intros H. apply andb_true_iff in H as [Hc Hs].
  rewrite (Hpq _ Hc), (IH Hs). reflexivity.
Qed.

Lemma all_trimStart (p : ascii -> bool) (s : string) :
  Js.all p s = true -> Js.all p (Js.trimStart s) = true.
Proof.
  induction s as [|c s IH]; cbn [Js.trimStart Js.all]; [reflexivity|].
  intros H. destruct (Js.isWhiteSpace c); [|exact H].
  apply andb_true_iff in H as [_ H]. apply (IH H).
Qed.

Lemma all_trimEnd (p : ascii -> bool) (s : string) :
  Js.all p s = true -> Js.all p (Js.trimEnd s) = true.
Proof.
  induction s as [|c s IH]; cbn [Js.trimEnd Js.all]; [reflexivity|].
  intros H. apply andb_true_iff in H as [Hc H].
  destruct (Js.isWhiteSpace c && Js.isEmpty (Js.trimEnd s)); [reflexivity|].
  cbn [Js.all]. rewrite Hc, (IH H). reflexivity.
Qed.

Lemma all_trim (p : ascii -> bool) (s : string) :
  Js.all p s = true -> Js.all p (Js.trim s) = true.
Proof. intros H. apply all_trimEnd, all_trimStart, H. Qed.

Lemma all_span_fst (p q : ascii -> bool) (s : string) :
  Js.all p s = true -> Js.all p (fst (Js.span q s)) = true.
Proof.
  induction s as [|c s IH]; cbn [Js.span]; [reflexivity|].
  intros H. cbn [Js.all] in H. apply andb_true_iff in H as [Hc H].
  destruct (q c); [|reflexivity].
  specialize (IH H). destruct (Js.span q s) as [a b].
  cbn [fst Js.all] in *. rewrite Hc, IH. reflexivity.
Qed.

Lemma span_fst_all (q : ascii -> bool) (s : string) :
  Js.all q (fst (Js.span q s)) = true.
Proof.
  induction s as [|c s IH]; cbn [Js.span]; [reflexivity|].
  destruct (q c) eqn:Hc; [|reflexivity].
  destruct (Js.span q s) as [a b]. cbn [fst Js.all] in *.
  rewrite Hc, IH. reflexivity.
Qed.

Lemma span_append (q : ascii -> bool) (s : string) :
  fst (Js.span q s) ++ snd (Js.span q s) = s.
Proof.
  induction s as [|c s IH]; cbn [Js.span]; [reflexivity|].
  destruct (q c); [|reflexivity].
  destruct (Js.span q s) as [a b]. cbn [fst snd append] in *.
  rewrite IH. reflexivity.
Qed.

Lemma span_all_whole (q : ascii -> bool) (s : string) :
  Js.all q s = true -> Js.span q s = (s, "").
Proof.
  induction s as [|c s IH]; cbn [Js.span Js.all]; [reflexivity|].
  intros H. apply andb_true_iff in H as [Hc H]. rewrite Hc, (IH H). reflexivity.
Qed.

Lemma span_stop (q : ascii -> bool) (m : string) (c : ascii) (rest : string) :
  Js.all q m = true -> q c = false ->
  Js.span q (m ++ String c rest) = (m, String c rest).
Proof.
  intros Hm Hc. induction m as [|x m IH]; cbn [append Js.span].
  - rewrite Hc. reflexivity.
  - cbn [Js.all] in Hm. apply andb_true_iff in Hm as [Hx Hm].
    rewrite Hx, (IH Hm). reflexivity.
Qed.

(** A global replacement by a fixed string. *)
Lemma all_replace_constant {M : Type} (mt : matcher M) (by_ : string)
      (p : ascii -> bool) (s : string) :
  Js.all p by_ = true -> Js.all p s = true ->
  Js.all p (replace mt (fun _ _ => by_) s) = true.
Proof.
  intros Hby. unfold replace, pieces. generalize 0 at 1. generalize 0. generalize (@None ascii).
  induction s as [|c s IH]; intros prev offset skip H; cbn [scan rebuild]; [reflexivity|].
  cbn [Js.all] in H. apply andb_true_iff in H as [Hc H].
  destruct skip as [|k]; [|apply (IH _ _ _ H)].
  destruct (mt prev (String c s)) as [[m len]|]; cbn [rebuild].
  - rewrite all_append, Hby. apply (IH _ _ _ H).
  - cbn [Js.all]. rewrite Hc. apply (IH _ _ _ H).
Qed.

Lemma all_escapeContent (p : ascii -> bool) (m : string) :
  Js.all p "&amp;&lt;&gt;&quot;&#39;" = true ->
  Js.all p m = true -> Js.all p (escapeContent m) = true.
Proof.
  intros He Hm. unfold escapeContent, replaceLiteral.
  cbn [Js.all] in He.
  repeat match type of He with
         | (_ && _) = true => apply andb_true_iff in He; destruct He as [? He]
         end.
  apply all_trim.
  repeat (apply all_replace_constant;
          [cbn [Js.all]; repeat (apply andb_true_iff; split); (assumption || reflexivity)|]).
  exact Hm.
Qed.

(** *** The expression of one kind of bracket *)

Section Kind.

Variables open close : ascii.

Lemma span_snd_head (q : ascii -> bool) (s : string) (x : ascii) (r : string) :
  snd (Js.span q s) = String x r -> q x = false.
Proof.
  induction s as [|c s IH]; cbn [Js.span]; [discriminate|].
  destruct (q c) eqn:Hc.
  - destruct (Js.span q s) as [a b]. cbn [snd] in *. exact IH.
  - cbn [snd]. intros H. injection H as -> _. exact Hc.
Qed.

(** What a match is: the opening character, a non-empty content free of
    the closing character, the closing character. *)
Lemma bracketed_some (prev : option ascii) (s m : string) (len : nat) :
  bracketed open close prev s = Some (m, len) ->
  exists rest,
    s = String open (m ++ String close rest)
    /\ Js.truthy m = true /\ Js.all (Js.isNot close) m = true
    /\ len = 2 + String.length m.
Proof.
  unfold bracketed. destruct s as [|ch s']; [discriminate|].
  destruct (Ascii.eqb ch open) eqn:Hch; [|discriminate].
  apply Ascii.eqb_eq in Hch. subst ch.
  pose proof (span_append (Js.isNot close) s') as Happ.
  pose proof (span_fst_all (Js.isNot close) s') as Hall.
  pose proof (span_snd_head (Js.isNot close) s') as Hhead.
  destruct (Js.span (Js.isNot close) s') as [inner rest].
  cbn [fst snd] in *.
  destruct inner as [|i inner]; [discriminate|].
  destruct rest as [|x rest]; [discriminate|].
  intros H. injection H as <- <-.
  specialize (Hhead x rest eq_refl). unfold Js.isNot in Hhead.
  apply negb_false_iff, Ascii.eqb_eq in Hhead.
  subst x. exists rest. rewrite Happ. repeat split. exact Hall.
Qed.

Lemma bracketed_match (prev : option ascii) (m rest : string) :
  Js.truthy m = true -> Js.all (Js.isNot close) m = true ->
  bracketed open close prev (String open (m ++ String close rest))
  = Some (m, 2 + String.length m).
Proof.
  intros Hne Hall. unfold bracketed. rewrite Ascii.eqb_refl.
  rewrite (span_stop (Js.isNot close) m close rest Hall)
    by (unfold Js.isNot; rewrite Ascii.eqb_refl; reflexivity).
  destruct m; [discriminate|reflexivity].
Qed.

(** Without a closing character further on, nothing matches. *)
Lemma bracketed_no_close (prev : option ascii) (ch : ascii) (s : string) :
  Js.all (Js.isNot close) s = true -> bracketed open close prev (String ch s) = None.
Proof.
  intros Hall. unfold bracketed. destruct (Ascii.eqb ch open); [|reflexivity].
  rewrite (span_all_whole _ s Hall). destruct s; reflexivity.
Qed.

Lemma bracketed_not_open (prev : option ascii) (ch : ascii) (s : string) :
  Ascii.eqb ch open = false -> bracketed open close prev (String ch s) = None.
Proof. intros H. unfold bracketed. rewrite H. reflexivity. Qed.

(** An opening character directly followed by the closing one. *)
Lemma bracketed_empty (prev : option ascii) (ch : ascii) (s : string) :
  bracketed open close prev (String ch (String close s)) = None.
Proof.
  unfold bracketed. destruct (Ascii.eqb ch open); [|reflexivity].
  cbn [Js.span]. unfold Js.isNot. rewrite Ascii.eqb_refl. reflexivity.
Qed.

Section Rewrite.

Variable g : string -> string.

Lemma rewriteWith_skip (w rest : string) :
  rewriteWith open close g (String.length w) (w ++ rest)
  = rewriteWith open close g 0 rest.
Proof.
  induction w as [|c w IH]; cbn [String.length append rewriteWith].
  - destruct rest; reflexivity.
  - exact IH.
Qed.

Lemma rewriteWith_hit (m rest : string) :
  Js.truthy m = true -> Js.all (Js.isNot close) m = true ->
  rewriteWith open close g 0 (String open (m ++ String close rest))
  = g m ++ rewriteWith open close g 0 rest.
Proof.
  intros Hne Hall. cbn [rewriteWith].
  rewrite (bracketed_match None m rest Hne Hall). cbn [Nat.pred plus].
  replace (S (String.length m)) with (String.length (m ++ String close "")).
  - replace (m ++ String close rest) with ((m ++ String close "") ++ rest).
    + rewrite rewriteWith_skip. reflexivity.
    + rewrite append_assoc. reflexivity.
  - rewrite length_append. cbn [String.length]. lia.
Qed.

Lemma rewriteWith_lit (ch : ascii) (s : string) :
  bracketed open close None (String ch s) = None ->
  rewriteWith open close g 0 (String ch s)
  = String ch (rewriteWith open close g 0 s).
Proof. intros H. cbn [rewriteWith]. rewrite H. reflexivity. Qed.

Lemma rewriteWith_no_close (s : string) :
  Js.all (Js.isNot close) s = true -> rewriteWith open close g 0 s = s.
Proof.
  induction s as [|ch s IH]; intros Hall; [reflexivity|].
  cbn [Js.all] in Hall. apply andb_true_iff in Hall as [_ Hall].
  rewrite rewriteWith_lit by (apply bracketed_no_close, Hall).
  rewrite (IH Hall). reflexivity.
Qed.

Lemma rewriteWith_no_open (s : string) :
  Js.all (Js.isNot open) s = true ->
  rewriteWith open close g 0 s = s.
Proof.
  induction s as [|ch s IH]; intros Hall; [reflexivity|].
  cbn [Js.all] in Hall. apply andb_true_iff in Hall as [Hch Hall].
  unfold Js.isNot in Hch. apply negb_true_iff in Hch.
  rewrite rewriteWith_lit by (apply bracketed_not_open, Hch).
  rewrite (IH Hall). reflexivity.
Qed.

(** The characters of the result: those of the text and those that [g]
    adds. *)
Lemma all_rewriteWith (p : ascii -> bool) (s : string) :
  (forall m, Js.all p m = true -> Js.all p (g m) = true) ->
  Js.all p s = true ->
  forall skip, Js.all p (rewriteWith open close g skip s) = true.
Proof.
  intros Hg. induction s as [|ch s IH]; intros Hall skip; [reflexivity|].
  cbn [Js.all] in Hall. apply andb_true_iff in Hall as [Hch Hall].
  cbn [rewriteWith]. destruct skip as [|k]; [|apply (IH Hall)].
  destruct (bracketed open close None (String ch s)) as [[m len]|] eqn:E.
  - rewrite all_append, (IH Hall), andb_true_r. apply Hg.
    unfold bracketed in E. destruct (Ascii.eqb ch open); [|discriminate].
    pose proof (all_span_fst p (Js.isNot close) s Hall) as Hm.
    destruct (Js.span (Js.isNot close) s) as [inner rest].
    destruct inner; [discriminate|]. destruct rest; [discriminate|].
    injection E as <- _. exact Hm.
  - cbn [Js.all]. rewrite Hch. apply (IH Hall).
Qed.

End Rewrite.

(** Replacing every match by itself changes nothing. *)
Lemma rewriteWith_wrap (s : string) :
  forall skip, rewriteWith open close (wrap open close) skip s = Js.drop skip s.
Proof.
  induction s as [|ch s IH]; intros skip.
  - destruct skip; reflexivity.
  - cbn [rewriteWith]. destruct skip as [|k]; [|apply IH].
    destruct (bracketed open close None (String ch s)) as [[m len]|] eqn:E.
    + apply bracketed_some in E as [rest [Hs [_ [_ ->]]]].
      injection Hs as -> ->. rewrite IH. cbn [Nat.pred plus].
      replace (Js.drop (S (String.length m)) (m ++ String close rest)) with rest.
      * unfold wrap, Js.str. cbn [append Js.drop]. rewrite append_assoc. reflexivity.
      * clear. induction m as [|x m IHm]; [reflexivity|exact IHm].
    + rewrite IH. reflexivity.
Qed.

Section Hits.

Variable P : string -> bool.

Lemma allHits_skip (w rest : string) :
  allHits open close P (String.length w) (w ++ rest) = allHits open close P 0 rest.
Proof.
  induction w as [|c w IH]; cbn [String.length append allHits].
  - destruct rest; reflexivity.
  - exact IH.
Qed.

Lemma allHits_hit (m rest : string) :
  Js.truthy m = true -> Js.all (Js.isNot close) m = true ->
  allHits open close P 0 (String open (m ++ String close rest))
  = P m && allHits open close P 0 rest.
Proof.
  intros Hne Hall. cbn [allHits].
  rewrite (bracketed_match None m rest Hne Hall). cbn [Nat.pred plus].
  replace (S (String.length m)) with (String.length (m ++ String close "")).
  - replace (m ++ String close rest) with ((m ++ String close "") ++ rest).
    + rewrite allHits_skip. reflexivity.
    + rewrite append_assoc. reflexivity.
  - rewrite length_append. cbn [String.length]. lia.
Qed.

Lemma allHits_lit (ch : ascii) (s : string) :
  bracketed open close None (String ch s) = None ->
  allHits open close P 0 (String ch s) = allHits open close P 0 s.
Proof. intros H. cbn [allHits]. rewrite H. reflexivity. Qed.

(** The contents of the matches are made of characters of the text. *)
Lemma allHits_all (p : ascii -> bool) (s : string) :
  (forall m, Js.all p m = true -> P m = true) ->
  Js.all p s = true -> forall skip, allHits open close P skip s = true.
Proof.
  intros HP. induction s as [|ch s IH]; intros Hall skip; [reflexivity|].
  cbn [Js.all] in Hall. apply andb_true_iff in Hall as [Hch Hall].
  cbn [allHits]. destruct skip as [|k]; [|apply (IH Hall)].
  destruct (bracketed open close None (String ch s)) as [[m len]|] eqn:E;
    [|apply (IH Hall)].
  rewrite (IH Hall), andb_true_r. apply HP.
  unfold bracketed in E. destruct (Ascii.eqb ch open); [|discriminate].
  pose proof (all_span_fst p (Js.isNot close) s Hall) as Hm.
  destruct (Js.span (Js.isNot close) s) as [inner rest].
  destruct inner; [discriminate|]. destruct rest; [discriminate|].
  injection E as <- _. exact Hm.
Qed.

(** The replacement of the source and the direct rewriting agree when
    the callback is a function of the content on the matches met. *)
Lemma rebuild_scan (f : nat -> string -> string) (g : string -> string) (s : string) :
  (forall offset m, P m = true -> f offset m = g m) ->
  forall skip offset prev,
    allHits open close P skip s = true ->
    rebuild f (scan (bracketed open close) skip offset prev s)
    = rewriteWith open close g skip s.
Proof.
  intros Hfg. induction s as [|ch s IH]; intros skip offset prev Hhits; [reflexivity|].
  cbn [scan rewriteWith allHits] in *. destruct skip as [|k]; [|apply (IH _ _ _ Hhits)].
  change (bracketed open close prev (String ch s))
    with (bracketed open close None (String ch s)).
  destruct (bracketed open close None (String ch s)) as [[m len]|]; cbn [rebuild].
  - apply andb_true_iff in Hhits as [HP Hhits].
    rewrite (Hfg _ _ HP), (IH _ _ _ Hhits). reflexivity.
  - rewrite (IH _ _ _ Hhits). reflexivity.
Qed.

End Hits.

(** *** Stability of a quoted line *)

Lemma rev_append_append (a b acc : string) :
  Js.rev_append (a ++ b) acc = Js.rev_append b (Js.rev_append a acc).
Proof.
  revert acc. induction a as [|x a IH]; intros acc; cbn [append Js.rev_append];
    [reflexivity|apply IH].
Qed.

Lemma trimEnd_last (s : string) (x : ascii) :
  Js.isWhiteSpace x = false ->
  Js.trimEnd (s ++ Js.str x) = s ++ Js.str x.
Proof.
  intros Hx. induction s as [|c s IH]; cbn [append Js.str Js.trimEnd].
  - rewrite Hx. reflexivity.
  - fold (Js.str x). rewrite IH.
    replace (Js.isEmpty (s ++ Js.str x)) with false by (destruct s; reflexivity).
    rewrite andb_false_r. reflexivity.
Qed.

(** A content between double quotes is already quoted. *)
Lemma isAlreadyQuoted_quotes (e : string) :
  isAlreadyQuoted (String Js.DQ (e ++ Js.str Js.DQ)) = true.
Proof.
  unfold isAlreadyQuoted, Js.trim.
  change (Js.trimStart (String Js.DQ (e ++ Js.str Js.DQ)))
    with (String Js.DQ (e ++ Js.str Js.DQ)).
  change (String Js.DQ (e ++ Js.str Js.DQ)) with (String Js.DQ e ++ Js.str Js.DQ).
  rewrite trimEnd_last by reflexivity.
  apply orb_true_iff. left. apply andb_true_iff. split; [reflexivity|].
  unfold Js.endsWith, Js.rev. rewrite rev_append_append. reflexivity.
Qed.

Lemma quoted_shape (m rest : string) :
  quoted open close m ++ rest
  = String open
      (String Js.DQ (escapeContent m ++ Js.str Js.DQ) ++ String close rest).
Proof.
  unfold quoted, wrap, Js.str. cbn [append]. rewrite !append_assoc. reflexivity.
Qed.

Lemma wrap_shape (m rest : string) :
  wrap open close m ++ rest = String open (m ++ String close rest).
Proof. unfold wrap, Js.str. cbn [append]. rewrite append_assoc. reflexivity. Qed.

Lemma quoteIf_head (d : string -> bool) (m rest : string) :
  exists tail, quoteIf open close d m ++ rest = String open tail.
Proof.
  unfold quoteIf. destruct (d m); [rewrite quoted_shape|rewrite wrap_shape];
    eexists; reflexivity.
Qed.

(** What does not match before the rewriting does not match after it. *)
Lemma bracketed_none_rewritten (d : string -> bool) (ch : ascii) (s : string) :
  bracketed open close None (String ch s) = None ->
  bracketed open close None
            (String ch (rewriteWith open close (quoteIf open close d) 0 s)) = None.
Proof.
  intros Hnone. destruct (Ascii.eqb ch open) eqn:Hch;
    [|apply bracketed_not_open, Hch].
  destruct s as [|x s]; [exact Hnone|].
  destruct (Js.isNot close x) eqn:Hx.
  - (* the content runs to the end of the text: no closing character *)
    assert (Hall : Js.all (Js.isNot close) (String x s) = true).
    { unfold bracketed in Hnone. rewrite Hch in Hnone.
      pose proof (span_append (Js.isNot close) (String x s)) as Happ.
      pose proof (span_fst_all (Js.isNot close) (String x s)) as Hfst.
      destruct (Js.span (Js.isNot close) (String x s)) as [inner rest] eqn:E.
      cbn [fst snd] in *.
      destruct inner as [|i inner].
      - cbn [Js.span] in E. rewrite Hx in E.
        destruct (Js.span (Js.isNot close) s). discriminate.
      - destruct rest; [|discriminate].
        rewrite append_nil_r in Happ. rewrite <- Happ. exact Hfst. }
    rewrite (rewriteWith_no_close _ _ Hall). exact Hnone.
  - (* the closing character follows at once *)
    unfold Js.isNot in Hx. apply negb_false_iff, Ascii.eqb_eq in Hx. subst x.
    assert (Hhead : exists tail,
               rewriteWith open close (quoteIf open close d) 0 (String close s)
               = String close tail).
    { cbn [rewriteWith].
      destruct (bracketed open close None (String close s)) as [[m len]|] eqn:E.
      - apply bracketed_some in E as [rest [Hs _]]. injection Hs as Hoc _.
        destruct (quoteIf_head d m
                    (rewriteWith open close (quoteIf open close d) (Nat.pred len) s))
          as [tail ->].
        exists tail. rewrite Hoc. reflexivity.
      - eexists; reflexivity. }
    destruct Hhead as [tail ->]. apply bracketed_empty.
Qed.

(** After the first pass every match is either already quoted or one
    that the pass leaves alone. *)
Lemma rewritten_stable (d : string -> bool) :
  foreign close = true ->
  forall n s,
    String.length s <= n ->
    allHits open close (stableContent d) 0
            (rewriteWith open close (quoteIf open close d) 0 s) = true.
Proof.
  intros Hforeign. induction n as [|n IH]; intros s Hlen.
  - destruct s; [reflexivity|cbn [String.length] in Hlen; lia].
  - destruct s as [|ch s]; [reflexivity|].
    cbn [String.length] in Hlen.
    destruct (bracketed open close None (String ch s)) as [[m len]|] eqn:E.
    + apply bracketed_some in E as [rest [Hs [Hne [Hall _]]]].
      rewrite Hs, (rewriteWith_hit _ m rest Hne Hall).
      assert (Hrest : String.length rest <= n).
      { injection Hs as _ ->. rewrite length_append in Hlen.
        cbn [String.length] in Hlen. lia. }
      change (quoteIf open close d m)
        with (if d m then quoted open close m else wrap open close m).
      destruct (d m) eqn:Hd.
      * rewrite quoted_shape, allHits_hit.
        -- rewrite (IH _ Hrest), andb_true_r. unfold stableContent.
           rewrite isAlreadyQuoted_quotes. reflexivity.
        -- reflexivity.
        -- unfold foreign in Hforeign. cbn [Js.all] in Hforeign.
           apply andb_true_iff in Hforeign as [Hdq Hent].
           cbn [Js.all]. rewrite Hdq, all_append. cbn [Js.str Js.all].
           rewrite Hdq, andb_true_r, andb_true_l.
           apply all_escapeContent; [exact Hent|exact Hall].
      * rewrite wrap_shape, (allHits_hit _ m _ Hne Hall), (IH _ Hrest), andb_true_r.
        unfold stableContent. rewrite Hd. apply orb_true_r.
    + rewrite (rewriteWith_lit _ _ _ E).
      rewrite allHits_lit by (apply bracketed_none_rewritten, E).
      apply IH. lia.
Qed.

End Kind.

(** *** The passes on a line without quotes *)

Lemma quoteScan_free (text_ : string) :
  Js.all nonQuote text_ = true ->
  forall position prev, quoteScan position prev false None text_ = false.
Proof.
  induction text_ as [|c t IH]; intros Hall position prev;
    destruct position as [|p]; cbn [quoteScan]; try reflexivity.
  cbn [Js.all] in Hall. apply andb_true_iff in Hall as [Hc Hall].
  unfold nonQuote in Hc. apply negb_true_iff in Hc. rewrite Hc. cbn [andb].
  apply (IH Hall).
Qed.

Lemma isAlreadyQuoted_free (m : string) :
  Js.all nonQuote m = true -> isAlreadyQuoted m = false.
Proof.
  intros Hall. unfold isAlreadyQuoted.
  pose proof (all_trim nonQuote m Hall) as Ht.
  destruct (Js.trim m) as [|x t]; [reflexivity|].
  cbn [Js.all] in Ht. apply andb_true_iff in Ht as [Hx _].
  unfold nonQuote, isQuoteChar in Hx. apply negb_true_iff, orb_false_iff in Hx.
  destruct Hx as [Hd Hs].
  cbn [Js.str Js.startsWith]. rewrite (Ascii.eqb_sym Js.DQ x), Hd.
  rewrite (Ascii.eqb_sym Js.SQ x), Hs. reflexivity.
Qed.

Lemma pass_replace (k : Kind) (line_ : string) :
  pass k line_
  = replace (bracketed (opening k) (closing k)) (callback k line_) line_.
Proof. destruct k; reflexivity. Qed.

(** On a line without quotes the callback only looks at the content. *)
Lemma callback_first (k : Kind) (line_ : string) (offset : nat) (m : string) :
  Js.all nonQuote line_ = true -> Js.all nonQuote m = true ->
  callback k line_ offset m = quoteIf (opening k) (closing k) (decides k) m.
Proof.
  intros Hline Hm.
  pose proof (quoteScan_free line_ Hline offset None) as Hin.
  pose proof (isAlreadyQuoted_free m Hm) as Hq.
  destruct k; cbn [callback decides opening closing];
    unfold quoteCallback, parenCallback, quoteIf, isInsideQuotes, simpleContent;
    rewrite Hin, Hq; reflexivity.
Qed.

(** A content that is already quoted, or that the pass does not quote,
    is left alone whatever the line. *)
Lemma callback_second (k : Kind) (line_ : string) (offset : nat) (m : string) :
  stableContent (decides k) m = true ->
  callback k line_ offset m = wrap (opening k) (closing k) m.
Proof.
  unfold stableContent. intros H.
  destruct k; cbn [callback decides opening closing] in *;
    unfold quoteCallback, parenCallback;
    destruct (isInsideQuotes line_ offset); try reflexivity;
    destruct (isAlreadyQuoted m); try reflexivity; cbn [orb negb] in H;
    try discriminate.
  unfold simpleContent in H. apply negb_true_iff in H. rewrite H. reflexivity.
Qed.

Lemma pass_first (k : Kind) (line_ : string) :
  Js.all nonQuote line_ = true ->
  pass k line_
  = rewriteWith (opening k) (closing k)
                (quoteIf (opening k) (closing k) (decides k)) 0 line_.
Proof.
  intros Hline. rewrite pass_replace. unfold replace, pieces.
  apply (rebuild_scan _ _ (Js.all nonQuote)).
  - intros offset m Hm. apply callback_first; assumption.
  - apply (allHits_all _ _ _ nonQuote); [auto|exact Hline].
Qed.

Lemma pass_second (k : Kind) (line_ : string) :
  allHits (opening k) (closing k) (stableContent (decides k)) 0 line_ = true ->
  pass k line_ = line_.
Proof.
  intros Hhits. rewrite pass_replace. unfold replace, pieces.
  rewrite (rebuild_scan _ _ (stableContent (decides k)) _
             (wrap (opening k) (closing k)) line_
             (fun offset m H => callback_second k line_ offset m H) 0 0 None Hhits).
  apply (rewriteWith_wrap _ _ line_ 0).
Qed.

Lemma pass_absent (k : Kind) (line_ : string) :
  Js.all (Js.isNot (opening k)) line_ = true -> pass k line_ = line_.
Proof.
  intros Hline. rewrite pass_replace. unfold replace, pieces.
  rewrite (rebuild_scan _ _ (fun _ => false) _ (fun m => m) line_).
  - apply rewriteWith_no_open, Hline.
  - discriminate.
  - clear - Hline. induction line_ as [|ch s IH]; [reflexivity|].
    cbn [Js.all] in Hline. apply andb_true_iff in Hline as [Hch Hline].
    unfold Js.isNot in Hch. apply negb_true_iff in Hch.
    rewrite allHits_lit by (apply bracketed_not_open, Hch). apply (IH Hline).
Qed.

(** Quoting a line twice is quoting it once. *)
Lemma pass_idempotent (k : Kind) (line_ : string) :
  Js.all nonQuote line_ = true -> pass k (pass k line_) = pass k line_.
Proof.
  intros Hline. apply pass_second. rewrite (pass_first k line_ Hline).
  apply (rewritten_stable _ _ (decides k)) with (n := String.length line_).
  - destruct k; reflexivity.
  - apply Nat.le_refl.
Qed.

Lemma all_pass (p : ascii -> bool) (k : Kind) (line_ : string) :
  keeps p k = true ->
  Js.all nonQuote line_ = true -> Js.all p line_ = true ->
  Js.all p (pass k line_) = true.
Proof.
  unfold keeps. intros Hk Hline Hp.
  apply andb_true_iff in Hk as [Hk Hent]. apply andb_true_iff in Hk as [Ho Hc].
  cbn [Js.all] in Hent. apply andb_true_iff in Hent as [Hdq Hent].
  rewrite (pass_first k line_ Hline). apply all_rewriteWith; [|exact Hp].
  intros m Hm. unfold quoteIf, quoted, wrap, Js.str.
  destruct (decides k m); cbn [Js.all]; rewrite ?all_append; cbn [Js.all];
    rewrite ?all_append; cbn [Js.all]; rewrite ?Ho, ?Hc, ?Hdq, ?Hm;
    rewrite ?(all_escapeContent p m Hent Hm); reflexivity.
Qed.

(** The delimiters of the other kinds are absent from a line of kind
    [k]. *)
Lemma other_absent (k k' : Kind) (line_ : string) :
  usesOnly k line_ = true ->
  Ascii.eqb (opening k') (opening k) = false ->
  Ascii.eqb (opening k') (closing k) = false ->
  Js.all (Js.isNot (opening k')) line_ = true.
Proof.
  unfold usesOnly. intros Huses Ho Hc. revert Huses. apply all_impl.
  intros c H. unfold Js.isNot. apply negb_true_iff.
  destruct (Ascii.eqb c (opening k')) eqn:E; [|reflexivity].
  apply Ascii.eqb_eq in E. subst c. rewrite Ho, Hc, !orb_false_r in H.
  destruct k'; discriminate.
Qed.

Ltac absent_here k k' Huses :=
  apply (other_absent k k' _ Huses); reflexivity.

Ltac absent_after k k' Hline Huses :=
  apply (all_pass (Js.isNot (opening k')) k);
  [reflexivity | exact Hline | absent_here k k' Huses].

(** On a line without quotes whose brackets are of kind [k] only the
    pass of kind [k] acts, and a second run changes nothing. *)
Lemma processLine_one_kind (k : Kind) (line_ : string) :
  Js.all nonQuote line_ = true -> usesOnly k line_ = true ->
  processLine line_ = pass k line_
  /\ processLine (pass k line_) = pass k line_.
Proof.
  intros Hline Huses.
  unfold processLine.
  change (quoteSquare) with (pass Square). change quoteParen with (pass Round).
  change quoteCurly with (pass Curly). change quoteEdgeLabel with (pass Edge).
  destruct k.
  - rewrite (pass_idempotent Square line_ Hline).
    rewrite !(pass_absent Round), !(pass_absent Curly), !(pass_absent Edge);
      try (absent_after Square Round Hline Huses);
      try (absent_after Square Curly Hline Huses);
      try (absent_after Square Edge Hline Huses).
    split; reflexivity.
  - rewrite !(pass_absent Square line_) by (absent_here Round Square Huses).
    rewrite (pass_absent Square (pass Round line_))
      by (absent_after Round Square Hline Huses).
    rewrite (pass_idempotent Round line_ Hline).
    rewrite !(pass_absent Curly), !(pass_absent Edge);
      try (absent_after Round Curly Hline Huses);
      try (absent_after Round Edge Hline Huses).
    split; reflexivity.
  - rewrite !(pass_absent Square line_) by (absent_here Curly Square Huses).
    rewrite !(pass_absent Round line_) by (absent_here Curly Round Huses).
    rewrite (pass_absent Square (pass Curly line_))
      by (absent_after Curly Square Hline Huses).
    rewrite (pass_absent Round (pass Curly line_))
      by (absent_after Curly Round Hline Huses).
    rewrite (pass_idempotent Curly line_ Hline).
    rewrite !(pass_absent Edge); try (absent_after Curly Edge Hline Huses).
    split; reflexivity.
  - rewrite !(pass_absent Square line_) by (absent_here Edge Square Huses).
    rewrite !(pass_absent Round line_) by (absent_here Edge Round Huses).
    rewrite !(pass_absent Curly line_) by (absent_here Edge Curly Huses).
    rewrite (pass_absent Square (pass Edge line_))
      by (absent_after Edge Square Hline Huses).
    rewrite (pass_absent Round (pass Edge line_))
      by (absent_after Edge Round Hline Huses).
    rewrite (pass_absent Curly (pass Edge line_))
      by (absent_after Edge Curly Hline Huses).
    rewrite (pass_idempotent Edge line_ Hline).
    split; reflexivity.
Qed.

(** *** Lines *)

Lemma split_no_sep (sep : ascii) (w : string) :
  Js.all (Js.isNot sep) w = true -> Js.split sep w = [w].
Proof.
  induction w as [|c w IH]; cbn [Js.all Js.split]; [reflexivity|].
  intros H. apply andb_true_iff in H as [Hc H].
  unfold Js.isNot in Hc. apply negb_true_iff in Hc. rewrite Hc, (IH H). reflexivity.
Qed.

Lemma split_append (sep : ascii) (w rest : string) :
  Js.all (Js.isNot sep) w = true ->
  Js.split sep (w ++ String sep rest) = w :: Js.split sep rest.
Proof.
  induction w as [|c w IH]; cbn [Js.all append Js.split].
  - rewrite Ascii.eqb_refl. reflexivity.
  - intros H. apply andb_true_iff in H as [Hc H].
    unfold Js.isNot in Hc. apply negb_true_iff in Hc. rewrite Hc, (IH H). reflexivity.
Qed.

Lemma split_join (sep : ascii) (ls : list string) :
  ls <> [] ->
  Forall (fun w => Js.all (Js.isNot sep) w = true) ls ->
  Js.split sep (Js.join (Js.str sep) ls) = ls.
Proof.
  intros Hne Hall. induction Hall as [|w ws Hw Hws IH]; [contradiction|].
  cbn [Js.join]. destruct ws as [|v ws].
  - apply split_no_sep, Hw.
  - unfold Js.str at 1. cbn [append].
    rewrite (split_append sep w _ Hw), IH by discriminate. reflexivity.
Qed.

Lemma split_not_nil (sep : ascii) (s : string) : Js.split sep s <> [].
Proof.
  destruct s as [|c s]; cbn [Js.split]; [discriminate|].
  destruct (Ascii.eqb c sep); [discriminate|].
  destruct (Js.split sep s); discriminate.
Qed.

Lemma all_split (p : ascii -> bool) (sep : ascii) (s : string) :
  Js.all p s = true -> Forall (fun w => Js.all p w = true) (Js.split sep s).
Proof.
  induction s as [|c s IH]; cbn [Js.all Js.split]; intros H.
  - repeat constructor.
  - apply andb_true_iff in H as [Hc H]. specialize (IH H).
    destruct (Ascii.eqb c sep); [constructor; [reflexivity|exact IH]|].
    destruct (Js.split sep s) as [|w ws]; [repeat constructor; cbn [Js.all Js.str];
                                           rewrite Hc; reflexivity|].
    inversion IH as [|? ? Hw Hws]; subst. constructor; [|exact Hws].
    cbn [Js.all]. rewrite Hc, Hw. reflexivity.
Qed.

Lemma split_free (sep : ascii) (s : string) :
  Forall (fun w => Js.all (Js.isNot sep) w = true) (Js.split sep s).
Proof.
  induction s as [|c s IH]; cbn [Js.split].
  - repeat constructor.
  - destruct (Ascii.eqb c sep) eqn:Hc; [constructor; [reflexivity|exact IH]|].
    destruct (Js.split sep s) as [|w ws];
      [repeat constructor; cbn [Js.all Js.str]; unfold Js.isNot; rewrite Hc; reflexivity|].
    inversion IH as [|? ? Hw Hws]; subst. constructor; [|exact Hws].
    cbn [Js.all]. unfold Js.isNot at 1. rewrite Hc, Hw. reflexivity.
Qed.

Lemma all_join (p : ascii -> bool) (sep : string) (ls : list string) :
  Js.all p sep = true ->
  Forall (fun w => Js.all p w = true) ls ->
  Js.all p (Js.join sep ls) = true.
Proof.
  intros Hsep Hall. induction Hall as [|w ws Hw Hws IH]; [reflexivity|].
  cbn [Js.join]. destruct ws as [|v ws]; [exact Hw|].
  rewrite !all_append, Hw, Hsep, IH. reflexivity.
Qed.

(** Without [<] in the text there is no line-break tag to replace. *)
Lemma lineBreakTag_absent (prev : option ascii) (c : ascii) (s : string) :
  Js.isNot "<" c = true -> lineBreakTag prev (String c s) = None.
Proof.
  intros Hc. unfold lineBreakTag. cbn [Js.startsWithCI].
  replace (Ascii.eqb (Js.toLower "<") (Js.toLower c)) with false; [reflexivity|].
  revert Hc. clear.
  destruct c as [[] [] [] [] [] [] [] []]; intros Hc; try reflexivity; discriminate.
Qed.

Lemma replace_lineBreakTag_absent (f : nat -> unit -> string) (s : string) :
  Js.all (Js.isNot "<") s = true -> replace lineBreakTag f s = s.
Proof.
  intros H. unfold replace, pieces.
  enough (Hgen : forall prev offset,
             rebuild f (scan lineBreakTag 0 offset prev s) = s) by apply Hgen.
  induction s as [|c s IH]; intros prev offset; [reflexivity|].
  cbn [Js.all] in H. apply andb_true_iff in H as [Hc H].
  cbn [scan]. rewrite (lineBreakTag_absent prev c s Hc). cbn [rebuild].
  rewrite (IH H). reflexivity.
Qed.

Lemma calm_nonQuote (c : ascii) : calm c = true -> nonQuote c = true.
Proof. unfold calm. intros H. apply andb_true_iff in H as [H _]. exact H. Qed.

Lemma calm_no_lt (c : ascii) : calm c = true -> Js.isNot "<" c = true.
Proof. unfold calm. intros H. apply andb_true_iff in H as [_ H]. exact H. Qed.

(** What [processLine] does to a line of a tame source. *)
Lemma processLine_tame (line_ : string) :
  Js.all calm line_ = true -> oneKind line_ = true ->
  Js.all (Js.isNot Js.LF) line_ = true ->
  processLine (processLine line_) = processLine line_
  /\ Js.all (Js.isNot "<") (processLine line_) = true
  /\ Js.all (Js.isNot Js.LF) (processLine line_) = true.
Proof.
  intros Hcalm Hkind Hlf. unfold oneKind in Hkind.
  apply existsb_exists in Hkind as [k [_ Huses]].
  pose proof (all_impl _ _ _ calm_nonQuote Hcalm) as Hline.
  pose proof (all_impl _ _ _ calm_no_lt Hcalm) as Hlt.
  destruct (processLine_one_kind k line_ Hline Huses) as [H1 H2].
  rewrite H1. split; [exact H2|]. split.
  - apply all_pass; [destruct k; reflexivity|exact Hline|exact Hlt].
  - apply all_pass; [destruct k; reflexivity|exact Hline|exact Hlf].
Qed.


(** On every source that holds no quote character and no [<], and whose
    lines each use brackets of one kind at most (nested or unclosed as
    they may be), the preprocessor applied to its own output yields that
    output unchanged. *)
Lemma preprocess_idempotent_one_kind (mermaidCode : string) :
  tame mermaidCode = true ->
  preprocessMermaidCode (preprocessMermaidCode mermaidCode)
  = preprocessMermaidCode mermaidCode.
Proof.
  intros Htame.
  unfold tame in Htame. apply andb_true_iff in Htame as [Hcalm Hkinds].
  unfold preprocessMermaidCode.
  rewrite (replace_lineBreakTag_absent _ mermaidCode
             (all_impl _ _ _ calm_no_lt Hcalm)).
  assert (Hlines : Forall (fun l =>
              processLine (processLine l) = processLine l
              /\ Js.all (Js.isNot "<") (processLine l) = true
              /\ Js.all (Js.isNot Js.LF) (processLine l) = true)
            (Js.split Js.LF mermaidCode)).
  { pose proof (all_split calm Js.LF mermaidCode Hcalm) as H1.
    pose proof (split_free Js.LF mermaidCode) as H2.
    rewrite forallb_forall in Hkinds. rewrite Forall_forall in *.
    intros l Hin. apply processLine_tame; auto. }
  set (lines := Js.split Js.LF mermaidCode) in *.
  rewrite replace_lineBreakTag_absent.
  - rewrite split_join.
    + rewrite map_map. f_equal. apply map_ext_in. intros l Hin.
      rewrite Forall_forall in Hlines. apply (Hlines l Hin).
    + subst lines. pose proof (split_not_nil Js.LF mermaidCode).
      destruct (Js.split Js.LF mermaidCode); [contradiction|discriminate].
    + rewrite Forall_forall in *. intros w Hin.
      apply in_map_iff in Hin as [l [<- Hin]]. apply (Hlines l Hin).
  - apply all_join; [reflexivity|].
    rewrite Forall_forall in *. intros w Hin.
    apply in_map_iff in Hin as [l [<- Hin]]. apply (Hlines l Hin).
Qed.

Example preprocess_idempotent_one_kind_flowchart :
  preprocessMermaidCode (preprocessMermaidCode flowchartSource)
  = preprocessMermaidCode flowchartSource.
Proof. apply preprocess_idempotent_one_kind. reflexivity. Qed.

End QuotingFacts.

(** ** The preprocessor on lines of separate brackets *)

Module FlatFacts.

Import Regex Mermaid Quoting StringFacts QuotingFacts Scenario.

(** *** The scan of one kind of bracket *)

Section Kind.

Variable k : Kind.





End Kind.

(** *** The quote scan over well-formed items *)











(** *** A pass on a line of items *)




















(** *** The whole source *)






End FlatFacts.

(** ** utils/text.ts: the line breaker *)

Module LineBreakFacts.

Import TextUtil StringFacts QuotingFacts.

Lemma join_cons (sep w : string) (l : list string) :
  l <> [] -> Js.join sep (w :: l) = w ++ sep ++ Js.join sep l.
Proof. destruct l; [contradiction|reflexivity]. Qed.

(** [s.split(c).join(c)] is [s]. *)
Lemma join_split (sep : ascii) (s : string) :
  Js.join (Js.str sep) (Js.split sep s) = s.
Proof.
  induction s as [|c s IH]; [reflexivity|].
  cbn [Js.split]. destruct (Ascii.eqb c sep) eqn:Hc.
  - apply Ascii.eqb_eq in Hc. subst c.
    rewrite join_cons by apply split_not_nil. rewrite IH. reflexivity.
  - pose proof (split_not_nil sep s) as Hne.
    destruct (Js.split sep s) as [|w ws]; [contradiction|].
    destruct ws as [|v ws].
    + cbn [Js.join] in *. rewrite IH. reflexivity.
    + rewrite join_cons by discriminate. rewrite join_cons in IH by discriminate.
      cbn [append]. rewrite IH. reflexivity.
Qed.

(** A line joined before the others are joined: the same text. *)
Lemma join_app_join (sep : string) (a b : list string) :
  b <> [] -> Js.join sep (a ++ [Js.join sep b]) = Js.join sep (a ++ b).
Proof.
  intros Hb. induction a as [|w a IH]; [reflexivity|].
  cbn [app]. rewrite !join_cons.
  - rewrite IH. reflexivity.
  - destruct a; [exact Hb|discriminate].
  - destruct a; discriminate.
Qed.

Lemma unwrap_append (a b : string) : unwrap (a ++ b) = unwrap a ++ unwrap b.
Proof. induction a as [|c a IH]; cbn [append unwrap]; [|rewrite IH]; reflexivity. Qed.

Lemma unwrap_join (sep : string) (l : list string) :
  unwrap (Js.join sep l) = Js.join (unwrap sep) (map unwrap l).
Proof.
  induction l as [|w l IH]; [reflexivity|].
  destruct l as [|v l]; [reflexivity|].
  rewrite (join_cons sep w (v :: l)) by discriminate.
  change (map unwrap (w :: v :: l)) with (unwrap w :: map unwrap (v :: l)).
  rewrite (join_cons (unwrap sep) (unwrap w) (map unwrap (v :: l))) by discriminate.
  rewrite !unwrap_append, IH. reflexivity.
Qed.

Lemma unwrap_length (s : string) : String.length (unwrap s) = String.length s.
Proof. induction s as [|c s IH]; cbn [unwrap String.length]; [|rewrite IH]; reflexivity. Qed.

Lemma unwrap_free (s : string) :
  Js.all (Js.isNot Js.LF) s = true -> unwrap s = s.
Proof.
  induction s as [|c s IH]; cbn [Js.all unwrap]; [reflexivity|].
  intros H. apply andb_true_iff in H as [Hc H].
  unfold Js.isNot in Hc. apply negb_true_iff in Hc. rewrite Hc, (IH H). reflexivity.
Qed.

(** One turn of the loop adds the word to the text that the state stands
    for: the lines and the current line, joined by spaces. *)
Lemma pushWord_text (n : Q) (lines cur : list string) (w : string) :
  Js.join " " (map unwrap (fst (pushWord n (lines, cur) w))
               ++ map unwrap (snd (pushWord n (lines, cur) w)))
  = Js.join " " (map unwrap lines ++ map unwrap cur ++ [unwrap w]).
Proof.
  unfold pushWord.
  destruct (Qle_bool n (inject_Z (Z.of_nat (List.length (cur ++ [w])))));
    cbn [fst snd].
  - rewrite app_nil_r, map_app. cbn [map].
    rewrite (unwrap_join " " (cur ++ [w])).
    change (unwrap " ") with " ".
    rewrite join_app_join.
    + rewrite map_app. reflexivity.
    + rewrite map_app. cbn [map]. destruct (map unwrap cur); discriminate.
  - rewrite map_app. reflexivity.
Qed.

Lemma join_app (sep : string) (a b : list string) :
  a <> [] -> b <> [] ->
  Js.join sep (a ++ b) = Js.join sep a ++ sep ++ Js.join sep b.
Proof.
  intros Ha Hb. induction a as [|w a IH]; [contradiction|].
  destruct a as [|v a].
  - cbn [app]. apply join_cons, Hb.
  - change ((w :: v :: a) ++ b)%list with (w :: ((v :: a) ++ b))%list.
    rewrite (join_cons sep w ((v :: a) ++ b)%list) by discriminate.
    rewrite IH by discriminate.
    rewrite (join_cons sep w (v :: a)) by discriminate.
    rewrite !append_assoc. reflexivity.
Qed.

Lemma pushWord_not_nil (n : Q) (lines cur : list string) (w : string) :
  (fst (pushWord n (lines, cur) w) ++ snd (pushWord n (lines, cur) w))%list <> [].
Proof.
  unfold pushWord.
  destruct (Qle_bool n _); cbn [fst snd]; intros H;
    apply (f_equal (@List.length string)) in H;
    rewrite !length_app in H; cbn [List.length] in H; lia.
Qed.

Lemma fold_pushWord_text (n : Q) (ws : list string) :
  forall lines cur,
    Js.join " " (map unwrap (fst (fold_left (pushWord n) ws (lines, cur)))
                 ++ map unwrap (snd (fold_left (pushWord n) ws (lines, cur))))
    = Js.join " " (map unwrap lines ++ map unwrap cur ++ map unwrap ws).
Proof.
  induction ws as [|w ws IH]; intros lines cur; cbn [fold_left map].
  - rewrite app_nil_r. reflexivity.
  - pose proof (pushWord_text n lines cur w) as H.
    pose proof (pushWord_not_nil n lines cur w) as Hne.
    destruct (pushWord n (lines, cur) w) as [lines' cur'].
    cbn [fst snd] in H, Hne. rewrite IH.
    destruct ws as [|v ws].
    + cbn [map]. rewrite app_nil_r. exact H.
    + rewrite (app_assoc (map unwrap lines')).
      replace (map unwrap lines ++ map unwrap cur ++ unwrap w :: map unwrap (v :: ws))%list
        with ((map unwrap lines ++ map unwrap cur ++ [unwrap w])
              ++ map unwrap (v :: ws))%list
        by (rewrite <- !app_assoc; reflexivity).
      rewrite (join_app " " (map unwrap lines' ++ map unwrap cur')%list).
      * rewrite (join_app " " (map unwrap lines ++ map unwrap cur ++ [unwrap w])%list).
        -- rewrite H. reflexivity.
        -- destruct (map unwrap lines); [destruct (map unwrap cur)|]; discriminate.
        -- discriminate.
      * rewrite <- map_app. destruct (lines' ++ cur')%list; [contradiction|discriminate].
      * discriminate.
Qed.

(** X1.  The line breaker only turns spaces into line feeds: its output
    read with every line feed as a space is the text read the same way,
    and has the length of the text; for a text without line feed, turning
    the line feeds of the output back into spaces gives the text. *)
Theorem line_breaks_replace_spaces :
  forall text_ maxWordsPerLine,
    unwrap (formatTextWithLineBreaks text_ maxWordsPerLine) = unwrap text_
    /\ String.length (formatTextWithLineBreaks text_ maxWordsPerLine)
       = String.length text_
    /\ (Js.all (Js.isNot Js.LF) text_ = true ->
        unwrap (formatTextWithLineBreaks text_ maxWordsPerLine) = text_).
Proof.
  intros text_ n.
  assert (H : unwrap (formatTextWithLineBreaks text_ n) = unwrap text_).
  { unfold formatTextWithLineBreaks.
    pose proof (fold_pushWord_text n (Js.split " " text_) [] []) as Hf.
    destruct (fold_left (pushWord n) (Js.split " " text_) ([], [])) as [lines cur].
    cbn [fst snd map app] in Hf. unfold flush.
    assert (Ht : unwrap text_ = Js.join " " (map unwrap (Js.split " " text_))).
    { rewrite <- (join_split " " text_) at 1.
      exact (unwrap_join (Js.str " ") (Js.split " " text_)). }
    rewrite Ht, <- Hf.
    rewrite (unwrap_join (Js.str Js.LF)). change (unwrap (Js.str Js.LF)) with " ".
    destruct cur as [|w cur]; cbn [List.length Nat.ltb Nat.leb].
    - rewrite app_nil_r. reflexivity.
    - rewrite map_app. cbn [map]. rewrite (unwrap_join " ").
      change (unwrap " ") with " ".
      rewrite join_app_join by discriminate. reflexivity. }
  split; [exact H|]. split.
  - rewrite <- (unwrap_length (formatTextWithLineBreaks text_ n)), H.
    apply unwrap_length.
  - intros Hfree. rewrite H. apply unwrap_free, Hfree.
Qed.

Lemma below_ceiling (n : Q) (k : Z) :
  Qle_bool n (inject_Z k) = false -> (k < Qceiling n)%Z.
Proof.
  intros H. rewrite Zlt_Qlt. apply Qlt_le_trans with n; [|apply Qle_ceiling].
  apply Qnot_le_lt. intros Hle. apply Qle_bool_iff in Hle. congruence.
Qed.

Lemma wordCount_join (cur : list string) :
  cur <> [] ->
  Forall (fun w => Js.all (Js.isNot " ") w = true) cur ->
  wordCount (Js.join " " cur) = Z.of_nat (List.length cur).
Proof.
  intros Hne Hall. unfold wordCount.
  change (Js.join " " cur) with (Js.join (Js.str " ") cur).
  rewrite (split_join " " cur Hne Hall). reflexivity.
Qed.

(** What the loop keeps: every line is within the bound and holds no line
    feed, the words of the current line are single words, and the
    current line is not yet full. *)
Lemma fold_pushWord_bound (n : Q) (ws : list string) :
  forall lines cur,
    Forall (fun w => Js.all (Js.isNot " ") w = true
                     /\ Js.all (Js.isNot Js.LF) w = true) ws ->
    Forall (fun w => Js.all (Js.isNot " ") w = true
                     /\ Js.all (Js.isNot Js.LF) w = true) cur ->
    (Z.of_nat (List.length cur) < Z.max 1 (Qceiling n))%Z ->
    Forall (fun l => Js.all (Js.isNot Js.LF) l = true
                     /\ (wordCount l <= Z.max 1 (Qceiling n))%Z) lines ->
    Forall (fun l => Js.all (Js.isNot Js.LF) l = true
                     /\ (wordCount l <= Z.max 1 (Qceiling n))%Z)
           (flush (fold_left (pushWord n) ws (lines, cur))).
Proof.
  assert (Hline : forall cur : list string,
             cur <> [] ->
             Forall (fun w => Js.all (Js.isNot " ") w = true
                              /\ Js.all (Js.isNot Js.LF) w = true) cur ->
             (Z.of_nat (List.length cur) <= Z.max 1 (Qceiling n))%Z ->
             Js.all (Js.isNot Js.LF) (Js.join " " cur) = true
             /\ (wordCount (Js.join " " cur) <= Z.max 1 (Qceiling n))%Z).
  { intros cur Hne Hcur Hlen. split.
    - apply all_join; [reflexivity|].
      eapply Forall_impl; [|exact Hcur]. intros w [_ Hw]. exact Hw.
    - rewrite wordCount_join; [exact Hlen|exact Hne|].
      eapply Forall_impl; [|exact Hcur]. intros w [Hw _]. exact Hw. }
  induction ws as [|w ws IH]; intros lines cur Hws Hcur Hlen Hlines; cbn [fold_left].
  - unfold flush. destruct cur as [|v cur]; [exact Hlines|].
    cbn [List.length Nat.ltb Nat.leb]. apply Forall_app. split; [exact Hlines|].
    constructor; [|constructor]. apply Hline; [discriminate|exact Hcur|lia].
  - inversion Hws as [|? ? Hw Hws']; subst.
    assert (Hcur' : Forall (fun w => Js.all (Js.isNot " ") w = true
                                     /\ Js.all (Js.isNot Js.LF) w = true)
                           (cur ++ [w])).
    { apply Forall_app. split; [exact Hcur|]. constructor; [exact Hw|constructor]. }
    assert (Hlen' : (Z.of_nat (List.length (cur ++ [w])) <= Z.max 1 (Qceiling n))%Z).
    { rewrite length_app. cbn [List.length]. lia. }
    unfold pushWord.
    destruct (Qle_bool n (inject_Z (Z.of_nat (List.length (cur ++ [w]))))) eqn:E.
    + apply IH; [exact Hws'|constructor|cbn [List.length]; lia|].
      apply Forall_app. split; [exact Hlines|]. constructor; [|constructor].
      apply Hline; [destruct cur; discriminate|exact Hcur'|exact Hlen'].
    + apply IH; [exact Hws'|exact Hcur'| |exact Hlines].
      apply below_ceiling in E. lia.
Qed.

(** X2.  For a text without line feed, no line of the output holds more
    words than the limit: at most [maxWordsPerLine] of them, rounded up,
    and one word when the limit is below one. *)
Theorem line_breaks_word_limit :
  forall text_ maxWordsPerLine line_,
    Js.all (Js.isNot Js.LF) text_ = true ->
    In line_ (Js.split Js.LF (formatTextWithLineBreaks text_ maxWordsPerLine)) ->
    (wordCount line_ <= Z.max 1 (Qceiling maxWordsPerLine))%Z.
Proof.
  intros text_ n line_ Hfree Hin. unfold formatTextWithLineBreaks in Hin.
  assert (Hall : Forall (fun l => Js.all (Js.isNot Js.LF) l = true
                     /\ (wordCount l <= Z.max 1 (Qceiling n))%Z)
           (flush (fold_left (pushWord n) (Js.split " " text_) ([], [])))).
  { apply fold_pushWord_bound; [| constructor | cbn [List.length]; lia | constructor].
    pose proof (split_free " " text_) as H1.
    pose proof (all_split _ " " text_ Hfree) as H2.
    rewrite Forall_forall in *. intros w Hw. split; [apply H1|apply H2]; exact Hw. }
  destruct (flush (fold_left (pushWord n) (Js.split " " text_) ([], [])))
    as [|l0 ls] eqn:El.
  - cbn in Hin. destruct Hin as [<-|[]]. unfold wordCount. cbn. lia.
  - rewrite split_join in Hin.
    + rewrite Forall_forall in Hall. apply (Hall line_ Hin).
    + discriminate.
    + eapply Forall_impl; [|exact Hall]. intros a [Ha _]. exact Ha.
Qed.

Lemma line_breaks_word_limit_witness :
  (wordCount "a b" <= Z.max 1 (Qceiling 2))%Z.
Proof.
  apply (line_breaks_word_limit "a b c" 2 "a b"); [reflexivity|].
  vm_compute. left. reflexivity.
Defined.

End LineBreakFacts.
(** ** Texts with tagged blocks *)

Module BlockFacts.

Import Regex Blocks StringFacts.

Lemma drop_append (a b : string) : Js.drop (String.length a) (a ++ b) = b.
Proof. induction a as [|c a IH]; [destruct b; reflexivity|exact IH]. Qed.

Lemma startsWith_self (p rest : string) : Js.startsWith p (p ++ rest) = true.
Proof.
  induction p as [|c p IH]; [reflexivity|].
  cbn [append Js.startsWith]. rewrite Ascii.eqb_refl. exact IH.
Qed.

Lemma startsWithCI_self (p rest : string) : Js.startsWithCI p (p ++ rest) = true.
Proof.
  induction p as [|c p IH]; [reflexivity|].
  cbn [append Js.startsWithCI]. rewrite Ascii.eqb_refl. exact IH.
Qed.

Lemma toLower_lt (c : ascii) : Js.toLower c = "<"%char -> c = "<"%char.
Proof.
  destruct c as [[] [] [] [] [] [] [] []]; vm_compute; intros H;
    try reflexivity; discriminate.
Qed.

Lemma startsWithCI_before_lt (q u rest : string) :
  Js.all (fun c => negb (Ascii.eqb c "<")) q = true ->
  Js.startsWithCI q (u ++ String "<" rest) = true ->
  Js.startsWithCI q u = true.
Proof.
  revert u. induction q as [|a q IH]; intros u Hq H; [reflexivity|].
  cbn [Js.all] in Hq. apply andb_true_iff in Hq as [Ha Hq].
  destruct u as [|b u]; cbn [append Js.startsWithCI] in *.
  - apply andb_true_iff in H as [H _]. apply Ascii.eqb_eq in H.
    change (Js.toLower "<") with "<"%char in H. apply toLower_lt in H. subst a.
    discriminate.
  - apply andb_true_iff in H as [Hab H]. rewrite Hab. apply (IH _ Hq H).
Qed.

Lemma startsWithCI_tag_border (q : string) (c : ascii) (u rest : string) :
  Js.all (fun c => negb (Ascii.eqb c "<")) q = true ->
  Js.startsWithCI (String "<" q) (String c u) = false ->
  Js.startsWithCI (String "<" q) (String c u ++ String "<" rest) = false.
Proof.
  intros Hq Hno. destruct (Js.startsWithCI _ (_ ++ _)) eqn:E; [|reflexivity].
  cbn [append Js.startsWithCI] in *.
  apply andb_true_iff in E as [Ec E].
  rewrite Ec, (startsWithCI_before_lt q u rest Hq E) in Hno. discriminate.
Qed.

Lemma includesBy_startsWith (p s : string) :
  includesBy Js.startsWith p s = Js.includes p s.
Proof.
  induction s as [|c s IH]; cbn [includesBy Js.includes]; [|rewrite IH]; reflexivity.
Qed.

Lemma includesBy_cons (sw : string -> string -> bool) (p : string) (c : ascii)
      (s : string) :
  includesBy sw p (String c s) = false ->
  sw p (String c s) = false /\ includesBy sw p s = false.
Proof. cbn [includesBy]. intros H. apply orb_false_iff in H. exact H. Qed.

Lemma literals_app {M : Type} (a b : string) :
  @literals M (a ++ b) = (literals a ++ literals b)%list.
Proof. induction a as [|c a IH]; cbn [append literals app]; [|rewrite IH]; reflexivity. Qed.

Lemma rebuild_literals {M : Type} (f : nat -> M -> string) (t : string)
      (ps : list (piece M)) :
  rebuild f (literals t ++ ps) = t ++ rebuild f ps.
Proof. induction t as [|c t IH]; cbn [literals app rebuild append]; [|rewrite IH]; reflexivity. Qed.

Lemma hits_literals {M : Type} (t : string) (ps : list (piece M)) :
  hits (literals t ++ ps) = hits ps.
Proof. induction t as [|c t IH]; cbn [literals app hits]; [reflexivity|exact IH]. Qed.

Section Tagged.

Context {M : Type}.
Variable sw : string -> string -> bool.
Variables q q' : string.
Variable g : string -> M.

Hypothesis sw_self : forall p rest, sw p (p ++ rest) = true.
Hypothesis sw_border :
  forall (q : string) (c : ascii) (u rest : string),
    Js.all (fun c => negb (Ascii.eqb c "<")) q = true ->
    sw (String "<" q) (String c u) = false ->
    sw (String "<" q) (String c u ++ String "<" rest) = false.
Hypothesis Hq : Js.all (fun c => negb (Ascii.eqb c "<")) q = true.
Hypothesis Hq' : Js.all (fun c => negb (Ascii.eqb c "<")) q' = true.

Variable mt : matcher M.
Hypothesis mt_tagged :
  forall prev s, mt prev s = tagged sw (String "<" q) (String "<" q') g prev s.

Lemma scan_any_prev (s : string) :
  forall skip offset p1 p2, scan mt skip offset p1 s = scan mt skip offset p2 s.
Proof.
  induction s as [|ch s IH]; intros skip offset p1 p2; [reflexivity|].
  cbn [scan]. destruct skip as [|n]; [|apply IH].
  rewrite (mt_tagged p1), (mt_tagged p2). unfold tagged.
  destruct (sw _ _); [|f_equal; apply IH].
  destruct (lazyUntil _ _ _) as [[cap n]|]; f_equal; apply IH.
Qed.

Lemma scan_covered (w rest : string) :
  forall offset prev,
    scan mt (String.length w) offset prev (w ++ rest)
    = scan mt 0 (offset + String.length w) None rest.
Proof.
  induction w as [|ch w IH]; intros offset prev; cbn [String.length append].
  - rewrite Nat.add_0_r. apply scan_any_prev.
  - cbn [scan]. rewrite IH, Nat.add_succ_r. reflexivity.
Qed.

(** No match starts inside a text that holds no opening tag, whatever
    tag follows. *)
Lemma tagged_in_text (prev : option ascii) (c : ascii) (u rest : string) :
  includesBy sw (String "<" q) (String c u) = false ->
  mt prev (String c u ++ String "<" rest) = None.
Proof.
  intros H. apply includesBy_cons in H as [H _].
  rewrite mt_tagged. unfold tagged. rewrite (sw_border q c u rest Hq H). reflexivity.
Qed.

Lemma scan_text (t rest : string) :
  includesBy sw (String "<" q) t = false ->
  forall offset prev,
    scan mt 0 offset prev (t ++ String "<" rest)
    = (literals t ++ scan mt 0 (offset + String.length t) None (String "<" rest))%list.
Proof.
  induction t as [|c t IH]; intros H offset prev.
  - cbn [append literals app String.length]. rewrite Nat.add_0_r. apply scan_any_prev.
  - change (String c t ++ String "<" rest) with (String c (t ++ String "<" rest)).
    cbn [scan].
    change (String c (t ++ String "<" rest)) with (String c t ++ String "<" rest).
    rewrite (tagged_in_text prev c t rest H).
    apply includesBy_cons in H as [_ H]. rewrite (IH H).
    cbn [literals app String.length]. rewrite Nat.add_succ_r. reflexivity.
Qed.

Lemma scan_tail (t : string) :
  includesBy sw (String "<" q) t = false ->
  forall offset prev, scan mt 0 offset prev t = literals t.
Proof.
  induction t as [|c t IH]; intros H offset prev; [reflexivity|].
  cbn [scan]. destruct (includesBy_cons _ _ _ _ H) as [H1 H2].
  rewrite mt_tagged. unfold tagged. rewrite H1. cbn [literals]. f_equal. apply IH, H2.
Qed.

(** The lazy capture stops at the closing tag that ends the content. *)
Lemma lazyUntil_body (e rest : string) :
  includesBy sw (String "<" q') e = false ->
  lazyUntil (fun _ => true)
            (fun s => if sw (String "<" q') s
                      then Some (String.length (String "<" q')) else None)
            (e ++ String "<" q' ++ rest)
  = Some (e, String.length e + String.length (String "<" q')).
Proof.
  induction e as [|c e IH]; intros Hno.
  - cbn [append lazyUntil].
    destruct (String "<" (q' ++ rest)) eqn:E; [discriminate|]. rewrite <- E.
    change (String "<" (q' ++ rest)) with (String "<" q' ++ rest).
    unfold lazyUntil. rewrite sw_self.
    destruct (String "<" q' ++ rest); reflexivity.
  - change (String c e ++ String "<" q' ++ rest)
      with (String c (e ++ String "<" q' ++ rest)).
    cbn [lazyUntil].
    change (String c (e ++ String "<" q' ++ rest))
      with (String c e ++ String "<" (q' ++ rest)).
    destruct (includesBy_cons _ _ _ _ Hno) as [H1 H2].
    rewrite (sw_border q' c e (q' ++ rest) Hq' H1).
    change (e ++ String "<" (q' ++ rest)) with (e ++ String "<" q' ++ rest).
    rewrite (IH H2). reflexivity.
Qed.

Lemma tagged_block (prev : option ascii) (e rest : string) :
  includesBy sw (String "<" q') e = false ->
  mt prev (String "<" q ++ e ++ String "<" q' ++ rest)
  = Some (g e, String.length (String "<" q)
               + (String.length e + String.length (String "<" q'))).
Proof.
  intros H. rewrite mt_tagged. unfold tagged.
  rewrite sw_self, drop_append, (lazyUntil_body e rest H). reflexivity.
Qed.

Lemma scan_block (e rest : string) (offset : nat) (prev : option ascii) :
  includesBy sw (String "<" q') e = false ->
  scan mt 0 offset prev (String "<" q ++ e ++ String "<" q' ++ rest)
  = Hit offset (String.length (String "<" q)
                + (String.length e + String.length (String "<" q'))) (g e)
    :: scan mt 0 (offset + (String.length (String "<" q)
                            + (String.length e + String.length (String "<" q'))))
               None rest.
Proof.
  intros H.
  change (String "<" q ++ e ++ String "<" q' ++ rest)
    with (String "<" (q ++ e ++ String "<" q' ++ rest)).
  cbn [scan].
  change (String "<" (q ++ e ++ String "<" q' ++ rest))
    with (String "<" q ++ e ++ String "<" q' ++ rest).
  rewrite (tagged_block prev e rest H). f_equal.
  replace (q ++ e ++ String "<" q' ++ rest)
    with ((q ++ e ++ String "<" q') ++ rest)
    by (rewrite !append_assoc; reflexivity).
  replace (Nat.pred (String.length (String "<" q)
                     + (String.length e + String.length (String "<" q'))))
    with (String.length (q ++ e ++ String "<" q'))
    by (rewrite !length_append; cbn [String.length]; lia).
  rewrite scan_covered. f_equal.
  rewrite !length_append. cbn [String.length]. lia.
Qed.

(** The scan of a well-formed blob. *)
Lemma scan_blob (marked : list (string * string)) (tail : string) :
  wellFormed sw (String "<" q) (String "<" q') marked tail = true ->
  forall offset prev,
    scan mt 0 offset prev (blob (String "<" q) (String "<" q') marked tail)
    = blobPieces g (String.length (String "<" q)) (String.length (String "<" q'))
                 offset marked tail.
Proof.
  unfold wellFormed. intros H. apply andb_true_iff in H as [Hm Ht].
  apply negb_true_iff in Ht.
  induction marked as [|[t e] marked IH]; intros offset prev; cbn [blob blobPieces].
  - apply scan_tail, Ht.
  - cbn [forallb fst snd] in Hm.
    apply andb_true_iff in Hm as [Hte Hm]. apply andb_true_iff in Hte as [Hpt He].
    apply negb_true_iff in Hpt. apply negb_true_iff in He.
    change (String "<" q ++ e ++ String "<" q' ++ blob (String "<" q) (String "<" q') marked tail)
      with (String "<" (q ++ e ++ String "<" q' ++ blob (String "<" q) (String "<" q') marked tail)).
    rewrite (scan_text t _ Hpt).
    change (String "<" (q ++ e ++ String "<" q' ++ blob (String "<" q) (String "<" q') marked tail))
      with (String "<" q ++ e ++ String "<" q' ++ blob (String "<" q) (String "<" q') marked tail).
    rewrite (scan_block e _ _ None He). rewrite (IH Hm). reflexivity.
Qed.

End Tagged.

End BlockFacts.
(** ** utils/text.ts: the extraction of the tables *)

Module ExtractFacts.

Import Regex Blocks TextUtil StringFacts BlockFacts Markdown MarkerFacts.

Lemma tableRegex_tagged (prev : option ascii) (s : string) :
  tableRegex prev s = tagged Js.startsWith "<table>" "</table>" (fun body => body) prev s.
Proof. reflexivity. Qed.

Lemma tableBlob_blob (marked : list (string * string)) (tail : string) :
  tableBlob marked tail = blob "<table>" "</table>" marked tail.
Proof.
  induction marked as [|[t e] marked IH]; cbn [tableBlob blob]; [|rewrite IH];
    reflexivity.
Qed.

Lemma wellFormedTables_blocks (marked : list (string * string)) (tail : string) :
  wellFormedTables marked tail
  = wellFormed Js.startsWith "<table>" "</table>" marked tail.
Proof.
  unfold wellFormedTables, wellFormed. rewrite includesBy_startsWith. f_equal.
  induction marked as [|[t e] marked IH]; cbn [forallb fst snd]; [reflexivity|].
  rewrite !includesBy_startsWith, IH. reflexivity.
Qed.

Lemma pieces_tableBlob (marked : list (string * string)) (tail : string) :
  wellFormedTables marked tail = true ->
  pieces tableRegex (tableBlob marked tail)
  = blobPieces (fun body => body) 7 8 0 marked tail.
Proof.
  intros H. rewrite wellFormedTables_blocks in H. rewrite tableBlob_blob.
  unfold pieces.
  apply (scan_blob Js.startsWith "table>" "/table>" (fun body => body)
                   startsWith_self startsWith_tag_border eq_refl eq_refl
                   tableRegex tableRegex_tagged marked tail H).
Qed.

Lemma markTables_literals (tableIndex : nat) (t : string) (ps : list (piece string)) :
  markTables tableIndex (literals t ++ ps) = t ++ markTables tableIndex ps.
Proof.
  induction t as [|c t IH]; cbn [literals app markTables append]; [|rewrite IH];
    reflexivity.
Qed.

Lemma markTables_blob (marked : list (string * string)) (tail : string) :
  forall tableIndex lo lc offset,
    markTables tableIndex (blobPieces (fun body => body) lo lc offset marked tail)
    = markedText tableIndex marked tail.
Proof.
  induction marked as [|[t e] marked IH]; intros tableIndex lo lc offset;
    cbn [blobPieces markedText].
  - rewrite <- (app_nil_r (literals tail)), markTables_literals.
    cbn [markTables]. apply append_nil_r.
  - rewrite markTables_literals. cbn [markTables]. rewrite IH. reflexivity.
Qed.

Lemma hits_blob {M : Type} (g : string -> M) (marked : list (string * string))
      (tail : string) :
  forall lo lc offset,
    hits (blobPieces g lo lc offset marked tail) = map (fun tb => g (snd tb)) marked.
Proof.
  induction marked as [|[t e] marked IH]; intros lo lc offset; cbn [blobPieces map].
  - rewrite <- (app_nil_r (literals tail)), hits_literals. reflexivity.
  - rewrite hits_literals. cbn [hits snd]. rewrite IH. reflexivity.
Qed.

Lemma extraction_blocks (marked : list (string * string)) (tail : string) :
  wellFormedTables marked tail = true ->
  cleanText (extractSpecialContent (tableBlob marked tail))
  = markedText 0 marked tail
  /\ tableBlocks (extractSpecialContent (tableBlob marked tail))
     = map (fun tb => Js.trim (snd tb)) marked.
Proof.
  intros H. unfold extractSpecialContent. cbn [cleanText tableBlocks].
  rewrite (pieces_tableBlob marked tail H). split.
  - apply markTables_blob.
  - rewrite hits_blob, map_map. reflexivity.
Qed.

(** X3.  On a text with [N] table blocks (no opening tag in the texts, no
    closing tag in the contents) the extraction writes the markers
    [__TABLE_BLOCK_0__] to [__TABLE_BLOCK_(N-1)__] in place of the blocks,
    in order, leaves the rest of the text as it is, and returns the [N]
    contents, trimmed, in the same order. *)
Theorem extraction_of_table_blocks :
  forall marked tail,
    wellFormedTables marked tail = true ->
    cleanText (extractSpecialContent (tableBlob marked tail))
    = markedText 0 marked tail
    /\ tableBlocks (extractSpecialContent (tableBlob marked tail))
       = map (fun tb => Js.trim (snd tb)) marked.
Proof.
  intros marked tail H. apply extraction_blocks, H.
Qed.

Lemma extraction_of_table_blocks_witness :
  cleanText (extractSpecialContent
               (tableBlob [("a ", " <tr></tr> "); ("", "x")] " b"))
  = "a __TABLE_BLOCK_0____TABLE_BLOCK_1__ b"
  /\ tableBlocks (extractSpecialContent
                    (tableBlob [("a ", " <tr></tr> "); ("", "x")] " b"))
     = ["<tr></tr>"; "x"].
Proof.
  exact (extraction_of_table_blocks [("a ", " <tr></tr> "); ("", "x")] " b" eq_refl).
Defined.

(** *** The markers and the walker *)

Lemma digits_all (d : Decimal.uint) :
  Js.all Js.isDigit (NilEmpty.string_of_uint d) = true.
Proof. induction d; cbn [NilEmpty.string_of_uint Js.all]; try reflexivity; exact IHd. Qed.

Lemma parseDigits_of_uint (d : Decimal.uint) :
  forall acc, parseDigits acc (NilEmpty.string_of_uint d) = Nat.of_uint_acc d acc.
Proof.
  induction d; intros acc; cbn [NilEmpty.string_of_uint parseDigits Nat.of_uint_acc];
    [reflexivity|..]; rewrite IHd, Nat.tail_mul_spec; f_equal;
    match goal with
    | |- context [nat_of_ascii ?c] =>
        let v := eval vm_compute in (nat_of_ascii c - 48) in
        change (nat_of_ascii c - 48) with v
    end; lia.
Qed.

Lemma to_uint_not_nil (n : nat) : Nat.to_uint n <> Decimal.Nil.
Proof.
  rewrite <- (DecimalNat.Unsigned.of_to n) at 1.
  rewrite DecimalNat.Unsigned.to_of.
  generalize (Nat.to_uint n). intros d.
  induction d; cbn [Decimal.unorm]; try discriminate; exact IHd.
Qed.

Lemma parseInt_decimal (n : nat) :
  parseInt (NilEmpty.string_of_uint (Nat.to_uint n)) = n.
Proof.
  unfold parseInt. rewrite parseDigits_of_uint. apply DecimalNat.Unsigned.of_to.
Qed.

Lemma tableMarker_elsewhere (prev : option ascii) (c : ascii) (s : string) :
  Js.isNot "T" c = true -> tableMarker prev (String c s) = None.
Proof.
  unfold Js.isNot. intros H. apply negb_true_iff in H.
  unfold tableMarker. cbn [Js.startsWith]. rewrite Ascii.eqb_sym, H. reflexivity.
Qed.

Lemma tableMarker_in_text (prev : option ascii) (digits post : string) :
  Js.truthy digits = true -> Js.all Js.isDigit digits = true ->
  tableMarker prev ("TABLE_BLOCK_" ++ digits ++ "__" ++ post)
  = Some (digits, 12 + String.length digits).
Proof.
  intros Hne Hall. unfold tableMarker.
  change (Js.startsWith "TABLE_BLOCK_" ("TABLE_BLOCK_" ++ ?x)) with true.
  change (Js.drop 12 ("TABLE_BLOCK_" ++ ?x)) with x.
  cbv iota. rewrite (span_all Js.isDigit digits ("__" ++ post) Hall eq_refl).
  destruct digits; [discriminate|reflexivity].
Qed.

Lemma first_through_text (t rest : string) :
  Js.all (Js.isNot "T") t = true ->
  forall offset prev,
    first (scan tableMarker 0 offset prev (t ++ String "T" rest))
    = first (scan tableMarker 0 (offset + String.length t)
                  (match t with "" => prev | _ => None end) (String "T" rest)).
Proof.
  induction t as [|c t IH]; intros H offset prev.
  - cbn [append String.length]. rewrite Nat.add_0_r. reflexivity.
  - cbn [Js.all] in H. apply andb_true_iff in H as [Hc H].
    cbn [append]. rewrite RegexFacts.first_scan_lit by (apply tableMarker_elsewhere, Hc).
    rewrite (IH H). cbn [String.length]. rewrite Nat.add_succ_r.
    destruct t; reflexivity.
Qed.

(** The marker of index [n] is found in a text that holds no [T] before
    it, with the digits of [n] as capture. *)
Lemma tableMatch_of_marker (pre post : string) (n : nat) :
  Js.all (Js.isNot "T") pre = true ->
  tableMatch (pre ++ marker n ++ post)
  = Some (NilEmpty.string_of_uint (Nat.to_uint n)).
Proof.
  intros Hpre. unfold tableMatch, pieces, marker.
  replace (pre ++ ("__TABLE_BLOCK_" ++ NilEmpty.string_of_uint (Nat.to_uint n) ++ "__")
               ++ post)
    with ((pre ++ "__")
            ++ String "T" ("ABLE_BLOCK_" ++ NilEmpty.string_of_uint (Nat.to_uint n)
                                         ++ "__" ++ post))
    by (cbn [append]; rewrite !append_assoc; reflexivity).
  rewrite first_through_text
    by (rewrite QuotingFacts.all_append, Hpre; reflexivity).
  apply (RegexFacts.first_scan_hit _ _ _ _ _ (12 + String.length (NilEmpty.string_of_uint (Nat.to_uint n)))).
  - reflexivity.
  - apply (tableMarker_in_text _ (NilEmpty.string_of_uint (Nat.to_uint n)) post);
      [|apply digits_all].
    pose proof (to_uint_not_nil n) as H.
    destruct (Nat.to_uint n); [contradiction|reflexivity..].
Qed.

(** X4.  The markers of the extraction and the walker agree: a text node
    that holds the marker of index [i], read with the table blocks that
    the extraction returned for a text with more than [i] blocks, is
    drawn as the table whose content is the trimmed content of block
    [i].  The text that the node holds around the marker is not drawn. *)
Theorem marker_draws_its_block :
  forall host startX depth currentY marked tail pre post i,
    wellFormedTables marked tail = true ->
    i < List.length marked ->
    Js.all (Js.isNot "T") pre = true ->
    traverse host startX
             (tableBlocks (extractSpecialContent (tableBlob marked tail)))
             (Text (pre ++ marker i ++ post)) depth currentY
    = htmlTable startX "table-error" depth
                (Js.trim (snd (nth i marked ("", "")))) currentY.
Proof.
  intros host startX depth currentY marked tail pre post i Hwf Hi Hpre.
  destruct (extraction_blocks marked tail Hwf) as [_ Hblocks].
  rewrite Hblocks. cbn [traverse]. unfold textBranch.
  rewrite (tableMatch_of_marker pre post i Hpre), parseInt_decimal, length_map.
  apply Nat.ltb_lt in Hi. rewrite Hi.
  change "" with ((fun tb : string * string => Js.trim (snd tb)) ("", "")) at 2.
  rewrite map_nth. reflexivity.
Qed.

Lemma marker_draws_its_block_witness :
  traverse Scenario.failingHost 0
           (tableBlocks (extractSpecialContent
                           (tableBlob [("a ", " <tr><td>x</td></tr> ")] "")))
           (Text ("see " ++ marker 0 ++ " below")) 0 7
  = htmlTable 0 "table-error" 0
              (Js.trim (snd (nth 0 [("a ", " <tr><td>x</td></tr> ")] ("", "")))) 7.
Proof.
  apply (marker_draws_its_block Scenario.failingHost 0 0 7
           [("a ", " <tr><td>x</td></tr> ")] "" "see " " below" 0);
    [reflexivity | apply Nat.lt_0_1 | reflexivity].
Defined.

End ExtractFacts.
(** ** src/app/utils/diagrams.ts: the other helpers *)

Module DiagramUtilFacts.

Import Regex Blocks DiagramUtil StringFacts QuotingFacts BlockFacts ExtractFacts.

(** *** cleanMermaidCode *)

(** The replacement of one character by another, character by
    character. *)
Lemma replace_char (a b : ascii) (s : string) :
  forall offset prev,
    rebuild (fun _ _ => Js.str b) (scan (literal (Js.str a)) 0 offset prev s)
    = Diagrams.mapChars (fun c => if Ascii.eqb c a then b else c) s.
Proof.
  induction s as [|c s IH]; intros offset prev; [reflexivity|].
  cbn [scan Diagrams.mapChars]. unfold literal at 1.
  cbn [Js.str Js.startsWith String.length]. rewrite andb_true_r, (Ascii.eqb_sym a c).
  destruct (Ascii.eqb c a); cbn [rebuild Nat.pred Js.str append]; rewrite IH;
    reflexivity.
Qed.

Lemma mapChars_mapChars (f g : ascii -> ascii) (s : string) :
  Diagrams.mapChars f (Diagrams.mapChars g s) = Diagrams.mapChars (fun c => f (g c)) s.
Proof.
  induction s as [|c s IH]; cbn [Diagrams.mapChars]; [|rewrite IH]; reflexivity.
Qed.

Lemma mapChars_ext (f g : ascii -> ascii) (s : string) :
  (forall c, f c = g c) -> Diagrams.mapChars f s = Diagrams.mapChars g s.
Proof.
  intros H. induction s as [|c s IH]; cbn [Diagrams.mapChars]; [|rewrite IH, H];
    reflexivity.
Qed.

Lemma mapChars_length (f : ascii -> ascii) (s : string) :
  String.length (Diagrams.mapChars f s) = String.length s.
Proof.
  induction s as [|c s IH]; cbn [Diagrams.mapChars String.length]; [|rewrite IH];
    reflexivity.
Qed.

Lemma mapChars_append (f : ascii -> ascii) (a b : string) :
  Diagrams.mapChars f (a ++ b) = Diagrams.mapChars f a ++ Diagrams.mapChars f b.
Proof.
  induction a as [|c a IH]; cbn [Diagrams.mapChars append]; [|rewrite IH];
    reflexivity.
Qed.

Lemma all_mapChars (p : ascii -> bool) (f : ascii -> ascii) (s : string) :
  (forall c, p (f c) = true) -> Js.all p (Diagrams.mapChars f s) = true.
Proof.
  intros H. induction s as [|c s IH]; cbn [Diagrams.mapChars Js.all];
    [reflexivity|rewrite H, IH; reflexivity].
Qed.

(** Cleaning is a change of characters: each brace becomes the bracket
    of the same side. *)
Lemma cleanMermaidCode_chars (code : string) :
  cleanMermaidCode code
  = Diagrams.mapChars
      (fun c => if Ascii.eqb c "{" then "["%char
                else if Ascii.eqb c "}" then "]"%char else c) code.
Proof.
  unfold cleanMermaidCode, replaceLiteral, replace, pieces.
  change "}" with (Js.str "}"). change "]" with (Js.str "]").
  change "{" with (Js.str "{"). change "[" with (Js.str "[").
  rewrite !replace_char, mapChars_mapChars. apply mapChars_ext. intros c.
  destruct (Ascii.eqb c "{") eqn:E; [reflexivity|]. reflexivity.
Qed.

Lemma unbrace_stable (c : ascii) :
  (if Ascii.eqb (if Ascii.eqb c "{" then "["%char
                 else if Ascii.eqb c "}" then "]"%char else c) "{"
   then "["%char
   else if Ascii.eqb (if Ascii.eqb c "{" then "["%char
                      else if Ascii.eqb c "}" then "]"%char else c) "}"
        then "]"%char
        else (if Ascii.eqb c "{" then "["%char
              else if Ascii.eqb c "}" then "]"%char else c))
  = (if Ascii.eqb c "{" then "["%char
     else if Ascii.eqb c "}" then "]"%char else c).
Proof.
  destruct (Ascii.eqb c "{") eqn:E1; [reflexivity|].
  destruct (Ascii.eqb c "}") eqn:E2; [reflexivity|].
  rewrite E1, E2. reflexivity.
Qed.

Lemma cleanMermaidCode_no_brace (code : string) :
  Js.all (fun c => negb (Ascii.eqb c "{") && negb (Ascii.eqb c "}"))
         (cleanMermaidCode code) = true.
Proof.
  rewrite cleanMermaidCode_chars. apply all_mapChars. intros c.
  destruct (Ascii.eqb c "{") eqn:E1; [reflexivity|].
  destruct (Ascii.eqb c "}") eqn:E2; [reflexivity|].
  rewrite E1, E2. reflexivity.
Qed.

(** X5.  The cleaned code holds no brace, has the length of the code, and
    cleaning it again changes nothing. *)
Theorem cleaned_code_has_no_brace :
  forall code,
    Js.all (fun c => negb (Ascii.eqb c "{") && negb (Ascii.eqb c "}"))
           (cleanMermaidCode code) = true
    /\ String.length (cleanMermaidCode code) = String.length code
    /\ cleanMermaidCode (cleanMermaidCode code) = cleanMermaidCode code.
Proof.
  intros code. split; [apply cleanMermaidCode_no_brace|].
  rewrite !cleanMermaidCode_chars. split.
  - apply mapChars_length.
  - rewrite mapChars_mapChars. apply mapChars_ext, unbrace_stable.
Qed.

(** X6.  The fallback diagram is the header and one edge from the node
    [A] to itself, labelled at both ends with the cleaned description;
    it holds no brace. *)
Theorem fallback_diagram_shape :
  forall description,
    createFallbackMermaid description
    = "flowchart TD" ++ String Js.LF
        ("    A[" ++ cleanMermaidCode description
         ++ "] --> A[" ++ cleanMermaidCode description ++ "]")
    /\ Js.all (fun c => negb (Ascii.eqb c "{") && negb (Ascii.eqb c "}"))
              (createFallbackMermaid description) = true.
Proof.
  intros description. split.
  - unfold createFallbackMermaid. rewrite !cleanMermaidCode_chars.
    rewrite mapChars_append. cbn [Diagrams.mapChars]. f_equal.
    change (String Js.LF ?x) with (Js.str Js.LF ++ x).
    rewrite !mapChars_append. reflexivity.
  - unfold createFallbackMermaid. apply cleanMermaidCode_no_brace.
Qed.


(** *** filterThinkTags *)

Lemma thinkBlock_tagged (prev : option ascii) (s : string) :
  thinkBlock prev s = tagged Js.startsWithCI "<think>" "</think>" (fun _ => tt) prev s.
Proof.
  unfold thinkBlock, tagged, closeThink. cbn [String.length].
  destruct (Js.startsWithCI "<think>" s); [|reflexivity].
  destruct (lazyUntil _ _ _) as [[cap n]|]; reflexivity.
Qed.

Lemma rebuild_blob (marked : list (string * string)) (tail : string) :
  forall lo lc offset,
    rebuild (fun (_ : nat) (_ : unit) => "")
            (blobPieces (fun _ => tt) lo lc offset marked tail)
    = outside marked tail.
Proof.
  induction marked as [|[t e] marked IH]; intros lo lc offset;
    cbn [blobPieces outside].
  - rewrite <- (app_nil_r (literals tail)), rebuild_literals.
    cbn [rebuild]. apply append_nil_r.
  - rewrite rebuild_literals. cbn [rebuild append]. rewrite IH. reflexivity.
Qed.

(** X7.  On a text with [N] reasoning blocks (no opening tag in the
    texts, no closing tag in the contents, in either case of letters) the
    filter removes the blocks with their tags and trims what is left:
    the texts outside the blocks, put end to end. *)
Theorem think_blocks_are_removed :
  forall marked tail,
    wellFormed Js.startsWithCI "<think>" "</think>" marked tail = true ->
    filterThinkTags (blob "<think>" "</think>" marked tail)
    = Js.trim (outside marked tail).
Proof.
  intros marked tail H. unfold filterThinkTags, replace, pieces.
  rewrite (scan_blob Js.startsWithCI "think>" "/think>" (fun _ => tt)
                     startsWithCI_self startsWithCI_tag_border eq_refl eq_refl
                     thinkBlock thinkBlock_tagged marked tail H).
  rewrite rebuild_blob. reflexivity.
Qed.

Lemma think_blocks_are_removed_witness :
  filterThinkTags (blob "<think>" "</think>"
                        [(" Sure. ", "step 1 <b> step 2"); ("<THINK", "")] " Done. ")
  = Js.trim (outside [(" Sure. ", "step 1 <b> step 2"); ("<THINK", "")] " Done. ").
Proof.
  apply (think_blocks_are_removed
           [(" Sure. ", "step 1 <b> step 2"); ("<THINK", "")] " Done. ").
  reflexivity.
Defined.

(** *** convertJSONtoMermaidMindmap *)

Lemma ensureLabel_id (node : MindmapNode) : id (ensureLabel node) = id node.
Proof. unfold ensureLabel. destruct (_ || _); reflexivity. Qed.

Lemma ensureLabel_not_blank (node : MindmapNode) :
  Js.truthy (Js.trim (label (ensureLabel node))) = true.
Proof.
  unfold ensureLabel.
  destruct (negb (Js.truthy (label node)) || Js.isEmpty (Js.trim (label node))) eqn:E.
  - reflexivity.
  - apply orb_false_iff in E as [_ E]. unfold Js.truthy. rewrite E. reflexivity.
Qed.

Lemma not_blank_truthy (s : string) :
  Js.truthy (Js.trim s) = true -> Js.truthy s = true.
Proof. destruct s; [discriminate|reflexivity]. Qed.

Lemma ensureLabel_stable (node : MindmapNode) :
  ensureLabel (ensureLabel node) = ensureLabel node.
Proof.
  pose proof (ensureLabel_not_blank node) as H.
  unfold ensureLabel at 1.
  rewrite (not_blank_truthy _ H). unfold Js.truthy in H.
  apply negb_true_iff in H. rewrite H. reflexivity.
Qed.

(** What the first loop makes of a node: the identifier is kept, a label
    that is empty or blank becomes [Node], any other label is kept. *)
Lemma ensureLabel_label (node : MindmapNode) :
  id (ensureLabel node) = id node
  /\ (Js.trim (label node) = "" -> label (ensureLabel node) = "Node")
  /\ (Js.trim (label node) <> "" -> label (ensureLabel node) = label node).
Proof.
  unfold ensureLabel.
  destruct (negb (Js.truthy (label node)) || Js.isEmpty (Js.trim (label node))) eqn:E.
  - cbn [id label]. split; [reflexivity|]. split; [reflexivity|].
    intros Hne. exfalso. apply orb_true_iff in E as [E|E].
    + apply negb_true_iff in E. destruct (label node); [|discriminate].
      apply Hne. reflexivity.
    + destruct (Js.trim (label node)); [|discriminate]. apply Hne. reflexivity.
  - split; [reflexivity|]. split; [|reflexivity].
    intros He. apply orb_false_iff in E as [_ E]. rewrite He in E. discriminate.
Qed.

(** X8.  The conversion of a mind map changes the nodes it is given, one
    by one and in place: the identifier of a node is kept, a label that
    is empty or blank becomes [Node], and any other label is kept as it
    is.  So no node is left with a blank label, and a second conversion
    of the nodes so changed yields the same code and changes nothing
    more. *)
Theorem mindmap_labels_are_filled :
  forall nodes connections,
    Forall2 (fun before after =>
               id after = id before
               /\ (Js.trim (label before) = "" -> label after = "Node")
               /\ (Js.trim (label before) <> "" -> label after = label before))
            nodes (snd (convertJSONtoMermaidMindmap nodes connections))
    /\ Forall (fun node => Js.truthy (Js.trim (label node)) = true)
              (snd (convertJSONtoMermaidMindmap nodes connections))
    /\ convertJSONtoMermaidMindmap
         (snd (convertJSONtoMermaidMindmap nodes connections)) connections
       = convertJSONtoMermaidMindmap nodes connections.
Proof.
  intros nodes connections.
  destruct nodes as [|n0 nodes]; [repeat split; constructor|].
  assert (Hconv : forall (n : MindmapNode) (ns : list MindmapNode),
             convertJSONtoMermaidMindmap (n :: ns) connections
             = ((("flowchart TB" ++ Js.str Js.LF)
                   ++ Js.concat (map nodeLine (map ensureLabel (n :: ns)))
                   ++ Js.str Js.LF)
                  ++ Js.concat (map connectionLine connections),
                map ensureLabel (n :: ns))) by reflexivity.
  rewrite Hconv. cbn [snd]. split; [|split].
  - generalize (n0 :: nodes). intros l.
    induction l as [|a l IH]; cbn [map]; constructor;
      [apply ensureLabel_label|exact IH].
  - apply Forall_forall. intros node Hin. apply in_map_iff in Hin as [a [<- _]].
    apply ensureLabel_not_blank.
  - change (map ensureLabel (n0 :: nodes))
      with (ensureLabel n0 :: map ensureLabel nodes) at 1.
    rewrite Hconv.
    change (ensureLabel n0 :: map ensureLabel nodes)
      with (map ensureLabel (n0 :: nodes)).
    assert (Hstable : map ensureLabel (map ensureLabel (n0 :: nodes))
                      = map ensureLabel (n0 :: nodes)).
    { rewrite map_map. apply map_ext, ensureLabel_stable. }
    rewrite Hstable. reflexivity.
Qed.

End DiagramUtilFacts.
(** ** src/app/constants/whiteboard.ts: the keys of the environment *)

Module TrimFacts.

Lemma trimStart_head (s : string) :
  match Js.trimStart s with
  | "" => True
  | String c _ => Js.isWhiteSpace c = false
  end.
Proof.
  induction s as [|c s IH]; cbn [Js.trimStart]; [exact I|].
  destruct (Js.isWhiteSpace c) eqn:E; [exact IH|exact E].
Qed.

Lemma trimEnd_trimEnd (s : string) : Js.trimEnd (Js.trimEnd s) = Js.trimEnd s.
Proof.
  induction s as [|c s IH]; [reflexivity|]. cbn [Js.trimEnd].
  destruct (Js.isWhiteSpace c && Js.isEmpty (Js.trimEnd s)) eqn:E; [reflexivity|].
  cbn [Js.trimEnd]. rewrite IH, E. reflexivity.
Qed.

Lemma trimStart_trimEnd (s : string) :
  match s with "" => True | String c _ => Js.isWhiteSpace c = false end ->
  Js.trimStart (Js.trimEnd s) = Js.trimEnd s.
Proof.
  destruct s as [|c s]; [reflexivity|]. intros Hc. cbn [Js.trimEnd].
  rewrite Hc. cbn [andb Js.trimStart]. rewrite Hc. reflexivity.
Qed.

(** Trimming twice is trimming once. *)
Lemma trim_trim (s : string) : Js.trim (Js.trim s) = Js.trim s.
Proof.
  unfold Js.trim. rewrite (trimStart_trimEnd _ (trimStart_head s)).
  apply trimEnd_trimEnd.
Qed.

End TrimFacts.

Module ConfigFacts.

Import Config TrimFacts QuotingFacts.

Lemma getGroqApiKeys_clean (envKeys : option string) (key : string) :
  In key (getGroqApiKeys envKeys) ->
  Js.truthy key = true
  /\ Js.trim key = key
  /\ Js.all (Js.isNot ",") key = true.
Proof.
  intros Hin. unfold getGroqApiKeys in Hin.
  destruct envKeys as [e|]; [|contradiction].
  destruct (negb (Js.truthy e)); [contradiction|].
  apply filter_In in Hin as [Hin Hlen].
  apply in_map_iff in Hin as [w [<- Hw]]. split; [|split].
  - destruct (Js.trim w); [discriminate|reflexivity].
  - apply trim_trim.
  - apply all_trim. pose proof (split_free "," e) as H.
    rewrite Forall_forall in H. apply (H w Hw).
Qed.

(** X9.  No key read from the environment is empty, none holds a comma,
    and none has white space at either end. *)
Theorem api_keys_are_clean :
  forall envKeys key,
    In key (getGroqApiKeys envKeys) ->
    Js.truthy key = true
    /\ Js.trim key = key
    /\ Js.all (Js.isNot ",") key = true.
Proof. intros envKeys key. apply getGroqApiKeys_clean. Qed.

Lemma api_keys_are_clean_witness :
  Js.truthy "k2" = true /\ Js.trim "k2" = "k2" /\ Js.all (Js.isNot ",") "k2" = true.
Proof.
  apply (api_keys_are_clean (Some " k1 ,, k2,"%string) "k2").
  vm_compute. right. left. reflexivity.
Defined.

End ConfigFacts.
(** ** src/app/services/aiService.ts: the rotation of the keys *)

Module AiServiceFacts.

Import AiService Config TrimFacts QuotingFacts ConfigFacts.

Section Retry.

Context {T : Type}.
Variable operation : nat -> option string -> T + ApiError.

(** The loop ends: the fuel of [executeWithRetry] is enough. *)
Lemma retryLoop_total (fuel : nat) :
  forall attempts s log,
    List.length (apiKeys s) - attempts < fuel ->
    exists run,
      retryLoop operation fuel (List.length (apiKeys s)) attempts s log = Some run.
Proof.
  induction fuel as [|fuel IH]; intros attempts s log Hfuel; [lia|].
  cbn [retryLoop].
  destruct (attempts <? List.length (apiKeys s)) eqn:Hlt; [|eexists; reflexivity].
  apply Nat.ltb_lt in Hlt.
  destruct (operation attempts (apiKey s)) as [v|error]; [eexists; reflexivity|].
  destruct (isRateLimitError error && (attempts <? List.length (apiKeys s) - 1));
    [|eexists; reflexivity].
  apply (IH (S attempts) (rotateApiKey s)). cbn [rotateApiKey apiKeys]. lia.
Qed.

Lemma executeWithRetry_total (s : Service) :
  exists run, executeWithRetry operation s = Some run.
Proof. unfold executeWithRetry. apply retryLoop_total. lia. Qed.

(** The key of call number [j] after the current one. *)
Lemma retryLoop_spec (fuel : nat) :
  forall attempts s log,
    attempts < List.length (apiKeys s) ->
    List.length (apiKeys s) - attempts <= fuel ->
    currentKeyIndex s < List.length (apiKeys s) ->
    exists m,
      1 <= m /\ attempts + m <= List.length (apiKeys s)
      /\ retryLoop operation fuel (List.length (apiKeys s)) attempts s log
         = Some {| service :=
                     {| apiKeys := apiKeys s;
                        currentKeyIndex :=
                          (currentKeyIndex s + (m - 1)) mod List.length (apiKeys s) |};
                   calls :=
                     (log ++ map (fun j => nth_error (apiKeys s)
                                             ((currentKeyIndex s + j)
                                                mod List.length (apiKeys s)))
                                 (seq 0 m))%list;
                   result :=
                     operation (attempts + (m - 1))
                               (nth_error (apiKeys s)
                                          ((currentKeyIndex s + (m - 1))
                                             mod List.length (apiKeys s))) |}
      /\ (forall j, j < m - 1 ->
            exists e,
              operation (attempts + j)
                        (nth_error (apiKeys s)
                                   ((currentKeyIndex s + j) mod List.length (apiKeys s)))
              = inr e
              /\ isRateLimitError e = true)
      /\ (forall e,
            operation (attempts + (m - 1))
                      (nth_error (apiKeys s)
                                 ((currentKeyIndex s + (m - 1))
                                    mod List.length (apiKeys s)))
            = inr e ->
            isRateLimitError e = true -> attempts + m = List.length (apiKeys s)).
Proof.
  induction fuel as [|fuel IH]; intros attempts s log Hlt Hfuel Hk; [lia|].
  destruct s as [keys k]. cbn [apiKeys currentKeyIndex] in *.
  remember (List.length keys) as n eqn:Hn.
  cbn [retryLoop]. apply Nat.ltb_lt in Hlt as Hltb. rewrite Hltb.
  unfold apiKey. cbn [apiKeys currentKeyIndex].
  assert (Hk0 : (k + 0) mod n = k) by (rewrite Nat.add_0_r; apply Nat.mod_small, Hk).
  destruct (operation attempts (nth_error keys k)) as [v|error] eqn:Hop.
  - exists 1. cbn [Nat.sub seq map]. rewrite Hk0, Nat.add_0_r, Hop.
    repeat split; try lia; intros; try lia; congruence.
  - destruct (isRateLimitError error && (attempts <? n - 1)) eqn:Hcont.
    + apply andb_true_iff in Hcont as [Hrate Hmore]. apply Nat.ltb_lt in Hmore.
      destruct (IH (S attempts) (rotateApiKey {| apiKeys := keys; currentKeyIndex := k |})
                   (log ++ [nth_error keys k])%list)
        as [m [Hm1 [Hm2 [Hrun [Hfail Hlast]]]]];
        cbn [rotateApiKey apiKeys currentKeyIndex]; rewrite <- ?Hn; try lia.
      { apply Nat.mod_upper_bound. lia. }
      cbn [rotateApiKey apiKeys currentKeyIndex] in Hrun, Hfail, Hlast, Hm2.
      rewrite <- ?Hn in Hrun, Hfail, Hlast, Hm2.
      assert (Hshift : forall j, ((k + 1) mod n + j) mod n = (k + S j) mod n).
      { intros j. rewrite Nat.Div0.add_mod_idemp_l. f_equal. lia. }
      exists (S m). replace (S m - 1) with (S (m - 1)) by lia.
      rewrite Hshift in Hrun, Hlast.
      replace (S attempts + (m - 1)) with (attempts + S (m - 1)) in Hrun, Hlast by lia.
      split; [lia|]. split; [lia|]. split; [|split].
      * rewrite Hrun. f_equal. f_equal.
        rewrite <- app_assoc. f_equal. cbn [seq map app]. rewrite Hk0. f_equal.
        rewrite <- seq_shift, map_map. apply map_ext. intros j.
        rewrite Hshift. reflexivity.
      * intros j Hj. destruct j as [|j].
        -- exists error. rewrite Hk0, Nat.add_0_r. split; assumption.
        -- destruct (Hfail j) as [e [He1 He2]]; [lia|].
           exists e. rewrite Hshift in He1.
           replace (attempts + S j) with (S attempts + j) by lia. split; assumption.
      * intros e He Hr. specialize (Hlast e He Hr). lia.
    + exists 1. cbn [Nat.sub seq map]. rewrite Hk0, Nat.add_0_r, Hop.
      repeat split; try lia; intros; try lia.
      assert (e = error) by congruence. subst e.
      match goal with H : isRateLimitError error = true |- _ => rewrite H in Hcont end.
      cbn [andb] in Hcont. apply Nat.ltb_ge in Hcont. lia.
Qed.

(** What a call reports is the error of exhaustion or an outcome of the
    operation. *)
Lemma retryLoop_result (fuel : nat) :
  forall attempts s log run,
    retryLoop operation fuel (List.length (apiKeys s)) attempts s log = Some run ->
    result run = inr exhausted
    \/ exists n key, result run = operation n key.
Proof.
  induction fuel as [|fuel IH]; intros attempts s log run Hrun; [discriminate|].
  cbn [retryLoop] in Hrun.
  destruct (attempts <? List.length (apiKeys s));
    [|inversion Hrun; left; reflexivity].
  destruct (operation attempts (apiKey s)) as [v|error] eqn:Hop.
  - inversion Hrun. right. exists attempts, (apiKey s). cbn [result]. congruence.
  - destruct (isRateLimitError error && (attempts <? List.length (apiKeys s) - 1)).
    + apply (IH (S attempts) (rotateApiKey s) _ run Hrun).
    + inversion Hrun. right. exists attempts, (apiKey s). cbn [result]. congruence.
Qed.

Lemma retryLoop_outcome (s : Service) :
  exists run,
    executeWithRetry operation s = Some run
    /\ (result run = inr exhausted \/ exists n key, result run = operation n key).
Proof.
  destruct (executeWithRetry_total s) as [run Hrun]. exists run.
  split; [exact Hrun|]. apply (retryLoop_result _ _ _ _ _ Hrun).
Qed.

End Retry.

(** X10.  Without any key the operation is never called and the call
    fails with the error [All API keys exhausted due to rate limits]; the
    service is left as it was. *)
Theorem no_key_no_call :
  forall (T : Type) (operation : nat -> option string -> T + ApiError) (s : Service),
    apiKeys s = [] ->
    executeWithRetry operation s
    = Some {| service := s; calls := []; result := inr exhausted |}.
Proof.
  intros T operation s Hkeys. unfold executeWithRetry. rewrite Hkeys. reflexivity.
Qed.

Lemma no_key_no_call_witness :
  executeWithRetry (fun (_ : nat) (_ : option string) => @inl nat ApiError 1)
                   {| apiKeys := []; currentKeyIndex := 0 |}
  = Some {| service := {| apiKeys := []; currentKeyIndex := 0 |};
            calls := []; result := inr exhausted |}.
Proof.
  apply (no_key_no_call nat (fun _ _ => inl 1) {| apiKeys := []; currentKeyIndex := 0 |}).
  reflexivity.
Defined.

(** X13.  Whatever the chat service answers and however the calls fail,
    the diagram type returned is one of the four supported types. *)
Theorem diagram_type_is_supported :
  forall (chat : Chat) (s : Service),
    exists s' diagramType,
      determineBestDiagramType chat s = Some (s', diagramType)
      /\ In diagramType supportedTypes.
Proof.
  intros chat s. unfold determineBestDiagramType.
  destruct (executeWithRetry_total
              (fun n key =>
                 match chat n key with
                 | inl content_ =>
                     inl (orDefault (option_map Js.trim content_) "flowchart")
                 | inr error => inr error
                 end) s) as [run Hrun].
  rewrite Hrun. destruct (result run) as [diagramType|error].
  - destruct (existsb (String.eqb diagramType) supportedTypes) eqn:E.
    + eexists. eexists. split; [reflexivity|].
      apply existsb_exists in E as [t [Hin Heq]].
      apply String.eqb_eq in Heq. subst t. exact Hin.
    + eexists. eexists. split; [reflexivity|]. left. reflexivity.
  - eexists. eexists. split; [reflexivity|]. left. reflexivity.
Qed.

(** X14.  The breakdown of a topic holds between one and three
    categories, each without white space at its ends and without
    comma. *)
Theorem topics_breakdown_shape :
  forall (chat : Chat) (s : Service),
    exists s' breakdown,
      generateTopicsBreakdown chat s = Some (s', breakdown)
      /\ 1 <= List.length breakdown <= 3
      /\ Forall (fun category => Js.trim category = category
                                 /\ Js.all (Js.isNot ",") category = true)
                breakdown.
Proof.
  intros chat s. unfold generateTopicsBreakdown.
  set (operation := fun n key =>
         match chat n key with
         | inl content_ =>
             inl (slice03 (map Js.trim
                               (Js.split "," (orDefault content_
                                                "Definition, KeyConcepts, Examples"))))
         | inr error => inr error
         end).
  destruct (retryLoop_outcome operation s) as [run [Hrun Hres]].
  rewrite Hrun. destruct (result run) as [breakdown|error] eqn:Er.
  - eexists. eexists. split; [reflexivity|].
    destruct Hres as [Hres|[n [key Hres]]]; [discriminate|].
    unfold operation in Hres.
    destruct (chat n key) as [content_|e]; [|discriminate].
    inversion Hres as [Hb]. clear Hres.
    set (response := orDefault content_ "Definition, KeyConcepts, Examples").
    unfold slice03. split.
    + rewrite length_firstn, length_map.
      pose proof (split_not_nil "," response) as Hne.
      destruct (Js.split "," response); [contradiction|]. cbn [List.length]. lia.
    + apply Forall_forall. intros category Hin.
      assert (Hin' : In category (map Js.trim (Js.split "," response))).
      { rewrite <- (firstn_skipn 3 (map Js.trim (Js.split "," response))).
        apply in_or_app. left. exact Hin. }
      apply in_map_iff in Hin' as [w [<- Hw]]. split; [apply trim_trim|].
      apply all_trim. pose proof (split_free "," response) as H.
      rewrite Forall_forall in H. apply (H w Hw).
  - eexists. eexists. split; [reflexivity|]. split; [cbn; lia|].
    repeat constructor.
Qed.

(** X28.  A service built on the keys of the environment, when there is
    at least one, calls the operation with a key at every call: a key of
    the environment, not empty and without white space around it. *)
Theorem every_call_has_a_clean_key :
  forall (T : Type) (operation : nat -> option string -> T + ApiError)
         (envKeys : option string),
    0 < List.length (getGroqApiKeys envKeys) ->
    exists run,
      executeWithRetry operation (newService (getGroqApiKeys envKeys)) = Some run
      /\ Forall (fun used => exists key,
                               used = Some key
                               /\ In key (getGroqApiKeys envKeys)
                               /\ Js.truthy key = true
                               /\ Js.trim key = key)
                (calls run).
Proof.
  intros T operation envKeys Hkeys. unfold executeWithRetry.
  destruct (retryLoop_spec operation
              (S (List.length (apiKeys (newService (getGroqApiKeys envKeys)))))
              0 (newService (getGroqApiKeys envKeys)) [])
    as [m [Hm1 [Hm2 [Hrun _]]]]; cbn [newService apiKeys currentKeyIndex]; try lia.
  cbn [newService apiKeys currentKeyIndex] in Hrun.
  eexists. split; [exact Hrun|]. cbn [calls app].
  apply Forall_forall. intros used Hin. apply in_map_iff in Hin as [j [<- Hj]].
  destruct (nth_error (getGroqApiKeys envKeys)
                      ((0 + j) mod List.length (getGroqApiKeys envKeys))) as [key|] eqn:E.
  - exists key. apply nth_error_In in E.
    destruct (getGroqApiKeys_clean envKeys key E) as [H1 [H2 _]].
    repeat split; assumption.
  - exfalso. apply nth_error_None in E.
    pose proof (Nat.mod_upper_bound (0 + j) (List.length (getGroqApiKeys envKeys))).
    lia.
Qed.

Lemma every_call_has_a_clean_key_witness :
  exists run,
    executeWithRetry (fun (_ : nat) (_ : option string) => @inl nat ApiError 1)
                     (newService (getGroqApiKeys (Some " k1 , k2 "%string)))
    = Some run.
Proof.
  destruct (every_call_has_a_clean_key nat (fun _ _ => inl 1) (Some " k1 , k2 "%string))
    as [run [Hrun _]].
  - apply Nat.ltb_lt. vm_compute. reflexivity.
  - exists run. exact Hrun.
Defined.

End AiServiceFacts.
(** ** src/app/services/aiService.ts: several runs on the one service *)

Module SharedServiceFacts.

Import AiService.

Section Shared.

Context {T : Type}.
Variable operation : nat -> nat -> option string -> T + ApiError.
Variable keys : list string.

(** What holds of a run at each of its steps. *)
Local Abbreviation taskInvariant run t :=
  (maxRetries t = List.length keys
   /\ attempts t < List.length keys
   /\ List.length (keysUsed t) = S (attempts t)
   /\ Forall (fun used => exists key, used = Some key /\ In key keys) (keysUsed t)
   /\ (forall j, j < attempts t ->
         exists e, operation run j (nth j (keysUsed t) None) = inr e
                   /\ isRateLimitError e = true)
   /\ match phase t with
      | Waiting key => nth (attempts t) (keysUsed t) None = key
      | Ended outcome =>
          outcome = operation run (attempts t) (nth (attempts t) (keysUsed t) None)
          /\ (forall e, outcome = inr e -> isRateLimitError e = true ->
                        S (attempts t) = List.length keys)
      end).

Local Abbreviation worldInvariant k0 w :=
  (apiKeys (shared w) = keys
   /\ currentKeyIndex (shared w) < List.length keys
   /\ currentKeyIndex (shared w) = (k0 + rotations w) mod List.length keys
   /\ (forall run t, nth_error (tasks w) run = Some t -> taskInvariant run t)).

Lemma nth_error_setTask (t' : Task T) (l : list (Task T)) :
  forall run i,
    nth_error (setTask run t' l) i
    = if i =? run then match nth_error l run with Some _ => Some t' | None => None end
      else nth_error l i.
Proof.
  induction l as [|t0 l IH]; intros run i.
  - cbn [setTask]. destruct (i =? run); destruct run, i; reflexivity.
  - destruct run as [|run]; cbn [setTask].
    + destruct i as [|i]; reflexivity.
    + destruct i as [|i]; [reflexivity|]. cbn [nth_error Nat.eqb]. apply IH.
Qed.

Lemma rotations_setTask (t t' : Task T) (l : list (Task T)) :
  forall run,
    nth_error l run = Some t ->
    list_sum (map attempts (setTask run t' l)) + attempts t
    = list_sum (map attempts l) + attempts t'.
Proof.
  induction l as [|t0 l IH]; intros run H; [destruct run; discriminate|].
  destruct run as [|run]; cbn [setTask map list_sum fold_right nth_error] in *.
  - inversion H. subst. lia.
  - specialize (IH run H). unfold list_sum in IH. lia.
Qed.

Lemma apiKey_in (s : Service) :
  apiKeys s = keys -> currentKeyIndex s < List.length keys ->
  exists key, apiKey s = Some key /\ In key keys.
Proof.
  intros Hk Hi. unfold apiKey. rewrite Hk.
  destruct (nth_error keys (currentKeyIndex s)) as [key|] eqn:E.
  - exists key. split; [reflexivity|]. apply (nth_error_In _ _ E).
  - apply nth_error_None in E. lia.
Qed.

Lemma start_invariant (k0 : nat) (w : World T) :
  worldInvariant k0 w -> worldInvariant k0 (start w).
Proof.
  intros [Hkeys [Hidx [Hrot Htasks]]].
  unfold start, rotations in *. cbn [shared tasks].
  split; [exact Hkeys|]. split; [exact Hidx|]. split.
  - rewrite map_app, list_sum_app. unfold enter. rewrite Hkeys.
    assert (Hlt : (0 <? List.length keys) = true) by (apply Nat.ltb_lt; lia).
    rewrite Hlt. cbn [map attempts list_sum fold_right]. rewrite !Nat.add_0_r. exact Hrot.
  - intros run t Hrun.
    destruct (Nat.lt_ge_cases run (List.length (tasks w))) as [Hlt|Hge].
    + rewrite nth_error_app1 in Hrun by exact Hlt. apply (Htasks run t Hrun).
    + rewrite nth_error_app2 in Hrun by exact Hge.
      destruct (run - List.length (tasks w)) as [|d] eqn:Ed;
        [|destruct d; discriminate].
      cbn [nth_error] in Hrun. inversion Hrun as [Ht]. clear Hrun.
      unfold enter. rewrite Hkeys.
      assert (Hlt : (0 <? List.length keys) = true) by (apply Nat.ltb_lt; lia).
      rewrite Hlt. cbn [maxRetries attempts keysUsed phase app List.length nth].
      destruct (apiKey_in (shared w) Hkeys Hidx) as [key [Hkey Hin]].
      split; [reflexivity|]. split; [lia|]. split; [reflexivity|]. split.
      * constructor; [|constructor]. exists key. split; assumption.
      * split; [intros j Hj; lia|reflexivity].
Qed.

Lemma settle_invariant (k0 run : nat) (w : World T) :
  worldInvariant k0 w -> worldInvariant k0 (settle operation run w).
Proof.
  intros Hinv. pose proof Hinv as [Hkeys [Hidx [Hrot Htasks]]].
  unfold settle. destruct (nth_error (tasks w) run) as [t|] eqn:Hrun; [|exact Hinv].
  pose proof (Htasks run t Hrun) as [Hmax [Hatt [Hlen [Hused [Hfail Hphase]]]]].
  assert (Hother : forall t',
             taskInvariant run t' ->
             forall i u, nth_error (setTask run t' (tasks w)) i = Some u ->
                         taskInvariant i u).
  { intros t' Ht' i u Hi. rewrite nth_error_setTask in Hi.
    destruct (Nat.eqb_spec i run) as [->|Hne].
    - rewrite Hrun in Hi. inversion Hi. subst u. exact Ht'.
    - apply (Htasks i u Hi). }
  unfold resume. destruct (phase t) as [key|outcome] eqn:Hph.
  - destruct (operation run (attempts t) key) as [v|error] eqn:Hop.
    + (* the call succeeds *)
      cbn [shared tasks]. unfold rotations in *. cbn [tasks].
      pose proof (rotations_setTask t (ended t (inl v)) (tasks w) run Hrun) as Hsum.
      cbn [ended attempts] in Hsum.
      split; [exact Hkeys|]. split; [exact Hidx|]. split.
      * replace (list_sum (map attempts (setTask run (ended t (inl v)) (tasks w))))
          with (list_sum (map attempts (tasks w))) by lia. exact Hrot.
      * apply Hother. unfold ended. cbn [maxRetries attempts keysUsed phase].
        repeat (split; [assumption|]).
        split; [rewrite Hphase; symmetry; exact Hop|]. intros e He. discriminate.
    + destruct (isRateLimitError error && (attempts t <? maxRetries t - 1)) eqn:Hcont.
      * (* a rate limit, and attempts left: the key is rotated *)
        apply andb_true_iff in Hcont as [Hrate Hmore]. apply Nat.ltb_lt in Hmore.
        cbv zeta. cbn [shared tasks].
        assert (Hnext : (S (attempts t) <? maxRetries t) = true)
          by (apply Nat.ltb_lt; lia).
        unfold enter. rewrite Hnext.
        set (s' := rotateApiKey (shared w)).
        assert (Hkeys' : apiKeys s' = keys) by exact Hkeys.
        assert (Hidx' : currentKeyIndex s' < List.length keys).
        { unfold s', rotateApiKey. cbn [currentKeyIndex]. rewrite Hkeys.
          apply Nat.mod_upper_bound. lia. }
        set (t' := {| maxRetries := maxRetries t; attempts := S (attempts t);
                      keysUsed := (keysUsed t ++ [apiKey s'])%list;
                      phase := Waiting (apiKey s') |}).
        pose proof (rotations_setTask t t' (tasks w) run Hrun) as Hsum.
        cbn [t' attempts] in Hsum.
        split; [exact Hkeys'|]. split; [exact Hidx'|]. split.
        -- unfold rotations in *. cbn [tasks].
           replace (list_sum (map attempts (setTask run t' (tasks w))))
             with (S (list_sum (map attempts (tasks w)))) by lia.
           unfold s', rotateApiKey. cbn [currentKeyIndex]. rewrite Hkeys, Hrot.
           rewrite Nat.Div0.add_mod_idemp_l. f_equal. lia.
        -- apply Hother. unfold t'. cbn [maxRetries attempts keysUsed phase].
           destruct (apiKey_in s' Hkeys' Hidx') as [key' [Hkey' Hin']].
           split; [exact Hmax|]. split; [lia|].
           split; [rewrite length_app; cbn [List.length]; lia|]. split.
           ++ apply Forall_app. split; [exact Hused|].
              constructor; [|constructor]. exists key'. split; assumption.
           ++ split.
              ** intros j Hj. rewrite app_nth1 by lia.
                 destruct (Nat.eq_dec j (attempts t)) as [->|Hne].
                 --- exists error. rewrite Hphase. split; assumption.
                 --- apply Hfail. lia.
              ** rewrite app_nth2 by lia. rewrite Hlen, Nat.sub_diag. reflexivity.
      * (* the error is thrown *)
        cbn [shared tasks]. unfold rotations in *. cbn [tasks].
        pose proof (rotations_setTask t (ended t (inr error)) (tasks w) run Hrun) as Hsum.
        cbn [ended attempts] in Hsum.
        split; [exact Hkeys|]. split; [exact Hidx|]. split.
        -- replace (list_sum (map attempts (setTask run (ended t (inr error)) (tasks w))))
             with (list_sum (map attempts (tasks w))) by lia. exact Hrot.
        -- apply Hother. unfold ended. cbn [maxRetries attempts keysUsed phase].
           repeat (split; [assumption|]).
           split; [rewrite Hphase; symmetry; exact Hop|].
           intros e He Hr. inversion He. subst e. rewrite Hr in Hcont.
           cbn [andb] in Hcont. apply Nat.ltb_ge in Hcont. lia.
  - (* the run has ended already *)
    cbn [shared tasks]. unfold rotations in *. cbn [tasks].
    pose proof (rotations_setTask t t (tasks w) run Hrun) as Hsum.
    split; [exact Hkeys|]. split; [exact Hidx|]. split.
    + replace (list_sum (map attempts (setTask run t (tasks w))))
        with (list_sum (map attempts (tasks w))) by lia. exact Hrot.
    + apply Hother. apply (Htasks run t Hrun).
Qed.

Lemma play_invariant (k0 : nat) (events : list Event) :
  forall w, worldInvariant k0 w -> worldInvariant k0 (fold_left (step operation) events w).
Proof.
  induction events as [|e events IH]; intros w Hinv; [exact Hinv|].
  cbn [fold_left]. apply IH. destruct e as [|run]; cbn [step].
  - apply start_invariant, Hinv.
  - apply settle_invariant, Hinv.
Qed.

End Shared.

Lemma play_from (T : Type) (operation : nat -> nat -> option string -> T + ApiError)
      (s : Service) (events : list Event) :
  currentKeyIndex s < List.length (apiKeys s) ->
  apiKeys (shared (play operation events s)) = apiKeys s
  /\ currentKeyIndex (shared (play operation events s)) < List.length (apiKeys s)
  /\ currentKeyIndex (shared (play operation events s))
     = (currentKeyIndex s + rotations (play operation events s))
         mod List.length (apiKeys s)
  /\ (forall run t,
        nth_error (tasks (play operation events s)) run = Some t ->
        maxRetries t = List.length (apiKeys s)
        /\ attempts t < List.length (apiKeys s)
        /\ List.length (keysUsed t) = S (attempts t)
        /\ Forall (fun used => exists key, used = Some key /\ In key (apiKeys s))
                  (keysUsed t)
        /\ (forall j, j < attempts t ->
              exists e, operation run j (nth j (keysUsed t) None) = inr e
                        /\ isRateLimitError e = true)
        /\ match phase t with
           | Waiting key => nth (attempts t) (keysUsed t) None = key
           | Ended outcome =>
               outcome = operation run (attempts t) (nth (attempts t) (keysUsed t) None)
               /\ (forall e, outcome = inr e -> isRateLimitError e = true ->
                             S (attempts t) = List.length (apiKeys s))
           end).
Proof.
  intros Hk. unfold play.
  apply (play_invariant operation (apiKeys s) (currentKeyIndex s) events).
  cbn [shared tasks]. unfold rotations. cbn [tasks map list_sum fold_right].
  split; [reflexivity|]. split; [exact Hk|]. split.
  - rewrite Nat.add_0_r. symmetry. apply Nat.mod_small, Hk.
  - intros run t H. destruct run; discriminate.
Qed.

(** X11.  Several runs of [executeWithRetry] on the one service, started
    and resumed in any order: the list of the keys is unchanged; the
    index of the current key is the index at the start moved forward,
    cyclically, by the rotations of all the runs together, one rotation
    for each call of a run after its first; each run has made at least
    one call and no more calls than there are keys, each with a key of
    the list. *)
Theorem runs_share_the_rotation :
  forall (T : Type) (operation : nat -> nat -> option string -> T + ApiError)
         (s : Service) (events : list Event),
    currentKeyIndex s < List.length (apiKeys s) ->
    apiKeys (shared (play operation events s)) = apiKeys s
    /\ currentKeyIndex (shared (play operation events s))
       = (currentKeyIndex s + rotations (play operation events s))
           mod List.length (apiKeys s)
    /\ Forall (fun t =>
                 1 <= List.length (keysUsed t) <= List.length (apiKeys s)
                 /\ attempts t = List.length (keysUsed t) - 1
                 /\ Forall (fun used => exists key,
                                          used = Some key /\ In key (apiKeys s))
                           (keysUsed t))
              (tasks (play operation events s)).
Proof.
  intros T operation s events Hk.
  destruct (play_from T operation s events Hk) as [Hkeys [_ [Hrot Htasks]]].
  split; [exact Hkeys|]. split; [exact Hrot|].
  apply Forall_forall. intros t Hin. apply In_nth_error in Hin as [run Hrun].
  destruct (Htasks run t Hrun) as [_ [Hatt [Hlen [Hused _]]]].
  split; [lia|]. split; [lia|exact Hused].
Qed.

Lemma runs_share_the_rotation_witness :
  rotations (play contended interleaved twoKeys) = 2
  /\ map keysUsed (tasks (play contended interleaved twoKeys))
     = [[Some "k1"; Some "k2"]; [Some "k1"; Some "k1"]]
  /\ currentKeyIndex (shared (play contended interleaved twoKeys))
     = (0 + rotations (play contended interleaved twoKeys)) mod 2.
Proof.
  split; [reflexivity|]. split; [reflexivity|].
  apply (proj1 (proj2 (runs_share_the_rotation nat contended twoKeys interleaved
                         (Nat.lt_0_succ 1)))).
Defined.

(** X12.  Several runs of [executeWithRetry] on the one service, started
    and resumed in any order: every call of a run before its last failed
    on a rate limit; what a run returns or throws is the outcome of its
    last call; and a run throws a rate-limit error only after as many
    calls as there are keys.  Its calls need not have gone through all
    the keys: another run may have rotated the key in between. *)
Theorem run_outcome_is_its_last_call :
  forall (T : Type) (operation : nat -> nat -> option string -> T + ApiError)
         (s : Service) (events : list Event) (run : nat) (t : Task T),
    currentKeyIndex s < List.length (apiKeys s) ->
    nth_error (tasks (play operation events s)) run = Some t ->
    (forall j, j < List.length (keysUsed t) - 1 ->
       exists e, operation run j (nth j (keysUsed t) None) = inr e
                 /\ isRateLimitError e = true)
    /\ match phase t with
       | Waiting key => last (keysUsed t) None = key
       | Ended outcome =>
           outcome = operation run (List.length (keysUsed t) - 1)
                               (last (keysUsed t) None)
           /\ (forall e, outcome = inr e -> isRateLimitError e = true ->
                         List.length (keysUsed t) = List.length (apiKeys s))
       end.
Proof.
  intros T operation s events run t Hk Hrun.
  destruct (play_from T operation s events Hk) as [_ [_ [_ Htasks]]].
  destruct (Htasks run t Hrun) as [_ [_ [Hlen [_ [Hfail Hphase]]]]].
  assert (Hatt : List.length (keysUsed t) - 1 = attempts t) by lia.
  assert (Hlast : last (keysUsed t) None = nth (attempts t) (keysUsed t) None).
  { rewrite <- Hatt. destruct (keysUsed t) as [|u l] eqn:E; [discriminate|].
    rewrite <- E.
    rewrite (app_removelast_last None (l := keysUsed t)) at 2 3
      by (rewrite E; discriminate).
    rewrite length_app. cbn [List.length].
    rewrite app_nth2 by lia.
    replace (List.length (removelast (keysUsed t)) + 1 - 1
             - List.length (removelast (keysUsed t))) with 0 by lia.
    reflexivity. }
  rewrite Hatt, Hlast. split; [exact Hfail|].
  destruct (phase t) as [key|outcome]; [exact Hphase|].
  destruct Hphase as [Hout Hall]. split; [exact Hout|].
  intros e He Hr. rewrite Hlen. apply (Hall e He Hr).
Qed.

Lemma run_outcome_is_its_last_call_witness :
  exists t,
    nth_error (tasks (play contended interleaved twoKeys)) 1 = Some t
    /\ keysUsed t = [Some "k1"; Some "k1"]
    /\ phase t = Ended (inr rateLimited)
    /\ (forall j, j < List.length (keysUsed t) - 1 ->
          exists e, contended 1 j (nth j (keysUsed t) None) = inr e
                    /\ isRateLimitError e = true).
Proof.
  eexists. split; [reflexivity|]. split; [reflexivity|]. split; [reflexivity|].
  apply (proj1 (run_outcome_is_its_last_call nat contended twoKeys interleaved 1 _
                  (Nat.lt_0_succ 1) eq_refl)).
Defined.

(** *** A run alone on the service *)

Lemma ended_stays (T : Type) (operation : nat -> nat -> option string -> T + ApiError)
      (s : Service) (t : Task T) (outcome : T + ApiError) (m : nat) :
  phase t = Ended outcome ->
  fold_left (step operation) (repeat (Settle 0) m) {| shared := s; tasks := [t] |}
  = {| shared := s; tasks := [t] |}.
Proof.
  intros Hph. induction m as [|m IH]; [reflexivity|].
  cbn [repeat fold_left step]. unfold settle. cbn [tasks nth_error shared].
  unfold resume. rewrite Hph. cbn [setTask]. exact IH.
Qed.

Lemma loop_alone (T : Type) (operation : nat -> nat -> option string -> T + ApiError)
      (fuel : nat) :
  forall maxRetries_ attempts_ s log run m,
    retryLoop (operation 0) fuel maxRetries_ attempts_ s log = Some run ->
    maxRetries_ - attempts_ <= m ->
    exists t,
      fold_left (step operation) (repeat (Settle 0) m)
                {| shared := s; tasks := [enter s maxRetries_ attempts_ log] |}
      = {| shared := service run; tasks := [t] |}
      /\ keysUsed t = calls run
      /\ phase t = Ended (result run).
Proof.
  induction fuel as [|fuel IH]; intros max a s log run m Hrun Hm; [discriminate|].
  cbn [retryLoop] in Hrun. unfold enter.
  destruct (a <? max) eqn:Hlt.
  - apply Nat.ltb_lt in Hlt. destruct m as [|m]; [lia|].
    cbn [repeat fold_left step]. unfold settle. cbn [tasks nth_error shared].
    unfold resume. cbn [phase attempts maxRetries keysUsed].
    destruct (operation 0 a (apiKey s)) as [v|error].
    + inversion Hrun. subst run. cbn [service calls result setTask].
      eexists. split; [apply (ended_stays T operation s _ (inl v)); reflexivity|].
      split; reflexivity.
    + destruct (isRateLimitError error && (a <? max - 1)).
      * cbv zeta. cbn [setTask].
        apply (IH max (S a) (rotateApiKey s) _ run m Hrun). lia.
      * inversion Hrun. subst run. cbn [service calls result setTask].
        eexists. split; [apply (ended_stays T operation s _ (inr error)); reflexivity|].
        split; reflexivity.
  - inversion Hrun. subst run. cbn [service calls result].
    eexists. split; [apply (ended_stays T operation s _ (inr exhausted)); reflexivity|].
    split; reflexivity.
Qed.

(** A run that is alone on the service, nothing else being started or
    resumed before it ends, is the loop of [executeWithRetry]: the same
    calls, the same outcome, the same service at the end. *)
Lemma run_alone (T : Type) (operation : nat -> nat -> option string -> T + ApiError)
      (s : Service) (run : Run T) (m : nat) :
  executeWithRetry (operation 0) s = Some run ->
  List.length (apiKeys s) <= m ->
  exists t,
    play operation (Start :: repeat (Settle 0) m) s
    = {| shared := service run; tasks := [t] |}
    /\ keysUsed t = calls run
    /\ phase t = Ended (result run).
Proof.
  intros Hrun Hm. unfold play. cbn [fold_left step]. unfold start.
  cbn [shared tasks app].
  apply (loop_alone T operation _ _ _ _ _ run m Hrun). lia.
Qed.

End SharedServiceFacts.
(** ** src/app/store/whiteboardStore.ts *)

Module StoreFacts.

Import WhiteboardStore StringFacts LineBreakFacts.

Section Store.

Variables Output Api Topic : Type.
Variable parseMermaid : string -> string + Output.

Lemma join_two (sep d0 d : string) (ds : list string) :
  Js.join sep ((d0 ++ sep ++ d) :: ds) = Js.join sep (d0 :: d :: ds).
Proof.
  rewrite (join_cons sep d0 (d :: ds)) by discriminate.
  destruct ds as [|d' ds]; [reflexivity|].
  rewrite !join_cons by discriminate. rewrite !append_assoc. reflexivity.
Qed.

Lemma appends_from (ds : list string) :
  forall (st : State Output Api Topic),
    Js.truthy (definition Output (mermaidData _ _ _ st)) = true ->
    Forall (fun d => exists mermaid, parseMermaid d = inr mermaid) ds ->
    definition Output
      (mermaidData _ _ _
         (run Output Api Topic parseMermaid st
              (map (AppendMermaidDefinition Output Api Topic) ds)))
    = Js.join (separator) (definition Output (mermaidData _ _ _ st) :: ds).
Proof.
  induction ds as [|d ds IH]; intros st Hst Hds; [reflexivity|].
  inversion Hds as [|? ? [mermaid Hd] Hds']; subst.
  cbn [map run fold_left dispatch].
  change (fold_left (dispatch Output Api Topic parseMermaid) ?l ?s)
    with (run Output Api Topic parseMermaid s l).
  rewrite IH; [|
    unfold appendMermaidDefinition; rewrite Hd, Hst; cbn [setMermaidData mermaidData definition];
    destruct (definition Output (mermaidData _ _ _ st)); [discriminate|reflexivity]
    | exact Hds'].
  unfold appendMermaidDefinition. rewrite Hd, Hst.
  cbn [setMermaidData mermaidData definition]. apply join_two.
Qed.

End Store.

(** X15.  From a state whose diagram definition is empty, a run of
    appends that all parse, the first of a non-empty definition, leaves
    as definition the appended ones in order, each two separated by the
    line [--- New Analysis ---] between blank lines; one append that
    does not parse replaces the whole of it by the definition that
    failed, with the message of the error and no diagram. *)
Theorem appended_definitions_accumulate :
  forall (Output Api Topic : Type) (parse : string -> string + Output)
         (st : State Output Api Topic) (ds : list string),
    definition Output (mermaidData _ _ _ st) = "" ->
    Js.truthy (hd "x" ds) = true ->
    Forall (fun d => exists mermaid, parse d = inr mermaid) ds ->
    definition Output
      (mermaidData _ _ _
         (run Output Api Topic parse st
              (map (AppendMermaidDefinition Output Api Topic) ds)))
    = Js.join separator ds
    /\ (forall d message,
          parse d = inl message ->
          mermaidData _ _ _
            (appendMermaidDefinition Output Api Topic parse d
               (run Output Api Topic parse st
                    (map (AppendMermaidDefinition Output Api Topic) ds)))
          = {| definition := d; output := None; error := Some message |}).
Proof.
  intros Output Api Topic parse st ds Hst Hhd Hds. split.
  - destruct ds as [|d ds]; [exact Hst|].
    inversion Hds as [|? ? [mermaid Hd] Hds']; subst.
    cbn [map run fold_left dispatch hd] in *.
    change (fold_left (dispatch Output Api Topic parse) ?l ?s)
      with (run Output Api Topic parse s l).
    rewrite appends_from; [| |exact Hds'];
      unfold appendMermaidDefinition; rewrite Hd, Hst;
      cbn [Js.truthy Js.isEmpty negb setMermaidData mermaidData definition];
      [reflexivity|exact Hhd].
  - intros d message Hd. unfold appendMermaidDefinition. rewrite Hd. reflexivity.
Qed.

Lemma appended_definitions_accumulate_witness :
  definition nat
    (mermaidData _ _ _
       (run nat unit unit (fun _ => inr 0) (initialState nat unit unit)
            (map (AppendMermaidDefinition nat unit unit) ["graph TD"; "A --> B"])))
  = Js.join separator ["graph TD"; "A --> B"].
Proof.
  refine (proj1 (appended_definitions_accumulate nat unit unit (fun _ => inr 0)
                   (initialState nat unit unit) ["graph TD"; "A --> B"]
                   eq_refl eq_refl _)).
  repeat constructor; exists 0; reflexivity.
Defined.

Section Exclusive.

Variables Output Api Topic : Type.
Variable parseMermaid : string -> string + Output.

Lemma dispatch_exclusive (st : State Output Api Topic) (a : Action Output Api Topic) :
  writesData _ _ _ a = false ->
  output Output (mermaidData _ _ _ st) = None
  \/ error Output (mermaidData _ _ _ st) = None ->
  output Output (mermaidData _ _ _ (dispatch _ _ _ parseMermaid st a)) = None
  \/ error Output (mermaidData _ _ _ (dispatch _ _ _ parseMermaid st a)) = None.
Proof.
  intros Ha Hst. destruct a; try discriminate; cbn [dispatch]; try exact Hst.
  - unfold updateMermaidDefinition. destruct (parseMermaid definition_);
      [left|right]; reflexivity.
  - unfold appendMermaidDefinition. destruct (parseMermaid definition_);
      [left|right]; reflexivity.
  - left. reflexivity.
Qed.

Lemma run_exclusive (actions : list (Action Output Api Topic)) :
  forall st : State Output Api Topic,
    forallb (fun a => negb (writesData _ _ _ a)) actions = true ->
    output Output (mermaidData _ _ _ st) = None
    \/ error Output (mermaidData _ _ _ st) = None ->
    output Output (mermaidData _ _ _ (run _ _ _ parseMermaid st actions)) = None
    \/ error Output (mermaidData _ _ _ (run _ _ _ parseMermaid st actions)) = None.
Proof.
  induction actions as [|a actions IH]; intros st Hall Hst; [exact Hst|].
  cbn [forallb] in Hall. apply andb_true_iff in Hall as [Ha Hall].
  apply negb_true_iff in Ha.
  cbn [run fold_left].
  apply (IH _ Hall). apply dispatch_exclusive; assumption.
Qed.

End Exclusive.

(** X16.  As long as no action writes the diagram data directly, the
    store never holds a parsed diagram together with an error: after any
    run of the other actions from the initial state, the output or the
    error is absent. *)
Theorem diagram_and_error_exclude_each_other :
  forall (Output Api Topic : Type) (parse : string -> string + Output)
         (actions : list (Action Output Api Topic)),
    forallb (fun a => negb (writesData _ _ _ a)) actions = true ->
    output Output
      (mermaidData _ _ _ (run _ _ _ parse (initialState Output Api Topic) actions))
    = None
    \/ error Output
         (mermaidData _ _ _ (run _ _ _ parse (initialState Output Api Topic) actions))
       = None.
Proof.
  intros Output Api Topic parse actions Hall.
  apply run_exclusive; [exact Hall|]. left. reflexivity.
Qed.

Lemma diagram_and_error_exclude_each_other_witness :
  output nat
    (mermaidData _ _ _
       (run _ _ _ (fun d => if Js.isEmpty d then inl "empty" else inr 0)
            (initialState nat unit unit)
            [AppendMermaidDefinition nat unit unit "graph TD";
             UpdateMermaidDefinition nat unit unit "" (Custom);
             SetIsProcessing nat unit unit true]))
  = None
  \/ error nat
       (mermaidData _ _ _
          (run _ _ _ (fun d => if Js.isEmpty d then inl "empty" else inr 0)
               (initialState nat unit unit)
               [AppendMermaidDefinition nat unit unit "graph TD";
                UpdateMermaidDefinition nat unit unit "" (Custom);
                SetIsProcessing nat unit unit true]))
     = None.
Proof.
  apply (diagram_and_error_exclude_each_other nat unit unit
           (fun d => if Js.isEmpty d then inl "empty" else inr 0)).
  reflexivity.
Defined.

End StoreFacts.
(** ** utils/mermaid.ts: what the quoting writes and what it leaves *)

Module EscapeFacts.

Import Regex Mermaid Quoting StringFacts QuotingFacts LineBreakFacts.

(** Once a character is replaced everywhere by a text that does not hold
    it, it is gone. *)
Lemma replaced_char_is_gone (a : ascii) (by_ : string) (s : string) :
  Js.all (Js.isNot a) by_ = true ->
  Js.all (Js.isNot a) (replaceLiteral (Js.str a) by_ s) = true.
Proof.
  intros Hby. unfold replaceLiteral, replace, pieces.
  enough (Hgen : forall prev offset,
             Js.all (Js.isNot a)
                    (rebuild (fun (_ : nat) (_ : unit) => by_)
                             (scan (literal (Js.str a)) 0 offset prev s)) = true)
    by apply Hgen.
  induction s as [|c s IH]; intros prev offset; [reflexivity|].
  cbn [scan]. unfold literal at 1. cbn [Js.str Js.startsWith String.length].
  rewrite andb_true_r. destruct (Ascii.eqb a c) eqn:E; cbn [rebuild Nat.pred].
  - cbv beta. rewrite all_append, Hby. apply IH.
  - cbn [Js.all]. unfold Js.isNot at 1. rewrite Ascii.eqb_sym, E. apply IH.
Qed.

Lemma replaceLiteral_keeps (lit by_ : string) (p : ascii -> bool) (s : string) :
  Js.all p by_ = true -> Js.all p s = true ->
  Js.all p (replaceLiteral lit by_ s) = true.
Proof. intros Hby Hs. apply all_replace_constant; assumption. Qed.

(** X17.  The escaped content of a label holds none of the characters
    [<], [>], the double quote and the single quote: between the two
    double quotes that the preprocessor writes around it, a quoted label
    cannot be closed early. *)
Theorem escaped_content_has_no_quote :
  forall content_,
    Js.all (fun c => negb (Ascii.eqb c "<") && negb (Ascii.eqb c ">")
                     && negb (Ascii.eqb c Js.DQ) && negb (Ascii.eqb c Js.SQ))
           (escapeContent content_) = true.
Proof.
  intros content_. unfold escapeContent.
  set (c1 := replaceLiteral "&" "&amp;" content_).
  assert (H2 : Js.all (Js.isNot "<") (replaceLiteral "<" "&lt;" c1) = true)
    by (apply (replaced_char_is_gone "<" "&lt;"); reflexivity).
  set (c2 := replaceLiteral "<" "&lt;" c1) in *.
  assert (H3 : Js.all (fun c => Js.isNot "<" c && Js.isNot ">" c)
                      (replaceLiteral ">" "&gt;" c2) = true).
  { assert (Ha : Js.all (Js.isNot "<") (replaceLiteral ">" "&gt;" c2) = true)
      by (apply replaceLiteral_keeps; [reflexivity|exact H2]).
    assert (Hb : Js.all (Js.isNot ">") (replaceLiteral ">" "&gt;" c2) = true)
      by (apply (replaced_char_is_gone ">" "&gt;"); reflexivity).
    revert Ha Hb. generalize (replaceLiteral ">" "&gt;" c2). intros s.
    induction s as [|c s IH]; cbn [Js.all]; [reflexivity|]. intros Ha Hb.
    apply andb_true_iff in Ha as [Ha1 Ha]. apply andb_true_iff in Hb as [Hb1 Hb].
    rewrite Ha1, Hb1, (IH Ha Hb). reflexivity. }
  set (c3 := replaceLiteral ">" "&gt;" c2) in *.
  assert (H4 : Js.all (fun c => Js.isNot "<" c && Js.isNot ">" c && Js.isNot Js.DQ c)
                      (replaceLiteral (Js.str Js.DQ) "&quot;" c3) = true).
  { assert (Ha : Js.all (fun c => Js.isNot "<" c && Js.isNot ">" c)
                        (replaceLiteral (Js.str Js.DQ) "&quot;" c3) = true)
      by (apply replaceLiteral_keeps; [reflexivity|exact H3]).
    assert (Hb : Js.all (Js.isNot Js.DQ) (replaceLiteral (Js.str Js.DQ) "&quot;" c3) = true)
      by (apply (replaced_char_is_gone Js.DQ "&quot;"); reflexivity).
    revert Ha Hb. generalize (replaceLiteral (Js.str Js.DQ) "&quot;" c3). intros s.
    induction s as [|c s IH]; cbn [Js.all]; [reflexivity|]. intros Ha Hb.
    apply andb_true_iff in Ha as [Ha1 Ha]. apply andb_true_iff in Hb as [Hb1 Hb].
    rewrite Ha1, Hb1, (IH Ha Hb). reflexivity. }
  set (c4 := replaceLiteral (Js.str Js.DQ) "&quot;" c3) in *.
  apply all_trim.
  assert (Ha : Js.all (fun c => Js.isNot "<" c && Js.isNot ">" c && Js.isNot Js.DQ c)
                      (replaceLiteral (Js.str Js.SQ) "&#39;" c4) = true)
    by (apply replaceLiteral_keeps; [reflexivity|exact H4]).
  assert (Hb : Js.all (Js.isNot Js.SQ) (replaceLiteral (Js.str Js.SQ) "&#39;" c4) = true)
    by (apply (replaced_char_is_gone Js.SQ "&#39;"); reflexivity).
  revert Ha Hb. generalize (replaceLiteral (Js.str Js.SQ) "&#39;" c4). intros s.
  induction s as [|c s IH]; cbn [Js.all]; [reflexivity|]. intros Ha Hb.
  apply andb_true_iff in Ha as [Ha1 Ha]. apply andb_true_iff in Hb as [Hb1 Hb].
  unfold Js.isNot in *. rewrite Hb1, (IH Ha Hb), andb_true_r, andb_true_r. exact Ha1.
Qed.

(** X18.  In a source that holds no bracket, parenthesis, brace or
    vertical bar the preprocessor only turns the line-break tags into
    line feeds, whatever quotes the source holds; without any [<] the
    source is returned as it is. *)
Theorem plain_source_is_unchanged :
  forall mermaidCode,
    Js.all (fun c => negb (isDelimiter c)) mermaidCode = true ->
    preprocessMermaidCode mermaidCode
    = replace lineBreakTag (fun _ _ => Js.str Js.LF) mermaidCode
    /\ (Js.all (Js.isNot "<") mermaidCode = true ->
        preprocessMermaidCode mermaidCode = mermaidCode).
Proof.
  intros mermaidCode H.
  assert (Hpre : preprocessMermaidCode mermaidCode
                 = replace lineBreakTag (fun _ _ => Js.str Js.LF) mermaidCode).
  { unfold preprocessMermaidCode.
    set (processed := replace lineBreakTag (fun _ _ => Js.str Js.LF) mermaidCode).
    assert (Hp : Js.all (fun c => negb (isDelimiter c)) processed = true)
      by (apply all_replace_constant; [reflexivity|exact H]).
    rewrite <- (join_split Js.LF processed) at 2. f_equal.
    rewrite <- (map_id (Js.split Js.LF processed)) at 2.
    apply map_ext_in. intros line_ Hin.
    pose proof (all_split _ Js.LF processed Hp) as Hl.
    rewrite Forall_forall in Hl. specialize (Hl line_ Hin).
    assert (Hk : forall k, Js.all (Js.isNot (opening k)) line_ = true).
    { intros k. revert Hl. apply all_impl. intros c Hc. apply negb_true_iff in Hc.
      unfold Js.isNot. apply negb_true_iff.
      destruct (Ascii.eqb c (opening k)) eqn:E; [|reflexivity].
      apply Ascii.eqb_eq in E. subst c. destruct k; discriminate. }
    change (processLine line_)
      with (pass Edge (pass Curly (pass Round (pass Square line_)))).
    rewrite (pass_absent Square _ (Hk Square)), (pass_absent Round _ (Hk Round)),
      (pass_absent Curly _ (Hk Curly)), (pass_absent Edge _ (Hk Edge)).
    reflexivity. }
  split; [exact Hpre|].
  intros Hlt. rewrite Hpre. apply replace_lineBreakTag_absent, Hlt.
Qed.

Lemma plain_source_is_unchanged_witness :
  preprocessMermaidCode "graph TD; it's --> A" = "graph TD; it's --> A".
Proof.
  apply (proj2 (plain_source_is_unchanged "graph TD; it's --> A" eq_refl)).
  reflexivity.
Defined.

End EscapeFacts.
(** ** utils/table.ts: the markdown of an HTML table read back *)

Module TableTextFacts.

Import Regex Table TableText StringFacts QuotingFacts LineBreakFacts TrimFacts.

(** *** The cells of an HTML table *)

(** After the runs of white space are replaced by one space, the only
    white space left is the space. *)
Lemma collapsed_white_space (s : string) :
  Js.all (fun c => negb (Js.isWhiteSpace c) || Ascii.eqb c " ")
         (replace whiteSpaces (fun _ _ => " ") s) = true.
Proof.
  unfold replace, pieces.
  enough (Hgen : forall skip prev offset,
             Js.all (fun c => negb (Js.isWhiteSpace c) || Ascii.eqb c " ")
                    (rebuild (fun (_ : nat) (_ : unit) => " ")
                             (scan whiteSpaces skip offset prev s)) = true)
    by apply Hgen.
  induction s as [|c s IH]; intros skip prev offset; [reflexivity|].
  cbn [scan]. destruct skip as [|k]; [|apply IH].
  unfold whiteSpaces at 1. cbn [Js.span].
  destruct (Js.isWhiteSpace c) eqn:E.
  - destruct (Js.span Js.isWhiteSpace s) as [a b]. cbn [rebuild]. cbv beta.
    cbn [append Js.all]. apply IH.
  - cbn [rebuild Js.all]. rewrite E. apply IH.
Qed.

Lemma decodeCell_no_line_feed (cellMatch1 : string) :
  Js.all (Js.isNot Js.LF) (decodeCell cellMatch1) = true.
Proof.
  unfold decodeCell. apply all_trim.
  eapply all_impl; [|apply collapsed_white_space].
  intros c Hc. unfold Js.isNot. apply negb_true_iff.
  destruct (Ascii.eqb c Js.LF) eqn:E; [|reflexivity].
  apply Ascii.eqb_eq in E. subst c. discriminate.
Qed.

Lemma decodeCell_trimmed (cellMatch1 : string) :
  Js.trim (decodeCell cellMatch1) = decodeCell cellMatch1.
Proof. unfold decodeCell. apply trim_trim. Qed.

(** What holds of every row of [htmlRows]. *)
Lemma htmlRows_cells (htmlTableContent : string) :
  Forall (fun row => row <> []
                     /\ Forall (fun cell => Js.trim cell = cell
                                            /\ Js.all (Js.isNot Js.LF) cell = true) row)
         (htmlRows htmlTableContent).
Proof.
  unfold htmlRows. apply Forall_forall. intros row Hin.
  apply filter_In in Hin as [Hin Hne]. split.
  - intros ->. discriminate.
  - apply in_map_iff in Hin as [rowContent [<- _]].
    apply Forall_forall. intros cell Hc. apply in_map_iff in Hc as [m [<- _]].
    split; [apply decodeCell_trimmed|apply decodeCell_no_line_feed].
Qed.

(** *** A line of the markdown read back *)

(** A replacement whose literal starts with a character that the text
    does not hold changes nothing. *)
Lemma replaceLiteral_absent (a : ascii) (lit by_ s : string) :
  Js.all (Js.isNot a) s = true ->
  replaceLiteral (String a lit) by_ s = s.
Proof.
  intros H. unfold replaceLiteral, replace, pieces.
  enough (Hgen : forall prev offset,
             rebuild (fun (_ : nat) (_ : unit) => by_)
                     (scan (literal (String a lit)) 0 offset prev s) = s)
    by apply Hgen.
  induction s as [|c s IH]; intros prev offset; [reflexivity|].
  cbn [Js.all] in H. apply andb_true_iff in H as [Hc H].
  unfold Js.isNot in Hc. apply negb_true_iff in Hc.
  cbn [scan]. unfold literal at 1. cbn [Js.startsWith].
  rewrite Ascii.eqb_sym, Hc. cbn [andb rebuild]. rewrite (IH H). reflexivity.
Qed.

Lemma stripTags_absent (s : string) :
  Js.all (Js.isNot "<") s = true -> stripTags s = s.
Proof.
  intros H. unfold stripTags, replace, pieces.
  enough (Hgen : forall prev offset,
             rebuild (fun (_ : nat) (_ : unit) => "") (scan tag 0 offset prev s) = s)
    by apply Hgen.
  induction s as [|c s IH]; intros prev offset; [reflexivity|].
  cbn [Js.all] in H. apply andb_true_iff in H as [Hc H].
  unfold Js.isNot in Hc. apply negb_true_iff in Hc.
  cbn [scan].
  assert (Htag : tag prev (String c s) = None).
  { unfold tag. destruct c as [[] [] [] [] [] [] [] []]; try reflexivity.
    discriminate. }
  rewrite Htag. cbn [rebuild]. rewrite (IH H). reflexivity.
Qed.

Lemma trimEnd_last_kept (x : string) (b : ascii) :
  Js.isWhiteSpace b = false ->
  Js.trimEnd (x ++ String b "") = x ++ String b "".
Proof.
  intros Hb. induction x as [|c x IH]; cbn [append Js.trimEnd].
  - rewrite Hb. reflexivity.
  - rewrite IH.
    destruct (x ++ String b "") eqn:E; [destruct x; discriminate|].
    cbn [Js.isEmpty]. rewrite andb_false_r. reflexivity.
Qed.

Lemma trimEnd_space (x : string) : Js.trimEnd (x ++ " ") = Js.trimEnd x.
Proof.
  induction x as [|c x IH]; [reflexivity|].
  cbn [append Js.trimEnd]. rewrite IH. reflexivity.
Qed.

Lemma trimmed_head (c : ascii) (s : string) :
  Js.trim (String c s) = String c s -> Js.isWhiteSpace c = false.
Proof.
  intros H. pose proof (trimStart_head (String c s)) as Hh.
  unfold Js.trim in H.
  destruct (Js.isWhiteSpace c) eqn:E; [|reflexivity].
  exfalso. cbn [Js.trimStart] in H, Hh. rewrite E in H, Hh.
  assert (Hlen : String.length (Js.trimEnd (Js.trimStart s)) <= String.length s).
  { clear. assert (H1 : forall t, String.length (Js.trimEnd t) <= String.length t).
    { induction t as [|a t IH]; cbn [Js.trimEnd String.length]; [lia|].
      destruct (Js.isWhiteSpace a && Js.isEmpty (Js.trimEnd t));
        cbn [String.length]; lia. }
    assert (H2 : forall t, String.length (Js.trimStart t) <= String.length t).
    { induction t as [|a t IH]; cbn [Js.trimStart String.length]; [lia|].
      destruct (Js.isWhiteSpace a); cbn [String.length]; lia. }
    specialize (H1 (Js.trimStart s)). specialize (H2 s). lia. }
  rewrite H in Hlen. cbn [String.length] in Hlen. lia.
Qed.

(** A trimmed cell between two spaces is read back as the cell. *)
Lemma trim_padded (cell : string) :
  Js.trim cell = cell -> Js.trim (" " ++ cell ++ " ") = cell.
Proof.
  intros H. unfold Js.trim. cbn [append Js.trimStart].
  change (Js.isWhiteSpace " ") with true. cbv iota.
  destruct cell as [|c cell]; [reflexivity|].
  pose proof (trimmed_head c cell H) as Hc.
  cbn [append Js.trimStart]. rewrite Hc.
  change (String c (cell ++ " ")) with (String c cell ++ " ").
  rewrite trimEnd_space.
  unfold Js.trim in H. cbn [Js.trimStart] in H. rewrite Hc in H. exact H.
Qed.

Lemma plainCellChar_not (c : ascii) :
  plainCellChar c = true ->
  Js.isNot "|" c = true /\ Js.isNot "<" c = true /\ Js.isNot "&" c = true.
Proof.
  unfold plainCellChar, Js.isNot. intros H.
  apply andb_true_iff in H as [H H3]. apply andb_true_iff in H as [H1 H2].
  repeat split; assumption.
Qed.

Lemma cleanCellContent_padded (cell : string) :
  plainCell cell = true -> Js.trim cell = cell ->
  cleanCellContent (" " ++ cell ++ " ") = cell.
Proof.
  intros Hp Ht. unfold cleanCellContent.
  assert (Hlt : Js.all (Js.isNot "<") (" " ++ cell ++ " ") = true).
  { cbn [append Js.all]. rewrite all_append. cbn [Js.all]. rewrite andb_true_r.
    revert Hp. apply all_impl. intros c Hc. apply plainCellChar_not in Hc. tauto. }
  assert (Hamp : Js.all (Js.isNot "&") (" " ++ cell ++ " ") = true).
  { cbn [append Js.all]. rewrite all_append. cbn [Js.all]. rewrite andb_true_r.
    revert Hp. apply all_impl. intros c Hc. apply plainCellChar_not in Hc. tauto. }
  rewrite (stripTags_absent _ Hlt).
  rewrite (replaceLiteral_absent "&" "lt;" "<" _ Hamp).
  rewrite (replaceLiteral_absent "&" "gt;" ">" _ Hamp).
  rewrite (replaceLiteral_absent "&" "quot;" _ _ Hamp).
  rewrite (replaceLiteral_absent "&" "#39;" _ _ Hamp).
  rewrite (replaceLiteral_absent "&" "amp;" "&" _ Hamp).
  apply trim_padded, Ht.
Qed.

(** The cells of a row and the pieces of its line. *)
Lemma split_row_tail (row : list string) :
  row <> [] ->
  Forall (fun cell => plainCell cell = true) row ->
  Js.split "|" (" " ++ Js.join " | " row ++ " |")
  = (map (fun cell => (" " ++ cell ++ " ")%string) row ++ [""])%list.
Proof.
  intros Hne Hall. induction Hall as [|cell row Hc Hrow IH]; [contradiction|].
  assert (Hpad : Js.all (Js.isNot "|") (" " ++ cell ++ " ") = true).
  { cbn [append Js.all]. rewrite all_append. cbn [Js.all]. rewrite andb_true_r.
    revert Hc. apply all_impl. intros c H. apply plainCellChar_not in H. tauto. }
  destruct row as [|cell' row].
  - cbn [Js.join map app].
    replace (" " ++ cell ++ " |") with ((" " ++ cell ++ " ") ++ String "|" "")
      by (cbn [append]; rewrite append_assoc; reflexivity).
    rewrite (split_append "|" _ "" Hpad). reflexivity.
  - rewrite (join_cons " | " cell (cell' :: row)) by discriminate.
    replace (" " ++ (cell ++ " | " ++ Js.join " | " (cell' :: row)) ++ " |")
      with ((" " ++ cell ++ " ")
            ++ String "|" (" " ++ Js.join " | " (cell' :: row) ++ " |"))
      by (cbn [append]; rewrite !append_assoc; reflexivity).
    rewrite (split_append "|" _ _ Hpad), IH by discriminate. reflexivity.
Qed.

Lemma row_read_back (row : list string) :
  row <> [] ->
  Forall (fun cell => plainCell cell = true /\ Js.trim cell = cell) row ->
  map cleanCellContent (slice1m1 (Js.split "|" (markdownRow row))) = row.
Proof.
  intros Hne Hall. unfold markdownRow.
  change ("| " ++ Js.join " | " row ++ " |")
    with (String "|" (" " ++ Js.join " | " row ++ " |")).
  cbn [Js.split]. change (Ascii.eqb "|" "|") with true. cbv iota.
  rewrite split_row_tail;
    [|exact Hne|eapply Forall_impl; [|exact Hall]; intros a [Ha _]; exact Ha].
  unfold slice1m1. cbn [tl]. rewrite removelast_last, map_map.
  rewrite <- (map_id row) at 2. apply map_ext_in. intros cell Hin.
  rewrite Forall_forall in Hall. destruct (Hall cell Hin) as [Hp Ht].
  apply cleanCellContent_padded; assumption.
Qed.

(** *** The lines of the markdown *)

Lemma markdownRow_edges (row : list string) :
  markdownRow row = String "|" ((" " ++ Js.join " | " row ++ " ") ++ String "|" "").
Proof. unfold markdownRow. cbn [append]. rewrite !append_assoc. reflexivity. Qed.

Lemma trim_between_bars (y : string) :
  Js.trim (String "|" (y ++ String "|" "")) = String "|" (y ++ String "|" "").
Proof.
  unfold Js.trim. cbn [Js.trimStart]. change (Js.isWhiteSpace "|") with false.
  cbv iota. change (String "|" (y ++ String "|" "")) with (String "|" y ++ String "|" "").
  apply trimEnd_last_kept. reflexivity.
Qed.

Lemma lines_between_bars (lines : list string) :
  lines <> [] ->
  Forall (fun l => exists x, l = String "|" (x ++ String "|" "")) lines ->
  exists y, Js.join (Js.str Js.LF) lines = String "|" (y ++ String "|" "").
Proof.
  intros Hne Hall. induction Hall as [|l lines [x ->] Hlines IH]; [contradiction|].
  destruct lines as [|l' lines]; [exists x; reflexivity|].
  destruct IH as [y Hy]; [discriminate|].
  rewrite (join_cons _ _ (l' :: lines)) by discriminate. rewrite Hy.
  exists (x ++ String "|" (Js.str Js.LF ++ String "|" y)).
  cbn [append]. rewrite !append_assoc. reflexivity.
Qed.

Lemma markdownRow_no_line_feed (row : list string) :
  Forall (fun cell => Js.all (Js.isNot Js.LF) cell = true) row ->
  Js.all (Js.isNot Js.LF) (markdownRow row) = true.
Proof.
  intros H. unfold markdownRow. rewrite !all_append.
  rewrite (all_join (Js.isNot Js.LF) " | " row eq_refl H). reflexivity.
Qed.

(** The rows whose lines are read back as they are: not empty, their
    cells plain, trimmed and without line feed. *)
Lemma lines_read_back (rows : list (list string)) :
  rows <> [] ->
  Forall (fun row => row <> []
                     /\ Forall (fun cell => plainCell cell = true
                                            /\ Js.trim cell = cell
                                            /\ Js.all (Js.isNot Js.LF) cell = true)
                               row) rows ->
  tableLines (Js.join (Js.str Js.LF) (map markdownRow rows)) = map markdownRow rows
  /\ Js.includes "|" (Js.join (Js.str Js.LF) (map markdownRow rows)) = true
  /\ map (fun line_ => map cleanCellContent (slice1m1 (Js.split "|" line_)))
         (map markdownRow rows) = rows.
Proof.
  intros Hne Hall.
  assert (Hbars : Forall (fun l => exists x, l = String "|" (x ++ String "|" ""))
                         (map markdownRow rows)).
  { apply Forall_forall. intros l Hin. apply in_map_iff in Hin as [row [<- _]].
    eexists. apply markdownRow_edges. }
  assert (Hne' : map markdownRow rows <> []) by (destruct rows; [contradiction|discriminate]).
  destruct (lines_between_bars _ Hne' Hbars) as [y Hy].
  split; [|split].
  - unfold tableLines. rewrite Hy, trim_between_bars, <- Hy.
    rewrite split_join; [|exact Hne'|].
    + apply forallb_filter_id. apply forallb_forall. intros l Hin.
      rewrite Forall_forall in Hbars. destruct (Hbars l Hin) as [x ->].
      rewrite trim_between_bars. reflexivity.
    + apply Forall_forall. intros l Hin. apply in_map_iff in Hin as [row [<- Hrow]].
      apply markdownRow_no_line_feed.
      rewrite Forall_forall in Hall. destruct (Hall row Hrow) as [_ Hcells].
      eapply Forall_impl; [|exact Hcells]. intros a [_ [_ Ha]]. exact Ha.
  - rewrite Hy. reflexivity.
  - rewrite map_map. rewrite <- (map_id rows) at 2. apply map_ext_in.
    intros row Hrow. rewrite Forall_forall in Hall.
    destruct (Hall row Hrow) as [Hr Hcells]. apply row_read_back; [exact Hr|].
    eapply Forall_impl; [|exact Hcells]. intros a [H1 [H2 _]]. split; assumption.
Qed.

Lemma parseRows_lines (rows : list (list string)) :
  rows <> [] ->
  Forall (fun row => row <> []
                     /\ Forall (fun cell => plainCell cell = true
                                            /\ Js.trim cell = cell
                                            /\ Js.all (Js.isNot Js.LF) cell = true)
                               row) rows ->
  parseRows (Js.join (Js.str Js.LF) (map markdownRow rows))
  = if (1 <? List.length rows) && forallb isDashes (nth 1 rows [])
    then removeSecond rows else rows.
Proof.
  intros Hne Hall. destruct (lines_read_back rows Hne Hall) as [H1 [H2 H3]].
  unfold parseRows. rewrite H1, H2, H3. reflexivity.
Qed.

Lemma dashes_row (row : list string) :
  row <> [] ->
  map (fun _ : string => "---") row <> []
  /\ Forall (fun cell => plainCell cell = true
                         /\ Js.trim cell = cell
                         /\ Js.all (Js.isNot Js.LF) cell = true)
            (map (fun _ : string => "---") row)
  /\ forallb isDashes (map (fun _ : string => "---") row) = true.
Proof.
  intros Hne. split; [destruct row; [contradiction|discriminate]|]. split.
  - apply Forall_forall. intros cell Hin. apply in_map_iff in Hin as [a [<- _]].
    repeat split; reflexivity.
  - apply forallb_forall. intros cell Hin. apply in_map_iff in Hin as [a [<- _]].
    reflexivity.
Qed.

(** The markdown of the rows of an HTML table, read back. *)
Lemma rows_read_back (html : string) :
  plainRows (htmlRows html) = true ->
  parseRows (convertHtmlTableToMarkdown html) = htmlRows html.
Proof.
  intros Hplain. unfold convertHtmlTableToMarkdown.
  pose proof (htmlRows_cells html) as Hcells.
  assert (Hgood : Forall (fun row => row <> []
                     /\ Forall (fun cell => plainCell cell = true
                                            /\ Js.trim cell = cell
                                            /\ Js.all (Js.isNot Js.LF) cell = true)
                               row) (htmlRows html)).
  { unfold plainRows in Hplain. rewrite forallb_forall in Hplain.
    rewrite Forall_forall in *. intros row Hrow.
    destruct (Hcells row Hrow) as [Hne Hrowcells]. split; [exact Hne|].
    specialize (Hplain row Hrow). rewrite forallb_forall in Hplain.
    rewrite Forall_forall in *. intros cell Hcell.
    destruct (Hrowcells cell Hcell) as [Ht Hl].
    split; [apply (Hplain cell Hcell)|split; assumption]. }
  clear Hplain Hcells.
  destruct (htmlRows html) as [|r0 [|r1 rest]].
  - reflexivity.
  - cbn [List.length Nat.eqb Nat.leb map].
    change (Js.join (Js.str Js.LF) [markdownRow r0])
      with (Js.join (Js.str Js.LF) (map markdownRow [r0])).
    rewrite (parseRows_lines [r0]); [reflexivity|discriminate|exact Hgood].
  - cbn [List.length Nat.eqb Nat.leb map hd splice1].
    inversion Hgood as [|? ? [Hr0 Hc0] Hrest]; subst.
    destruct (dashes_row r0 Hr0) as [Hd1 [Hd2 Hd3]].
    change ("| " ++ Js.join " | " (map (fun _ : string => "---") r0) ++ " |")
      with (markdownRow (map (fun _ : string => "---") r0)).
    change (markdownRow r0 :: markdownRow (map (fun _ : string => "---") r0)
                       :: markdownRow r1 :: map markdownRow rest)
      with (map markdownRow (r0 :: map (fun _ : string => "---") r0 :: r1 :: rest)).
    rewrite parseRows_lines; [|discriminate|].
    + cbn [List.length Nat.ltb Nat.leb nth andb]. rewrite Hd3. reflexivity.
    + constructor; [split; assumption|]. constructor; [split; assumption|exact Hrest].
Qed.

(** X19.  When no cell of an HTML table holds a vertical bar, a [<] or
    an ampersand once it is decoded, the rows that the table builder
    reads in the markdown of the table are the rows of the HTML table,
    cell for cell: the separator line is written and taken out again, and
    nothing else is lost or added. *)
Theorem html_table_cells_are_read_back :
  forall htmlTableContent,
    plainRows (htmlRows htmlTableContent) = true ->
    parseRows (convertHtmlTableToMarkdown htmlTableContent) = htmlRows htmlTableContent.
Proof. intros htmlTableContent H. apply rows_read_back, H. Qed.

Lemma html_table_cells_are_read_back_witness :
  parseRows (convertHtmlTableToMarkdown
               "<table><tr><th>Name</th><th>Unit</th></tr><tr><td> speed </td><td>m/s</td></tr></table>")
  = [["Name"; "Unit"]; ["speed"; "m/s"]].
Proof.
  apply (html_table_cells_are_read_back
           "<table><tr><th>Name</th><th>Unit</th></tr><tr><td> speed </td><td>m/s</td></tr></table>").
  vm_compute. reflexivity.
Defined.

End TableTextFacts.
(** ** A table of one row *)

Module SingleRowFacts.

Import Regex Table TableText Markdown StringFacts QuotingFacts LineBreakFacts
       TrimFacts TableTextFacts.

Lemma single_row_markdown (html : string) (row : list string) :
  htmlRows html = [row] ->
  convertHtmlTableToMarkdown html = markdownRow row
  /\ Js.trim (markdownRow row) = markdownRow row
  /\ Js.all (Js.isNot Js.LF) (markdownRow row) = true.
Proof.
  intros Hrows. pose proof (htmlRows_cells html) as Hcells. rewrite Hrows in Hcells.
  inversion Hcells as [|? ? [_ Hrow] _]; subst. split; [|split].
  - unfold convertHtmlTableToMarkdown. rewrite Hrows. reflexivity.
  - rewrite markdownRow_edges. apply trim_between_bars.
  - apply markdownRow_no_line_feed.
    eapply Forall_impl; [|exact Hrow]. intros a [_ Ha]. exact Ha.
Qed.

(** X20.  An HTML table with exactly one row that has cells is drawn as
    nothing at all: its markdown is one line, the table builder asks for
    two, and the cursor moves down by the fallback height of 200. *)
Theorem single_row_table_draws_nothing :
  forall startX errorId depth htmlTableContent currentY,
    List.length (htmlRows htmlTableContent) = 1 ->
    htmlTable startX errorId depth htmlTableContent currentY
    = ([], (currentY + 200)%Q).
Proof.
  intros startX errorId depth html currentY Hlen.
  destruct (htmlRows html) as [|row [|r1 rest]] eqn:Hrows; try discriminate.
  destruct (single_row_markdown html row Hrows) as [Hmd [Htrim Hfree]].
  unfold htmlTable. rewrite Hmd, Htrim.
  assert (Htruthy : Js.truthy (markdownRow row) = true)
    by (rewrite markdownRow_edges; reflexivity).
  rewrite Htruthy.
  assert (Hnone : createVisualTableElements (markdownRow row) (indent startX depth)
                                            currentY = []).
  { unfold createVisualTableElements, tableLines.
    rewrite Htrim, (split_no_sep Js.LF _ Hfree). cbn [filter].
    rewrite Htrim, Htruthy. reflexivity. }
  rewrite Hnone. reflexivity.
Qed.

Lemma single_row_table_draws_nothing_witness :
  htmlTable 0 "table-error" 0 "<table><tr><td>alone</td></tr></table>" 7
  = ([], (7 + 200)%Q).
Proof.
  apply (single_row_table_draws_nothing 0 "table-error" 0
           "<table><tr><td>alone</td></tr></table>" 7).
  vm_compute. reflexivity.
Defined.

End SingleRowFacts.
(** ** utils/table.ts: the wrapping of a cell *)

Module WrapFacts.

Import Regex Table TableText StringFacts QuotingFacts LineBreakFacts SegmenterFacts.

Lemma squeeze_append (a b : string) : squeeze (a ++ b) = squeeze a ++ squeeze b.
Proof.
  induction a as [|c a IH]; cbn [append squeeze]; [reflexivity|].
  destruct (Ascii.eqb c " " || Ascii.eqb c Js.LF); cbn [append]; rewrite IH; reflexivity.
Qed.

Lemma squeeze_join (sep : string) (l : list string) :
  squeeze sep = "" -> squeeze (Js.join sep l) = Js.concat (map squeeze l).
Proof.
  intros Hsep. induction l as [|w l IH]; [reflexivity|].
  destruct l as [|v l]; [reflexivity|].
  rewrite (join_cons sep w (v :: l)) by discriminate.
  rewrite !squeeze_append, Hsep, IH. cbn [append map].
  unfold Js.concat. rewrite (join_cons "" (squeeze w)) by discriminate. reflexivity.
Qed.

Lemma take_drop (n : nat) (s : string) : Js.take n s ++ Js.drop n s = s.
Proof.
  revert s. induction n as [|n IH]; intros s; [reflexivity|].
  destruct s as [|c s]; [reflexivity|]. cbn [Js.take Js.drop append].
  rewrite IH. reflexivity.
Qed.

Lemma concat_snoc (l : list string) (x : string) :
  Js.concat (l ++ [x]) = Js.concat l ++ x.
Proof. rewrite concat_app. reflexivity. Qed.

(** One turn of the loop adds the characters of the word to those of
    the state. *)
Lemma wrapWord_characters (maxChars : Z) (lines : list string) (cur word : string) :
  Js.concat (map squeeze (fst (wrapWord maxChars (lines, cur) word)))
  ++ squeeze (snd (wrapWord maxChars (lines, cur) word))
  = (Js.concat (map squeeze lines) ++ squeeze cur) ++ squeeze word.
Proof.
  unfold wrapWord.
  destruct (lengthZ (if Js.truthy cur then cur ++ " " ++ word else word) <=? maxChars)%Z.
  - cbn [fst snd]. destruct cur as [|c cur].
    + cbn [Js.truthy Js.isEmpty negb squeeze]. rewrite append_nil_r. reflexivity.
    + cbn [Js.truthy Js.isEmpty negb]. rewrite !squeeze_append.
      change (squeeze " ") with "". cbn [append]. rewrite append_assoc. reflexivity.
  - destruct (Js.truthy cur) eqn:Hcur.
    + cbn [fst snd]. rewrite map_app. cbn [map]. rewrite concat_snoc. reflexivity.
    + destruct cur; [|discriminate]. cbn [squeeze]. rewrite append_nil_r.
      destruct (maxChars <? lengthZ word)%Z; cbn [fst snd]; [|reflexivity].
      rewrite map_app. cbn [map].
      rewrite concat_snoc, append_assoc, <- squeeze_append, take_drop.
      reflexivity.
Qed.

Lemma fold_wrapWord_characters (maxChars : Z) (words : list string) :
  forall lines cur,
    Js.concat (map squeeze (fst (fold_left (wrapWord maxChars) words (lines, cur))))
    ++ squeeze (snd (fold_left (wrapWord maxChars) words (lines, cur)))
    = (Js.concat (map squeeze lines) ++ squeeze cur) ++ Js.concat (map squeeze words).
Proof.
  induction words as [|w words IH]; intros lines cur; cbn [fold_left map].
  - rewrite append_nil_r. reflexivity.
  - pose proof (wrapWord_characters maxChars lines cur w) as H.
    destruct (wrapWord maxChars (lines, cur) w) as [lines' cur'].
    cbn [fst snd] in H. rewrite IH, H, append_assoc. f_equal.
    destruct words as [|v words]; [cbn; rewrite append_nil_r; reflexivity|].
    unfold Js.concat. rewrite (join_cons "" (squeeze w)) by discriminate. reflexivity.
Qed.

(** X21.  Wrapping a cell loses no character and adds none but
    separators: with its spaces and line feeds left out, the wrapped
    text is the text, whatever the width and the font size. *)
Theorem wrapped_text_keeps_characters :
  forall text_ maxWidth fontSize,
    squeeze (wrapText text_ maxWidth fontSize) = squeeze text_.
Proof.
  intros text_ maxWidth fontSize. unfold wrapText.
  destruct (Js.isEmpty text_) eqn:Hempty; [destruct text_; [reflexivity|discriminate]|].
  destruct (lengthZ text_ <=? maxCharsPerLine maxWidth fontSize)%Z; [reflexivity|].
  pose proof (fold_wrapWord_characters (maxCharsPerLine maxWidth fontSize)
                (Js.split " " text_) [] "") as H.
  destruct (fold_left (wrapWord (maxCharsPerLine maxWidth fontSize))
                      (Js.split " " text_) ([], "")) as [lines cur].
  cbn [fst snd map squeeze append] in H.
  change (Js.concat []) with "" in H. cbn [append] in H.
  assert (Ht : squeeze text_ = Js.concat (map squeeze (Js.split " " text_))).
  { rewrite <- (join_split " " text_) at 1. apply (squeeze_join (Js.str " ")).
    reflexivity. }
  rewrite Ht, <- H. rewrite (squeeze_join (Js.str Js.LF)) by reflexivity.
  destruct (Js.truthy cur) eqn:Hcur.
  - rewrite map_app. cbn [map]. rewrite concat_snoc. reflexivity.
  - destruct cur; [|discriminate]. cbn [squeeze]. rewrite append_nil_r. reflexivity.
Qed.

End WrapFacts.
(** ** utils/table.ts: the grid of a table *)

Module GridFacts.

Import Regex Table TableText CursorFacts.

Lemma sumZ_snoc (l : list Z) (w : Z) : sumZ (l ++ [w]) = (sumZ l + w)%Z.
Proof.
  unfold sumZ. induction l as [|a l IH]; cbn [app fold_right]; [lia|].
  rewrite IH. lia.
Qed.

Lemma emitCells_count (rowIndex : nat) (y_ rowHeight : Q) (ws : list Z) :
  forall (row : list string) (currentX : Q),
    List.length (emitCells rowIndex y_ rowHeight currentX ws row)
    = 2 * Nat.min (List.length ws) (List.length row).
Proof.
  induction ws as [|w ws IH]; intros row currentX; [reflexivity|].
  destruct row as [|cell row]; [reflexivity|].
  cbn [emitCells List.length Nat.min]. rewrite IH. lia.
Qed.

(** The cell of column [c] of a row: its rectangle starts where the
    widths of the columns before it end, and its text is the wrapped
    cell. *)
Lemma emitCells_cell (rowIndex : nat) (y_ rowHeight : Q) (ws : list Z) :
  forall (row : list string) (currentX : Q) (c : nat) (w : Z) (cell : string),
    nth_error ws c = Some w ->
    nth_error row c = Some cell ->
    exists x_,
      (x_ == currentX + inject_Z (sumZ (firstn c ws)))%Q
      /\ In (cellRectangle rowIndex x_ y_ w rowHeight)
            (emitCells rowIndex y_ rowHeight currentX ws row)
      /\ In (cellText rowIndex x_ y_ w rowHeight cell)
            (emitCells rowIndex y_ rowHeight currentX ws row).
Proof.
  induction ws as [|w0 ws IH]; intros row currentX c w cell Hw Hcell;
    [destruct c; discriminate|].
  destruct row as [|cell0 row]; [destruct c; discriminate|].
  destruct c as [|c].
  - cbn [nth_error] in Hw, Hcell. inversion Hw. inversion Hcell. subst.
    exists currentX. cbn [firstn emitCells]. split.
    + unfold sumZ. cbn [fold_right]. unfold inject_Z. ring.
    + split; [left; reflexivity|right; left; reflexivity].
  - cbn [nth_error] in Hw, Hcell.
    destruct (IH row (currentX + inject_Z w0)%Q c w cell Hw Hcell) as [x_ [Hx [Hr Ht]]].
    exists x_. cbn [firstn emitCells]. split.
    + rewrite Hx. unfold sumZ. cbn [fold_right]. rewrite inject_Z_plus. ring.
    + split; right; right; assumption.
Qed.

Lemma mapi_nth {A B : Type} (f : nat -> A -> B) (l : list A) :
  forall (i r : nat) (a : A),
    nth_error l r = Some a -> nth_error (mapi f i l) r = Some (f (i + r) a).
Proof.
  induction l as [|a0 l IH]; intros i r a Hr; [destruct r; discriminate|].
  destruct r as [|r]; cbn [nth_error mapi] in *.
  - inversion Hr. rewrite Nat.add_0_r. reflexivity.
  - rewrite (IH (S i) r a Hr). f_equal. f_equal. lia.
Qed.

Lemma mapi_length {A B : Type} (f : nat -> A -> B) (l : list A) :
  forall i, List.length (mapi f i l) = List.length l.
Proof. induction l as [|a l IH]; intros i; cbn [mapi List.length]; [|rewrite IH]; reflexivity. Qed.

(** A row starts where the heights of the rows above it end. *)
Lemma rowYPositions_nth (hs : list Q) :
  forall (y0 : Q) (r : nat),
    r < List.length hs ->
    (nth r (computeRowYPositions y0 hs) 0 == y0 + sumQ (firstn r hs))%Q.
Proof.
  induction hs as [|h hs IH]; intros y0 r Hr; [cbn in Hr; lia|].
  destruct r as [|r]; cbn [computeRowYPositions nth firstn].
  - unfold sumQ. cbn [fold_right]. ring.
  - cbn [List.length] in Hr. rewrite IH by lia.
    unfold sumQ. cbn [fold_right]. ring.
Qed.

Lemma emitRows_cell (startX startY : Q) (ws : list Z) (hs : list Q)
      (rows : list (list string)) (r c : nat) (row : list string) (w : Z)
      (cell : string) :
  List.length hs = List.length rows ->
  nth_error rows r = Some row ->
  nth_error ws c = Some w ->
  nth_error row c = Some cell ->
  exists x_ y_,
    (x_ == startX + inject_Z (sumZ (firstn c ws)))%Q
    /\ (y_ == startY + sumQ (firstn r hs))%Q
    /\ In (cellRectangle r x_ y_ w (nth r hs 0%Q))
          (emitRows startX ws hs (computeRowYPositions startY hs) rows)
    /\ In (cellText r x_ y_ w (nth r hs 0%Q) cell)
          (emitRows startX ws hs (computeRowYPositions startY hs) rows).
Proof.
  intros Hlen Hrow Hw Hcell.
  destruct (emitCells_cell r (nth r (computeRowYPositions startY hs) 0%Q)
                           (nth r hs 0%Q) ws row startX c w cell Hw Hcell)
    as [x_ [Hx [Hr Ht]]].
  exists x_, (nth r (computeRowYPositions startY hs) 0%Q).
  split; [exact Hx|]. split.
  - apply rowYPositions_nth. rewrite Hlen. apply nth_error_Some. congruence.
  - unfold emitRows.
    pose proof (mapi_nth
                  (fun rowIndex row =>
                     emitCells rowIndex (nth rowIndex (computeRowYPositions startY hs) 0%Q)
                               (nth rowIndex hs 0%Q) startX ws row)
                  rows 0 r row Hrow) as Hnth.
    cbn [Nat.add] in Hnth. apply nth_error_In in Hnth.
    split; apply in_concat; eexists; (split; [exact Hnth|assumption]).
Qed.



End GridFacts.
(** ** The height that a table takes *)

Module TableHeightFacts.

Import Regex Table TableText Markdown CursorFacts WidthFacts GridFacts.

Open Scope Q_scope.

Lemma fold_max_In (l : list Q) (a v : Q) :
  In v (a :: l) -> v <= fold_left Qmax l a.
Proof.
  revert a. induction l as [|b l IH]; intros a Hin.
  - destruct Hin as [<-|[]]. apply Qle_refl.
  - cbn [fold_left]. destruct Hin as [<-|[<-|Hin]].
    + eapply Qle_trans; [apply Q.le_max_l|apply fold_max_ge].
    + eapply Qle_trans; [apply Q.le_max_r|apply fold_max_ge].
    + apply IH. right. exact Hin.
Qed.

Lemma fold_max_le (l : list Q) (a B : Q) :
  a <= B -> (forall v, In v l -> v <= B) -> fold_left Qmax l a <= B.
Proof.
  revert a. induction l as [|b l IH]; intros a Ha Hl; [exact Ha|].
  cbn [fold_left]. apply IH.
  - apply Q.max_lub; [exact Ha|apply Hl; left; reflexivity].
  - intros v Hv. apply Hl. right. exact Hv.
Qed.

Lemma fold_min_In (l : list Q) (a v : Q) :
  In v (a :: l) -> fold_left Qmin l a <= v.
Proof.
  revert a. induction l as [|b l IH]; intros a Hin.
  - destruct Hin as [<-|[]]. apply Qle_refl.
  - cbn [fold_left]. destruct Hin as [<-|[<-|Hin]].
    + eapply Qle_trans; [apply fold_min_le|apply Q.le_min_l].
    + eapply Qle_trans; [apply fold_min_le|apply Q.le_min_r].
    + apply IH. right. exact Hin.
Qed.

Lemma fold_min_ge (l : list Q) (a B : Q) :
  B <= a -> (forall v, In v l -> B <= v) -> B <= fold_left Qmin l a.
Proof.
  revert a. induction l as [|b l IH]; intros a Ha Hl; [exact Ha|].
  cbn [fold_left]. apply IH.
  - apply Q.min_glb; [exact Ha|apply Hl; left; reflexivity].
  - intros v Hv. apply Hl. right. exact Hv.
Qed.

Lemma maxOf_is (l : list Q) (B v : Q) :
  In v l -> v == B -> (forall u, In u l -> u <= B) -> maxOf l == B.
Proof.
  intros Hin Hv Hall. destruct l as [|a l]; [contradiction|]. cbn [maxOf].
  apply Qle_antisym.
  - apply fold_max_le; [apply Hall; left; reflexivity|].
    intros u Hu. apply Hall. right. exact Hu.
  - rewrite <- Hv. apply fold_max_In, Hin.
Qed.

Lemma minOf_is (l : list Q) (B v : Q) :
  In v l -> v == B -> (forall u, In u l -> B <= u) -> minOf l == B.
Proof.
  intros Hin Hv Hall. destruct l as [|a l]; [contradiction|]. cbn [minOf].
  apply Qle_antisym.
  - rewrite <- Hv. apply fold_min_In, Hin.
  - apply fold_min_ge; [apply Hall; left; reflexivity|].
    intros u Hu. apply Hall. right. exact Hu.
Qed.

Lemma sumQ_nonneg (hs : list Q) :
  Forall (fun h => 0 <= h) hs -> 0 <= sumQ hs.
Proof.
  intros H. induction H as [|h hs Hh Hhs IH]; unfold sumQ in *; cbn [fold_right];
    [apply Qle_refl|]. lra.
Qed.

Lemma sumQ_firstn (hs : list Q) :
  Forall (fun h => 0 <= h) hs ->
  forall r, 0 <= sumQ (firstn r hs)
            /\ sumQ (firstn r hs) + nth r hs 0 <= sumQ hs.
Proof.
  intros H. induction H as [|h hs Hh Hhs IH]; intros r.
  - destruct r; unfold sumQ; cbn; split; lra.
  - destruct r as [|r]; cbn [firstn nth]; unfold sumQ in *; cbn [fold_right].
    + pose proof (sumQ_nonneg hs Hhs) as Hs. unfold sumQ in Hs. split; lra.
    + destruct (IH r) as [H1 H2]. split; lra.
Qed.

Lemma sumQ_all (hs : list Q) :
  hs <> [] ->
  sumQ (firstn (List.length hs - 1) hs) + nth (List.length hs - 1) hs 0 == sumQ hs.
Proof.
  induction hs as [|h hs IH]; [contradiction|]. intros _.
  destruct hs as [|h' hs].
  - unfold sumQ. cbn. ring.
  - replace (List.length (h :: h' :: hs) - 1)%nat
      with (S (List.length (h' :: hs) - 1))%nat by (cbn [List.length]; lia).
    pose proof (IH ltac:(discriminate)) as H.
    change (firstn (S (List.length (h' :: hs) - 1)) (h :: h' :: hs))
      with (h :: firstn (List.length (h' :: hs) - 1) (h' :: hs)).
    change (nth (S (List.length (h' :: hs) - 1)) (h :: h' :: hs) 0)
      with (nth (List.length (h' :: hs) - 1) (h' :: hs) 0).
    revert H.
    generalize (nth (List.length (h' :: hs) - 1) (h' :: hs) 0).
    generalize (firstn (List.length (h' :: hs) - 1) (h' :: hs)).
    intros l q H. unfold sumQ in *. cbn [fold_right] in *. lra.
Qed.

Lemma rowHeights_nonneg (ws : list Z) (rows : list (list string)) :
  Forall (fun h => 0 <= h) (computeRowHeights ws rows).
Proof.
  apply Forall_forall. intros h Hin. unfold computeRowHeights in Hin.
  apply mapi_In in Hin as [j [row ->]].
  eapply Qle_trans; [|apply rowHeightLoop_ge]. unfold baseRowHeight. lra.
Qed.

Lemma mapi_In_range {A B : Type} (f : nat -> A -> B) (l : list A) (i : nat) (b : B) :
  In b (mapi f i l) ->
  exists j a, b = f j a /\ (i <= j < i + List.length l)%nat.
Proof.
  revert i. induction l as [|a l IH]; intros i Hin; cbn [mapi] in Hin; [contradiction|].
  destruct Hin as [<-|Hin].
  - exists i, a. split; [reflexivity|cbn [List.length]; lia].
  - destruct (IH _ Hin) as [j [a' [Hb Hj]]]. exists j, a'.
    split; [exact Hb|cbn [List.length]; lia].
Qed.

Lemma emitCells_rectangle_top (rowIndex : nat) (y_ rowHeight currentX : Q)
      (ws : list Z) (row : list string) (el : Primitive) :
  In el (emitCells rowIndex y_ rowHeight currentX ws row) ->
  type el = rectangle -> y el = y_.
Proof.
  revert row currentX. induction ws as [|w ws IH]; intros row currentX Hin Hty;
    destruct row as [|cell row]; cbn [emitCells] in Hin; try contradiction.
  destruct Hin as [<-|[<-|Hin]].
  - reflexivity.
  - discriminate.
  - apply (IH _ _ Hin Hty).
Qed.

Lemma computeColWidths_length (rows : list (list string)) :
  List.length (computeColWidths rows) = numCols rows.
Proof.
  unfold computeColWidths, scaleWidths.
  destruct (maxTotalWidth <? totalWidth (clampedWidths rows))%Z;
    rewrite ?length_map; apply clampedWidths_length.
Qed.

Lemma parseRows_not_nil (tableMarkdown : string) :
  (2 <= List.length (tableLines tableMarkdown))%nat -> parseRows tableMarkdown <> [].
Proof.
  intros H. unfold parseRows.
  destruct (Js.includes "|" tableMarkdown).
  - set (rows := map _ (tableLines tableMarkdown)).
    assert (Hlen : List.length rows = List.length (tableLines tableMarkdown))
      by apply length_map.
    destruct rows as [|r0 [|r1 rest]]; cbn [List.length] in Hlen; try lia.
    destruct ((1 <? _)%nat && _); discriminate.
  - intros Hnil. apply (f_equal (@List.length _)) in Hnil.
    rewrite length_map in Hnil. cbn [List.length] in Hnil. lia.
Qed.

Lemma createVisualTableElements_rows (tableMarkdown : string) (startX startY : Q) :
  (2 <= List.length (tableLines tableMarkdown))%nat ->
  createVisualTableElements tableMarkdown startX startY
  = emitRows startX (computeColWidths (parseRows tableMarkdown))
             (computeRowHeights (computeColWidths (parseRows tableMarkdown))
                                (parseRows tableMarkdown))
             (computeRowYPositions
                startY
                (computeRowHeights (computeColWidths (parseRows tableMarkdown))
                                   (parseRows tableMarkdown)))
             (parseRows tableMarkdown).
Proof.
  intros Hlines. unfold createVisualTableElements.
  pose proof (parseRows_not_nil tableMarkdown Hlines) as Hne.
  apply Nat.ltb_ge in Hlines. rewrite Hlines.
  destruct (parseRows tableMarkdown); [contradiction|reflexivity].
Qed.

(** Every rectangle of the grid lies between the top of the table and
    the end of its last row. *)
Lemma emitRows_rectangle_bounds (startX startY : Q) (ws : list Z) (hs : list Q)
      (rows : list (list string)) (el : Primitive) :
  List.length hs = List.length rows ->
  Forall (fun h => 0 <= h) hs ->
  In el (emitRows startX ws hs (computeRowYPositions startY hs) rows) ->
  type el = rectangle ->
  startY <= y el /\ y el + height el <= startY + sumQ hs.
Proof.
  intros Hlen Hpos Hin Hty. unfold emitRows in Hin.
  apply in_concat in Hin as [cells [Hcells Hin]].
  apply mapi_In_range in Hcells as [j [row [-> Hj]]].
  rewrite (emitCells_rectangle _ _ _ _ _ _ _ Hin Hty).
  rewrite (emitCells_rectangle_top _ _ _ _ _ _ _ Hin Hty).
  rewrite rowYPositions_nth by lia.
  destruct (sumQ_firstn hs Hpos j) as [H1 H2]. split; lra.
Qed.

(** X23.  The height that the walker measures on a table whose rows all
    have a cell runs from the top of the first row to the bottom of the
    last one: among the rectangles the lowest top edge is [startY], the
    highest bottom edge is that of the last row (its top, as the table
    accumulates it, plus its height), and the cursor advances by the
    difference of the two, plus 30. *)
Theorem table_advance_spans_the_rows :
  forall tableMarkdown startX startY,
    (2 <= List.length (tableLines tableMarkdown))%nat ->
    forallb (fun row => (0 <? List.length row)%nat) (parseRows tableMarkdown) = true ->
    let rows := parseRows tableMarkdown in
    let rowHeights := computeRowHeights (computeColWidths rows) rows in
    let rowYPositions := computeRowYPositions startY rowHeights in
    let lastRow := (List.length rows - 1)%nat in
    let rectangleElements :=
      filter (fun el => ElementType_eqb (type el) rectangle)
             (createVisualTableElements tableMarkdown startX startY) in
    minOf (map y rectangleElements) == startY
    /\ maxOf (map (fun el => y el + height el) rectangleElements)
       == nth lastRow rowYPositions 0 + nth lastRow rowHeights 0
    /\ tableAdvance (createVisualTableElements tableMarkdown startX startY)
       == (nth lastRow rowYPositions 0 + nth lastRow rowHeights 0 - startY) + 30.
Proof.
  intros md startX startY Hlines Hcells.
  rewrite (createVisualTableElements_rows md startX startY Hlines).
  pose proof (parseRows_not_nil md Hlines) as Hne.
  cbv zeta.
  set (rows := parseRows md) in *. set (ws := computeColWidths rows).
  set (hs := computeRowHeights ws rows).
  assert (Hlen : List.length hs = List.length rows)
    by (unfold hs, computeRowHeights; apply mapi_length).
  assert (Hpos : Forall (fun h => 0 <= h) hs) by apply rowHeights_nonneg.
  rewrite forallb_forall in Hcells.
  assert (Hfirst : forall r row, nth_error rows r = Some row ->
                     exists cell w, nth_error row 0 = Some cell /\ nth_error ws 0 = Some w).
  { intros r row Hrow.
    pose proof (Hcells row (nth_error_In _ _ Hrow)) as Hrow0.
    destruct row as [|cell row]; [discriminate|].
    pose proof (computeColWidths_length rows) as Hw. fold ws in Hw.
    destruct rows as [|r0 rows'] eqn:E; [contradiction|].
    pose proof (Hcells r0 (or_introl eq_refl)) as Hr0.
    unfold numCols in Hw. cbn [hd] in Hw.
    destruct ws as [|w ws']; [destruct r0; cbn in Hw, Hr0; [discriminate|lia]|].
    exists cell, w. split; reflexivity. }
  destruct rows as [|r0 rows'] eqn:Erows; [contradiction|].
  rewrite <- Erows in *.
  assert (H0 : nth_error rows 0 = Some r0) by (rewrite Erows; reflexivity).
  destruct (Hfirst 0%nat r0 H0) as [cell0 [w0 [Hc0 Hw0]]].
  destruct (emitRows_cell startX startY ws hs rows 0 0 r0 w0 cell0 Hlen H0 Hw0 Hc0)
    as [x0 [y0 [_ [Hy0 [Hr0 Ht0]]]]].
  set (R := (List.length rows - 1)%nat).
  assert (HR : exists rowR, nth_error rows R = Some rowR).
  { destruct (nth_error rows R) eqn:E; [eexists; reflexivity|].
    apply nth_error_None in E. unfold R in E. rewrite Erows in E.
    cbn [List.length] in E. lia. }
  destruct HR as [rowR HR].
  destruct (Hfirst R rowR HR) as [cellR [wR [HcR HwR]]].
  replace wR with w0 in * by congruence.
  destruct (emitRows_cell startX startY ws hs rows R 0 rowR w0 cellR Hlen HR Hw0 HcR)
    as [xR [yR [_ [HyR [HrR _]]]]].
  set (els := emitRows startX ws hs (computeRowYPositions startY hs) rows) in *.
  unfold tableAdvance.
  set (texts := filter (fun el => ElementType_eqb (type el) text) els).
  set (rects := filter (fun el => ElementType_eqb (type el) rectangle) els).
  assert (Ht : In (cellText 0 x0 y0 w0 (nth 0 hs 0) cell0) texts)
    by (apply filter_In; split; [exact Ht0|reflexivity]).
  assert (Hr : In (cellRectangle 0 x0 y0 w0 (nth 0 hs 0)) rects)
    by (apply filter_In; split; [exact Hr0|reflexivity]).
  assert (HrR' : In (cellRectangle R xR yR w0 (nth R hs 0)) rects)
    by (apply filter_In; split; [exact HrR|reflexivity]).
  assert (Hboth : ((0 <? List.length texts)%nat && (0 <? List.length rects)%nat)%bool = true).
  { destruct texts; [contradiction|]. destruct rects; [contradiction|]. reflexivity. }
  rewrite Hboth.
  assert (Hbounds : forall el, In el rects ->
                      startY <= y el /\ y el + height el <= startY + sumQ hs).
  { intros el Hel. apply filter_In in Hel as [Hel Hty].
    apply (emitRows_rectangle_bounds startX startY ws hs rows el Hlen Hpos Hel).
    destruct (type el); try discriminate. reflexivity. }
  assert (Hhs : hs <> []).
  { intros Hnil. rewrite Hnil in Hlen. rewrite Erows in Hlen. discriminate. }
  assert (HRlt : (R < List.length hs)%nat).
  { unfold R. rewrite Hlen, Erows. cbn [List.length]. lia. }
  assert (Hbottom : nth R (computeRowYPositions startY hs) 0 + nth R hs 0
                    == startY + sumQ hs).
  { rewrite rowYPositions_nth by exact HRlt.
    unfold R. rewrite <- Hlen. rewrite <- (sumQ_all hs Hhs). ring. }
  assert (Hmax : maxOf (map (fun el => y el + height el) rects)
                 == nth R (computeRowYPositions startY hs) 0 + nth R hs 0).
  { rewrite Hbottom. apply (maxOf_is _ _ (yR + nth R hs 0)).
    - apply (in_map (fun el => y el + height el) _ _ HrR').
    - rewrite HyR. unfold R. rewrite <- Hlen.
      rewrite <- (sumQ_all hs Hhs). ring.
    - intros u Hu. apply in_map_iff in Hu as [el [<- Hel]]. apply (Hbounds el Hel). }
  assert (Hmin : minOf (map y rects) == startY).
  { apply (minOf_is _ _ y0).
    - apply (in_map y _ _ Hr).
    - rewrite Hy0. unfold sumQ. cbn [firstn fold_right]. ring.
    - intros u Hu. apply in_map_iff in Hu as [el [<- Hel]]. apply (Hbounds el Hel). }
  split; [exact Hmin|]. split; [exact Hmax|].
  rewrite Hmax, Hmin. reflexivity.
Qed.

Lemma table_advance_spans_the_rows_witness :
  tableAdvance
    (createVisualTableElements ("| A | B |" ++ String Js.LF "| 1 | 2 |") 10 (10001 # 10))
  == (nth 1 (computeRowYPositions (10001 # 10) [60; 60]) 0 + 60 - (10001 # 10)) + 30.
Proof.
  pose proof (table_advance_spans_the_rows
                ("| A | B |" ++ String Js.LF "| 1 | 2 |") 10 (10001 # 10)) as H.
  cbv zeta in H.
  assert (H1 : (2 <= List.length (tableLines ("| A | B |" ++ String Js.LF "| 1 | 2 |")))%nat)
    by (apply Nat.leb_le; vm_compute; reflexivity).
  assert (H2 : forallb (fun row => (0 <? List.length row)%nat)
                       (parseRows ("| A | B |" ++ String Js.LF "| 1 | 2 |")) = true)
    by (vm_compute; reflexivity).
  destruct (H H1 H2) as [_ [_ Hadv]].
  rewrite Hadv. vm_compute. reflexivity.
Defined.

End TableHeightFacts.
(** ** Where the walker draws *)

Module QuadrantFacts.

Import Regex Table TableText Markdown Layout CursorFacts WidthFacts GridFacts
       TableHeightFacts.

Open Scope Q_scope.

Lemma inQuadrant_lower (x0 y0 y1 : Q) (e : Element) :
  y0 <= y1 -> inQuadrant x0 y1 e -> inQuadrant x0 y0 e.
Proof.
  intros Hy. destruct e as [p|d dx dy]; cbn [inQuadrant]; [|trivial].
  intros [Hx Hp]. split; [exact Hx|lra].
Qed.

(** *** The grid of a table *)

Lemma emitCells_quadrant (rowIndex : nat) (y_ rowHeight : Q) (ws : list Z) :
  Forall (fun w => (0 <= w)%Z) ws ->
  0 <= rowHeight ->
  forall (row : list string) (currentX : Q) (el : Primitive),
    In el (emitCells rowIndex y_ rowHeight currentX ws row) ->
    currentX <= x el /\ y_ <= y el.
Proof.
  intros Hws Hh. induction Hws as [|w ws Hw Hws IH]; intros row currentX el Hin;
    [destruct row; contradiction|].
  destruct row as [|cell row]; [contradiction|].
  assert (Hw' : 0 <= inject_Z w) by (change 0 with (inject_Z 0); rewrite <- Zle_Qle; exact Hw).
  cbn [emitCells] in Hin. destruct Hin as [<-|[<-|Hin]].
  - cbn [cellRectangle x y]. split; lra.
  - cbn [cellText x y]. split.
    + assert (0 <= inject_Z w / 2) by (apply Qle_shift_div_l; lra). lra.
    + assert (0 <= rowHeight / 2) by (apply Qle_shift_div_l; lra). lra.
  - destruct (IH row (currentX + inject_Z w) el Hin) as [H1 H2]. split; lra.
Qed.

Lemma table_quadrant (tableMarkdown : string) (x0 y0 : Q) (el : Primitive) :
  In el (createVisualTableElements tableMarkdown x0 y0) ->
  x0 <= x el /\ y0 <= y el.
Proof.
  unfold createVisualTableElements.
  destruct (List.length (tableLines tableMarkdown) <? 2)%nat; [contradiction|].
  destruct (List.length (parseRows tableMarkdown) =? 0)%nat; [contradiction|].
  set (rows := parseRows tableMarkdown). set (ws := computeColWidths rows).
  set (hs := computeRowHeights ws rows).
  unfold emitRows. intros Hin.
  apply in_concat in Hin as [cells [Hcells Hin]].
  apply mapi_In_range in Hcells as [j [row [-> Hj]]].
  assert (Hws : Forall (fun w => (0 <= w)%Z) ws).
  { eapply Forall_impl; [|apply computeColWidths_bounds].
    intros w Hw. cbn beta in Hw. unfold minColWidth in Hw. lia. }
  assert (Hlen : List.length hs = List.length rows)
    by (unfold hs, computeRowHeights; apply mapi_length).
  destruct (emitCells_quadrant j _ _ ws Hws (computeRowHeights_nonneg ws rows j)
                               row x0 el Hin) as [H1 H2].
  split; [exact H1|].
  rewrite rowYPositions_nth in H2 by lia.
  destruct (sumQ_firstn hs (rowHeights_nonneg ws rows) j) as [H3 _]. lra.
Qed.

Section Walker.

Variable host : Host.
Variable startX : Q.
Variable tableBlocks : list string.

Lemma indent_ge (depth : nat) : startX <= indent startX depth.
Proof.
  unfold indent.
  assert (0 <= inject_Z (Z.of_nat depth))
    by (change 0 with (inject_Z 0); rewrite <- Zle_Qle; lia).
  nra.
Qed.

Lemma textElement_quadrant idPrefix_ depth y0 y1 width_ height_ text_ fontSize_ color :
  y0 <= y1 ->
  inQuadrant startX y0
             (textElement idPrefix_ (indent startX depth) y1 width_ height_ text_
                          fontSize_ color).
Proof.
  intros Hy. cbn [textElement inQuadrant x y]. split; [apply indent_ge|exact Hy].
Qed.

Lemma imageElement_quadrant idPrefix_ depth y0 y1 width_ height_ :
  y0 <= y1 ->
  inQuadrant startX y0 (imageElement idPrefix_ (indent startX depth) y1 width_ height_).
Proof.
  intros Hy. cbn [imageElement inQuadrant x y]. split; [apply indent_ge|exact Hy].
Qed.

Ltac quadrant :=
  repeat match goal with
         | H : In _ [] |- _ => contradiction
         | H : In _ (_ :: _) |- _ => destruct H as [<-|H]
         end;
  try (apply textElement_quadrant; lra);
  try (apply imageElement_quadrant; lra).

Lemma inlineLatex_quadrant depth latexCode currentY e :
  In e (fst (inlineLatex host startX depth latexCode currentY)) ->
  inQuadrant startX currentY e.
Proof.
  unfold inlineLatex. destruct (Js.truthy _); [destruct (addFiles _ _)|];
    cbn [fst]; intros H; quadrant.
Qed.

Lemma inlineParts_quadrant depth parts :
  forall currentY e,
    In e (fst (inlineParts host startX depth parts currentY)) ->
    inQuadrant startX currentY e.
Proof.
  induction parts as [|part parts IH]; intros currentY e; cbn [inlineParts];
    [contradiction|].
  pose proof (inlinePart_le host startX depth part currentY) as Hle.
  assert (Hpart : forall e, In e (fst (inlinePart host startX depth part currentY)) ->
                            inQuadrant startX currentY e).
  { intros e0. unfold inlinePart. destruct (partType part);
      [|apply inlineLatex_quadrant].
    destruct (Js.truthy _); cbn [fst]; intros H; quadrant. }
  destruct (inlinePart host startX depth part currentY) as [els y1].
  specialize (IH y1).
  destruct (inlineParts host startX depth parts y1) as [els' y2].
  cbn [fst snd] in *. intros Hin. apply in_app_or in Hin as [Hin|Hin].
  - apply Hpart, Hin.
  - apply (inQuadrant_lower _ _ y1); [exact Hle|apply IH, Hin].
Qed.

Lemma mermaidBranch_quadrant depth htmlContent currentY e :
  In e (fst (mermaidBranch host startX depth htmlContent currentY)) ->
  inQuadrant startX currentY e.
Proof.
  unfold mermaidBranch.
  destruct (mermaidToExcalidraw host _) as [message|elements]; cbn [fst];
    [intros H; quadrant|].
  destruct (0 <? List.length elements)%nat; cbn [fst]; [|intros H; quadrant].
  intros H. apply in_map_iff in H as [d [<- _]]. exact I.
Qed.

Lemma latexBranch_quadrant depth htmlContent currentY e :
  In e (fst (latexBranch host startX depth htmlContent currentY)) ->
  inQuadrant startX currentY e.
Proof.
  unfold latexBranch. destruct (Js.truthy _); [destruct (addFiles _ _)|];
    cbn [fst]; intros H; quadrant.
Qed.

Lemma tableElements_quadrant depth tableMarkdown currentY e :
  In e (map Own (createVisualTableElements tableMarkdown (indent startX depth) currentY)) ->
  inQuadrant startX currentY e.
Proof.
  intros H. apply in_map_iff in H as [el [<- Hel]].
  destruct (table_quadrant _ _ _ _ Hel) as [H1 H2].
  cbn [inQuadrant]. pose proof (indent_ge depth). split; lra.
Qed.

Lemma htmlTable_quadrant errorId depth htmlTableContent currentY e :
  In e (fst (htmlTable startX errorId depth htmlTableContent currentY)) ->
  inQuadrant startX currentY e.
Proof.
  unfold htmlTable. destruct (Js.truthy _); cbn [fst]; [|intros H; quadrant].
  apply tableElements_quadrant.
Qed.

Lemma htmlBranch_quadrant depth htmlContent currentY e :
  In e (fst (htmlBranch host startX depth htmlContent currentY)) ->
  inQuadrant startX currentY e.
Proof.
  unfold htmlBranch. destruct (htmlCase htmlContent).
  - apply mermaidBranch_quadrant.
  - apply latexBranch_quadrant.
  - apply mermaidBranch_quadrant.
  - apply htmlTable_quadrant.
  - unfold plainHtml. destruct (Js.truthy _); cbn [fst]; intros H; quadrant.
Qed.

Lemma paragraphLoop_quadrant depth children y0 :
  forall acc special currentY e,
    y0 <= currentY ->
    (forall a, In a acc -> inQuadrant startX y0 a) ->
    In e (fst (fst (paragraphLoop host startX depth children acc special currentY))) ->
    inQuadrant startX y0 e.
Proof.
  induction children as [|child children IH]; intros acc special currentY e Hy Hacc;
    cbn [paragraphLoop].
  - cbn [fst]. apply Hacc.
  - destruct child; try (apply IH; assumption).
    + pose proof (htmlBranch_le host startX depth value currentY) as Hle.
      pose proof (fun a => htmlBranch_quadrant depth value currentY a) as Hq.
      destruct (htmlBranch host startX depth value currentY) as [els y1].
      cbn [fst snd] in *. apply IH; [lra|].
      intros a Ha. apply in_app_or in Ha as [Ha|Ha]; [apply Hacc, Ha|].
      apply (inQuadrant_lower _ _ currentY); [exact Hy|apply Hq, Ha].
    + pose proof (inlineParts_le host startX depth (latexParts value) currentY) as Hle.
      pose proof (inlineParts_quadrant depth (latexParts value) currentY) as Hq.
      destruct (inlineParts host startX depth (latexParts value) currentY) as [els y1].
      cbn [fst snd] in *. apply IH; [lra|].
      intros a Ha. apply in_app_or in Ha as [Ha|Ha]; [apply Hacc, Ha|].
      apply (inQuadrant_lower _ _ currentY); [exact Hy|apply Hq, Ha].
Qed.

Lemma paragraphBranch_quadrant depth node children currentY e :
  In e (fst (paragraphBranch host startX depth node children currentY)) ->
  inQuadrant startX currentY e.
Proof.
  unfold paragraphBranch.
  pose proof (paragraphLoop_le host startX depth children [] false currentY) as Hle.
  pose proof (paragraphLoop_quadrant depth children currentY [] false currentY) as Hq.
  destruct (paragraphLoop host startX depth children [] false currentY)
    as [[els special] y1].
  cbn [fst snd] in *. destruct special; cbn [fst].
  - intros H. apply Hq; [apply Qle_refl|intros a []|exact H].
  - destruct (Js.truthy _); cbn [fst]; intros H; quadrant.
Qed.

Lemma textBranch_quadrant depth value currentY e :
  In e (fst (textBranch startX tableBlocks depth value currentY)) ->
  inQuadrant startX currentY e.
Proof.
  unfold textBranch. destruct (tableMatch value); cbn [fst]; [|intros H; quadrant].
  destruct (_ <? _)%nat; [apply htmlTable_quadrant|intros []].
Qed.

(** Every primitive of a node lies at or below the cursor at which the
    node is reached. *)
Lemma traverse_quadrant (node : Node) :
  forall depth currentY e,
    In e (fst (traverse host startX tableBlocks node depth currentY)) ->
    inQuadrant startX currentY e.
Proof.
  induction node as
      [level children IH | children IH | value | rows IH | | children IH
       | parent children IH | value | children IH | value | ];
    intros depth currentY e; cbn [traverse].
  - unfold headingBranch. cbn [fst]. intros H. quadrant.
  - apply paragraphBranch_quadrant.
  - apply htmlBranch_quadrant.
  - unfold tableBranch. cbn [fst]. apply tableElements_quadrant.
  - cbn [fst]. intros [<-|[]]. cbn [lineElement inQuadrant x y].
    split; [apply indent_ge|lra].
  - revert currentY. induction IH as [|child Hchild rest _ IHrest]; intros currentY.
    + intros [].
    + pose proof (traverse_le host startX tableBlocks child (S depth) currentY) as Hle.
      pose proof (Hchild (S depth) currentY) as Hq.
      destruct (traverse host startX tableBlocks child (S depth) currentY) as [els y1].
      specialize (IHrest y1).
      match type of IHrest with In _ (fst ?w) -> _ => destruct w as [els' y2] end.
      cbn [fst snd] in *. intros Hin. apply in_app_or in Hin as [Hin|Hin].
      * apply Hq, Hin.
      * apply (inQuadrant_lower _ _ y1); [exact Hle|apply IHrest, Hin].
  - unfold listItemBranch. cbn [fst]. intros H. quadrant.
  - apply textBranch_quadrant.
  - revert currentY. induction IH as [|child Hchild rest _ IHrest]; intros currentY.
    + intros [].
    + pose proof (traverse_le host startX tableBlocks child (S depth) currentY) as Hle.
      pose proof (Hchild (S depth) currentY) as Hq.
      destruct (traverse host startX tableBlocks child (S depth) currentY) as [els y1].
      specialize (IHrest y1).
      match type of IHrest with In _ (fst ?w) -> _ => destruct w as [els' y2] end.
      cbn [fst snd] in *. intros Hin. apply in_app_or in Hin as [Hin|Hin].
      * apply Hq, Hin.
      * apply (inQuadrant_lower _ _ y1); [exact Hle|apply IHrest, Hin].
  - intros [].
  - intros [].
Qed.

Lemma topLevel_quadrant (children : list Node) :
  forall currentY e,
    In e (List.concat (map snd (fst (topLevel host startX tableBlocks children currentY)))) ->
    inQuadrant startX currentY e.
Proof.
  induction children as [|child rest IH]; intros currentY e; cbn [topLevel].
  - intros [].
  - pose proof (traverse_le host startX tableBlocks child 0%nat currentY) as Hle.
    pose proof (traverse_quadrant child 0%nat currentY) as Hq.
    destruct (traverse host startX tableBlocks child 0 currentY) as [els y1].
    specialize (IH y1).
    destruct (topLevel host startX tableBlocks rest y1) as [steps y2].
    cbn [fst snd map List.concat] in *. intros Hin.
    apply in_app_or in Hin as [Hin|Hin].
    + apply Hq, Hin.
    + apply (inQuadrant_lower _ _ y1); [exact Hle|apply IH, Hin].
Qed.

End Walker.

(** X24.  Nothing is drawn above or left of the starting point: every
    primitive that the walker emits for a document lies at or right of
    [startX] and at or below [startY], and every primitive of a node lies
    at or below the cursor at which the node is reached. *)
Theorem primitives_stay_in_quadrant :
  forall host tree startX startY tableBlocks,
    (forall e,
        In e (convertMarkdownTreeToElements host tree startX startY tableBlocks) ->
        inQuadrant startX startY e)
    /\ (forall node depth currentY e,
          In e (fst (traverse host startX tableBlocks node depth currentY)) ->
          inQuadrant startX currentY e).
Proof.
  intros host tree startX startY tableBlocks. split.
  - intros e. unfold convertMarkdownTreeToElements. apply topLevel_quadrant.
  - intros node. apply traverse_quadrant.
Qed.

End QuadrantFacts.
(** ** src/app/utils/diagrams.ts: what processMermaidCode returns *)

Module ReturnedCodeFacts.

Import Regex Diagrams StringFacts QuotingFacts LineBreakFacts TrimFacts.

(** *** Trimming and lines *)

Lemma trimStart_length (s : string) :
  String.length (Js.trimStart s) <= String.length s.
Proof.
  induction s as [|a s IH]; cbn [Js.trimStart String.length]; [lia|].
  destruct (Js.isWhiteSpace a); cbn [String.length]; lia.
Qed.

Lemma trimEnd_length (s : string) :
  String.length (Js.trimEnd s) <= String.length s.
Proof.
  induction s as [|a s IH]; cbn [Js.trimEnd String.length]; [lia|].
  destruct (Js.isWhiteSpace a && Js.isEmpty (Js.trimEnd s)); cbn [String.length]; lia.
Qed.

Lemma trim_length (s : string) : String.length (Js.trim s) <= String.length s.
Proof.
  unfold Js.trim. pose proof (trimEnd_length (Js.trimStart s)).
  pose proof (trimStart_length s). lia.
Qed.

Lemma trimStart_commutes (s : string) :
  Js.trimStart (Js.trimEnd s) = Js.trimEnd (Js.trimStart s).
Proof.
  induction s as [|c s IH]; [reflexivity|].
  cbn [Js.trimStart Js.trimEnd]. destruct (Js.isWhiteSpace c) eqn:Hc; cbn [andb].
  - destruct (Js.isEmpty (Js.trimEnd s)) eqn:E.
    + rewrite <- IH. destruct (Js.trimEnd s); [reflexivity|discriminate].
    + cbn [Js.trimStart]. rewrite Hc. exact IH.
  - cbn [Js.trimStart Js.trimEnd]. rewrite Hc. reflexivity.
Qed.

Lemma trim_trimEnd (s : string) : Js.trim (Js.trimEnd s) = Js.trim s.
Proof.
  unfold Js.trim. rewrite trimStart_commutes. apply trimEnd_trimEnd.
Qed.

Lemma trim_white_head (c : ascii) (s : string) :
  Js.isWhiteSpace c = true -> Js.trim (String c s) = Js.trim s.
Proof. intros H. unfold Js.trim. cbn [Js.trimStart]. rewrite H. reflexivity. Qed.

(** The lines of a text trimmed at its start are, once trimmed, the last
    lines of the text, once trimmed. *)
Lemma trimStart_lines (s : string) :
  exists k,
    map Js.trim (Js.split Js.LF (Js.trimStart s))
    = skipn k (map Js.trim (Js.split Js.LF s)).
Proof.
  induction s as [|c s [k IH]]; [exists 0; reflexivity|].
  cbn [Js.trimStart]. destruct (Js.isWhiteSpace c) eqn:Hc; [|exists 0; reflexivity].
  cbn [Js.split]. destruct (Ascii.eqb c Js.LF).
  - exists (S k). cbn [map skipn]. exact IH.
  - exists k. rewrite IH. f_equal.
    pose proof (split_not_nil Js.LF s) as Hne.
    destruct (Js.split Js.LF s) as [|w ws]; [contradiction|].
    cbn [map]. rewrite (trim_white_head c w Hc). reflexivity.
Qed.

(** The lines of a text trimmed at its end are the first lines of the
    text, the last of them trimmed at its end. *)
Lemma trimEnd_lines (s : string) :
  exists l0 a post,
    Js.split Js.LF s = (l0 ++ a :: post)%list
    /\ Js.split Js.LF (Js.trimEnd s) = (l0 ++ [Js.trimEnd a])%list.
Proof.
  induction s as [|c s [l0 [a [post [Hs Ht]]]]].
  - exists [], "", []. split; reflexivity.
  - cbn [Js.trimEnd].
    destruct (Js.isWhiteSpace c && Js.isEmpty (Js.trimEnd s)) eqn:E.
    + apply andb_true_iff in E as [Hc Hempty].
      destruct (Js.trimEnd s) eqn:Et; [|discriminate].
      cbn [Js.split] in Ht. destruct l0 as [|b l0]; [|destruct l0; discriminate].
      cbn [app] in Ht, Hs. inversion Ht as [Ha].
      cbn [Js.split]. rewrite Hs. destruct (Ascii.eqb c Js.LF).
      * exists [], "", (a :: post). split; reflexivity.
      * exists [], (String c a), post. split; [reflexivity|].
        cbn [app Js.trimEnd]. rewrite <- Ha, Hc. reflexivity.
    + cbn [Js.split]. rewrite Hs, Ht. destruct (Ascii.eqb c Js.LF).
      * exists ("" :: l0), a, post. split; reflexivity.
      * destruct l0 as [|b l0]; cbn [app].
        -- exists [], (String c a), post. split; [reflexivity|].
           cbn [app Js.trimEnd].
           assert (Hta : Js.trimEnd s = Js.trimEnd a).
           { rewrite <- (join_split Js.LF (Js.trimEnd s)), Ht. reflexivity. }
           rewrite <- Hta, E. reflexivity.
        -- exists (String c b :: l0), a, post. split; reflexivity.
Qed.

Lemma trim_lines (s : string) :
  exists k n,
    map Js.trim (Js.split Js.LF (Js.trim s))
    = firstn n (skipn k (map Js.trim (Js.split Js.LF s))).
Proof.
  change (Js.trim s) with (Js.trimEnd (Js.trimStart s)).
  destruct (trimStart_lines s) as [k Hk].
  destruct (trimEnd_lines (Js.trimStart s)) as [l0 [a [post [Hs Ht]]]].
  exists k, (S (List.length l0)). rewrite <- Hk, Hs, Ht.
  rewrite !map_app. cbn [map]. rewrite trim_trimEnd.
  replace (S (List.length l0)) with (List.length (map Js.trim l0 ++ [Js.trim a]))
    by (rewrite length_app, length_map; cbn [List.length]; lia).
  replace (map Js.trim l0 ++ Js.trim a :: map Js.trim post)%list
    with ((map Js.trim l0 ++ [Js.trim a]) ++ map Js.trim post)%list
    by (rewrite <- app_assoc; reflexivity).
  rewrite firstn_app, Nat.sub_diag, firstn_all. cbn [firstn]. rewrite app_nil_r.
  reflexivity.
Qed.

Lemma trim_line_count (s : string) :
  List.length (Js.split Js.LF (Js.trim s)) <= List.length (Js.split Js.LF s).
Proof.
  destruct (trim_lines s) as [k [n H]].
  apply (f_equal (@List.length string)) in H.
  rewrite length_map, length_firstn, length_skipn, length_map in H. lia.
Qed.

(** X25.  The code that [processMermaidCode] returns is trimmed and is
    itself within the two limits: at most 200 lines and at most 5000
    characters. *)
Theorem returned_code_is_within_limits :
  forall input code,
    processMermaidCode input = Returned code ->
    Js.trim code = code
    /\ List.length (Js.split Js.LF code) <= MAX_LINES
    /\ String.length code <= MAX_CHARS.
Proof.
  intros input code H. unfold processMermaidCode in H.
  destruct (tooLarge (normalized input)) eqn:E; [discriminate|].
  inversion H as [Hcode]. clear H.
  unfold tooLarge in E. apply orb_false_iff in E as [E1 E2].
  apply Nat.ltb_ge in E1. apply Nat.ltb_ge in E2.
  split; [apply trim_trim|]. split.
  - pose proof (trim_line_count (normalized input)). lia.
  - pose proof (trim_length (normalized input)). lia.
Qed.

Lemma returned_code_is_within_limits_witness :
  Js.trim Scenario.smallDiagram = Scenario.smallDiagram
  /\ List.length (Js.split Js.LF Scenario.smallDiagram) <= MAX_LINES
  /\ String.length Scenario.smallDiagram <= MAX_CHARS.
Proof.
  apply (returned_code_is_within_limits Scenario.smallDiagram Scenario.smallDiagram).
  vm_compute. reflexivity.
Defined.

(** *** The removal of the duplicates *)

Lemma seen_false (x : string) (seen : list string) :
  existsb (String.eqb x) seen = false -> ~ In x seen.
Proof.
  intros H Hin. assert (Ht : existsb (String.eqb x) seen = true).
  { apply existsb_exists. exists x. split; [exact Hin|apply String.eqb_refl]. }
  congruence.
Qed.

Lemma dropDuplicates_distinct (lines : list string) :
  forall seen,
    NoDup (map Js.trim (dropDuplicates seen lines))
    /\ (forall x, In x (map Js.trim (dropDuplicates seen lines)) -> ~ In x seen)
    /\ (forall l, In l (dropDuplicates seen lines) -> In l lines).
Proof.
  induction lines as [|l lines IH]; intros seen; cbn [dropDuplicates].
  - repeat split; [constructor|intros x []|intros l []].
  - destruct (existsb (String.eqb (Js.trim l)) seen) eqn:E.
    + destruct (IH seen) as [H1 [H2 H3]]. repeat split; try assumption.
      intros l0 Hl0. right. apply H3, Hl0.
    + destruct (IH (Js.trim l :: seen)) as [H1 [H2 H3]]. cbn [map]. repeat split.
      * constructor; [|exact H1]. intros Hin. apply (H2 _ Hin). left. reflexivity.
      * intros x [<-|Hx]; [apply seen_false, E|].
        intros Hs. apply (H2 _ Hx). right. exact Hs.
      * intros l0 [<-|Hl0]; [left; reflexivity|right; apply H3, Hl0].
Qed.

Lemma normalized_lines (input : string) :
  NoDup (map Js.trim (Js.split Js.LF (normalized input))).
Proof.
  unfold normalized.
  match goal with
  | |- context [dropDuplicates [] (Js.split Js.LF ?c)] => set (code := c)
  end.
  destruct (dropDuplicates_distinct (Js.split Js.LF code) []) as [H1 [_ H3]].
  rewrite split_join; [exact H1| |].
  - pose proof (split_not_nil Js.LF code) as Hne.
    destruct (Js.split Js.LF code) as [|l ls]; [contradiction|].
    cbn [dropDuplicates existsb]. discriminate.
  - apply Forall_forall. intros l Hl.
    pose proof (split_free Js.LF code) as Hfree. rewrite Forall_forall in Hfree.
    apply Hfree, H3, Hl.
Qed.

Lemma NoDup_firstn_skipn {A : Type} (l : list A) (k n : nat) :
  NoDup l -> NoDup (firstn n (skipn k l)).
Proof.
  intros H. rewrite <- (firstn_skipn k l) in H. apply NoDup_app_remove_l in H.
  rewrite <- (firstn_skipn n (skipn k l)) in H. apply NoDup_app_remove_r in H.
  exact H.
Qed.

(** X26.  No two lines of the code that [processMermaidCode] returns are
    equal once trimmed. *)
Theorem returned_lines_are_distinct :
  forall input code,
    processMermaidCode input = Returned code ->
    NoDup (map Js.trim (Js.split Js.LF code)).
Proof.
  intros input code H. unfold processMermaidCode in H.
  destruct (tooLarge (normalized input)); [discriminate|].
  inversion H as [Hcode]. clear H.
  destruct (trim_lines (normalized input)) as [k [n Hl]]. rewrite Hl.
  apply NoDup_firstn_skipn, normalized_lines.
Qed.

Lemma returned_lines_are_distinct_witness :
  NoDup (map Js.trim (Js.split Js.LF Scenario.smallDiagram)).
Proof.
  apply (returned_lines_are_distinct Scenario.smallDiagram Scenario.smallDiagram).
  vm_compute. reflexivity.
Defined.

End ReturnedCodeFacts.

(** ** src/app/utils/diagrams.ts: the fenced block *)

Module FenceFacts.

Import Regex RegexFacts Diagrams StringFacts QuotingFacts TrimFacts ReturnedCodeFacts.

Lemma fencedBlock_elsewhere (prev : option ascii) (c : ascii) (s : string) :
  Js.isNot "`" c = true -> fencedBlock prev (String c s) = None.
Proof.
  unfold Js.isNot. intros H. apply negb_true_iff in H.
  unfold fencedBlock, fence. cbn [Js.startsWith].
  rewrite Ascii.eqb_sym, H. reflexivity.
Qed.

Lemma first_no_fence (s : string) :
  Js.all (Js.isNot "`") s = true ->
  forall offset prev, first (scan fencedBlock 0 offset prev s) = None.
Proof.
  induction s as [|c s IH]; intros H offset prev; [reflexivity|].
  cbn [Js.all] in H. apply andb_true_iff in H as [Hc H].
  rewrite first_scan_lit by (apply fencedBlock_elsewhere, Hc). apply IH, H.
Qed.

Lemma first_after_text (pre rest : string) :
  Js.all (Js.isNot "`") pre = true ->
  forall offset prev,
    first (scan fencedBlock 0 offset prev (pre ++ String "`" rest))
    = match fencedBlock None (String "`" rest) with
      | Some (m, _) => Some m
      | None => first (scan fencedBlock 0 (S (offset + String.length pre)) (Some "`"%char) rest)
      end.
Proof.
  induction pre as [|c pre IH]; intros H offset prev.
  - cbn [append String.length]. rewrite Nat.add_0_r.
    change (fencedBlock None (String "`" rest)) with (fencedBlock prev (String "`" rest)).
    destruct (fencedBlock prev (String "`" rest)) as [[m len]|] eqn:E.
    + apply (first_scan_hit fencedBlock offset prev (String "`" rest) m len eq_refl E).
    + apply first_scan_lit, E.
  - cbn [Js.all] in H. apply andb_true_iff in H as [Hc H].
    cbn [append]. rewrite first_scan_lit by (apply fencedBlock_elsewhere, Hc).
    rewrite (IH H). cbn [String.length]. rewrite Nat.add_succ_r. reflexivity.
Qed.

(** The lazy capture runs over a text without backquote up to the
    closing fence. *)
Lemma lazyUntil_fence (body rest : string) :
  Js.all (Js.isNot "`") body = true ->
  lazyUntil (fun _ => true) closeFence (body ++ fence ++ rest)
  = Some (body, String.length body + 3).
Proof.
  induction body as [|c body IH]; intros H; [reflexivity|].
  cbn [Js.all] in H. apply andb_true_iff in H as [Hc H].
  unfold Js.isNot in Hc. apply negb_true_iff in Hc.
  cbn [append lazyUntil]. unfold closeFence at 1, fence at 1. cbn [Js.startsWith].
  rewrite Ascii.eqb_sym, Hc. cbn [andb]. rewrite (IH H). reflexivity.
Qed.

Lemma trim_between_line_feeds (body : string) :
  Js.trim (String Js.LF (body ++ Js.str Js.LF)) = Js.trim body.
Proof.
  rewrite trim_white_head by reflexivity.
  unfold Js.trim. rewrite <- !trimStart_commutes. f_equal.
  induction body as [|c body IH]; [reflexivity|].
  cbn [append Js.trimEnd]. rewrite IH. reflexivity.
Qed.

Lemma fence_body (body post : string) :
  String Js.LF (body ++ String Js.LF (fence ++ post))
  = String Js.LF (body ++ Js.str Js.LF) ++ fence ++ post.
Proof. cbn [append]. rewrite append_assoc. reflexivity. Qed.

Lemma no_backquote_between (body : string) :
  Js.all (Js.isNot "`") body = true ->
  Js.all (Js.isNot "`") (String Js.LF (body ++ Js.str Js.LF)) = true.
Proof. intros H. cbn [Js.all]. rewrite all_append, H. reflexivity. Qed.

Lemma fencedBlock_with_word (body post : string) :
  Js.all (Js.isNot "`") body = true ->
  exists len,
    fencedBlock None
      (String "`" ("``mermaid" ++ String Js.LF (body ++ String Js.LF (fence ++ post))))
    = Some (Js.trim body, len).
Proof.
  intros H. unfold fencedBlock.
  change (Js.startsWith fence (String "`" ("``mermaid" ++ ?x))) with true.
  cbv iota.
  change (Js.drop 3 (String "`" ("``mermaid" ++ ?x))) with ("mermaid" ++ x).
  change (Js.startsWith "mermaid" ("mermaid" ++ ?x)) with true. cbv iota.
  change (Js.drop 7 ("mermaid" ++ ?x)) with x.
  unfold fencedBody. rewrite fence_body.
  rewrite (lazyUntil_fence _ post (no_backquote_between body H)).
  rewrite trim_between_line_feeds. eexists. reflexivity.
Qed.

Lemma fencedBlock_without_word (body post : string) :
  Js.all (Js.isNot "`") body = true ->
  exists len,
    fencedBlock None
      (String "`" ("``" ++ String Js.LF (body ++ String Js.LF (fence ++ post))))
    = Some (Js.trim body, len).
Proof.
  intros H. unfold fencedBlock.
  change (Js.startsWith fence (String "`" ("``" ++ ?x))) with true.
  cbv iota.
  change (Js.drop 3 (String "`" ("``" ++ ?x))) with x.
  change (Js.startsWith "mermaid" (String Js.LF ?x)) with false. cbv iota.
  unfold fencedBody. rewrite fence_body.
  rewrite (lazyUntil_fence _ post (no_backquote_between body H)).
  rewrite trim_between_line_feeds. eexists. reflexivity.
Qed.

(** What [processMermaidCode] does of an input depends on the code that
    step 1 extracts. *)
Lemma same_extraction (input body : string) :
  first (pieces fencedBlock input) = Some (Js.trim body) ->
  first (pieces fencedBlock body) = None ->
  processMermaidCode input = processMermaidCode body.
Proof.
  intros H1 H2. unfold processMermaidCode, normalized. rewrite H1, H2. reflexivity.
Qed.

(** X27.  A diagram between code fences is taken out of its fences: for
    a code without backquote, wrapped between an opening fence (with or
    without the word [mermaid]) and a closing fence each on its own line,
    whatever text without backquote comes before and whatever text comes
    after, [processMermaidCode] gives what it gives for the code
    alone. *)
Theorem fenced_block_is_unwrapped :
  forall pre body post,
    Js.all (Js.isNot "`") pre = true ->
    Js.all (Js.isNot "`") body = true ->
    processMermaidCode
      (pre ++ "```mermaid" ++ String Js.LF (body ++ String Js.LF ("```" ++ post)))
    = processMermaidCode body
    /\ processMermaidCode
         (pre ++ "```" ++ String Js.LF (body ++ String Js.LF ("```" ++ post)))
       = processMermaidCode body.
Proof.
  intros pre body post Hpre Hbody.
  assert (Hnone : first (pieces fencedBlock body) = None)
    by (apply first_no_fence, Hbody).
  split; apply same_extraction; try exact Hnone; unfold pieces.
  - change ("```mermaid" ++ ?x) with (String "`" ("``mermaid" ++ x)).
    rewrite (first_after_text pre _ Hpre).
    destruct (fencedBlock_with_word body post Hbody) as [len Hm].
    unfold fence in Hm. rewrite Hm. reflexivity.
  - change ("```" ++ ?x) with (String "`" ("``" ++ x)) at 1.
    rewrite (first_after_text pre _ Hpre).
    destruct (fencedBlock_without_word body post Hbody) as [len Hm].
    unfold fence in Hm. rewrite Hm. reflexivity.
Qed.

Lemma fenced_block_is_unwrapped_witness :
  processMermaidCode
    ("Here it is: " ++ "```mermaid"
       ++ String Js.LF ("graph TD; A --> B" ++ String Js.LF ("```" ++ " Enjoy.")))
  = processMermaidCode "graph TD; A --> B".
Proof.
  apply (proj1 (fenced_block_is_unwrapped "Here it is: " "graph TD; A --> B" " Enjoy."
                  eq_refl eq_refl)).
Defined.

End FenceFacts.
(** ** utils/table.ts: the cells that are drawn *)

Module CellCountFacts.

Import Regex Table TableText GridFacts TableHeightFacts.

Lemma emitCells_kinds (rowIndex : nat) (y_ rowHeight : Q) (ws : list Z) :
  forall (row : list string) (currentX : Q),
    List.length (filter isRectangle (emitCells rowIndex y_ rowHeight currentX ws row))
    = Nat.min (List.length ws) (List.length row)
    /\ List.length (filter isText (emitCells rowIndex y_ rowHeight currentX ws row))
       = Nat.min (List.length ws) (List.length row).
Proof.
  induction ws as [|w ws IH]; intros row currentX; [split; reflexivity|].
  destruct row as [|cell row]; [split; reflexivity|].
  cbn [emitCells]. destruct (IH row (currentX + inject_Z w)%Q) as [Hr Ht].
  split.
  - change (filter isRectangle (cellRectangle rowIndex currentX y_ w rowHeight
              :: cellText rowIndex currentX y_ w rowHeight cell :: ?l))
      with (cellRectangle rowIndex currentX y_ w rowHeight :: filter isRectangle l).
    cbn [List.length Nat.min]. rewrite Hr. reflexivity.
  - change (filter isText (cellRectangle rowIndex currentX y_ w rowHeight
              :: cellText rowIndex currentX y_ w rowHeight cell :: ?l))
      with (cellText rowIndex currentX y_ w rowHeight cell :: filter isText l).
    cbn [List.length Nat.min]. rewrite Ht. reflexivity.
Qed.

Lemma filter_concat {A : Type} (p : A -> bool) (ll : list (list A)) :
  filter p (List.concat ll) = List.concat (map (filter p) ll).
Proof.
  induction ll as [|l ll IH]; cbn [List.concat map]; [reflexivity|].
  rewrite filter_app, IH. reflexivity.
Qed.

Lemma emitRows_kinds (startX : Q) (ws : list Z) (hs ys : list Q) (n : nat) :
  forall (rows : list (list string)) (index : nat),
    let cells :=
      List.concat
        (mapi (fun rowIndex row =>
                 emitCells rowIndex (nth rowIndex ys 0%Q) (nth rowIndex hs 0%Q)
                           startX ws row) index rows) in
    List.length ws = n ->
    List.length (filter isRectangle cells)
    = fold_right (fun row k => (Nat.min n (List.length row) + k)%nat) 0%nat rows
    /\ List.length (filter isText cells)
       = fold_right (fun row k => (Nat.min n (List.length row) + k)%nat) 0%nat rows.
Proof.
  induction rows as [|row rows IH]; intros index cells Hn; [split; reflexivity|].
  subst cells. cbn [mapi List.concat fold_right].
  rewrite !filter_app, !length_app.
  destruct (emitCells_kinds index (nth index ys 0%Q) (nth index hs 0%Q) ws row startX)
    as [Hr Ht].
  destruct (IH (S index) Hn) as [Hr' Ht'].
  rewrite Hr, Ht, Hr', Ht', Hn. split; reflexivity.
Qed.

(** X29.  A table of at least two lines is drawn with one rectangle and
    one text for every cell that lies in a column of the first row, and
    with nothing else: the cells that a later row has beyond the columns
    of the first row are not drawn. *)
Theorem table_draws_the_cells_of_its_columns :
  forall tableMarkdown startX startY,
    (2 <= List.length (tableLines tableMarkdown))%nat ->
    let elements := createVisualTableElements tableMarkdown startX startY in
    List.length (filter isRectangle elements) = drawnCells (parseRows tableMarkdown)
    /\ List.length (filter isText elements) = drawnCells (parseRows tableMarkdown)
    /\ List.length elements = (2 * drawnCells (parseRows tableMarkdown))%nat.
Proof.
  intros tableMarkdown startX startY Hlines elements. subst elements.
  unfold createVisualTableElements.
  destruct (List.length (tableLines tableMarkdown) <? 2) eqn:E;
    [apply Nat.ltb_lt in E; lia|].
  destruct (List.length (parseRows tableMarkdown) =? 0) eqn:E0.
  - apply Nat.eqb_eq in E0. apply length_zero_iff_nil in E0. rewrite E0.
    repeat split; reflexivity.
  - cbv zeta. unfold emitRows, drawnCells.
    set (rows := parseRows tableMarkdown).
    set (ws := computeColWidths rows).
    set (hs := computeRowHeights ws rows).
    set (ys := computeRowYPositions startY hs).
    pose proof (emitRows_kinds startX ws hs ys (numCols rows) rows 0
                  (computeColWidths_length rows)) as [Hr Ht].
    cbv zeta in Hr, Ht. split; [exact Hr|]. split; [exact Ht|].
    clear Hr Ht.
    assert (Hgen : forall l index,
               List.length
                 (List.concat
                    (mapi (fun rowIndex row =>
                             emitCells rowIndex (nth rowIndex ys 0%Q) (nth rowIndex hs 0%Q)
                                       startX ws row) index l))
               = (2 * fold_right
                        (fun row k => Nat.min (numCols rows) (List.length row) + k)
                        0 l)%nat).
    { induction l as [|row l IH]; intros index; [reflexivity|].
      cbn [mapi List.concat fold_right]. rewrite length_app, emitCells_count, IH.
      unfold ws at 1. rewrite computeColWidths_length. lia. }
    apply Hgen.
Qed.

Lemma table_draws_the_cells_of_its_columns_witness :
  (2 <= List.length (tableLines ("| A | B |" ++ String Js.LF "| 1 | 2 | 3 |")))%nat
  /\ drawnCells (parseRows ("| A | B |" ++ String Js.LF "| 1 | 2 | 3 |")) = 4%nat
  /\ List.length
       (createVisualTableElements ("| A | B |" ++ String Js.LF "| 1 | 2 | 3 |") 0 0)
     = (2 * drawnCells (parseRows ("| A | B |" ++ String Js.LF "| 1 | 2 | 3 |")))%nat.
Proof.
  split; [vm_compute; lia|]. split; [reflexivity|].
  apply (table_draws_the_cells_of_its_columns
           ("| A | B |" ++ String Js.LF "| 1 | 2 | 3 |") 0 0).
  vm_compute. lia.
Defined.

End CellCountFacts.
(** ** src/app/utils/diagrams.ts: how much processMermaidCode adds *)

Module SizeLimitFacts.

Import Regex Diagrams Measure.

Lemma weight_append (w : ascii -> nat) (a b : string) :
  weight w (a ++ b) = weight w a + weight w b.
Proof.
  induction a as [|c a IH]; cbn [append weight]; [reflexivity|].
  rewrite IH. apply Nat.add_assoc.
Qed.

Lemma weight_le (w1 w2 : ascii -> nat) (s : string) :
  (forall c, w1 c <= w2 c) -> weight w1 s <= weight w2 s.
Proof.
  intros H. induction s as [|c s IH]; cbn [weight]; [lia|].
  specialize (H c). lia.
Qed.

Lemma weight_one (s : string) : weight one s = String.length s.
Proof.
  induction s as [|c s IH]; cbn [weight String.length one]; [|rewrite IH]; reflexivity.
Qed.

Lemma weight_times (w : ascii -> nat) (k : nat) (s : string) :
  (forall c, w c <= k) -> weight w s <= k * String.length s.
Proof.
  intros H. induction s as [|c s IH]; cbn [weight String.length]; [lia|].
  specialize (H c). lia.
Qed.

Lemma weight_drop (w : ascii -> nat) (n : nat) :
  forall s, weight w (Js.drop n s) <= weight w s.
Proof.
  induction n as [|n IH]; intros s; [reflexivity|].
  destruct s as [|c s]; cbn [Js.drop weight]; [lia|].
  specialize (IH s). lia.
Qed.

Lemma weight_trimStart (w : ascii -> nat) (s : string) :
  weight w (Js.trimStart s) <= weight w s.
Proof.
  induction s as [|c s IH]; cbn [Js.trimStart]; [reflexivity|].
  destruct (Js.isWhiteSpace c); cbn [weight]; lia.
Qed.

Lemma weight_trimEnd (w : ascii -> nat) (s : string) :
  weight w (Js.trimEnd s) <= weight w s.
Proof.
  induction s as [|c s IH]; cbn [Js.trimEnd]; [reflexivity|].
  destruct (Js.isWhiteSpace c && Js.isEmpty (Js.trimEnd s)); cbn [weight]; lia.
Qed.

Lemma weight_trim (w : ascii -> nat) (s : string) :
  weight w (Js.trim s) <= weight w s.
Proof.
  unfold Js.trim.
  pose proof (weight_trimEnd w (Js.trimStart s)). pose proof (weight_trimStart w s). lia.
Qed.

Lemma weight_mapChars (w : ascii -> nat) (g : ascii -> ascii) (s : string) :
  (forall c, w (g c) <= w c) -> weight w (mapChars g s) <= weight w s.
Proof.
  intros H. induction s as [|c s IH]; cbn [mapChars weight]; [lia|].
  specialize (H c). lia.
Qed.

(** A text has one line more than it has line feeds. *)
Lemma split_length (s : string) :
  List.length (Js.split Js.LF s) = S (weight lineFeed s).
Proof.
  induction s as [|c s IH]; [reflexivity|].
  cbn [Js.split weight]. unfold lineFeed at 1.
  destruct (Ascii.eqb c Js.LF).
  - cbn [List.length]. rewrite IH. reflexivity.
  - destruct (Js.split Js.LF s) as [|l ls]; [discriminate|].
    cbn [List.length] in *. exact IH.
Qed.

(** *** A replacement that writes no more than it reads *)

Section Growth.

Context {M : Type}.
Variables (wi wo : ascii -> nat) (mt : matcher M) (f : nat -> M -> string).

Hypothesis Hlit : forall c, wo c <= wi c.
Hypothesis Hhit :
  forall prev s m len offset,
    mt prev s = Some (m, len) ->
    exists matched rest,
      s = matched ++ rest /\ len = String.length matched /\ 1 <= len
      /\ weight wo (f offset m) <= weight wi matched.

Lemma rebuild_weight (s : string) :
  forall skip offset prev,
    weight wo (rebuild f (scan mt skip offset prev s)) <= weight wi (Js.drop skip s).
Proof.
  induction s as [|c s IH]; intros skip offset prev.
  - destruct skip; cbn; lia.
  - destruct skip as [|k]; cbn [scan Js.drop].
    + destruct (mt prev (String c s)) as [[m len]|] eqn:E.
      * destruct (Hhit prev (String c s) m len offset E)
          as [matched [rest [Hs [Hlen [Hpos Hw]]]]].
        cbn [rebuild]. rewrite weight_append.
        specialize (IH (Nat.pred len) (S offset) (Some c)).
        assert (Hdrop : Js.drop (Nat.pred len) s = rest).
        { destruct matched as [|x matched]; [cbn in Hlen; lia|].
          cbn [append] in Hs. inversion Hs as [[Hx Hs']].
          rewrite Hlen. cbn [String.length Nat.pred].
          apply BlockFacts.drop_append. }
        rewrite Hdrop in IH. rewrite Hs, weight_append. lia.
      * cbn [rebuild weight]. specialize (IH 0 (S offset) (Some c)).
        cbn [Js.drop] in IH. specialize (Hlit c). lia.
    + specialize (IH k (S offset) (Some c)). exact IH.
Qed.

Lemma replace_weight (s : string) : weight wo (replace mt f s) <= weight wi s.
Proof.
  unfold replace, pieces. apply (rebuild_weight s 0 0 None).
Qed.

End Growth.

(** *** What the expressions of the steps match *)

Lemma span_parts (q : ascii -> bool) (s inner rest : string) :
  Js.span q s = (inner, rest) -> s = inner ++ rest.
Proof.
  intros H. pose proof (QuotingFacts.span_append q s) as Ha.
  rewrite H in Ha. cbn [fst snd] in Ha. symmetry. exact Ha.
Qed.

Lemma startsWith_parts (p s : string) :
  Js.startsWith p s = true -> exists rest, s = p ++ rest.
Proof.
  revert s. induction p as [|a p IH]; intros s H; [exists s; reflexivity|].
  destruct s as [|b s]; [discriminate|].
  cbn [Js.startsWith] in H. apply andb_true_iff in H as [Hab H].
  apply Ascii.eqb_eq in Hab. subst b.
  destruct (IH s H) as [rest ->]. exists rest. reflexivity.
Qed.

Lemma curly_parts (prev : option ascii) (s inner : string) (len : nat) :
  curly prev s = Some (inner, len) ->
  exists c0 rest,
    s = String "{" (inner ++ String c0 rest) /\ len = 2 + String.length inner.
Proof.
  unfold curly. intros H. destruct s as [|c s]; [discriminate|].
  destruct (Ascii.eqb_spec c "{") as [->|Hc].
  - destruct (Js.span (fun c => negb (Ascii.eqb c "}")) s) as [i r] eqn:E.
    destruct r as [|c0 r]; [discriminate|]. inversion H. subst.
    exists c0, r. rewrite (span_parts _ _ _ _ E). split; reflexivity.
  - exfalso. destruct c as [[] [] [] [] [] [] [] []]; try discriminate.
    apply Hc. reflexivity.
Qed.

Lemma unquotedLabel_parts (prev : option ascii) (s inner : string) (len : nat) :
  unquotedLabel prev s = Some (inner, len) ->
  exists rest,
    s = String "[" (inner ++ String "]" rest) /\ len = 2 + String.length inner.
Proof.
  unfold unquotedLabel. intros H. destruct s as [|c s]; [discriminate|].
  destruct (Ascii.eqb_spec c "[") as [->|Hc].
  - destruct (Js.span isLabelChar s) as [i r] eqn:E.
    destruct i as [|i0 i]; [discriminate|].
    destruct r as [|c0 r]; [discriminate|].
    destruct (Ascii.eqb_spec c0 "]") as [->|Hc0].
    + inversion H. subst. exists r. rewrite (span_parts _ _ _ _ E).
      split; reflexivity.
    + exfalso. destruct c0 as [[] [] [] [] [] [] [] []]; try discriminate.
      apply Hc0. reflexivity.
  - exfalso. destruct c as [[] [] [] [] [] [] [] []]; try discriminate.
    apply Hc. reflexivity.
Qed.

Lemma leadingId_parts (prev : option ascii) (s id_ : string) (len : nat) :
  leadingId prev s = Some (id_, len) ->
  exists rest, s = (id_ ++ "[") ++ rest /\ len = String.length (id_ ++ "[").
Proof.
  unfold leadingId. intros H. destruct (atLineStart prev); [|discriminate].
  destruct (Js.span isIdChar s) as [i r] eqn:E.
  destruct i as [|i0 i]; [discriminate|].
  destruct r as [|c0 r]; [discriminate|].
  destruct (Ascii.eqb_spec c0 "[") as [->|Hc0].
  - inversion H. subst. exists r. rewrite (span_parts _ _ _ _ E).
    rewrite StringFacts.append_assoc. split; [reflexivity|].
    rewrite StringFacts.length_append. reflexivity.
  - exfalso. destruct c0 as [[] [] [] [] [] [] [] []]; try discriminate.
    apply Hc0. reflexivity.
Qed.

Lemma quotedLabel_parts (prev : option ascii) (s label : string) (len : nat) :
  quotedLabel prev s = Some (label, len) ->
  exists c0 rest,
    s = String "[" (String Js.DQ (label ++ String c0 (String "]" rest)))
    /\ len = 4 + String.length label
    /\ Js.all (fun c => negb (Ascii.eqb c Js.DQ)) label = true.
Proof.
  unfold quotedLabel. intros H. destruct s as [|c s]; [discriminate|].
  destruct (Ascii.eqb_spec c "[") as [->|Hc].
  - destruct s as [|q s]; [discriminate|].
    destruct (Ascii.eqb_spec q Js.DQ) as [->|Hq]; [|discriminate].
    destruct (Js.span (fun c => negb (Ascii.eqb c Js.DQ)) s) as [l r] eqn:E.
    destruct r as [|c0 r]; [discriminate|].
    destruct r as [|c1 r]; [discriminate|].
    destruct (Ascii.eqb_spec c1 "]") as [->|Hc1].
    + inversion H. subst. exists c0, r. rewrite (span_parts _ _ _ _ E).
      split; [reflexivity|]. split; [reflexivity|].
      pose proof (QuotingFacts.span_fst_all (fun c => negb (Ascii.eqb c Js.DQ)) s) as Ha.
      rewrite E in Ha. exact Ha.
    + exfalso. destruct c1 as [[] [] [] [] [] [] [] []]; try discriminate.
      apply Hc1. reflexivity.
  - exfalso. destruct c as [[] [] [] [] [] [] [] []]; try discriminate.
    apply Hc. reflexivity.
Qed.

(** *** The steps, one by one *)

Ltac pointwise :=
  intros;
  unfold braced, labelled, escaped, afterAmp, afterLt, one, lineFeed;
  repeat match goal with
         | |- context [Ascii.eqb ?a ?b] => destruct (Ascii.eqb a b)
         end;
  lia.

Lemma one_le_braced (c : ascii) : 1 <= braced c.
Proof. pointwise. Qed.

Lemma one_le_escaped (c : ascii) : 1 <= escaped c.
Proof. pointwise. Qed.

Lemma braced_le_five (c : ascii) : braced c <= 5.
Proof. pointwise. Qed.

Lemma labelled_le_braced (c : ascii) : labelled c <= braced c.
Proof.
  unfold braced. destruct (Ascii.eqb_spec c "{") as [->|_]; [|reflexivity].
  vm_compute. lia.
Qed.

Lemma escaped_le_labelled (c : ascii) : escaped c <= labelled c.
Proof.
  unfold labelled. destruct (Ascii.eqb_spec c "[") as [->|_]; [|reflexivity].
  vm_compute. lia.
Qed.

Lemma literal_weight (wi wo : ascii -> nat) (lit by_ s : string) :
  (forall c, wo c <= wi c) ->
  1 <= String.length lit ->
  weight wo by_ <= weight wi lit ->
  weight wo (replaceLiteral lit by_ s) <= weight wi s.
Proof.
  intros Hlit Hne Hby. unfold replaceLiteral.
  apply (replace_weight wi wo); [exact Hlit|].
  intros prev t m len offset H. unfold literal in H.
  destruct (Js.startsWith lit t) eqn:E; [|discriminate]. inversion H. subst.
  destruct (startsWith_parts lit t E) as [rest ->].
  exists lit, rest. repeat split; assumption.
Qed.

(** Step 5 on a label: every character of the label is written as it is
    or as its entity. *)
Lemma safeLabelOf_length (label : string) :
  Js.all (fun c => negb (Ascii.eqb c Js.DQ)) label = true ->
  String.length (safeLabelOf label) <= weight escaped label.
Proof.
  intros Hdq. unfold safeLabelOf. cbv zeta.
  set (l1 := replaceLiteral "&" "&amp;" label).
  set (l2 := replaceLiteral "<" "&lt;" l1).
  set (l3 := replaceLiteral ">" "&gt;" l2).
  assert (H1 : weight afterAmp l1 <= weight escaped label).
  { apply literal_weight; [pointwise|cbn; lia|vm_compute; lia]. }
  assert (H2 : weight afterLt l2 <= weight afterAmp l1).
  { apply literal_weight; [pointwise|cbn; lia|vm_compute; lia]. }
  assert (H3 : weight one l3 <= weight afterLt l2).
  { apply literal_weight; [pointwise|cbn; lia|vm_compute; lia]. }
  assert (Hfree : Js.all (Js.isNot Js.DQ) l3 = true).
  { unfold l3, l2, l1.
    repeat (apply EscapeFacts.replaceLiteral_keeps; [reflexivity|]).
    exact Hdq. }
  change (Js.str Js.DQ) with (String Js.DQ "").
  rewrite (TableTextFacts.replaceLiteral_absent Js.DQ "" "&quot;" l3 Hfree).
  rewrite <- weight_one. lia.
Qed.

Lemma safeLabelOf_lines (label : string) :
  weight lineFeed (safeLabelOf label) <= weight lineFeed label.
Proof.
  unfold safeLabelOf. cbv zeta.
  set (l1 := replaceLiteral "&" "&amp;" label).
  set (l2 := replaceLiteral "<" "&lt;" l1).
  set (l3 := replaceLiteral ">" "&gt;" l2).
  assert (H1 : weight lineFeed l1 <= weight lineFeed label)
    by (apply literal_weight; [intros; lia|cbn; lia|vm_compute; lia]).
  assert (H2 : weight lineFeed l2 <= weight lineFeed l1)
    by (apply literal_weight; [intros; lia|cbn; lia|vm_compute; lia]).
  assert (H3 : weight lineFeed l3 <= weight lineFeed l2)
    by (apply literal_weight; [intros; lia|cbn; lia|vm_compute; lia]).
  assert (H4 : weight lineFeed (replaceLiteral (Js.str Js.DQ) "&quot;" l3)
               <= weight lineFeed l3)
    by (apply literal_weight; [intros; lia|cbn; lia|vm_compute; lia]).
  lia.
Qed.

Section Steps.

Variables (wi wo : ascii -> nat).
Hypothesis Hlit : forall c, wo c <= wi c.

(** Step 2. *)
Lemma curly_weight (code : string) :
  wo "[" <= wi "{" ->
  (forall c, wo "]" <= wi c) ->
  weight wo (replace curly (fun _ inner => "[" ++ inner ++ "]") code)
  <= weight wi code.
Proof.
  intros Hopen Hclose. apply (replace_weight wi wo); [exact Hlit|].
  intros prev s inner len offset H.
  destruct (curly_parts prev s inner len H) as [c0 [rest [-> ->]]].
  exists (String "{" (inner ++ String c0 "")), rest.
  split; [cbn [append]; rewrite StringFacts.append_assoc; reflexivity|].
  split; [cbn [String.length]; rewrite StringFacts.length_append; cbn; lia|].
  split; [lia|].
  cbn [append weight]. rewrite !weight_append. cbn [weight].
  pose proof (weight_le wo wi inner Hlit). specialize (Hclose c0). lia.
Qed.

(** Step 3. *)
Lemma unquotedLabel_weight (code : string) :
  wo "[" + wo Js.DQ + wo Js.DQ <= wi "[" ->
  wo "]" <= wi "]" ->
  weight wo (replace unquotedLabel
                     (fun _ inner => "[" ++ String Js.DQ (Js.trim inner ++ String Js.DQ "]"))
                     code)
  <= weight wi code.
Proof.
  intros Hopen Hclose. apply (replace_weight wi wo); [exact Hlit|].
  intros prev s inner len offset H.
  destruct (unquotedLabel_parts prev s inner len H) as [rest [-> ->]].
  exists (String "[" (inner ++ "]")), rest.
  split; [cbn [append]; rewrite StringFacts.append_assoc; reflexivity|].
  split; [cbn [String.length]; rewrite StringFacts.length_append; cbn; lia|].
  split; [lia|].
  cbn [append weight]. rewrite !weight_append. cbn [weight].
  pose proof (weight_le wo wi inner Hlit). pose proof (weight_trim wo inner). lia.
Qed.

(** Step 4. *)
Lemma leadingId_weight (code : string) :
  (forall c, wo "_" <= wo c) ->
  weight wo (replace leadingId (fun _ id_ => safeIdOf id_ ++ "[") code)
  <= weight wi code.
Proof.
  intros Hunder. apply (replace_weight wi wo); [exact Hlit|].
  intros prev s id_ len offset H.
  destruct (leadingId_parts prev s id_ len H) as [rest [-> ->]].
  exists (id_ ++ "["), rest. split; [reflexivity|]. split; [reflexivity|].
  split; [rewrite StringFacts.length_append; cbn; lia|].
  rewrite !weight_append. unfold safeIdOf.
  pose proof (weight_mapChars wo (fun c => if Js.isWord c then c else "_"%char) id_) as Hm.
  pose proof (weight_le wo wi id_ Hlit). pose proof (weight_le wo wi "[" Hlit).
  assert (weight wo (mapChars (fun c => if Js.isWord c then c else "_"%char) id_)
          <= weight wo id_).
  { apply Hm. intros c. destruct (Js.isWord c); [lia|apply Hunder]. }
  lia.
Qed.

End Steps.

(** Step 5. *)
Lemma quotedLabel_length (code : string) :
  String.length
    (replace quotedLabel
             (fun _ label => "[" ++ String Js.DQ (safeLabelOf label ++ String Js.DQ "]"))
             code)
  <= weight escaped code.
Proof.
  rewrite <- weight_one.
  apply (replace_weight escaped one); [apply one_le_escaped|].
  intros prev s label len offset H.
  destruct (quotedLabel_parts prev s label len H) as [c0 [rest [-> [-> Hdq]]]].
  exists (String "[" (String Js.DQ (label ++ String c0 "]"))), rest.
  split; [cbn [append]; rewrite StringFacts.append_assoc; reflexivity|].
  split; [cbn [String.length]; rewrite StringFacts.length_append; cbn; lia|].
  split; [lia|].
  cbn [append weight]. rewrite !weight_append. cbn [weight].
  rewrite weight_one. pose proof (safeLabelOf_length label Hdq).
  pose proof (one_le_escaped "["). pose proof (one_le_escaped Js.DQ).
  pose proof (one_le_escaped c0). pose proof (one_le_escaped "]").
  unfold one. lia.
Qed.

Lemma quotedLabel_lines (code : string) :
  weight lineFeed
    (replace quotedLabel
             (fun _ label => "[" ++ String Js.DQ (safeLabelOf label ++ String Js.DQ "]"))
             code)
  <= weight lineFeed code.
Proof.
  apply (replace_weight lineFeed lineFeed); [intros; lia|].
  intros prev s label len offset H.
  destruct (quotedLabel_parts prev s label len H) as [c0 [rest [-> [-> Hdq]]]].
  exists (String "[" (String Js.DQ (label ++ String c0 "]"))), rest.
  split; [cbn [append]; rewrite StringFacts.append_assoc; reflexivity|].
  split; [cbn [String.length]; rewrite StringFacts.length_append; cbn; lia|].
  split; [lia|].
  cbn [append weight]. rewrite !weight_append. cbn [weight].
  pose proof (safeLabelOf_lines label).
  change (lineFeed "[") with 0. change (lineFeed Js.DQ) with 0.
  change (lineFeed "]") with 0. lia.
Qed.

(** *** Step 1: the code is a part of the input *)

Lemma lazyUntil_prefix (ok : ascii -> bool) (close : string -> option nat) (s : string) :
  forall cap n, lazyUntil ok close s = Some (cap, n) -> exists rest, s = cap ++ rest.
Proof.
  induction s as [|c s IH]; intros cap n H; cbn [lazyUntil] in H.
  - destruct (close ""); [|discriminate]. inversion H. exists "". reflexivity.
  - destruct (close (String c s)).
    + inversion H. exists (String c s). reflexivity.
    + destruct (ok c); [|discriminate].
      destruct (lazyUntil ok close s) as [[cap' n']|] eqn:E; [|discriminate].
      inversion H. subst. destruct (IH cap' n' eq_refl) as [rest ->].
      exists rest. reflexivity.
Qed.

Lemma fencedBody_weight (w : ascii -> nat) (s b : string) (n : nat) :
  fencedBody s = Some (b, n) -> weight w b <= weight w s.
Proof.
  unfold fencedBody. intros H.
  destruct (lazyUntil (fun _ => true) closeFence s) as [[cap k]|] eqn:E; [|discriminate].
  inversion H. subst. destruct (lazyUntil_prefix _ _ _ _ _ E) as [rest ->].
  rewrite weight_append. pose proof (weight_trim w cap). lia.
Qed.

Lemma fencedBlock_weight (w : ascii -> nat) (prev : option ascii) (s b : string) (n : nat) :
  fencedBlock prev s = Some (b, n) -> weight w b <= weight w s.
Proof.
  unfold fencedBlock. intros H.
  destruct (Js.startsWith fence s); [|discriminate]. cbv zeta in H.
  pose proof (weight_drop w 3 s) as H3.
  pose proof (weight_drop w 7 (Js.drop 3 s)) as H7.
  destruct (Js.startsWith "mermaid" (Js.drop 3 s)).
  - destruct (fencedBody (Js.drop 7 (Js.drop 3 s))) as [[b1 n1]|] eqn:E1.
    + inversion H. subst. pose proof (fencedBody_weight w _ _ _ E1). lia.
    + destruct (fencedBody (Js.drop 3 s)) as [[b2 n2]|] eqn:E2; [|discriminate].
      inversion H. subst. pose proof (fencedBody_weight w _ _ _ E2). lia.
  - destruct (fencedBody (Js.drop 3 s)) as [[b2 n2]|] eqn:E2; [|discriminate].
    inversion H. subst. pose proof (fencedBody_weight w _ _ _ E2). lia.
Qed.

Lemma first_fence_weight (w : ascii -> nat) (b : string) (s : string) :
  forall offset prev,
    first (scan fencedBlock 0 offset prev s) = Some b -> weight w b <= weight w s.
Proof.
  induction s as [|c s IH]; intros offset prev H; [discriminate|].
  cbn [scan] in H. destruct (fencedBlock prev (String c s)) as [[m len]|] eqn:E.
  - cbn [first] in H. inversion H. subst. apply (fencedBlock_weight w _ _ _ _ E).
  - cbn [first] in H. specialize (IH _ _ H). cbn [weight]. lia.
Qed.

(** *** Step 7: lines are dropped, none is added *)

Lemma join_weight_cons (w : ascii -> nat) (sep x : string) (r : list string) :
  weight w (Js.join sep (x :: r))
  = weight w x + match r with [] => 0 | _ => weight w sep + weight w (Js.join sep r) end.
Proof.
  destruct r as [|y r]; cbn [Js.join]; [lia|].
  rewrite !weight_append. reflexivity.
Qed.

Lemma dropDuplicates_weight (w : ascii -> nat) (sep : string) (l : list string) :
  forall seen,
    weight w (Js.join sep (dropDuplicates seen l)) <= weight w (Js.join sep l).
Proof.
  induction l as [|x r IH]; intros seen; [reflexivity|].
  cbn [dropDuplicates]. cbv zeta.
  destruct (existsb (String.eqb (Js.trim x)) seen).
  - specialize (IH seen). rewrite (join_weight_cons w sep x r).
    destruct r; [cbn in *; lia|lia].
  - specialize (IH (Js.trim x :: seen)). rewrite !join_weight_cons.
    destruct (dropDuplicates (Js.trim x :: seen) r) eqn:E; [lia|].
    destruct r; [discriminate|]. lia.
Qed.

(** *** The normalized code against the input *)

Lemma normalized_growth (input : string) :
  String.length (normalized input) <= weight braced input + 13
  /\ weight lineFeed (normalized input) <= weight lineFeed input + 1.
Proof.
  unfold normalized. cbv zeta.
  set (code1 := match first (pieces fencedBlock input) with
                | Some body => body
                | None => Js.trim input
                end).
  set (code2 := replace curly _ code1).
  set (code3 := replace unquotedLabel _ code2).
  set (code4 := replace leadingId _ code3).
  set (code5 := replace quotedLabel _ code4).
  set (code6 := if test validStart code5 then code5
                else "flowchart TD" ++ String Js.LF code5).
  assert (H1 : forall w, weight w code1 <= weight w input).
  { intros w. unfold code1.
    destruct (first (pieces fencedBlock input)) eqn:E.
    - apply (first_fence_weight w _ _ _ _ E).
    - apply weight_trim. }
  assert (H2 : weight labelled code2 <= weight braced code1).
  { apply curly_weight; [apply labelled_le_braced|vm_compute; lia|].
    intros c. pose proof (one_le_braced c). vm_compute (labelled "]"). exact H. }
  assert (H2' : weight lineFeed code2 <= weight lineFeed code1).
  { apply curly_weight; [intros; lia|vm_compute; lia|intros c; vm_compute (lineFeed "]"); lia]. }
  assert (H3 : weight escaped code3 <= weight labelled code2).
  { apply unquotedLabel_weight; [apply escaped_le_labelled|vm_compute; lia..]. }
  assert (H3' : weight lineFeed code3 <= weight lineFeed code2).
  { apply unquotedLabel_weight; [intros; lia|vm_compute; lia..]. }
  assert (H4 : weight escaped code4 <= weight escaped code3).
  { apply leadingId_weight; [intros; lia|].
    intros c. pose proof (one_le_escaped c). vm_compute (escaped "_"). exact H. }
  assert (H4' : weight lineFeed code4 <= weight lineFeed code3).
  { apply leadingId_weight; [intros; lia|intros c; vm_compute (lineFeed "_"); lia]. }
  assert (H5 : String.length code5 <= weight escaped code4) by apply quotedLabel_length.
  assert (H5' : weight lineFeed code5 <= weight lineFeed code4) by apply quotedLabel_lines.
  assert (H6 : String.length code6 <= String.length code5 + 13
               /\ weight lineFeed code6 <= weight lineFeed code5 + 1).
  { unfold code6. destruct (test validStart code5); [lia|].
    rewrite StringFacts.length_append, weight_append.
    change (String.length "flowchart TD") with 12.
    change (weight lineFeed "flowchart TD") with 0.
    cbn [String.length weight]. change (lineFeed Js.LF) with 1. lia. }
  assert (H7 : forall w, weight w (Js.join (Js.str Js.LF)
                                           (dropDuplicates [] (Js.split Js.LF code6)))
                         <= weight w code6).
  { intros w. pose proof (dropDuplicates_weight w (Js.str Js.LF) (Js.split Js.LF code6) []) as H.
    rewrite LineBreakFacts.join_split in H. exact H. }
  pose proof (H1 braced). pose proof (H1 lineFeed).
  pose proof (H7 one) as H7l. rewrite !weight_one in H7l.
  pose proof (H7 lineFeed). lia.
Qed.

(** C9, amended.  [processMermaidCode] throws exactly when the normalized
    code, the result of steps 1 to 7, has more than 200 lines or more
    than 5000 characters; what it throws is the error of the size check,
    never a substitute result, and a call that does not throw returns the
    normalized code, trimmed.  The limits bear on the normalized code:
    against the input it has at most one line more (the header of step 6)
    and at most five times the characters plus the 13 of the header, so
    that every input of fewer than 200 lines and at most 997 characters
    is returned normally. *)
Theorem size_limits_on_normalized_code :
  forall input,
    (isThrown (processMermaidCode input) = true
     <-> (MAX_LINES < List.length (Js.split Js.LF (normalized input))
          \/ MAX_CHARS < String.length (normalized input)))
    /\ (isThrown (processMermaidCode input) = true ->
        processMermaidCode input = Thrown "Mermaid diagram too large or complex.")
    /\ (isThrown (processMermaidCode input) = false ->
        processMermaidCode input = Returned (Js.trim (normalized input)))
    /\ List.length (Js.split Js.LF (normalized input))
       <= List.length (Js.split Js.LF input) + 1
    /\ String.length (normalized input) <= 5 * String.length input + 13
    /\ (List.length (Js.split Js.LF input) < MAX_LINES ->
        String.length input <= 997 ->
        processMermaidCode input = Returned (Js.trim (normalized input))).
Proof.
  intros input.
  destruct (DiagramsFacts.processMermaidCode_outcome input) as [Hiff [Hthrown Hreturned]].
  destruct (normalized_growth input) as [Hchars Hfeeds].
  pose proof (weight_times braced 5 input braced_le_five) as Hfive.
  assert (Hlines : List.length (Js.split Js.LF (normalized input))
                   <= List.length (Js.split Js.LF input) + 1)
    by (rewrite !split_length; lia).
  split; [exact Hiff|]. split; [exact Hthrown|]. split; [exact Hreturned|].
  split; [exact Hlines|]. split; [lia|].
  intros Hl Hc. apply Hreturned.
  destruct (isThrown (processMermaidCode input)) eqn:E; [|reflexivity].
  exfalso. unfold MAX_LINES, MAX_CHARS in *.
  destruct (proj1 Hiff eq_refl); lia.
Qed.

Lemma size_limits_on_normalized_code_witness :
  List.length (Js.split Js.LF Scenario.smallDiagram) < MAX_LINES
  /\ String.length Scenario.smallDiagram <= 997
  /\ processMermaidCode Scenario.smallDiagram = Returned Scenario.smallDiagram
  /\ processMermaidCode Scenario.headerlessDiagram
     = Thrown "Mermaid diagram too large or complex.".
Proof.
  assert (H1 : List.length (Js.split Js.LF Scenario.smallDiagram) < MAX_LINES)
    by (apply Nat.ltb_lt; vm_compute; reflexivity).
  assert (H2 : String.length Scenario.smallDiagram <= 997)
    by (apply Nat.leb_le; vm_compute; reflexivity).
  split; [exact H1|]. split; [exact H2|]. split.
  - rewrite (proj2 (proj2 (proj2 (proj2 (proj2
               (size_limits_on_normalized_code Scenario.smallDiagram))))) H1 H2).
    vm_compute. reflexivity.
  - apply (proj1 (proj2 (size_limits_on_normalized_code Scenario.headerlessDiagram))).
    vm_compute. reflexivity.
Defined.

End SizeLimitFacts.
